(* ===== verification/_CoqProject ===== *)
-Q . S2P
Prelude.v
Heap.v
Cmap.v
Channel.v
Ring.v
StaticQueue.v
Chan.v
DynQueue.v
Packet.v
Parsing.v
Rewrite.v
Xdp.v
Veth.v
VethFlow.v
VethOps.v
Kdrivers.v
KxdpNative.v
Kxfrm.v
KxfrmCbc.v
KxfrmGcm.v
TenK.v
TenKServe.v
RcuMap.v
RcuReader.v
RcuList.v
CStr.v
ChrStore.v
Grep.v
FileTools.v
Gpio.v
GpioInit.v
Xsk.v
XskPort.v
Csum.v
XskMain.v
MiscDrv.v
SpinLock.v
Lines.v
Ncat.v
