(* ===== verification/Prelude.v ===== *)
(** * linuxyz: a verification development

    The repository is a collection of programs around Linux: data structures shared by
    threads, kernel modules (network devices, character devices, IPsec and XDP stages),
    XDP programs, an AF_XDP forwarder, socket servers and small text tools. Each
    directory under src/ is a program of its own; they share designs (the device pair
    of kdev-net-veth is the base of four more modules, the vectors of data-vector are
    copied into var-grep) rather than code. The development follows that: this file has
    what all models share, and each group of files below models one family of programs.

    ** How the models read

    Every function of the C code is a Rocq function with the same name where that is
    possible. Integers are [Z] with the conversion to their width written out ([u8] to
    [u64], [s32], [wrap]). A call that can go wrong has type [outcome]: [Ret] is a
    return, [Fault] is behaviour C does not define or that never comes back (a null,
    dangling or unset pointer, an access outside an object, a bad [free], a division by
    zero, a lock nobody releases). Objects in memory are lists with C's bounds
    ([aread], [awrite], [memcpy]) or blocks of a heap ([Heap], [CStr]); freed blocks
    are gone from the heap, so that a theorem that ends with [Ret] and names the final
    heap says what dangles, is freed twice or leaks. The vectors and strings of the
    text tools, arrays included, are such blocks; their structures on the stack
    are values, and so are the buffers of the ESP stages and of the servers.

    Threads are step functions on a shared state, and a theorem about threads holds
    for every reachable state. What one step is depends on the program: an access to
    shared memory in [SpinLock], the readers of [RcuReader] and the drivers of [MiscDrv]
    (where only taking the length of the secret, under its lock, is one step); a piece
    of code between two lock operations in [Channel]; a whole call where the call holds
    a lock around its accesses or publishes with one store ([Cmap], the writer of
    [RcuReader], the operations of [Veth] and of the buffer pool in [Xsk]); one burst
    moved from port to port, with the kernel running during the waits, in [XskPort].
    What the kernel, libbpf, libxdp, the crypto API or the network answers is an argument
    of the model; where a theorem relies on their documented behaviour it says so in a
    named hypothesis and has a witness.

    ** Files and sources

    - [Heap]: linked nodes in a store, the frame rules of a chain.
    - [Cmap]: data-hashmap-concurrent/cmap.c, the map with a mutex per bucket, and the
      test program. A history that sets absent keys and reads or deletes present ones
      refines a finite map, and outside of these preconditions the code leaves its
      memory or has two slots for a key. Every interleaving of the calls of the test's
      threads ends with all values at zero and all slots freed, if the memory of the
      buckets reads as null pointers when it is fresh.
    - [Channel], [Ring], [StaticQueue], [Chan], [DynQueue]: data-queue-concurrent
      (static.c, dynamic.c) and data-queue-channel/chan.c. [Channel] is the protocol of
      the two threads over an interface ([Channel], [FifoLaws]) that the three queues
      implement; the theorems are that no run is stuck and that all items arrive once
      and in order.
    - [Packet], [Parsing], [Rewrite], [Xdp]: dev-net-ebpf-xdp/kernel and
      dev-net-firewall/ebpf-xdp. Parsers and rewriters stay inside the packet for any
      bytes, and do on well-formed packets what their names say; the programs' actions
      are characterised.
    - [Veth], [VethFlow], [VethOps]: kdev-net-veth/kernel, the pair of devices. In NAPI
      mode and for runs of transmissions of at most 1500 bytes on a running queue, polls
      and changes of MTU and configuration: buffers and frames are conserved, no call
      faults or blocks, and all frames are delivered once the polls run. Beyond such runs
      it is not so: a longer frame overflows its buffer ([veth_full_frame_overflows]) and
      taking a device down and up can block for ever ([veth_reopen_deadlocks]).
    - [Kdrivers], [KxdpNative], [Kxfrm], [KxfrmCbc], [KxfrmGcm]: kneigh, kxdp/generic,
      kxdp/native and kxfrm, which add a stage to the device pair. The ESP stages take a
      frame apart and put together the same frame. A forged frame is stopped with
      AES-GCM, unless the allocation of the request fails ([gcm_forged_verdict]); with
      AES-CBC it is sent on ([esp_forged_forwarded]).
    - [TenK], [TenKServe]: var-ten-k, the select, poll and epoll servers and the client
      threads: well-formedness of the tables, what a pass serves, termination of the
      table search and, while the peer has not closed its side, of the read loop. The
      select server overruns its set with descriptors from FD_SETSIZE on.
    - [RcuMap], [RcuReader], [RcuList]: ksync-rcu-cmap and ksync-rcu. The writer's
      operations refine a finite map; with a concurrent reader and callbacks no step
      faults, lookups are linearizable and memory is exact.
    - [CStr], [Grep], [FileTools], [Lines]: data-vector, var-grep, var-wc, var-cat,
      data-hex and data-stream: strings, vectors and whole programs from input to output
      and the heap at the end. What is left there is part of the statements: the block
      of grep's input, and the array of pointers that [VS_delete] does not free.
    - [ChrStore]: kdev-char-storage. [MiscDrv]: kdev-misc, ksync-mutex and ksync-spin,
      the interleavings of readers, writers, opens and closes under each choice of
      locks. [SpinLock]:
      data-sync-spin-atomic, mutual exclusion and an exact counter.
    - [Gpio], [GpioInit]: kdev-gpio-irqsock, frames over two lines, loading and
      unloading of the module.
    - [Xsk], [XskPort], [Csum], [XskMain]: dev-net-ebpf-xdp/xsk, the AF_XDP forwarder:
      the buffer pool with any number of caches (freeing a cache loses the buffers it
      holds), forwarding between two ports with the kernel taking what was submitted,
      the checksum routines against RFC 1071 and a receiver that checks the rewritten
      packet, for IP headers without options, and the assignment of ports to threads.
    - [Ncat]: var-ncat, lines over a connection that divides them as it likes, and the
      text a server loads in a second thread.

    ** What the theorems show

    Refinement: the maps are finite maps, the queues and channels are lists, a read of
    the mutex driver returns the beginning of one secret, at the length of that secret
    or of an earlier one (length and bytes are taken in two critical sections). Safety:
    no fault in any reachable state, for the concurrent map with readers, the static
    and the linked queue and the misc drivers whatever the schedule, for the channel
    when waits end by signals, for the device pair in the runs named above, and for the
    forwarder unless a packet cannot be handled.
    Conservation: buffers, frames, blocks and resources are neither lost nor doubled,
    or exactly the named ones are. Liveness: what was sent arrives, as the existence or the length of a run, and
    loops return. Round trips: frames over GPIO lines, ESP frames, lines over ncat.
    Some theorems are about inputs for which the code leaves its memory, loses data or
    blocks; they state the exact condition and the fault.

    ** Fuel

    Loops that are not structural take a fuel argument and fault with [OutOfFuel] at
    zero; the theorems that give a result show that the fuel passed by the model
    suffices. Walks over chains and lists get the number of allocated nodes plus one,
    which bounds a list without a cycle ([Heap.walk], [Cmap.free_chain],
    [DynQueue.delete_nodes], [RcuMap.find_entry], [RcuMap.delete_bucket],
    [Veth.drain_pool]); loops over input get its length plus one, since every round
    takes a byte ([CStr.strsep_all], [Grep.read_input], [Ncat.client_loop],
    [Ncat.read_body]); [TenK.probe] gets the size of the table and [TenK.read_fuel] the
    size of the buffer; [Csum.fold_fuel] is three, the folds a 32-bit sum needs;
    [Gpio.poll_loop] gets the budget of the poll.

    ** Not modelled

    - 0xetc (Go programs around gRPC, WebRTC and HTTP/3), the TLS, QUIC, DTLS and
      post-quantum programs, data-crypt-*, kcrypt, dev-net-http-request, var-sql and
      the like: sequences of calls into third-party packages. What they compute is not
      code of the repository, and a model would consist of parameters.
    - Shell scripts, configuration, build files and documents (0xadmin, 0xdocs,
      dev-net-vpn-*, kbuild, container and disk set-ups): no code of their own.
    - Demonstrations of one system call, kernel interface or lock (data-fork-*,
      data-signal, kmem-*, kirq-*, kfs-*, ktimer and others): their effect is the
      service they call and a line of output.
    - Programs whose behaviour is that of a device (dev-gpio-rpi, dev-serial-*,
      dev-infrared, dev-sonar).
    - The remaining socket servers and clients (dev-sock-tcp, -udp, -select-tcp,
      -poll-tcp, -epoll-tcp and the threaded ones): an accept and echo loop around
      system calls; var-ten-k and var-ncat are modelled for this kind.
    - kdev-net-eth repeats the design of kdev-net-veth on two fixed devices;
      kdev-net-wlan answers with constants.
    - In the modelled parts: log output, the contents of messages, allocation failure
      where the code does not test for it, and memory orderings weaker than the
      interleaving of the steps (the locks and barriers of the code are taken to
      order its accesses). *)

From Stdlib Require Import ZArith Lia.
From stdpp Require Import base tactics numbers list gmap relations.

#[global] Set Default Goal Selector "!".

(** ** Machine integers

    A [w]-bit unsigned C value is a [Z] in [[0, 2^w)]; conversions to the type
    are written out with [wrap]. *)
Definition wrap (w z : Z) : Z := (z mod 2 ^ w)%Z.

Declare Scope c_scope.
Delimit Scope c_scope with C.
Abbreviation u8 := (wrap 8).
Abbreviation u16 := (wrap 16).
Abbreviation u32 := (wrap 32).
Abbreviation u64 := (wrap 64).

(** Conversion to a 32-bit two's complement [int]. *)
Definition s32 (z : Z) : Z := ((z + 2 ^ 31) mod 2 ^ 32 - 2 ^ 31)%Z.

(** [x] is a value of the [w]-bit unsigned type. *)
Definition fits (w x : Z) : Prop := (0 ≤ x < 2 ^ w)%Z.

#[export] Instance fits_dec w x : Decision (fits w x).
Proof. unfold fits. apply _. Defined.

Create HintDb cdb.
Create Rewrite HintDb cwrap.

Lemma wrap_fits w z : (0 ≤ w)%Z → fits w (wrap w z).
Proof. intros Hw. apply Z.mod_pos_bound, Z.pow_pos_nonneg; lia. Qed.

Lemma wrap_small w z : fits w z → wrap w z = z.
Proof. apply Z.mod_small. Qed.

Lemma wrap_wrap w z : wrap w (wrap w z) = wrap w z.
Proof. apply Zmod_mod. Qed.

Lemma wrap_add_l w x y : wrap w (wrap w x + y) = wrap w (x + y).
Proof. apply Zplus_mod_idemp_l. Qed.

Lemma wrap_add_r w x y : wrap w (x + wrap w y) = wrap w (x + y).
Proof. apply Zplus_mod_idemp_r. Qed.

Lemma wrap_sub_l w x y : wrap w (wrap w x - y) = wrap w (x - y).
Proof. apply Zminus_mod_idemp_l. Qed.

Lemma wrap_eq w z : (0 ≤ w)%Z → wrap w z = (z - 2 ^ w * (z / 2 ^ w))%Z.
Proof. intros. apply Z.mod_eq, Z.pow_nonzero; lia. Qed.

(** Values that differ by a multiple of [2^w] are the same [w]-bit value. *)
Lemma wrap_congr w x y : (∃ q, x = y + q * 2 ^ w)%Z → wrap w x = wrap w y.
Proof.
  intros [q ->]. unfold wrap. destruct (Z.eq_dec (2 ^ w)%Z 0%Z) as [->|].
  - f_equal. lia.
  - by apply Z.mod_add.
Qed.

Lemma s32_small z : (- 2 ^ 31 ≤ z < 2 ^ 31)%Z → s32 z = z.
Proof. intros ?. unfold s32. rewrite Z.mod_small; lia. Qed.

Lemma s32_add a b : (s32 (s32 a + b) = s32 (a + b))%Z.
Proof.
  unfold s32. f_equal. replace ((a + 2 ^ 31) mod 2 ^ 32 - 2 ^ 31 + b + 2 ^ 31)%Z
    with ((a + 2 ^ 31) mod 2 ^ 32 + b)%Z by lia.
  rewrite Zplus_mod_idemp_l. f_equal. lia.
Qed.

#[export] Hint Resolve wrap_fits : cdb.
#[export] Hint Rewrite wrap_wrap wrap_add_l wrap_add_r wrap_sub_l : cwrap.

(** ** Byte sequences

    A byte is a [Z] in [[0, 256)]; memory is little endian, as on the x86 hosts
    the sources are built for. *)
Fixpoint le_bytes (n : nat) (z : Z) : list Z :=
  match n with
  | O => []
  | S n' => (z mod 256)%Z :: le_bytes n' (z / 256)
  end.

Fixpoint le_val (bs : list Z) : Z :=
  match bs with
  | [] => 0
  | b :: bs' => b + 256 * le_val bs'
  end%Z.

Definition bytes (bs : list Z) : Prop := Forall (fits 8) bs.

Lemma length_le_bytes n z : length (le_bytes n z) = n.
Proof. revert z. induction n; intros z; simpl; auto. Qed.

Lemma le_bytes_bytes n z : bytes (le_bytes n z).
Proof.
  revert z. induction n as [|n IH]; intros z; simpl; [constructor|].
  constructor; [|apply IH]. unfold fits. apply Z.mod_pos_bound. lia.
Qed.

Lemma le_val_bounds bs : bytes bs → (0 ≤ le_val bs < 2 ^ (8 * Z.of_nat (length bs)))%Z.
Proof.
  induction 1 as [|b bs Hb _ IH]; [done|]. unfold fits in Hb. cbn [le_val length].
  replace (8 * Z.of_nat (S (length bs)))%Z with (8 + 8 * Z.of_nat (length bs))%Z by lia.
  rewrite Z.pow_add_r by lia. change (2 ^ 8)%Z with 256%Z in *. lia.
Qed.

Lemma le_val_le_bytes n z : le_val (le_bytes n z) = wrap (8 * Z.of_nat n) z.
Proof.
  unfold wrap. revert z. induction n as [|n IH]; intros z; cbn [le_bytes le_val].
  - by rewrite Z.mod_1_r.
  - rewrite IH. replace (8 * Z.of_nat (S n))%Z with (8 + 8 * Z.of_nat n)%Z by lia.
    rewrite Z.pow_add_r, Z.rem_mul_r by lia. done.
Qed.

Lemma le_bytes_le_val bs : bytes bs → le_bytes (length bs) (le_val bs) = bs.
Proof.
  induction 1 as [|b bs Hb _ IH]; [done|]. unfold fits in Hb. cbn [le_val length le_bytes].
  change (2 ^ 8)%Z with 256%Z in *.
  replace (b + 256 * le_val bs)%Z with (b + le_val bs * 256)%Z by lia.
  rewrite Z.mod_add, Z.div_add, Z.mod_small, Z.div_small by lia.
  by rewrite Z.add_0_l, IH.
Qed.

(** ** Outcomes of C code

    [Ret] is a normal return. [Fault] is what the C standard leaves undefined
    or what stops the thread for good: reading through a null or dangling
    pointer, leaving an object's bounds, freeing what is not allocated, reading
    an indeterminate pointer, locking a mutex nobody will release. [OutOfFuel]
    is not a behaviour of the code: it marks a model loop cut short, and the
    theorems show it never shows up at the fuel the definitions use. *)
Inductive fault :=
  | NullDeref
  | Dangling
  | OutOfBounds
  | BadFree
  | Uninit
  | Deadlock
  | DivZero
  | OutOfFuel.

#[export] Instance fault_eq_dec : EqDecision fault.
Proof. solve_decision. Defined.

Inductive outcome (A : Type) :=
  | Ret (a : A)
  | Fault (f : fault).
Arguments Ret {A} a.
Arguments Fault {A} f.

#[export] Instance outcome_eq_dec {A} `{EqDecision A} : EqDecision (outcome A).
Proof. solve_decision. Defined.

#[export] Instance outcome_ret : MRet outcome := fun A a => Ret a.
#[export] Instance outcome_bind : MBind outcome :=
  fun A B k m => match m with Ret a => k a | Fault f => Fault f end.

Lemma outcome_ret_bind {A B} (a : A) (k : A -> outcome B) : mbind k (Ret a) = k a.
Proof. done. Qed.

(** What an option-valued read means in C: [None] is the given fault. *)
Definition or_fault {A} (f : fault) (o : option A) : outcome A :=
  match o with Some a => Ret a | None => Fault f end.

(** [a % b] on unsigned operands. *)
Definition umod (a b : Z) : outcome Z :=
  if (b =? 0)%Z then Fault DivZero else Ret (a mod b)%Z.

(** [a[i]] of an array object. *)
Definition aread {A} (a : list A) (i : Z) : outcome A :=
  if (i <? 0)%Z then Fault OutOfBounds else or_fault OutOfBounds (a !! Z.to_nat i).

Definition awrite {A} (a : list A) (i : Z) (x : A) : outcome (list A) :=
  _ ← aread a i; Ret (<[Z.to_nat i := x]> a).

(** [memcpy(dst, src, n)] between two objects: what [dst] holds after it. *)
Definition memcpy (dst src : list Z) (n : Z) : outcome (list Z) :=
  if decide (0 ≤ n ≤ Z.of_nat (length dst) ∧ n ≤ Z.of_nat (length src))%Z
  then Ret (take (Z.to_nat n) src ++ drop (Z.to_nat n) dst) else Fault OutOfBounds.

Lemma umod_pos a b : (0 < b)%Z → umod a b = Ret (a mod b)%Z.
Proof. intros H. unfold umod. by rewrite (proj2 (Z.eqb_neq b 0)) by lia. Qed.

Lemma aread_Some {A} (a : list A) i x :
  (0 ≤ i)%Z → a !! Z.to_nat i = Some x → aread a i = Ret x.
Proof.
  intros Hi Hx. unfold aread. rewrite (proj2 (Z.ltb_ge i 0)) by lia. by rewrite Hx.
Qed.

Lemma awrite_Some {A} (a : list A) i x y :
  (0 ≤ i)%Z → a !! Z.to_nat i = Some x → awrite a i y = Ret (<[Z.to_nat i := y]> a).
Proof. intros Hi Hx. unfold awrite. by rewrite (aread_Some _ _ _ Hi Hx). Qed.

Lemma aread_past {A} (l : list A) i :
  (Z.of_nat (length l) ≤ i)%Z → aread l i = Fault OutOfBounds.
Proof.
  intros H. unfold aread. destruct (i <? 0)%Z; [done|].
  by rewrite lookup_ge_None_2 by lia.
Qed.

Lemma awrite_past {A} (l : list A) i x :
  (Z.of_nat (length l) ≤ i)%Z → awrite l i x = Fault OutOfBounds.
Proof. intros H. unfold awrite. by rewrite aread_past. Qed.

(** A copy of the whole of two objects of the same size. *)
Lemma memcpy_all dst src n :
  Z.of_nat (length dst) = n → Z.of_nat (length src) = n → memcpy dst src n = Ret src.
Proof.
  intros Hd Hs. unfold memcpy. rewrite decide_True by lia.
  by rewrite take_ge, drop_ge, app_nil_r by lia.
Qed.

(** The element behind a prefix. *)
Lemma awrite_mid {A} (l r : list A) x y i :
  i = Z.of_nat (length l) → awrite (l ++ x :: r) i y = Ret (l ++ y :: r).
Proof.
  intros ->. rewrite (awrite_Some _ _ x y); [|lia|by rewrite Nat2Z.id, list_lookup_middle].
  by rewrite Nat2Z.id, insert_app_r_alt, Nat.sub_diag by lia.
Qed.

Lemma aread_mid {A} (l r : list A) x i :
  i = Z.of_nat (length l) → aread (l ++ x :: r) i = Ret x.
Proof.
  intros ->. apply aread_Some; [lia|]. by rewrite Nat2Z.id, list_lookup_middle.
Qed.

Lemma snoc_app {A} (l r : list A) x : l ++ x :: r = (l ++ [x]) ++ r.
Proof. by rewrite <-app_assoc. Qed.

Lemma memcpy_run dst src n :
  (0 ≤ n ≤ Z.of_nat (length dst))%Z → (n ≤ Z.of_nat (length src))%Z →
  memcpy dst src n = Ret (take (Z.to_nat n) src ++ drop (Z.to_nat n) dst).
Proof. intros Hd Hs. unfold memcpy. by rewrite decide_True by lia. Qed.

#[global] Arguments umod : simpl never.
#[global] Arguments aread : simpl never.
#[global] Arguments awrite : simpl never.
#[global] Arguments memcpy : simpl never.

(** Computations that read and write a store of type [S]. *)
Definition CM (S A : Type) : Type := S -> outcome (A * S).

#[export] Instance cm_ret S : MRet (CM S) := fun A a s => Ret (a, s).
#[export] Instance cm_bind S : MBind (CM S) :=
  fun A B k m s => match m s with Ret (a, s') => k a s' | Fault f => Fault f end.

Section CM.
Context {S : Type}.

Definition get_state : CM S S := fun s => Ret (s, s).
Definition put_state (s : S) : CM S unit := fun _ => Ret (tt, s).
Definition modify (f : S -> S) : CM S unit := fun s => Ret (tt, f s).
Definition fails {A} (f : fault) : CM S A := fun _ => Fault f.
Definition lift_outcome {A} (m : outcome A) : CM S A :=
  fun s => match m with Ret a => Ret (a, s) | Fault f => Fault f end.
Definition when (b : bool) (m : CM S unit) : CM S unit :=
  if b then m else mret tt.

Lemma cm_bind_ret {A B} (m : CM S A) (k : A -> CM S B) s a s' :
  m s = Ret (a, s') -> mbind k m s = k a s'.
Proof. intros H. unfold mbind, cm_bind. by rewrite H. Qed.

Lemma cm_bind_fault {A B} (m : CM S A) (k : A -> CM S B) s f :
  m s = Fault f -> mbind k m s = Fault f.
Proof. intros H. unfold mbind, cm_bind. by rewrite H. Qed.

Lemma cm_bind_inv {A B} (m : CM S A) (k : A -> CM S B) s b s'' :
  mbind k m s = Ret (b, s'') ->
  exists a s', m s = Ret (a, s') /\ k a s' = Ret (b, s'').
Proof. unfold mbind, cm_bind. destruct (m s) as [[a s']|]; naive_solver. Qed.

Lemma cm_bind_assoc {A B D} (m : CM S A) (k : A -> CM S B) (j : B -> CM S D) s :
  mbind j (mbind k m) s = mbind (fun a => mbind j (k a)) m s.
Proof. unfold mbind, cm_bind. by destruct (m s) as [[]|]. Qed.
End CM.

(** Runs the binds of a [CM] computation whose steps compute. *)
Ltac cm_simpl :=
  repeat (cbn [mbind mret cm_bind cm_ret outcome_bind outcome_ret get_state
    put_state modify fails lift_outcome when or_fault fst snd] in * ||
    unfold mbind, mret, cm_bind, cm_ret, outcome_bind, outcome_ret, get_state,
      put_state, modify, fails, lift_outcome, when, or_fault in * ).
