(* ===== verification/Heap.v ===== *)
(** * A store of linked nodes

    The pointer structures of the sources ([cmap.c], [dynamic.c], the packet
    pools of the network drivers) are nodes that a [next] field links. The
    store maps the allocated locations to their nodes, a pointer is [None] for
    [NULL], and every access goes through [hread], so that a null, dangling or
    doubly freed pointer shows up as a fault. [chain h p l] is the
    representation predicate: from [p], the [next] fields visit the locations
    and nodes of [l] and end in [NULL]. The lemmas are the frame rules the
    components use: what an update of one node does to the chains it is on and
    to those it is not on. *)

From stdpp Require Import base tactics numbers list gmap infinite fin_sets.
From S2P Require Import Prelude.

Abbreviation loc := positive.
Abbreviation ptr := (option positive).

(** A node type with a [next] field. *)
Class Linked (N : Type) := {
  lnext : N -> ptr;
  set_lnext : ptr -> N -> N;
  lnext_set : forall p n, lnext (set_lnext p n) = p;
}.

Section heap.
Context {N : Type}.
Implicit Types (h : gmap loc N) (p : ptr) (x y : loc) (n : N).

(** [*p] for a pointer to a node. *)
Definition hread h p : outcome N :=
  match p with
  | None => Fault NullDeref
  | Some x => or_fault Dangling (h !! x)
  end.

(** Assigning through a pointer. *)
Definition hwrite h p n : outcome (gmap loc N) :=
  _ ← hread h p;
  match p with None => Fault NullDeref | Some x => Ret (<[x:=n]> h) end.

(** [free(p)]: nothing for [NULL], a fault unless [p] is allocated. *)
Definition hfree h p : outcome (gmap loc N) :=
  match p with
  | None => Ret h
  | Some x => match h !! x with Some _ => Ret (delete x h) | None => Fault BadFree end
  end.

(** The location the next successful [malloc] returns. *)
Definition hfresh h : loc := fresh (dom h : gset loc).

Lemma hfresh_spec h : h !! hfresh h = None.
Proof.
  pose proof (is_fresh (dom h : gset loc)) as H.
  by apply (not_elem_of_dom (D:=gset loc)) in H.
Qed.

Lemma hread_Some h x n : h !! x = Some n → hread h (Some x) = Ret n.
Proof. intros H. simpl. by rewrite H. Qed.

Lemma hwrite_Some h x n n' : h !! x = Some n → hwrite h (Some x) n' = Ret (<[x:=n']> h).
Proof. intros H. unfold hwrite. by rewrite (hread_Some _ _ _ H). Qed.

Lemma hfree_Some h x n : h !! x = Some n → hfree h (Some x) = Ret (delete x h).
Proof. intros H. simpl. by rewrite H. Qed.
End heap.

#[export] Hint Resolve hfresh_spec : cdb.

Section chain.
Context {N : Type} `{!Linked N}.
Implicit Types (h : gmap loc N) (p : ptr) (x y : loc) (n : N) (l : list (loc * N)).

Fixpoint chain h p l : Prop :=
  match l with
  | [] => p = None
  | (x, n) :: l' => p = Some x ∧ h !! x = Some n ∧ chain h (lnext n) l'
  end.

Lemma chain_det h p l l' : chain h p l → chain h p l' → l = l'.
Proof.
  revert p l'. induction l as [|[x n] l IH]; intros p [|[y m] l'] Hl Hl'; simpl in *.
  - done.
  - by destruct Hl' as (-> & _).
  - by destruct Hl as (-> & _).
  - destruct Hl as (-> & Hx & Hl), Hl' as (? & Hy & Hl'). simplify_eq.
    f_equal. by eapply IH.
Qed.

(** Every position of a chain is a chain of its own. *)
Lemma chain_suffix h p l1 x n l2 :
  chain h p (l1 ++ (x, n) :: l2) → chain h (Some x) ((x, n) :: l2).
Proof.
  revert p. induction l1 as [|[y m] l1 IH]; intros p; simpl.
  - by intros (-> & ?).
  - intros (_ & _ & H). by eapply IH.
Qed.

Lemma chain_lookup h p l1 x n l2 : chain h p (l1 ++ (x, n) :: l2) → h !! x = Some n.
Proof. intros H%chain_suffix. apply H. Qed.

Lemma chain_elem h p l x n : chain h p l → (x, n) ∈ l → h !! x = Some n.
Proof. intros H (l1 & l2 & ->)%list_elem_of_split. eauto using chain_lookup. Qed.

(** A chain that ends cannot come back to a node: the suffix from it would be
    its own proper suffix. *)
Lemma chain_NoDup h p l : chain h p l → NoDup l.*1.
Proof.
  revert p. induction l as [|[x n] l IH]; intros p H; [constructor|].
  destruct H as (-> & Hx & Hl). constructor; [|by eapply IH].
  intros ([x' m] & Hx' & (l1 & l2 & ->)%list_elem_of_split)%list_elem_of_fmap.
  simpl in Hx'. subst x'.
  pose proof (chain_suffix _ _ _ _ _ _ Hl) as Hs.
  assert (chain h (Some x) ((x, n) :: l1 ++ (x, m) :: l2)) as Hw by done.
  apply (chain_det _ _ _ _ Hs) in Hw. apply (f_equal length) in Hw.
  simpl in Hw. rewrite length_app in Hw. simpl in Hw. lia.
Qed.

Lemma chain_length h p l : chain h p l → length l ≤ size h.
Proof.
  intros H. rewrite <-(length_fmap fst). rewrite <-size_dom.
  rewrite <-(size_list_to_set (C:=gset loc) (l.*1)) by by eapply chain_NoDup.
  apply subseteq_size. intros x ([y n] & Hy & Hx)%elem_of_list_to_set%list_elem_of_fmap.
  simpl in Hy. subst y. apply elem_of_dom_2 with n. by eapply chain_elem.
Qed.

(** Frame rules: stores to locations off the chain do not change it. *)
Lemma chain_frame h h' p l :
  (∀ x, x ∈ l.*1 → h' !! x = h !! x) → chain h p l → chain h' p l.
Proof.
  revert p. induction l as [|[y m] l IH]; intros p Hx; [done|].
  simpl. intros (-> & Hy & Hl). split_and!; [done| |apply IH; [|done]].
  - rewrite Hx; [done|]. apply list_elem_of_here.
  - intros x ?. apply Hx. by apply list_elem_of_further.
Qed.

Lemma chain_insert_notin h p l x n :
  x ∉ l.*1 → chain h p l → chain (<[x:=n]> h) p l.
Proof.
  revert p. induction l as [|[y m] l IH]; intros p Hx; [done|].
  apply not_elem_of_cons in Hx as [Hxy Hx]. simpl in *.
  intros (-> & Hy & Hl). split_and!; [done| |by apply IH].
  by rewrite lookup_insert_ne.
Qed.

Lemma chain_delete_notin h p l x :
  x ∉ l.*1 → chain h p l → chain (delete x h) p l.
Proof.
  revert p. induction l as [|[y m] l IH]; intros p Hx; [done|].
  apply not_elem_of_cons in Hx as [Hxy Hx]. simpl in *.
  intros (-> & Hy & Hl). split_and!; [done| |by apply IH].
  by rewrite lookup_delete_ne.
Qed.

Lemma chain_fresh_notin h p l : chain h p l → hfresh h ∉ l.*1.
Proof.
  intros Hc ([y m] & Hy & Hin)%list_elem_of_fmap. simpl in *.
  pose proof (chain_elem _ _ _ _ _ Hc Hin) as E. rewrite <-Hy, hfresh_spec in E. done.
Qed.

(** Allocating a node off every chain. *)
Lemma chain_alloc h p l n : chain h p l → chain (<[hfresh h:=n]> h) p l.
Proof. intros. apply chain_insert_notin; eauto using chain_fresh_notin. Qed.

(** Overwriting a node of the chain but its link. *)
Lemma chain_update h p l1 x n n' l2 :
  lnext n' = lnext n →
  chain h p (l1 ++ (x, n) :: l2) → chain (<[x:=n']> h) p (l1 ++ (x, n') :: l2).
Proof.
  intros Hn H. pose proof (chain_NoDup _ _ _ H) as Hnd. revert p H Hnd.
  induction l1 as [|[y m] l1 IH]; intros p H Hnd; simpl in *.
  - apply NoDup_cons in Hnd as [Hnd _]. destruct H as (-> & _ & H).
    split_and!; [done|by rewrite lookup_insert_eq|].
    rewrite Hn. by apply chain_insert_notin.
  - apply NoDup_cons in Hnd as [Hy Hnd]. destruct H as (-> & Hy' & H).
    split_and!; [done| |by apply IH].
    rewrite lookup_insert_ne; [done|]. intros ->.
    apply Hy. rewrite fmap_app. set_solver.
Qed.

(** The loop [for (p = head; p; p = p->next) if (f(p)) break;]. *)
Fixpoint walk (f : N -> bool) (fuel : nat) h p : outcome (option loc) :=
  match fuel with
  | O => Fault OutOfFuel
  | S fuel =>
    match p with
    | None => Ret None
    | Some x =>
      n ← hread h (Some x);
      if f n then Ret (Some x) else walk f fuel h (lnext n)
    end
  end.

(** First location of a list whose node satisfies the test. *)
Fixpoint first_loc (f : N -> bool) l : option loc :=
  match l with
  | [] => None
  | (x, n) :: l' => if f n then Some x else first_loc f l'
  end.

Lemma walk_chain f fuel h p l :
  chain h p l → length l < fuel → walk f fuel h p = Ret (first_loc f l).
Proof.
  revert fuel p. induction l as [|[x n] l IH]; intros [|fuel] p; simpl;
    try (intros; lia).
  - by intros -> _.
  - intros (-> & Hx & Hl) Hf. rewrite Hx. simpl.
    unfold mbind, outcome_bind. destruct (f n); [done|]. apply IH; [done|lia].
Qed.

(** The fuel the definitions use: one step per allocated node and one for the
    final [NULL]. *)
Lemma walk_heap f h p l :
  chain h p l → walk f (S (size h)) h p = Ret (first_loc f l).
Proof. intros Hl. apply walk_chain; [done|]. apply chain_length in Hl. lia. Qed.

Lemma first_loc_Some f l x :
  first_loc f l = Some x →
  ∃ l1 n l2, l = l1 ++ (x, n) :: l2 ∧ f n = true ∧ Forall (λ xn, f xn.2 = false) l1.
Proof.
  induction l as [|[y m] l IH]; simpl; [done|]. destruct (f m) eqn:E.
  - intros [= ->]. by exists [], m, l.
  - intros (l1 & n & l2 & -> & Hn & Hl1)%IH. exists ((y, m) :: l1), n, l2. eauto.
Qed.

Lemma first_loc_None f l : first_loc f l = None ↔ Forall (λ xn, f xn.2 = false) l.
Proof.
  induction l as [|[y m] l IH]; simpl; [by split|].
  rewrite Forall_cons. simpl. destruct (f m); [|tauto].
  split; [done|]. by intros [? _].
Qed.
End chain.

#[export] Hint Resolve chain_alloc chain_insert_notin chain_delete_notin : cdb.
#[global] Arguments walk : simpl never.
#[global] Arguments hread : simpl never.
#[global] Arguments hfree : simpl never.
