(* ===== verification/Cmap.v ===== *)
(** * data-hashmap-concurrent: the bucketed hash map of cmap.c

    A map is an array of buckets; a bucket is a chain of slots, each free or in
    use, behind its own mutex. [cmap_set] fills the first free slot of the
    bucket or pushes a new one, [cmap_get] calls back on the slot in use with
    the key, [cmap_del] clears it in place. The model keeps the slots in the
    store of [Heap], the buckets as an array indexed with C's bounds, and the
    mutexes as flags: locking a held one never returns. Library facts the model
    relies on: [malloc] succeeds, and the content of fresh memory is an
    argument ([cmap_alloc]'s [garbage]). A call is one step of its thread: it holds the
    mutex of its bucket around all its accesses to it.

    The calls check neither that a key to read or delete is there nor that one to set
    is not; the refinement of a finite map is for histories that do, and says what the
    code does otherwise. *)

From Stdlib Require Import ZArith Lia.
From stdpp Require Import base tactics numbers list gmap.
From S2P Require Import Prelude Heap.
Local Open Scope Z_scope.

Record BOGUS_DATA := mkData {
  index : Z;
  value : Z;
  in_use : Z;
  next : ptr;
}.

Record BOGUS_BUCKET := mkBucket {
  data : ptr;
  lock : bool;
}.

(** [heap] holds the [BOGUS_DATA] objects the buckets point to. *)
Record BOGUS_CMAP := mkCmap {
  heap : gmap loc BOGUS_DATA;
  buck : list BOGUS_BUCKET;
  buck_size : Z;
}.

#[export] Instance data_linked : Linked BOGUS_DATA := {
  lnext := next;
  set_lnext p n := mkData (index n) (value n) (in_use n) p;
  lnext_set p n := eq_refl;
}.

Definition FNV1_64_INIT : Z := 0xcbf29ce484222325.

(** One octet of the FNV loop: the multiplication as shifts and additions of
    64-bit values, then the xor. *)
Definition fnv_round (hval b : Z) : Z :=
  let hval :=
    u64 (hval + (u64 (Z.shiftl hval 1) + u64 (Z.shiftl hval 4) + u64 (Z.shiftl hval 5) +
                 u64 (Z.shiftl hval 7) + u64 (Z.shiftl hval 8) + u64 (Z.shiftl hval 40))) in
  Z.lxor hval b.

Definition _hashfunc (bs : list Z) (div : Z) : Z :=
  foldl fnv_round FNV1_64_INIT bs mod div.

(** [int idx = _hashfunc((void* )val, sizeof(BOGUS_KEY), cm->buck_size)]: the key
    is the 8 octets of [index]. *)
Definition bucket_of (cm : BOGUS_CMAP) (idx : Z) : Z :=
  s32 (_hashfunc (le_bytes 8 idx) (u64 (buck_size cm))).

(** [cm->buck[idx]] with its bounds. *)
Definition bucket_at (cm : BOGUS_CMAP) (idx : Z) : outcome BOGUS_BUCKET :=
  if idx <? 0 then Fault OutOfBounds
  else or_fault OutOfBounds (buck cm !! Z.to_nat idx).

Definition set_bucket (cm : BOGUS_CMAP) (idx : Z) (b : BOGUS_BUCKET) : BOGUS_CMAP :=
  mkCmap (heap cm) (<[Z.to_nat idx := b]> (buck cm)) (buck_size cm).

Definition set_heap (cm : BOGUS_CMAP) (h : gmap loc BOGUS_DATA) : BOGUS_CMAP :=
  mkCmap h (buck cm) (buck_size cm).

(** [pthread_mutex_lock]/[unlock] on [&cm->buck[idx].lock]. *)
Definition lock_bucket (cm : BOGUS_CMAP) (idx : Z) : outcome BOGUS_CMAP :=
  b ← bucket_at cm idx;
  if lock b then Fault Deadlock else Ret (set_bucket cm idx (mkBucket (data b) true)).

Definition unlock_bucket (cm : BOGUS_CMAP) (idx : Z) : outcome BOGUS_CMAP :=
  b ← bucket_at cm idx;
  Ret (set_bucket cm idx (mkBucket (data b) false)).

Definition is_free (n : BOGUS_DATA) : bool := in_use n =? 0.

(** The tests of the search loops, in their order: skip what is not in use,
    stop at the key. *)
Definition is_key (k : Z) (n : BOGUS_DATA) : bool :=
  if is_free n then false else index n =? k.

(** The inner loop of [cmap_alloc]: [n] zeroed objects pushed on a bucket. *)
Fixpoint alloc_slots (n : nat) (h : gmap loc BOGUS_DATA) (d : ptr) : gmap loc BOGUS_DATA * ptr :=
  match n with
  | O => (h, d)
  | S n' =>
    let l := hfresh h in
    alloc_slots n' (<[l := mkData 0 0 0 d]> h) (Some l)
  end.

(** The outer loop: [garbage i] is what the unwritten [buck[i].data] holds. *)
Fixpoint alloc_buckets (garbage : nat -> ptr) (data_size : nat) (i n : nat)
    (h : gmap loc BOGUS_DATA) : gmap loc BOGUS_DATA * list BOGUS_BUCKET :=
  match n with
  | O => (h, [])
  | S n' =>
    let '(h, d) := alloc_slots data_size h (garbage i) in
    let '(h, bs) := alloc_buckets garbage data_size (S i) n' h in
    (h, mkBucket d false :: bs)
  end.

Definition cmap_alloc (garbage : nat -> ptr) (bsize dsize : Z) : BOGUS_CMAP :=
  let '(h, bs) := alloc_buckets garbage (Z.to_nat dsize) 0 (Z.to_nat bsize) ∅ in
  mkCmap h bs bsize.

Definition cmap_set (cm : BOGUS_CMAP) (val : BOGUS_DATA) : outcome (Z * BOGUS_CMAP) :=
  let idx := bucket_of cm (index val) in
  cm ← lock_bucket cm idx;
  b ← bucket_at cm idx;
  slot ← walk is_free (S (size (heap cm))) (heap cm) (data b);
  cm ← match slot with
       | None =>
         let newdata := hfresh (heap cm) in
         let n := mkData (index val) (value val) 1 (data b) in
         Ret (set_bucket (set_heap cm (<[newdata := n]> (heap cm))) idx
                (mkBucket (Some newdata) (lock b)))
       | Some p =>
         n ← hread (heap cm) (Some p);
         Ret (set_heap cm (<[p := mkData (index val) (value val) 1 (next n)]> (heap cm)))
       end;
  cm ← unlock_bucket cm idx;
  Ret (idx, cm).

(** [ret = NULL] or [cb = NULL] is [None]. The callback gets what [ret] points
    to and the slot, and may write both. *)
Definition cmap_get {R : Type} (cm : BOGUS_CMAP) (key : Z)
    (rcb : option (R * (R -> BOGUS_DATA -> R * BOGUS_DATA)))
    : outcome (Z * option R * BOGUS_CMAP) :=
  let idx := bucket_of cm key in
  cm ← lock_bucket cm idx;
  b ← bucket_at cm idx;
  slot ← walk (is_key key) (S (size (heap cm))) (heap cm) (data b);
  match slot with
  | None =>
    let idx := -1 in
    cm ← unlock_bucket cm idx;
    Ret (idx, fst <$> rcb, cm)
  | Some p =>
    n ← hread (heap cm) (Some p);
    let '(r, cm) :=
      match rcb with
      | Some (r, cb) =>
        let '(r', n') := cb r n in (Some r', set_heap cm (<[p := n']> (heap cm)))
      | None => (None, cm)
      end in
    cm ← unlock_bucket cm idx;
    Ret (idx, r, cm)
  end.

Definition cmap_del (cm : BOGUS_CMAP) (key : Z) : outcome (Z * BOGUS_CMAP) :=
  let idx := bucket_of cm key in
  cm ← lock_bucket cm idx;
  b ← bucket_at cm idx;
  slot ← walk (is_key key) (S (size (heap cm))) (heap cm) (data b);
  match slot with
  | None =>
    let idx := -1 in
    cm ← unlock_bucket cm idx;
    Ret (idx, cm)
  | Some p =>
    n ← hread (heap cm) (Some p);
    let cm := set_heap cm (<[p := mkData 0 0 0 (next n)]> (heap cm)) in
    cm ← unlock_bucket cm idx;
    Ret (idx, cm)
  end.

(** The loop of [cmap_free] over one bucket: the next object is read before
    its predecessor is freed. *)
Fixpoint free_chain (fuel : nat) (h : gmap loc BOGUS_DATA) (d : ptr)
    : outcome (gmap loc BOGUS_DATA) :=
  match fuel with
  | O => Fault OutOfFuel
  | S fuel =>
    match d with
    | None => Ret h
    | Some p =>
      n ← hread h (Some p);
      h ← hfree h (Some p);
      free_chain fuel h (next n)
    end
  end.

Fixpoint free_buckets (h : gmap loc BOGUS_DATA) (bs : list BOGUS_BUCKET)
    : outcome (gmap loc BOGUS_DATA) :=
  match bs with
  | [] => Ret h
  | b :: bs =>
    if lock b then Fault Deadlock
    else h ← free_chain (S (size h)) h (data b); free_buckets h bs
  end.

(** The store that remains once the map, its buckets and its slots are freed. *)
Definition cmap_free (cm : BOGUS_CMAP) : outcome (gmap loc BOGUS_DATA) :=
  free_buckets (heap cm) (take (Z.to_nat (buck_size cm)) (buck cm)).

Definition _inc_func (ret : unit) (result : BOGUS_DATA) : unit * BOGUS_DATA :=
  (ret, mkData (index result) (u64 (value result + index result)) (in_use result) (next result)).

Definition _dec_func (ret : unit) (result : BOGUS_DATA) : unit * BOGUS_DATA :=
  (ret, mkData (index result) (u64 (value result - index result)) (in_use result) (next result)).

(** The calls of the two kinds of thread, [cmap_get] with [_inc_func] and with
    [_dec_func], and a thread's loop as the calls it still has to make. *)
Inductive call := Inc (key : Z) | Dec (key : Z).

Definition run_call (cm : BOGUS_CMAP) (c : call) : outcome (Z * BOGUS_CMAP) :=
  '(idx, _, cm) ← match c with
                  | Inc key => cmap_get cm key (Some (tt, _inc_func))
                  | Dec key => cmap_get cm key (Some (tt, _dec_func))
                  end;
  Ret (idx, cm).

Definition increase_thread (total : nat) : list call := (λ i, Inc (Z.of_nat i)) <$> seq 0 total.
Definition decrease_thread (total : nat) : list call := (λ i, Dec (Z.of_nat i)) <$> seq 0 total.

(** The threads of [main], in the order it creates them. *)
Definition threads (total nthreads : nat) : list (list call) :=
  concat (replicate nthreads [increase_thread total; decrease_thread total]).

(** One call of one thread. The bucket's mutex is held from the search to the
    return, so calls on one bucket do not interleave; a thread whose call
    returns a negative number leaves its loop. *)
Inductive thread_step : BOGUS_CMAP * list (list call) -> BOGUS_CMAP * list (list call) -> Prop :=
  | step_call i c rest cm pool idx cm' :
    pool !! i = Some (c :: rest) → run_call cm c = Ret (idx, cm') →
    thread_step (cm, pool) (cm', <[i := if idx <? 0 then [] else rest]> pool).

(** The loop of [main] that inserts the keys [i..i+n-1]; [false] is its
    [goto done]. *)
Fixpoint insert_keys (n : nat) (i : Z) (cm : BOGUS_CMAP) : outcome (bool * BOGUS_CMAP) :=
  match n with
  | O => Ret (true, cm)
  | S n =>
    '(idx, cm) ← cmap_set cm (mkData i 0 0 None);
    if idx <? 0 then Ret (false, cm) else insert_keys n (i + 1) cm
  end.

(** The last loop of [main]: whether every slot of every bucket holds 0. *)
Fixpoint check_buckets (h : gmap loc BOGUS_DATA) (bs : list BOGUS_BUCKET) : outcome bool :=
  match bs with
  | [] => Ret true
  | b :: bs =>
    bad ← walk (λ n, negb (value n =? 0)) (S (size h)) h (data b);
    match bad with Some _ => Ret false | None => check_buckets h bs end
  end.

Definition check_values (cm : BOGUS_CMAP) : outcome bool :=
  check_buckets (heap cm) (take (Z.to_nat (buck_size cm)) (buck cm)).

(** ** The hash *)

(** [FNV_64_PRIME], the factor the source's disabled branch multiplies with. *)
Definition FNV_64_PRIME : Z := 0x100000001b3.

(** The shift-and-add round of [_hashfunc] is the multiplication by the FNV
    prime modulo 2^64, then the xor with the octet. *)
Theorem fnv_round_is_mul (hval b : Z) :
  fnv_round hval b = Z.lxor (u64 (hval * FNV_64_PRIME)) b.
Proof.
  unfold fnv_round. f_equal. rewrite !Z.shiftl_mul_pow2 by lia.
  apply wrap_congr. rewrite !wrap_eq by lia. unfold FNV_64_PRIME.
  eexists. ring_simplify.
  instantiate (1 := - (hval * 2 ^ 1 / 2 ^ 64) - (hval * 2 ^ 4 / 2 ^ 64) -
    (hval * 2 ^ 5 / 2 ^ 64) - (hval * 2 ^ 7 / 2 ^ 64) - (hval * 2 ^ 8 / 2 ^ 64) -
    (hval * 2 ^ 40 / 2 ^ 64)).
  ring.
Qed.

Lemma bucket_of_range cm k :
  0 < buck_size cm < 2 ^ 31 → 0 ≤ bucket_of cm k < buck_size cm.
Proof.
  intros H. unfold bucket_of, _hashfunc. rewrite (wrap_small 64) by (unfold fits; lia).
  pose proof (Z.mod_pos_bound (foldl fnv_round FNV1_64_INIT (le_bytes 8 k)) (buck_size cm)).
  rewrite s32_small; lia.
Qed.

Lemma bucket_of_size cm cm' k : buck_size cm' = buck_size cm → bucket_of cm' k = bucket_of cm k.
Proof. unfold bucket_of. by intros ->. Qed.

(** No proof below looks into the hash; comparing terms must not try either. *)
#[global] Opaque bucket_of.

(** The index of a key's bucket in the array. *)
Abbreviation slot_of cm k := (Z.to_nat (bucket_of cm k)).

(** ** Representation *)

(** [rep cm ls]: bucket [i] is unlocked and its chain is [ls !! i]; no slot is
    on two chains and every slot is on one; a free slot holds the value 0. *)
Record rep (cm : BOGUS_CMAP) (ls : list (list (loc * BOGUS_DATA))) : Prop := {
  rep_size : 0 < buck_size cm < 2 ^ 31;
  rep_buck : length (buck cm) = Z.to_nat (buck_size cm);
  rep_len : length ls = length (buck cm);
  rep_unlocked : ∀ i b, buck cm !! i = Some b → lock b = false;
  rep_chain : ∀ i b l, buck cm !! i = Some b → ls !! i = Some l →
    chain (heap cm) (data b) l;
  rep_disj : ∀ i j l l' x, ls !! i = Some l → ls !! j = Some l' →
    x ∈ l.*1 → x ∈ l'.*1 → i = j;
  rep_owned : ∀ x, is_Some (heap cm !! x) → ∃ i l, ls !! i = Some l ∧ x ∈ l.*1;
  rep_zero : ∀ i l x n, ls !! i = Some l → (x, n) ∈ l → is_free n = true → value n = 0;
}.

(** The entries of a chain: what its slots in use hold. *)
Definition entry_of (n : BOGUS_DATA) : list (Z * Z) :=
  if is_free n then [] else [(index n, value n)].

Definition live (l : list (loc * BOGUS_DATA)) : list (Z * Z) :=
  l ≫= λ xn, entry_of xn.2.

(** What the map promises its callers: it holds the finite map [m]. *)
Definition models (cm : BOGUS_CMAP) (m : gmap Z Z) : Prop :=
  ∃ ls, rep cm ls ∧
    (∀ i l, ls !! i = Some l → NoDup (live l).*1) ∧
    (∀ i l k v, ls !! i = Some l → (k, v) ∈ live l → slot_of cm k = i) ∧
    (∀ k v, m !! k = Some v ↔ ∃ l, ls !! slot_of cm k = Some l ∧ (k, v) ∈ live l).

Lemma live_app l1 l2 : live (l1 ++ l2) = live l1 ++ live l2.
Proof. apply bind_app. Qed.

Lemma live_middle l1 x n l2 :
  live (l1 ++ (x, n) :: l2) ≡ₚ entry_of n ++ live (l1 ++ l2).
Proof.
  rewrite !live_app. change (live ((x, n) :: l2)) with (entry_of n ++ live l2).
  by rewrite Permutation_app_swap_app.
Qed.

Lemma rep_lookup cm ls k :
  rep cm ls → ∃ b l, buck cm !! slot_of cm k = Some b ∧ ls !! slot_of cm k = Some l ∧
    chain (heap cm) (data b) l ∧ lock b = false.
Proof.
  intros [Hs Hb Hl Hu Hc _ _ _]. pose proof (bucket_of_range cm k Hs).
  destruct (lookup_lt_is_Some_2 (buck cm) (slot_of cm k)) as [b E1];
    [lia|].
  destruct (lookup_lt_is_Some_2 ls (slot_of cm k)) as [l E2]; [lia|].
  exists b, l. split_and!; [done|done|by eapply Hc|by eapply Hu].
Qed.

Lemma rep_slot cm ls k :
  rep cm ls → 0 ≤ bucket_of cm k ∧ (Z.to_nat (bucket_of cm k) < length (buck cm))%nat.
Proof.
  intros Hr. pose proof (bucket_of_range cm k (rep_size _ _ Hr)).
  rewrite (rep_buck _ _ Hr). lia.
Qed.

(** The memory determines the chains. *)
Lemma rep_det cm ls ls' : rep cm ls → rep cm ls' → ls = ls'.
Proof.
  intros Hr Hr'. assert (length ls = length ls') as Hlen by (by rewrite (rep_len _ _ Hr), (rep_len _ _ Hr')).
  apply (list_eq_same_length _ _ _ eq_refl); [done|]. intros i l l' Hi Hl Hl'.
  destruct (lookup_lt_is_Some_2 (buck cm) i) as [b Hb]; [rewrite <-(rep_len _ _ Hr'); lia|].
  by eapply chain_det; [eapply (rep_chain _ _ Hr)|eapply (rep_chain _ _ Hr')].
Qed.

(** One bucket changes: its chain becomes [l'], which uses the old slots and
    fresh ones, and no other slot is written. *)
Lemma rep_update cm ls idx b l h' d' l' :
  rep cm ls → buck cm !! Z.to_nat idx = Some b → ls !! Z.to_nat idx = Some l →
  chain h' d' l' →
  (∀ x, x ∈ l'.*1 → x ∈ l.*1 ∨ heap cm !! x = None) →
  (∀ x, x ∉ l.*1 → is_Some (heap cm !! x) → h' !! x = heap cm !! x) →
  (∀ x, is_Some (h' !! x) → x ∈ l'.*1 ∨ (x ∉ l.*1) ∧ is_Some (heap cm !! x)) →
  (∀ x n, (x, n) ∈ l' → is_free n = true → value n = 0) →
  rep (set_bucket (set_heap cm h') idx (mkBucket d' false)) (<[Z.to_nat idx := l']> ls).
Proof.
  unfold set_bucket, set_heap. cbn [heap buck buck_size].
  generalize (Z.to_nat idx). intros i.
  intros [Hs Hb Hl Hu Hc Hd Ho Hz] Ei El Hl' Hsub Hfr Hown Hzero.
  assert (Hoff : ∀ j lj x, ls !! j = Some lj → x ∈ lj.*1 → (i ≠ j) →
    (x ∉ l.*1) ∧ is_Some (heap cm !! x)).
  { intros j lj x Hj Hx Hij. split; [intros ?; apply Hij; by eapply Hd|].
    apply list_elem_of_fmap in Hx as ([y n] & -> & Hx).
    destruct (lookup_lt_is_Some_2 (buck cm) j) as [bj Ej];
      [rewrite <-Hl; by eapply lookup_lt_Some|].
    exists n. eapply chain_elem; [by eapply Hc|done]. }
  split; simpl; rewrite ?length_insert; try done.
  - intros j bj. rewrite list_lookup_insert. case_decide; [|by eapply Hu].
    intros [= <-]. done.
  - intros j bj lj. rewrite !list_lookup_insert. rewrite Hl.
    case_decide as E; [intros [= <-] [= <-]; done|].
    intros Hj Hlj. assert (i ≠ j) as Hij.
    { intros ->. apply E. split; [done|]. by eapply lookup_lt_Some. }
    eapply chain_frame; [|by eapply Hc].
    intros x Hx. destruct (Hoff j lj x); auto.
  - assert (Hx1 : ∀ j lj x, ls !! j = Some lj → x ∈ lj.*1 → x ∈ l'.*1 → i = j).
    { intros j lj x Hj Hx Hx'. destruct (decide (i = j)) as [|Hij]; [done|].
      destruct (Hoff j lj x) as [? [??]]; [done..|].
      destruct (Hsub x Hx'); [done|congruence]. }
    intros j1 j2 lj1 lj2 x H1 H2. rewrite list_lookup_insert in H1, H2.
    do 2 case_decide; simplify_eq; destruct_and?; simplify_eq; eauto.
    intros. symmetry. eauto.
  - pose proof (lookup_lt_Some _ _ _ El). intros x [Hx|[Hx Hs']]%Hown.
    + exists i, l'. by rewrite list_lookup_insert_eq.
    + destruct (Ho x Hs') as (j & lj & Hj & Hxj). exists j, lj.
      rewrite list_lookup_insert_ne; [done|]. intros ->. congruence.
  - intros j lj x n. rewrite list_lookup_insert. case_decide; [|by apply Hz].
    intros [= <-]. apply Hzero.
Qed.

(** An optional entry of key [k]. *)
Definition opt_entry (k : Z) (o : option Z) : list (Z * Z) :=
  match o with Some v => [(k, v)] | None => [] end.

(** The bucket of [k] exchanges the entry of [k] and keeps the others: the map
    changes at [k] only. *)
Lemma models_step cm ls m cm' l l' k o o' rest :
  rep cm ls →
  (∀ i l, ls !! i = Some l → NoDup (live l).*1) →
  (∀ i l k v, ls !! i = Some l → (k, v) ∈ live l → slot_of cm k = i) →
  (∀ k v, m !! k = Some v ↔ ∃ l, ls !! slot_of cm k = Some l ∧ (k, v) ∈ live l) →
  rep cm' (<[slot_of cm k := l']> ls) → buck_size cm' = buck_size cm →
  ls !! slot_of cm k = Some l →
  live l ≡ₚ opt_entry k o ++ rest → live l' ≡ₚ opt_entry k o' ++ rest →
  k ∉ rest.*1 →
  models cm' (partial_alter (λ _, o') k m).
Proof.
  intros Hr Hnd Hpl Hm Hr' Hsz El Hl Hl' Hk. exists (<[slot_of cm k := l']> ls).
  assert (Hslot : ∀ k, slot_of cm' k = slot_of cm k)
    by (intros ?; by rewrite (bucket_of_size _ _ _ Hsz)).
  pose proof (lookup_lt_Some _ _ _ El) as Hlt.
  split_and!; [done| | |].
  - intros i li. rewrite list_lookup_insert. case_decide as E; [|by eauto].
    intros [= <-]. rewrite Hl', fmap_app. apply Hnd in El. rewrite Hl, fmap_app in El.
    apply NoDup_app in El as (_ & _ & El). destruct o'; simpl; [|done].
    by apply NoDup_cons.
  - intros i li k' v'. rewrite Hslot, list_lookup_insert. case_decide as E; [|by eauto].
    destruct E as [<- _]. intros [= <-]. rewrite Hl', elem_of_app. intros [Hin|Hin].
    + destruct o'; simpl in Hin; [|by apply not_elem_of_nil in Hin].
      apply list_elem_of_singleton in Hin. by simplify_eq.
    + eapply Hpl; [done|]. rewrite Hl, elem_of_app. by right.
  - intros k' v. rewrite Hslot. destruct (decide (k' = k)) as [->|Hne].
    + rewrite lookup_partial_alter_eq, list_lookup_insert_eq by done.
      split.
      * intros ->. exists l'. split; [done|]. rewrite Hl'. simpl. apply list_elem_of_here.
      * intros (? & [= <-] & Hv). rewrite Hl' in Hv. apply elem_of_app in Hv as [Hv|Hv].
        -- destruct o'; simpl in Hv; [|by apply not_elem_of_nil in Hv].
           apply list_elem_of_singleton in Hv. congruence.
        -- exfalso. apply Hk. by apply (list_elem_of_fmap_2 fst) in Hv.
    + rewrite lookup_partial_alter_ne by done. rewrite Hm.
      assert (Hmem : ∀ o'', (k', v) ∈ opt_entry k o'' ++ rest ↔ (k', v) ∈ rest).
      { intros [?|]; simpl; [|done]. rewrite elem_of_cons. split; [|by right].
        intros [[= ??]|?]; done. }
      destruct (decide (slot_of cm k' = slot_of cm k)) as [E|E].
      * rewrite E, list_lookup_insert_eq, El by done. split.
        -- intros (? & [= <-] & Hv). exists l'. split; [done|].
           rewrite Hl', Hmem. by rewrite Hl, Hmem in Hv.
        -- intros (? & [= <-] & Hv). exists l. split; [done|].
           rewrite Hl, Hmem. by rewrite Hl', Hmem in Hv.
      * by rewrite list_lookup_insert_ne.
Qed.

(** ** Runs of the operations *)

Lemma bucket_at_Some cm idx b :
  0 ≤ idx → buck cm !! Z.to_nat idx = Some b → bucket_at cm idx = Ret b.
Proof.
  intros H Hb. unfold bucket_at. destruct (Z.ltb_spec idx 0); [lia|]. by rewrite Hb.
Qed.

Lemma bucket_at_set cm idx b :
  0 ≤ idx → (Z.to_nat idx < length (buck cm))%nat →
  bucket_at (set_bucket cm idx b) idx = Ret b.
Proof.
  intros H Hl. apply bucket_at_Some; [done|]. simpl. by rewrite list_lookup_insert_eq.
Qed.

Lemma heap_set_bucket cm idx b : heap (set_bucket cm idx b) = heap cm.
Proof. done. Qed.

Lemma set_heap_bucket cm idx b h : set_heap (set_bucket cm idx b) h = set_bucket (set_heap cm h) idx b.
Proof. done. Qed.

Lemma set_bucket_twice cm idx b b' : set_bucket (set_bucket cm idx b) idx b' = set_bucket cm idx b'.
Proof. unfold set_bucket. simpl. by rewrite list_insert_insert_eq. Qed.

Lemma unlock_bucket_set cm idx b :
  0 ≤ idx → (Z.to_nat idx < length (buck cm))%nat →
  unlock_bucket (set_bucket cm idx b) idx = Ret (set_bucket cm idx (mkBucket (data b) false)).
Proof.
  intros H Hl. unfold unlock_bucket. rewrite bucket_at_set by done.
  unfold mbind, outcome_bind. by rewrite set_bucket_twice.
Qed.

(** What the operations do up to their search: they lock the bucket of the key
    and find the first slot of its chain that passes the test. *)
Lemma search_bucket cm idx b l (f : BOGUS_DATA -> bool) {A}
    (K : BOGUS_CMAP -> BOGUS_BUCKET -> option loc -> outcome A) :
  0 ≤ idx → buck cm !! Z.to_nat idx = Some b → lock b = false →
  chain (heap cm) (data b) l →
  (cm ← lock_bucket cm idx;
   b ← bucket_at cm idx;
   slot ← walk f (S (size (heap cm))) (heap cm) (data b);
   K cm b slot) =
  K (set_bucket cm idx (mkBucket (data b) true)) (mkBucket (data b) true) (first_loc f l).
Proof.
  intros Hi Hb Hlk Hl. pose proof (lookup_lt_Some _ _ _ Hb) as Hlt.
  unfold lock_bucket. rewrite (bucket_at_Some _ _ _ Hi Hb). simpl. rewrite Hlk.
  simpl. rewrite bucket_at_set by done. simpl. by rewrite (walk_heap _ _ _ _ Hl).
Qed.

Create Rewrite HintDb cmap_run.
#[export] Hint Rewrite heap_set_bucket set_heap_bucket set_bucket_twice : cmap_run.

(** Runs an operation from its search to its return. *)
Ltac cmap_run :=
  unfold mbind, outcome_bind; cbv beta iota; cbn [data]; autorewrite with cmap_run;
  rewrite unlock_bucket_set by done; cbn [data].

(** A slot of the key's chain is overwritten; its link stays. *)
Lemma rep_set_slot cm ls idx b l1 x n n' l2 :
  rep cm ls → buck cm !! Z.to_nat idx = Some b →
  ls !! Z.to_nat idx = Some (l1 ++ (x, n) :: l2) →
  next n' = next n → (is_free n' = true → value n' = 0) →
  rep (set_bucket (set_heap cm (<[x := n']> (heap cm))) idx (mkBucket (data b) false))
    (<[Z.to_nat idx := l1 ++ (x, n') :: l2]> ls).
Proof.
  intros Hr Hb Hl Hn Hz.
  assert (Hkeys : (l1 ++ (x, n) :: l2).*1 = (l1 ++ (x, n') :: l2).*1) by by rewrite !fmap_app.
  eapply rep_update; [done..| | | | |].
  - apply chain_update with n; [done|]. by eapply rep_chain.
  - intros y Hy. left. by rewrite Hkeys.
  - intros y Hy _. rewrite lookup_insert_ne; [done|]. intros ->. apply Hy.
    rewrite fmap_app. set_solver.
  - intros y. rewrite <-Hkeys. destruct (decide (y ∈ (l1 ++ (x, n) :: l2).*1)) as [|Hy]; [by left|].
    rewrite lookup_insert_ne; [by right|]. intros ->. apply Hy. rewrite fmap_app. set_solver.
  - intros y ny Hy. pose proof (rep_zero _ _ Hr _ _ y ny Hl) as Hz'.
    apply elem_of_app in Hy as [Hy|[[= -> ->]|Hy]%elem_of_cons]; [|done|]; apply Hz'; set_solver.
Qed.

(** A fresh slot is pushed on the key's chain. *)
Lemma rep_push_slot cm ls idx b l n :
  rep cm ls → buck cm !! Z.to_nat idx = Some b → ls !! Z.to_nat idx = Some l →
  next n = data b → is_free n = false →
  rep (set_bucket (set_heap cm (<[hfresh (heap cm) := n]> (heap cm))) idx
         (mkBucket (Some (hfresh (heap cm))) false))
    (<[Z.to_nat idx := (hfresh (heap cm), n) :: l]> ls).
Proof.
  intros Hr Hb Hl Hn Hu. eapply rep_update; [done..| | | | |].
  - simpl. split_and!; [done|by rewrite lookup_insert_eq|]. rewrite Hn.
    apply chain_alloc. by eapply rep_chain.
  - intros y [->|Hy]%elem_of_cons; [right; apply hfresh_spec|by left].
  - intros y _ [? Hy]. rewrite lookup_insert_ne; [done|]. intros <-.
    by rewrite hfresh_spec in Hy.
  - intros y. simpl. destruct (decide (y = hfresh (heap cm))) as [->|Hne]; [left; set_solver|].
    rewrite lookup_insert_ne by done. destruct (decide (y ∈ l.*1)); [left; set_solver|by right].
  - intros y ny [[= -> ->]|Hy]%elem_of_cons; [congruence|]. by eapply rep_zero.
Qed.

(** ** Refinement of the finite map *)

Lemma live_key l k v : (k, v) ∈ live l ↔ ∃ x n, (x, n) ∈ l ∧ is_key k n = true ∧ value n = v.
Proof.
  unfold live. rewrite list_elem_of_bind. split.
  - intros ([x n] & Hin & Hx). exists x, n. unfold entry_of, is_key in *. simpl in *.
    destruct (is_free n); [by apply not_elem_of_nil in Hin|].
    apply list_elem_of_singleton in Hin. simplify_eq. by rewrite Z.eqb_refl.
  - intros (x & n & Hx & Hk & <-). exists (x, n). split; [|done].
    unfold entry_of, is_key in *. simpl. destruct (is_free n); [done|].
    apply Z.eqb_eq in Hk as ->. apply list_elem_of_here.
Qed.

Lemma not_live_key l k :
  (∀ v, (k, v) ∉ live l) ↔ first_loc (is_key k) l = None.
Proof.
  rewrite first_loc_None, Forall_forall. split.
  - intros H [x n] Hx. simpl. destruct (is_key k n) eqn:E; [|done].
    destruct (H (value n)). apply live_key. eauto.
  - intros H v (x & n & Hx & Hk & _)%live_key. apply H in Hx. simpl in Hx. congruence.
Qed.

Lemma insert_as_alter (m : gmap Z Z) k v : <[k := v]> m = partial_alter (λ _, Some v) k m.
Proof. done. Qed.

Lemma delete_as_alter (m : gmap Z Z) k : delete k m = partial_alter (λ _, None) k m.
Proof. done. Qed.

(** [cmap_set] of any key: it returns the key's bucket, and the chain of the bucket then
    has one more slot in use, with the key and the value. The free slot it reuses and the
    slot it pushes are the two branches of its loop. *)
Lemma cmap_set_run cm ls k v u p :
  rep cm ls →
  ∃ cm' l l', cmap_set cm (mkData k v u p) = Ret (bucket_of cm k, cm') ∧
    ls !! slot_of cm k = Some l ∧ rep cm' (<[slot_of cm k := l']> ls) ∧
    buck_size cm' = buck_size cm ∧ live l' ≡ₚ (k, v) :: live l.
Proof.
  intros Hr. destruct (rep_lookup _ _ k Hr) as (b & l & Hb & Hl & Hc & Hlk).
  destruct (rep_slot _ _ k Hr) as [Hk1 Hk2].
  unfold cmap_set. cbn [index value]. rewrite (search_bucket _ _ _ _ _ _ Hk1 Hb Hlk Hc).
  destruct (first_loc is_free l) as [x|] eqn:Ef.
  - apply first_loc_Some in Ef as (l1 & n & l2 & -> & Hn & _).
    pose proof (chain_lookup _ _ _ _ _ _ Hc) as Hx.
    rewrite heap_set_bucket, (hread_Some _ _ _ Hx). cmap_run.
    eexists _, _, (l1 ++ (x, mkData k v 1 (next n)) :: l2).
    split_and!; [done|done|by eapply rep_set_slot|done|].
    rewrite !live_middle. unfold entry_of. by rewrite Hn.
  - cmap_run. eexists _, l, ((hfresh (heap cm), mkData k v 1 (data b)) :: l).
    split_and!; [done|done| |done..].
    by eapply (rep_push_slot cm ls (bucket_of cm k) b l).
Qed.

(** With a key the map does not hold, the map then holds the key with its value and is
    unchanged elsewhere. *)
Lemma cmap_set_ok cm m k v u p :
  models cm m → m !! k = None →
  ∃ cm', cmap_set cm (mkData k v u p) = Ret (bucket_of cm k, cm') ∧
    models cm' (<[k := v]> m).
Proof.
  intros (ls & Hr & Hnd & Hpl & Hm) Hk.
  destruct (cmap_set_run _ _ k v u p Hr) as (cm' & l & l' & E & Hl & Hr' & Hs & Hlive).
  exists cm'. split; [done|]. rewrite insert_as_alter.
  apply (models_step cm ls m cm' l l' k None (Some v) (live l)); try done.
  intros ([k' v'] & Hk' & Hin)%list_elem_of_fmap. simpl in Hk'. subst k'.
  assert (m !! k = Some v') by (apply Hm; eauto). congruence.
Qed.

(** With a key the map holds, a second slot is in use for the key, and the map is that
    of no finite map any more. *)
Lemma cmap_set_twice cm m k v0 v u p :
  models cm m → m !! k = Some v0 →
  ∃ cm', cmap_set cm (mkData k v u p) = Ret (bucket_of cm k, cm') ∧ ∀ m', ~ models cm' m'.
Proof.
  intros (ls & Hr & _ & _ & Hm) Hk.
  destruct (cmap_set_run _ _ k v u p Hr) as (cm' & l & l' & E & Hl & Hr' & Hs & Hlive).
  exists cm'. split; [done|]. intros m' (ls' & Hr2 & Hnd & _).
  apply Hm in Hk as (l0 & Hl0 & Hin). simplify_eq.
  rewrite <-(rep_det _ _ _ Hr' Hr2) in Hnd. pose proof (lookup_lt_Some _ _ _ Hl0) as Hlt.
  specialize (Hnd (slot_of cm k) l'). rewrite list_lookup_insert_eq in Hnd by done.
  specialize (Hnd eq_refl). rewrite Hlive in Hnd. simpl in Hnd. apply NoDup_cons in Hnd as [Hnd _].
  apply Hnd. by apply (list_elem_of_fmap_2 fst) in Hin.
Qed.

(** The slot of a key the map holds, as the searches find it. *)
Lemma models_found (ls : list (list (loc * BOGUS_DATA))) (m : gmap Z Z) cm l k v :
  (∀ i l, ls !! i = Some l → NoDup (live l).*1) →
  (∀ k v, m !! k = Some v ↔ ∃ l, ls !! slot_of cm k = Some l ∧ (k, v) ∈ live l) →
  ls !! slot_of cm k = Some l → m !! k = Some v →
  ∃ l1 x n l2, l = l1 ++ (x, n) :: l2 ∧ first_loc (is_key k) l = Some x ∧
    entry_of n = [(k, v)] ∧ k ∉ (live (l1 ++ l2)).*1.
Proof.
  intros Hnd Hm Hl Hk. apply Hm in Hk as (l0 & Hl0 & Hin). simplify_eq.
  destruct (first_loc (is_key k) l) as [x|] eqn:Ef.
  2: { exfalso. by eapply not_live_key in Ef. }
  pose proof Ef as (l1 & n & l2 & -> & Hn & _)%first_loc_Some.
  specialize (Hnd _ _ Hl). rewrite live_middle in Hnd, Hin.
  assert (Hen : entry_of n = [(k, value n)]).
  { unfold is_key in Hn. unfold entry_of. destruct (is_free n); [done|].
    by apply Z.eqb_eq in Hn as ->. }
  rewrite Hen in Hin, Hnd. simpl in Hnd. apply NoDup_cons in Hnd as [Hnd _].
  assert (value n = v) as <-.
  { apply elem_of_cons in Hin as [[= <-]|Hin]; [done|].
    exfalso. apply Hnd. by apply (list_elem_of_fmap_2 fst) in Hin. }
  by exists l1, x, n, l2.
Qed.

(** [cmap_get] on a key the map holds: it returns the key's bucket, the
    callback runs once, on a slot with the key and its value, and the map then
    holds what the callback left there. The callback may write the value; it
    leaves the key, the in-use mark and the link alone, as the source's do. *)
Lemma cmap_get_ok {R} cm m k v (r : R) cb :
  models cm m → m !! k = Some v →
  (∀ r n, index (cb r n).2 = index n ∧ in_use (cb r n).2 = in_use n ∧
     next (cb r n).2 = next n) →
  ∃ n cm', index n = k ∧ value n = v ∧
    cmap_get cm k (Some (r, cb)) = Ret (bucket_of cm k, Some (cb r n).1, cm') ∧
    models cm' (<[k := value (cb r n).2]> m).
Proof.
  intros (ls & Hr & Hnd & Hpl & Hm) Hk Hcb.
  destruct (rep_lookup _ _ k Hr) as (b & l & Hb & Hl & Hc & Hlk).
  destruct (rep_slot _ _ k Hr) as [Hk1 Hk2].
  destruct (models_found _ _ _ _ _ _ Hnd Hm Hl Hk) as (l1 & x & n & l2 & -> & Ef & Hen & Hkl).
  exists n. unfold cmap_get. rewrite (search_bucket _ _ _ _ _ _ Hk1 Hb Hlk Hc), Ef.
  rewrite heap_set_bucket, (hread_Some _ _ _ (chain_lookup _ _ _ _ _ _ Hc)).
  unfold mbind, outcome_bind; cbv beta iota.
  destruct (Hcb r n) as (Hi & Hu & Hn). destruct (cb r n) as [r' n']. simpl in Hi, Hu, Hn.
  cmap_run. unfold entry_of, is_free in Hen. eexists.
  split_and!; [by case_match; simplify_eq..|done|].
  rewrite insert_as_alter.
  eapply (models_step _ _ _ _ _ _ k (Some v) (Some (value n'))); [done..| | | | | |].
  - eapply rep_set_slot; [done..|]. unfold is_free. rewrite Hu. by case_match.
  - done.
  - done.
  - rewrite live_middle. unfold entry_of, is_free. by rewrite Hen.
  - rewrite live_middle. unfold entry_of, is_free. rewrite Hu, Hi.
    case_match; by simplify_eq.
  - done.
Qed.

(** [cmap_del] on a key the map holds: it returns the key's bucket and the
    map no longer holds the key; the other keys keep their values. *)
Lemma cmap_del_ok cm m k v :
  models cm m → m !! k = Some v →
  ∃ cm', cmap_del cm k = Ret (bucket_of cm k, cm') ∧ models cm' (delete k m).
Proof.
  intros (ls & Hr & Hnd & Hpl & Hm) Hk.
  destruct (rep_lookup _ _ k Hr) as (b & l & Hb & Hl & Hc & Hlk).
  destruct (rep_slot _ _ k Hr) as [Hk1 Hk2].
  destruct (models_found _ _ _ _ _ _ Hnd Hm Hl Hk) as (l1 & x & n & l2 & -> & Ef & Hen & Hkl).
  unfold cmap_del. rewrite (search_bucket _ _ _ _ _ _ Hk1 Hb Hlk Hc), Ef.
  rewrite heap_set_bucket, (hread_Some _ _ _ (chain_lookup _ _ _ _ _ _ Hc)).
  cmap_run. eexists. split; [done|].
  rewrite delete_as_alter.
  eapply (models_step _ _ _ _ _ _ k (Some v) None); [done..| | | | | |].
  - by eapply rep_set_slot.
  - done.
  - done.
  - by rewrite live_middle, Hen.
  - by rewrite live_middle.
  - done.
Qed.

(** A key the map does not hold sends [cmap_get] and [cmap_del] to
    [cm->buck[-1].lock]: they set [idx] to -1 before they unlock. *)
Theorem cmap_miss_out_of_bounds {R} cm m k (rcb : option (R * (R -> BOGUS_DATA -> R * BOGUS_DATA))) :
  models cm m → m !! k = None →
  cmap_get cm k rcb = Fault OutOfBounds ∧ cmap_del cm k = Fault OutOfBounds.
Proof.
  intros (ls & Hr & Hnd & Hpl & Hm) Hk.
  destruct (rep_lookup _ _ k Hr) as (b & l & Hb & Hl & Hc & Hlk).
  destruct (rep_slot _ _ k Hr) as [Hk1 Hk2].
  assert (first_loc (is_key k) l = None) as Ef.
  { apply not_live_key. intros v Hv. assert (m !! k = Some v) by (apply Hm; eauto). congruence. }
  split; [unfold cmap_get|unfold cmap_del];
    rewrite (search_bucket _ _ _ _ _ _ Hk1 Hb Hlk Hc), Ef; reflexivity.
Qed.

(** ** Creation and destruction *)

Lemma alloc_slots_spec n h d l :
  chain h d l → Forall (λ xn, is_free xn.2 = true ∧ value xn.2 = 0) l →
  ∃ h' d' l', alloc_slots n h d = (h', d') ∧ chain h' d' l' ∧ h ⊆ h' ∧
    Forall (λ xn, is_free xn.2 = true ∧ value xn.2 = 0) l' ∧ l.*1 ⊆ l'.*1 ∧
    (∀ x, x ∈ l'.*1 → x ∈ l.*1 ∨ h !! x = None) ∧
    (∀ x, is_Some (h' !! x) → is_Some (h !! x) ∨ x ∈ l'.*1).
Proof.
  revert h d l. induction n as [|n IH]; intros h d l Hc Hz; simpl.
  { exists h, d, l. split_and!; auto. }
  set (nd := mkData 0 0 0 d).
  destruct (IH (<[hfresh h := nd]> h) (Some (hfresh h)) ((hfresh h, nd) :: l))
    as (h' & d' & l' & E & Hc' & Hsub & Hz' & Hll & Hnew & Hown).
  - simpl. split_and!; [done|by rewrite lookup_insert_eq|by apply chain_alloc].
  - by constructor.
  - exists h', d', l'. split_and!; [done|done| |done| | |].
    + etrans; [|done]. apply insert_subseteq, hfresh_spec.
    + intros x Hx. apply Hll. simpl. by right.
    + intros x [Hx|Hx]%Hnew.
      * simpl in Hx. apply elem_of_cons in Hx as [->|Hx]; [right; apply hfresh_spec|by left].
      * apply lookup_insert_None in Hx as [? _]. by right.
    + intros x [Hx|Hx]%Hown; [|by right].
      apply lookup_insert_is_Some in Hx as [<-|[_ ?]]; [|by left].
      right. apply Hll. simpl. by left.
Qed.

(** What the buckets are after the outer loop. *)
Record fresh_buckets (h h' : gmap loc BOGUS_DATA) (bs : list BOGUS_BUCKET)
    (ls : list (list (loc * BOGUS_DATA))) : Prop := {
  fb_len : length ls = length bs;
  fb_sub : h ⊆ h';
  fb_bucket : ∀ i b l, bs !! i = Some b → ls !! i = Some l →
    lock b = false ∧ chain h' (data b) l;
  fb_zero : ∀ i l x n, ls !! i = Some l → (x, n) ∈ l → is_free n = true ∧ value n = 0;
  fb_new : ∀ i l x, ls !! i = Some l → x ∈ l.*1 → h !! x = None;
  fb_disj : ∀ i j l l' x, ls !! i = Some l → ls !! j = Some l' →
    x ∈ l.*1 → x ∈ l'.*1 → i = j;
  fb_owned : ∀ x, is_Some (h' !! x) → is_Some (h !! x) ∨ ∃ i l, ls !! i = Some l ∧ x ∈ l.*1;
}.

Lemma chain_weaken (h h' : gmap loc BOGUS_DATA) p l : h ⊆ h' → chain h p l → chain h' p l.
Proof.
  intros Hs Hc. eapply chain_frame; [|done].
  intros x ([y n] & -> & Hx)%list_elem_of_fmap. simpl.
  rewrite (chain_elem _ _ _ _ _ Hc Hx). eapply lookup_weaken; [|done]. by eapply chain_elem.
Qed.

Lemma chain_is_Some (h : gmap loc BOGUS_DATA) p l x : chain h p l → x ∈ l.*1 → is_Some (h !! x).
Proof.
  intros Hc ([y n] & -> & Hx)%list_elem_of_fmap. exists n. by eapply chain_elem.
Qed.

Lemma fresh_buckets_cons h h1 h2 d l bs ls :
  h ⊆ h1 → chain h1 d l → Forall (λ xn, is_free xn.2 = true ∧ value xn.2 = 0) l →
  (∀ x, x ∈ l.*1 → h !! x = None) →
  (∀ x, is_Some (h1 !! x) → is_Some (h !! x) ∨ x ∈ l.*1) →
  fresh_buckets h1 h2 bs ls → fresh_buckets h h2 (mkBucket d false :: bs) (l :: ls).
Proof.
  intros Hs Hc Hz Hnew Hown [F1 F2 F3 F4 F5 F6 F7].
  assert (Hx : ∀ i l' x, ls !! i = Some l' → x ∈ l'.*1 → x ∈ l.*1 → False).
  { intros i l' x Hi Hx Hx'. pose proof (F5 _ _ _ Hi Hx).
    destruct (chain_is_Some _ _ _ _ Hc Hx'). congruence. }
  split; [simpl; by rewrite F1|by etrans|..].
  - intros [|i] b l'; simpl; [|by apply F3]. intros [= <-] [= <-].
    split; [done|]. by eapply chain_weaken.
  - intros [|i] l' x n; simpl; [|by apply F4]. intros [= <-] Hin.
    by apply (proj1 (Forall_forall _ _) Hz (x, n)).
  - intros [|i] l' x; simpl; [intros [= <-]; apply Hnew|].
    intros Hi Hin. eapply lookup_weaken_None; [by eapply F5|done].
  - intros [|i] [|j] l1 l2 x; simpl; [done| | |].
    + intros [= <-] ???. by exfalso; eapply Hx.
    + intros ? [= <-] ??. by exfalso; eapply Hx.
    + intros ????. f_equal. by eapply F6.
  - intros x [[?|?]%Hown|(i & l' & ? & ?)]%F7; [by left|right..].
    + by exists O, l.
    + by exists (S i), l'.
Qed.

Lemma alloc_buckets_spec garbage dsize n i h :
  (∀ j, garbage j = None) →
  ∃ h' bs ls, alloc_buckets garbage dsize i n h = (h', bs) ∧ length bs = n ∧
    fresh_buckets h h' bs ls.
Proof.
  intros Hg. revert i h. induction n as [|n IH]; intros i h; simpl.
  { exists h, [], []. split_and!; [done..|]. split; try done. by left. }
  rewrite Hg. destruct (alloc_slots_spec dsize h None [])
    as (h1 & d & l & -> & Hc & Hs & Hz & _ & Hnew & Hown); [done|done|].
  destruct (IH (S i) h1) as (h2 & bs & ls & -> & Hlen & Hfb).
  exists h2, (mkBucket d false :: bs), (l :: ls). split_and!; [done|simpl; by rewrite Hlen|].
  eapply fresh_buckets_cons; [done..| |done|done].
  intros x [?%not_elem_of_nil|]%Hnew; done.
Qed.

(** [cmap_alloc] on memory that reads as [NULL] where the bucket heads are:
    the map is well formed and empty. *)
Lemma cmap_alloc_empty garbage bsize dsize :
  0 < bsize < 2 ^ 31 → (∀ j, garbage j = None) →
  models (cmap_alloc garbage bsize dsize) ∅.
Proof.
  intros Hb Hg. unfold cmap_alloc.
  destruct (alloc_buckets_spec garbage (Z.to_nat dsize) (Z.to_nat bsize) 0 ∅ Hg)
    as (h & bs & ls & -> & Hlen & [F1 F2 F3 F4 F5 F6 F7]).
  assert (Hnil : ∀ i l, ls !! i = Some l → live l = []).
  { intros i l Hi. destruct (live l) as [|[k v] r] eqn:E; [done|].
    assert (Hin : (k, v) ∈ live l) by (rewrite E; apply list_elem_of_here).
    apply live_key in Hin as (x & n & Hx & Hk & _).
    destruct (F4 _ _ _ _ Hi Hx) as [Hf _]. unfold is_key in Hk. by rewrite Hf in Hk. }
  exists ls. split_and!.
  - split; cbn [heap buck buck_size]; try done.
    + intros i b Hi. destruct (lookup_lt_is_Some_2 ls i) as [l Hl];
        [rewrite F1; by eapply lookup_lt_Some|]. by eapply F3.
    + intros. by eapply F3.
    + intros x Hx. destruct (F7 x Hx) as [[? ?]|?]; done.
    + intros i l x n Hi Hx _. by eapply F4.
  - intros i l Hi. rewrite (Hnil _ _ Hi). constructor.
  - intros i l k v Hi Hin. rewrite (Hnil _ _ Hi) in Hin. by apply not_elem_of_nil in Hin.
  - intros k v. split; [done|]. intros (l & Hl & Hin). rewrite (Hnil _ _ Hl) in Hin.
    by apply not_elem_of_nil in Hin.
Qed.

Lemma free_chain_spec fuel h p l :
  chain h p l → (length l < fuel)%nat →
  ∃ h', free_chain fuel h p = Ret h' ∧
    ∀ x, h' !! x = if decide (x ∈ l.*1) then None else h !! x.
Proof.
  revert h p l. induction fuel as [|fuel IH]; intros h p [|[x n] l] Hc Hf; simpl in *; try lia.
  { subst p. by exists h. }
  destruct Hc as (-> & Hx & Hc). rewrite (hread_Some _ _ _ Hx). simpl.
  rewrite (hfree_Some _ _ _ Hx). simpl.
  assert (Hnot : x ∉ l.*1).
  { assert (Hc' : chain h (Some x) ((x, n) :: l)) by done.
    apply chain_NoDup in Hc'. by apply NoDup_cons in Hc' as [? _]. }
  destruct (IH (delete x h) (next n) l) as (h' & E & Hh'); [by apply chain_delete_notin|lia|].
  exists h'. split; [done|]. intros y. rewrite Hh'.
  destruct (decide (y = x)) as [->|Hne].
  - rewrite lookup_delete_eq. repeat case_decide; try done. set_solver.
  - rewrite lookup_delete_ne by done. repeat case_decide; set_solver.
Qed.

#[global] Arguments free_chain : simpl never.

Lemma free_buckets_spec bs ls h :
  length ls = length bs →
  (∀ i b l, bs !! i = Some b → ls !! i = Some l → lock b = false ∧ chain h (data b) l) →
  (∀ i j l l' x, ls !! i = Some l → ls !! j = Some l' → x ∈ l.*1 → x ∈ l'.*1 → i = j) →
  ∃ h', free_buckets h bs = Ret h' ∧
    ∀ x, (∀ i l, ls !! i = Some l → x ∈ l.*1 → h' !! x = None) ∧
         (h !! x = None → h' !! x = None).
Proof.
  revert ls h. induction bs as [|b bs IH]; intros [|l ls] h Hlen Hb Hd; try done; simpl.
  { exists h. by split. }
  destruct (Hb O b l) as [Hlk Hc]; [done..|]. rewrite Hlk.
  destruct (free_chain_spec (S (size h)) h (data b) l Hc) as (h1 & -> & Hh1).
  { apply chain_length in Hc. lia. }
  simpl. destruct (IH ls h1) as (h' & E & Hh').
  - by injection Hlen.
  - intros i b' l' Hi Hi'. destruct (Hb (S i) b' l') as [? Hc']; [done..|]. split; [done|].
    eapply chain_frame; [|done]. intros x Hx. rewrite Hh1, decide_False; [done|].
    intros Hx'. by discriminate (Hd O (S i) l l' x).
  - intros i j l1 l2 x ????. by injection (Hd (S i) (S j) l1 l2 x).
  - exists h'. split; [done|]. intros x. destruct (Hh' x) as [H1 H2]. split.
    + intros [|i] l'; simpl; [intros [= <-] Hx|by apply H1].
      apply H2. by rewrite Hh1, decide_True.
    + intros Hx. apply H2. rewrite Hh1. by case_decide.
Qed.

(** [cmap_free] on a well-formed map frees every slot, each once. *)
Lemma cmap_free_ok cm ls : rep cm ls → cmap_free cm = Ret ∅.
Proof.
  intros [Hs Hb Hl Hu Hc Hd Ho _]. unfold cmap_free. rewrite take_ge by lia.
  destruct (free_buckets_spec (buck cm) ls (heap cm)) as (h' & -> & Hh'); [done| |done|].
  - intros i b l ??. split; [by eapply Hu|by eapply Hc].
  - f_equal. apply map_empty. intros x. destruct (Hh' x) as [H1 H2].
    destruct (heap cm !! x) as [n|] eqn:E; [|by apply H2].
    destruct (Ho x) as (i & l & ? & ?); [by eexists|]. by eapply H1.
Qed.

(** ** Histories of calls *)

(** A caller's operations; [OGet] gives the callback as its effect on the value,
    and the callback reports the value it saw. *)
Inductive map_op := OSet (k v : Z) | OGet (k : Z) (f : Z -> Z) | ODel (k : Z).

Definition value_cb (f : Z -> Z) (ret : Z) (n : BOGUS_DATA) : Z * BOGUS_DATA :=
  (value n, mkData (index n) (f (value n)) (in_use n) (next n)).

Definition run_op (cm : BOGUS_CMAP) (o : map_op) : outcome (option Z * BOGUS_CMAP) :=
  match o with
  | OSet k v => '(_, cm) ← cmap_set cm (mkData k v 0 None); Ret (None, cm)
  | OGet k f => '(_, r, cm) ← cmap_get cm k (Some (0, value_cb f)); Ret (r, cm)
  | ODel k => '(_, cm) ← cmap_del cm k; Ret (None, cm)
  end.

Fixpoint run_ops (cm : BOGUS_CMAP) (os : list map_op) : outcome (list (option Z) * BOGUS_CMAP) :=
  match os with
  | [] => Ret ([], cm)
  | o :: os =>
    '(r, cm) ← run_op cm o;
    '(rs, cm) ← run_ops cm os;
    Ret (r :: rs, cm)
  end.

(** The specification: a finite map; setting needs an absent key, reading and
    deleting a present one. *)
Definition spec_op (m : gmap Z Z) (o : map_op) : option (option Z * gmap Z Z) :=
  match o with
  | OSet k v => if m !! k is Some _ then None else Some (None, <[k := v]> m)
  | OGet k f => v ← m !! k; Some (Some v, <[k := f v]> m)
  | ODel k => _ ← m !! k; Some (None, delete k m)
  end.

Fixpoint spec_ops (m : gmap Z Z) (os : list map_op) : option (list (option Z) * gmap Z Z) :=
  match os with
  | [] => Some ([], m)
  | o :: os =>
    '(r, m) ← spec_op m o;
    '(rs, m) ← spec_ops m os;
    Some (r :: rs, m)
  end.

Lemma run_op_ok cm m o r m' :
  models cm m → spec_op m o = Some (r, m') →
  ∃ cm', run_op cm o = Ret (r, cm') ∧ models cm' m'.
Proof.
  intros Hm. destruct o as [k v|k f|k]; simpl.
  - destruct (m !! k) eqn:E; intros [= <- <-].
    destruct (cmap_set_ok cm m k v 0 None) as (cm' & -> & ?); [done..|]. by exists cm'.
  - destruct (m !! k) as [v|] eqn:E; intros [= <- <-].
    destruct (cmap_get_ok cm m k v 0 (value_cb f)) as (n & cm' & _ & <- & -> & Hm'); [done..|].
    by exists cm'.
  - destruct (m !! k) as [v|] eqn:E; intros [= <- <-].
    destruct (cmap_del_ok cm m k v) as (cm' & -> & ?); [done..|]. by exists cm'.
Qed.

(** A call the specification does not allow. *)
Lemma run_op_outside cm m o :
  models cm m → spec_op m o = None →
  match o with
  | OGet _ _ | ODel _ => run_op cm o = Fault OutOfBounds
  | OSet _ _ => ∃ cm', run_op cm o = Ret (None, cm') ∧ ∀ m', ~ models cm' m'
  end.
Proof.
  intros Hm. destruct o as [k v|k f|k]; simpl; destruct (m !! k) as [v0|] eqn:E; try done; intros _.
  - destruct (cmap_set_twice cm m k v0 v 0 None) as (cm' & -> & H); [done..|]. by exists cm'.
  - by destruct (cmap_miss_out_of_bounds cm m k (Some (0, value_cb f))) as [-> _].
  - by destruct (cmap_miss_out_of_bounds (R:=Z) cm m k None) as [_ ->].
Qed.

(** C22. The map refines a finite map: any history of calls the specification
    allows, which sets absent keys and reads and deletes present ones, runs to its end
    without a fault from a map that holds [m], returns what the specification returns,
    and leaves a map that holds the specification's. The specification is exact: after
    the history, reading or deleting an absent key leaves the array of buckets, and
    setting a present key succeeds but leaves a map that holds no finite map, since two
    slots are in use for the key. *)
Theorem cmap_history_refines cm m os rs m' :
  models cm m → spec_ops m os = Some (rs, m') →
  ∃ cm', run_ops cm os = Ret (rs, cm') ∧ models cm' m' ∧
    ∀ o, spec_op m' o = None →
      match o with
      | OGet _ _ | ODel _ => run_op cm' o = Fault OutOfBounds
      | OSet _ _ => ∃ cm'', run_op cm' o = Ret (None, cm'') ∧ ∀ m'', ~ models cm'' m''
      end.
Proof.
  revert cm m rs. induction os as [|o os IH]; intros cm m rs Hm; simpl.
  { intros [= <- <-]. exists cm. split_and!; [done..|]. intros o Ho. by apply (run_op_outside cm m). }
  destruct (spec_op m o) as [[r m1]|] eqn:E1; [|done]. simpl.
  destruct (spec_ops m1 os) as [[rs' m2]|] eqn:E2; [|done]. intros [= <- <-].
  destruct (run_op_ok _ _ _ _ _ Hm E1) as (cm1 & -> & Hm1). simpl.
  destruct (IH _ _ _ Hm1 E2) as (cm2 & -> & Hm2). by exists cm2.
Qed.

(** ** The threads of [main] *)

Definition call_key (c : call) : Z := match c with Inc k => k | Dec k => k end.

(** What a call adds to the value of [k], and what a list of calls adds. *)
Definition call_delta (k : Z) (c : call) : Z :=
  match c with
  | Inc k' => if k' =? k then k' else 0
  | Dec k' => if k' =? k then - k' else 0
  end.

Definition calls_delta (k : Z) (l : list call) : Z := foldr (λ c acc, call_delta k c + acc) 0 l.

Lemma calls_delta_cons k c l : calls_delta k (c :: l) = call_delta k c + calls_delta k l.
Proof. done. Qed.

Lemma calls_delta_app k l1 l2 : calls_delta k (l1 ++ l2) = calls_delta k l1 + calls_delta k l2.
Proof. unfold calls_delta. induction l1 as [|c l1 IH]; simpl; lia. Qed.

#[export] Instance calls_delta_proper k : Proper ((≡ₚ) ==> eq) (calls_delta k).
Proof. intros l1 l2 H. unfold calls_delta. induction H; simpl; lia. Qed.

Lemma threads_delta k total n : calls_delta k (concat (threads total n)) = 0.
Proof.
  assert (E : calls_delta k (increase_thread total) + calls_delta k (decrease_thread total) = 0).
  { unfold increase_thread, decrease_thread. generalize (seq 0 total).
    intros l. induction l as [|i l IH]; [done|]. rewrite !fmap_cons, !calls_delta_cons.
    simpl. case_match; lia. }
  unfold threads. induction n as [|n IH]; simpl; [done|].
  rewrite !calls_delta_app. lia.
Qed.

Lemma concat_pop (pool : list (list call)) i c rest :
  pool !! i = Some (c :: rest) → concat pool ≡ₚ c :: concat (<[i := rest]> pool).
Proof.
  revert i. induction pool as [|l pool IH]; intros [|i]; simpl; [done..| |].
  - by intros [= ->].
  - intros H. rewrite (IH _ H). by rewrite Permutation_middle.
Qed.

Lemma run_call_ok cm m c v :
  models cm m → m !! call_key c = Some v →
  ∃ idx cm', run_call cm c = Ret (idx, cm') ∧ 0 ≤ idx ∧
    models cm' (<[call_key c := u64 (v + call_delta (call_key c) c)]> m).
Proof.
  intros Hm Hk. exists (bucket_of cm (call_key c)).
  assert (0 ≤ bucket_of cm (call_key c)).
  { destruct Hm as (ls & Hr & _). apply bucket_of_range. apply Hr. }
  destruct c as [k|k]; unfold run_call; simpl in *; rewrite Z.eqb_refl.
  - destruct (cmap_get_ok cm m k v tt _inc_func) as (n & cm' & <- & <- & -> & Hm'); [done..|].
    by exists cm'.
  - destruct (cmap_get_ok cm m k v tt _dec_func) as (n & cm' & <- & <- & -> & Hm'); [done..|].
    by exists cm'.
Qed.

(** Between calls, each key holds its first value less what the calls still to
    be made will add to it. *)
Definition thread_inv (m0 : gmap Z Z) (s : BOGUS_CMAP * list (list call)) : Prop :=
  Forall (λ c, is_Some (m0 !! call_key c)) (concat s.2) ∧
  ∃ m, models s.1 m ∧
    ∀ k, m !! k = (λ v, u64 (v - calls_delta k (concat s.2))) <$> m0 !! k.

(** A thread with a call left makes it. *)
Lemma thread_inv_step m0 cm pool i c rest :
  thread_inv m0 (cm, pool) → pool !! i = Some (c :: rest) →
  ∃ idx cm', run_call cm c = Ret (idx, cm') ∧ 0 ≤ idx ∧
    thread_inv m0 (cm', <[i := rest]> pool).
Proof.
  intros (Hall & m & Hm & Hv) Hi. simpl in *. pose proof (concat_pop _ _ _ _ Hi) as Hp.
  rewrite Hp in Hall. apply Forall_cons in Hall as [[v0 Hv0] Hall].
  pose proof (Hv (call_key c)) as Hc. rewrite Hv0 in Hc. simpl in Hc.
  destruct (run_call_ok _ _ _ _ Hm Hc) as (idx & cm' & E & Hidx & Hm').
  exists idx, cm'. split_and!; [done..|]. split; [done|]. eexists. split; [done|].
  intros k. simpl. rewrite lookup_insert. case_decide as Hk; [subst k|].
  - rewrite Hv0. simpl. f_equal. rewrite wrap_add_l, Hp. simpl. f_equal. lia.
  - rewrite Hv. destruct (m0 !! k); simpl; [|done]. do 2 f_equal. rewrite Hp. simpl.
    destruct c; simpl in *; destruct (Z.eqb_spec key k); lia.
Qed.

Lemma thread_inv_rtc m0 s s' : rtc thread_step s s' → thread_inv m0 s → thread_inv m0 s'.
Proof.
  induction 1 as [|s1 s2 s3 Hstep _ IH]; [done|]. intros Hinv. apply IH.
  destruct Hstep as [i c rest cm pool idx cm' Hi Hrun].
  destruct (thread_inv_step _ _ _ _ _ _ Hinv Hi) as (idx' & cm'' & E & Hidx & H).
  rewrite Hrun in E. injection E as -> ->. by rewrite (proj2 (Z.ltb_ge idx' 0) Hidx).
Qed.

Lemma insert_keys_ok n i cm m :
  models cm m → (∀ k, i ≤ k → m !! k = None) →
  ∃ cm' m', insert_keys n i cm = Ret (true, cm') ∧ models cm' m' ∧
    (∀ k, i ≤ k < i + Z.of_nat n → m' !! k = Some 0) ∧
    (∀ k, ~ (i ≤ k < i + Z.of_nat n) → m' !! k = m !! k).
Proof.
  revert i cm m. induction n as [|n IH]; intros i cm m Hm Hk.
  { exists cm, m. split_and!; [done..| |done]. intros; lia. }
  destruct (cmap_set_ok cm m i 0 0 None) as (cm1 & E & Hm1); [done|apply Hk; lia|].
  assert (0 ≤ bucket_of cm i).
  { destruct Hm as (ls & Hr & _). apply bucket_of_range. apply Hr. }
  destruct (IH (i + 1) cm1 _ Hm1) as (cm2 & m2 & E2 & Hm2 & Hin & Hout).
  { intros k ?. rewrite lookup_insert_ne by lia. apply Hk. lia. }
  exists cm2, m2. split_and!; [|done| |].
  - cbn [insert_keys]. rewrite E. unfold mbind, outcome_bind.
    by rewrite (proj2 (Z.ltb_ge _ _)).
  - intros k ?. destruct (decide (k = i)) as [->|]; [|apply Hin; lia].
    rewrite Hout by lia. by rewrite lookup_insert_eq.
  - intros k ?. rewrite Hout, lookup_insert_ne by lia. done.
Qed.

Lemma check_buckets_ok h bs ls :
  length ls = length bs →
  (∀ i b l, bs !! i = Some b → ls !! i = Some l →
    chain h (data b) l ∧ Forall (λ xn, value xn.2 = 0) l) →
  check_buckets h bs = Ret true.
Proof.
  revert ls. induction bs as [|b bs IH]; intros [|l ls] Hlen H; try done.
  cbn [check_buckets]. destruct (H O b l) as [Hc Hz]; [done..|].
  rewrite (walk_heap _ _ _ _ Hc), (proj2 (first_loc_None _ _)).
  - apply (IH ls); [by injection Hlen|]. intros i b' l' ??. by apply (H (S i)).
  - eapply Forall_impl; [done|]. intros [x n] Hv. cbn [snd] in *. by rewrite Hv.
Qed.

(** A map whose keys all hold 0 passes the last loop of [main]. *)
Lemma check_values_ok cm m :
  models cm m → (∀ k v, m !! k = Some v → v = 0) → check_values cm = Ret true.
Proof.
  intros (ls & Hr & _ & Hpl & Hm) Hz. unfold check_values.
  rewrite take_ge by (rewrite (rep_buck _ _ Hr); lia).
  apply check_buckets_ok with ls; [apply Hr|]. intros i b l Hb Hl.
  split; [by eapply rep_chain|]. apply Forall_forall. intros [x n] Hx. cbn [snd].
  destruct (is_free n) eqn:E; [by eapply rep_zero|].
  assert (Hin : (index n, value n) ∈ live l).
  { apply live_key. exists x, n. unfold is_key. by rewrite E, Z.eqb_refl. }
  apply (Hz (index n)). apply Hm. exists l. by rewrite (Hpl _ _ _ _ Hl Hin).
Qed.

(** C23. [main], when the bucket heads it mallocs read as [NULL]: the insertions
    succeed, and then for every interleaving of the calls of its increasing and
    decreasing threads, no call faults or fails; once the threads have ended,
    the check finds every value back at 0 and [cmap_free] frees every slot. *)
Theorem main_all_valid garbage bsize dsize total nthreads :
  0 < bsize < 2 ^ 31 → (∀ j, garbage j = None) →
  ∃ cm0, insert_keys total 0 (cmap_alloc garbage bsize dsize) = Ret (true, cm0) ∧
    ∀ cm pool, rtc thread_step (cm0, threads total nthreads) (cm, pool) →
      (∀ i c rest, pool !! i = Some (c :: rest) →
         ∃ idx cm', run_call cm c = Ret (idx, cm') ∧ 0 ≤ idx) ∧
      (Forall (eq []) pool → check_values cm = Ret true ∧ cmap_free cm = Ret ∅).
Proof.
  intros Hb Hg. pose proof (cmap_alloc_empty garbage bsize dsize Hb Hg) as H0.
  destruct (insert_keys_ok total 0 _ _ H0) as (cm0 & m0 & E & Hm0 & Hin & Hout); [done|].
  exists cm0. split; [done|]. intros cm pool Hrun.
  assert (Hz : ∀ k v, m0 !! k = Some v → v = 0).
  { intros k v Hk. destruct (decide (0 ≤ k < 0 + Z.of_nat total)) as [Hr|Hr].
    - rewrite (Hin k Hr) in Hk. congruence.
    - by rewrite (Hout k Hr) in Hk. }
  assert (Hinv : thread_inv m0 (cm, pool)).
  { eapply thread_inv_rtc; [done|]. split.
    - simpl. apply Forall_concat, Forall_concat, Forall_replicate. repeat constructor;
        apply Forall_fmap, Forall_forall; intros k Hk%elem_of_seq; simpl; rewrite Hin by lia; done.
    - exists m0. split; [done|]. intros k. simpl. rewrite threads_delta.
      destruct (m0 !! k) as [v|] eqn:Ek; simpl; [|done]. by rewrite (Hz _ _ Ek). }
  split.
  - intros i c rest Hi. destruct (thread_inv_step _ _ _ _ _ _ Hinv Hi) as (idx & cm' & ? & ? & _).
    by exists idx, cm'.
  - intros Hdone. destruct Hinv as (_ & m & Hm & Hv). simpl in *. split.
    + eapply check_values_ok; [done|]. intros k v. rewrite Hv.
      assert (concat pool = []) as -> by (clear -Hdone; by induction Hdone as [|? ? <-]).
      destruct (m0 !! k) as [v0|] eqn:Ek; simpl; [|done]. by rewrite (Hz _ _ Ek); intros [= <-].
    + destruct Hm as (ls & Hr & _). by eapply cmap_free_ok.
Qed.

(** ** Instances *)

Definition null_heads (j : nat) : ptr := None.

Lemma cmap_history_refines_witness :
  ∃ cm', run_ops (cmap_alloc null_heads 4 1)
           [OSet 1 10; OSet 5 50; OGet 1 (λ v, v + 1); ODel 5; OSet 5 51; OGet 1 id] =
         Ret ([None; None; Some 10; None; None; Some 11], cm') ∧
    models cm' {[1 := 11; 5 := 51]} ∧ run_op cm' (ODel 7) = Fault OutOfBounds ∧
    ∃ cm'', run_op cm' (OSet 1 12) = Ret (None, cm'') ∧ ∀ m, ~ models cm'' m.
Proof.
  destruct (cmap_history_refines (cmap_alloc null_heads 4 1) ∅
    [OSet 1 10; OSet 5 50; OGet 1 (λ v, v + 1); ODel 5; OSet 5 51; OGet 1 id]
    [None; None; Some 10; None; None; Some 11] {[1 := 11; 5 := 51]}) as (cm' & E & Hm & Ho);
    [apply cmap_alloc_empty; [lia|done]|reflexivity|].
  exists cm'. split; [exact E|]. split; [exact Hm|]. split.
  - exact (Ho (ODel 7) eq_refl).
  - exact (Ho (OSet 1 12) eq_refl).
Defined.

Lemma main_all_valid_witness :
  ∃ cm0, insert_keys 3 0 (cmap_alloc null_heads 2 1) = Ret (true, cm0) ∧
    ∀ cm pool, rtc thread_step (cm0, threads 3 2) (cm, pool) →
      (∀ i c rest, pool !! i = Some (c :: rest) →
         ∃ idx cm', run_call cm c = Ret (idx, cm') ∧ 0 ≤ idx) ∧
      (Forall (eq []) pool → check_values cm = Ret true ∧ cmap_free cm = Ret ∅).
Proof. apply main_all_valid; [lia|done]. Defined.

Lemma cmap_miss_out_of_bounds_witness :
  cmap_get (R:=Z) (cmap_alloc null_heads 4 1) 7 None = Fault OutOfBounds ∧
  cmap_del (cmap_alloc null_heads 4 1) 7 = Fault OutOfBounds.
Proof.
  apply (cmap_miss_out_of_bounds _ ∅); [apply cmap_alloc_empty; [lia|done]|reflexivity].
Defined.

(** The chain a bucket starts with ends in what [malloc] left in its head: with
    a stray pointer there, the first search walks into it. *)
Example cmap_alloc_stray_head :
  cmap_get (R:=Z) (cmap_alloc (λ _, Some 99%positive) 1 2) 7 None = Fault Dangling.
Proof. vm_compute. reflexivity. Qed.
