(* ===== verification/Channel.v ===== *)
(** * Bounded channels between a producer and a consumer thread

    The three queues of data-queue-channel and data-queue-concurrent have one
    protocol: [enqueue] and [dequeue] take the mutex, may wait on the one
    condition variable of the queue, and leave after they have changed the
    queue, perhaps with a signal. [Channel] is that protocol as the pieces
    between lock operations: [enter] runs from the lock to the wait or the
    return, [resume] from the wait to the return, with the locals the C code
    keeps across the wait as its context. [FifoLaws] is what a queue promises:
    it holds the items in order, waits exactly when full or empty, and signals
    when it leaves either state.

    The drivers [do_enqueue] and [do_dequeue] run over any [Channel] as a step
    relation on the pair of threads, one step per piece (the mutex is held for
    the whole of a piece). [pthread_cond_signal] wakes the other thread if it
    waits; [spurious] says whether [pthread_cond_wait] may also return by
    itself, as POSIX allows. *)

From Stdlib Require Import ZArith Lia.
From stdpp Require Import base tactics numbers list relations.
From S2P Require Import Prelude.
Local Open Scope Z_scope.

(** How a piece of a call ends: in the wait, with the locals that survive it;
    in [UNLOCK; continue]; or at the end of the call, with or without a
    signal, and with what the call returns. *)
Inductive piece_end (C Q R : Type) :=
  | Waits (c : C) (q : Q)
  | Retries (q : Q)
  | Leaves (sig : bool) (r : R) (q : Q).
Arguments Waits {C Q R} c q.
Arguments Retries {C Q R} q.
Arguments Leaves {C Q R} sig r q.

Class Channel (Q : Type) := {
  ectx : Type;
  dctx : Type;
  enq_enter : Q -> list Z -> outcome (piece_end ectx Q unit);
  enq_resume : ectx -> Q -> list Z -> outcome (piece_end ectx Q unit);
  deq_enter : Q -> list Z -> outcome (piece_end dctx Q (list Z));
  deq_resume : dctx -> Q -> list Z -> outcome (piece_end dctx Q (list Z));
}.

(** A queue of at most [cap] items of [dlen] bytes. [evalid c q]: the locals [c]
    of a waiting producer are still good for the queue [q]; likewise
    [dvalid]. *)
Class FifoLaws (Q : Type) {CQ : Channel Q} (cap dlen : nat) := {
  view : Q -> list (list Z) -> Prop;
  evalid : ectx -> Q -> Prop;
  dvalid : dctx -> Q -> Prop;
  cap_pos : (0 < cap)%nat;
  view_bound q xs : view q xs → (length xs ≤ cap)%nat;
  enq_enter_full q xs a : view q xs → length xs = cap →
    ∃ c, enq_enter q a = Ret (Waits c q) ∧ evalid c q;
  enq_enter_room q xs a : view q xs → (length xs < cap)%nat → length a = dlen →
    ∃ sig q', enq_enter q a = Ret (Leaves sig tt q') ∧ view q' (xs ++ [a]) ∧
      (xs = [] → sig = true) ∧ ∀ c, dvalid c q → dvalid c q';
  enq_resume_room c q xs a : evalid c q →
    view q xs → (length xs < cap)%nat → length a = dlen →
    ∃ sig q', enq_resume c q a = Ret (Leaves sig tt q') ∧ view q' (xs ++ [a]) ∧
      (xs = [] → sig = true) ∧ ∀ c, dvalid c q → dvalid c q';
  deq_enter_empty q b : view q [] →
    ∃ c, deq_enter q b = Ret (Waits c q) ∧ dvalid c q;
  deq_enter_item q x xs b : view q (x :: xs) → length b = dlen →
    ∃ sig q', deq_enter q b = Ret (Leaves sig x q') ∧ view q' xs ∧
      (length (x :: xs) = cap → sig = true) ∧ ∀ c, evalid c q → evalid c q';
  deq_resume_item c q x xs b : dvalid c q → view q (x :: xs) → length b = dlen →
    ∃ sig q', deq_resume c q b = Ret (Leaves sig x q') ∧ view q' xs ∧
      (length (x :: xs) = cap → sig = true) ∧ ∀ c, evalid c q → evalid c q';
}.

(** A queue that looks again after it wakes and starts over when nothing has
    changed. *)
Class FifoRechecks (Q : Type) (cap dlen : nat) `{FifoLaws Q cap dlen} : Prop := {
  enq_resume_full c q xs a : evalid c q → view q xs → length xs = cap →
    enq_resume c q a = Ret (Retries q);
  deq_resume_empty c q b : dvalid c q → view q [] → deq_resume c q b = Ret (Retries q);
}.

(** ** The drivers *)

(** [do_enqueue] with the items it has still to send; [do_dequeue] with its
    counter and its buffer, or the result it exited with. *)
Inductive pstate (C : Type) :=
  | PReady (todo : list (list Z))
  | PWaiting (c : C) (todo : list (list Z))
  | PWoken (c : C) (todo : list (list Z)).
Arguments PReady {C} todo.
Arguments PWaiting {C} c todo.
Arguments PWoken {C} c todo.

Inductive cstate (C : Type) :=
  | CReady (counter : Z) (td : list Z)
  | CWaiting (c : C) (counter : Z) (td : list Z)
  | CWoken (c : C) (counter : Z) (td : list Z)
  | CExit (result : Z).
Arguments CReady {C} counter td.
Arguments CWaiting {C} c counter td.
Arguments CWoken {C} c counter td.
Arguments CExit {C} result.

(** [testdata] in memory, and the items of the loop of [do_enqueue]. *)
Definition testdata (top bottom : Z) : list Z := le_bytes 4 top ++ le_bytes 4 bottom.
Definition td_top (td : list Z) : Z := le_val (take 4 td).
Definition td_bottom (td : list Z) : Z := le_val (take 4 (drop 4 td)).

Definition td_item (i : nat) : list Z :=
  testdata (u32 (Z.of_nat i + 1)) (u32 (Z.of_nat i - 1)).

Definition td_items (total : nat) : list (list Z) := td_item <$> seq 0 total.

(** The checks of [do_dequeue] on what it received: the result it exits with. *)
Definition td_check (counter : Z) (td : list Z) : option Z :=
  if negb (td_top td =? u32 (counter + 1)) then Some (-1)
  else if negb (td_bottom td =? u32 (counter - 1)) then Some (-2)
  else None.

Section drivers.
Context {Q : Type} {CQ : Channel Q} (total : Z).

Record sys := mkSys {
  queue : Q;
  producer : pstate ectx;
  consumer : cstate dctx;
}.

(** [LOCK_SIG_SEND] by the producer and by the consumer. *)
Definition wake_cons (sig : bool) (s : cstate dctx) : cstate dctx :=
  match s with
  | CWaiting c n td => if sig then CWoken c n td else s
  | _ => s
  end.

Definition wake_prod (sig : bool) (s : pstate ectx) : pstate ectx :=
  match s with
  | PWaiting c todo => if sig then PWoken c todo else s
  | _ => s
  end.

Definition prod_end (todo : list (list Z)) (s : sys) (e : piece_end ectx Q unit) : sys :=
  match e with
  | Waits c q => mkSys q (PWaiting c todo) (consumer s)
  | Retries q => mkSys q (PReady todo) (consumer s)
  | Leaves sig _ q => mkSys q (PReady (tail todo)) (wake_cons sig (consumer s))
  end.

Definition cons_end (n : Z) (td : list Z) (s : sys) (e : piece_end dctx Q (list Z)) : sys :=
  match e with
  | Waits c q => mkSys q (producer s) (CWaiting c n td)
  | Retries q => mkSys q (producer s) (CReady n td)
  | Leaves sig td' q =>
    mkSys q (wake_prod sig (producer s))
      (match td_check n td' with Some r => CExit r | None => CReady (n + 1) td' end)
  end.

(** The next piece of each thread; [None] when the thread waits or has ended. *)
Definition prod_step (s : sys) : option (outcome sys) :=
  match producer s with
  | PReady ((a :: _) as todo) => Some (e ← enq_enter (queue s) a; Ret (prod_end todo s e))
  | PWoken c ((a :: _) as todo) => Some (e ← enq_resume c (queue s) a; Ret (prod_end todo s e))
  | _ => None
  end.

Definition cons_step (s : sys) : option (outcome sys) :=
  match consumer s with
  | CReady n td =>
    if n <? total then Some (e ← deq_enter (queue s) td; Ret (cons_end n td s e)) else None
  | CWoken c n td => Some (e ← deq_resume c (queue s) td; Ret (cons_end n td s e))
  | _ => None
  end.

Inductive step (spurious : bool) : sys -> sys -> Prop :=
  | step_prod s s' : prod_step s = Some (Ret s') → step spurious s s'
  | step_cons s s' : cons_step s = Some (Ret s') → step spurious s s'
  | step_prod_spurious q c todo st : spurious = true →
    step spurious (mkSys q (PWaiting c todo) st) (mkSys q (PWoken c todo) st)
  | step_cons_spurious q st c n td : spurious = true →
    step spurious (mkSys q st (CWaiting c n td)) (mkSys q st (CWoken c n td)).

(** Both threads have ended, the consumer with all it asked for. *)
Definition final (s : sys) : Prop :=
  producer s = PReady [] ∧ ∃ td, consumer s = CReady total td.
End drivers.
Arguments sys Q {CQ}.

(** ** Delivery *)

Lemma length_td_item i : length (td_item i) = 8%nat.
Proof. reflexivity. Qed.

Lemma td_check_item i : td_check (Z.of_nat i) (td_item i) = None.
Proof.
  unfold td_check, td_item, testdata, td_top, td_bottom.
  rewrite take_app_length', drop_app_length' by (by rewrite length_le_bytes).
  rewrite take_ge by (rewrite length_le_bytes; lia).
  rewrite !le_val_le_bytes. change (8 * Z.of_nat 4) with 32.
  by rewrite !wrap_wrap, !Z.eqb_refl.
Qed.

Lemma lookup_td_items total n :
  (n < total)%nat → drop n (td_items total) = td_item n :: drop (S n) (td_items total).
Proof.
  intros H. apply drop_S. unfold td_items. rewrite list_lookup_fmap, lookup_seq_lt by done. done.
Qed.

Section delivery.
Context {Q : Type} {CQ : Channel Q} {cap : nat} {LQ : FifoLaws Q cap 8}.
Context (total : nat) (spurious : bool).
Context (Hrecheck : spurious = true → FifoRechecks Q cap 8).

Abbreviation step := (step (Z.of_nat total) spurious).
Abbreviation items := (td_items total).

Definition start (q : Q) : sys Q := mkSys q (PReady items) (CReady 0 (replicate 8 0)).

(** What holds between pieces: with [xs] in the queue and [todo] still to send,
    the items after the first [n] are [xs ++ todo]; a thread waits only while
    the queue is full, resp. empty. *)
Definition prod_inv (q : Q) (xs todo : list (list Z)) (s : pstate ectx) : Prop :=
  match s with
  | PReady todo' => todo' = todo
  | PWaiting c todo' => todo' = todo ∧ todo ≠ [] ∧ evalid c q ∧ length xs = cap
  | PWoken c todo' =>
    todo' = todo ∧ todo ≠ [] ∧ evalid c q ∧ (spurious = false → (length xs < cap)%nat)
  end.

Definition cons_inv (q : Q) (xs : list (list Z)) (n : nat) (s : cstate dctx) : Prop :=
  match s with
  | CReady n' td => n' = Z.of_nat n ∧ length td = 8%nat
  | CWaiting c n' td =>
    n' = Z.of_nat n ∧ length td = 8%nat ∧ (n < total)%nat ∧ dvalid c q ∧ xs = []
  | CWoken c n' td =>
    n' = Z.of_nat n ∧ length td = 8%nat ∧ (n < total)%nat ∧ dvalid c q ∧
    (spurious = false → xs ≠ [])
  | CExit _ => False
  end.

Definition sys_inv_at (xs todo : list (list Z)) (n : nat) (s : sys Q) : Prop :=
  view (queue s) xs ∧ (n ≤ total)%nat ∧ drop n items = xs ++ todo ∧
  prod_inv (queue s) xs todo (producer s) ∧ cons_inv (queue s) xs n (consumer s).

Definition sys_inv (s : sys Q) : Prop := ∃ xs todo n, sys_inv_at xs todo n s.

Lemma sys_inv_item xs a todo n : drop n items = xs ++ a :: todo → length a = 8%nat.
Proof.
  intros H. assert (Ha : a ∈ items).
  { assert (a ∈ drop n items) as Ha by (rewrite H; set_solver).
    rewrite <-(take_drop n items), elem_of_app. by right. }
  unfold td_items in Ha. apply list_elem_of_fmap in Ha as (i & -> & _). apply length_td_item.
Qed.

(** The consumer sees an item arrive. *)
Lemma cons_inv_push q q' xs a n sig s :
  cons_inv q xs n s → (xs = [] → sig = true) → (∀ c, dvalid c q → dvalid c q') →
  cons_inv q' (xs ++ [a]) n (wake_cons sig s).
Proof.
  intros H Hs Hd. destruct s as [m td|c m td|c m td|r]; simpl in *; [done| | |done].
  - destruct H as (? & ? & ? & ? & ->). rewrite Hs by done. simpl. eauto 10.
  - destruct H as (? & ? & ? & ? & H). split_and!; auto. by destruct xs.
Qed.

(** The producer sees an item leave. *)
Lemma prod_inv_pop q q' x xs todo sig s :
  (length (x :: xs) ≤ cap)%nat →
  prod_inv q (x :: xs) todo s → (length (x :: xs) = cap → sig = true) →
  (∀ c, evalid c q → evalid c q') → prod_inv q' xs todo (wake_prod sig s).
Proof.
  intros Hb H Hs Hd. destruct s as [l|c l|c l]; simpl in *; [done| |].
  - destruct H as (? & ? & ? & Hc). rewrite Hs by done. simpl. split_and!; auto with lia.
  - destruct H as (? & ? & ? & H). split_and!; auto with lia.
Qed.

(** What a producer's piece does when it runs. *)
Lemma prod_step_inv s xs todo n o :
  sys_inv_at xs todo n s → prod_step s = Some o →
  ∃ s' a todo', o = Ret s' ∧ todo = a :: todo' ∧
    ((sys_inv_at (xs ++ [a]) todo' n s' ∧ producer s' = PReady todo' ∧
      ∃ sig, consumer s' = wake_cons sig (consumer s)) ∨
     (sys_inv_at xs todo n s' ∧ consumer s' = consumer s ∧
      ((∃ c, producer s = PReady todo ∧ producer s' = PWaiting c todo) ∨ spurious = true))).
Proof.
  intros (Hv & Hn & Hd & Hp & Hc) Hstep.
  destruct s as [q p c]. cbn [queue producer consumer] in *. unfold prod_step in Hstep.
  cbn [queue producer consumer] in Hstep.
  pose proof (view_bound _ _ Hv) as Hb.
  destruct p as [[|a l]|ec l|ec [|a l]]; try done; simplify_eq/=.
  - destruct (decide (length xs = cap)) as [Hf|Hf].
    + destruct (enq_enter_full q xs a Hv Hf) as (ec & -> & He). simpl.
      eexists _, a, l. split; [done|]. split; [done|]. right.
      split; [|eauto]. repeat (split; [done|]). simpl. eauto.
    + destruct (enq_enter_room q xs a Hv) as (sig & q' & -> & Hv' & Hs & Hd'); [lia| |].
      { by eapply sys_inv_item. }
      simpl. eexists _, a, l. split; [done|]. split; [done|]. left. split; [|by eauto].
      split; [done|]. split; [done|]. split; [by rewrite <-app_assoc|]. split; [done|].
      by eapply cons_inv_push.
  - destruct Hp as (<- & _ & He & Hroom).
    destruct (decide (length xs = cap)) as [Hf|Hf].
    + destruct spurious eqn:Hsp; [|specialize (Hroom eq_refl); lia].
      pose proof (Hrecheck eq_refl). rewrite (enq_resume_full ec q xs a He Hv Hf). simpl.
      eexists _, a, l. split; [done|]. split; [done|]. right.
      split; [|eauto]. repeat (split; [done|]). done.
    + destruct (enq_resume_room ec q xs a He Hv) as (sig & q' & -> & Hv' & Hs & Hd'); [lia| |].
      { by eapply sys_inv_item. }
      simpl. eexists _, a, l. split; [done|]. split; [done|]. left. split; [|by eauto].
      split; [done|]. split; [done|]. split; [by rewrite <-app_assoc|]. split; [done|].
      by eapply cons_inv_push.
Qed.

(** What a consumer's piece does when it runs. *)
Lemma cons_step_inv s xs todo n o :
  sys_inv_at xs todo n s → cons_step (Z.of_nat total) s = Some o →
  ∃ s', o = Ret s' ∧ (n < total)%nat ∧
    ((∃ x xs' td, xs = x :: xs' ∧ sys_inv_at xs' todo (S n) s' ∧
        consumer s' = CReady (Z.of_nat n + 1) td ∧
        ∃ sig, producer s' = wake_prod sig (producer s)) ∨
     (sys_inv_at xs todo n s' ∧ producer s' = producer s ∧
      ((∃ c td, consumer s = CReady (Z.of_nat n) td ∧
          consumer s' = CWaiting c (Z.of_nat n) td) ∨ spurious = true))).
Proof.
  intros (Hv & Hn & Hd & Hp & Hc) Hstep.
  destruct s as [q p c]. cbn [queue producer consumer] in *. unfold cons_step in Hstep.
  cbn [queue producer consumer] in Hstep.
  pose proof (view_bound _ _ Hv) as Hb.
  assert (Hpop : ∀ x xs' sig q', xs = x :: xs' → view q' xs' →
    (length xs = cap → sig = true) → (∀ c, evalid c q → evalid c q') → (n < total)%nat →
    let s' := cons_end (Z.of_nat n) (td_item 0) (mkSys q p c) (Leaves sig x q') in
    sys_inv_at xs' todo (S n) s' ∧ consumer s' = CReady (Z.of_nat n + 1) x ∧
    ∃ sig, producer s' = wake_prod sig p).
  { intros x xs' sig q' -> Hv' Hs He Hlt. rewrite (lookup_td_items _ _ Hlt) in Hd.
    injection Hd as <- Hd. simpl. rewrite td_check_item. split; [|by eauto].
    split; [done|]. split; [simpl; lia|]. split; [done|]. split; [by eapply prod_inv_pop|].
    split; [cbn; lia|done]. }
  destruct c as [m td|dc m td|dc m td|r]; try done.
  - destruct Hc as [-> Htd]. destruct (Z.ltb_spec (Z.of_nat n) (Z.of_nat total)); [|done].
    simplify_eq/=. destruct xs as [|x xs].
    + destruct (deq_enter_empty q td Hv) as (dc & -> & Hdv). simpl.
      eexists. split; [done|]. split; [lia|]. right.
      split; [|split; [done|left; by exists dc, td]].
      repeat (split; [done|]). split_and!; auto with lia.
    + destruct (deq_enter_item q x xs td Hv Htd) as (sig & q' & -> & Hv' & Hs & He).
      eexists. split; [done|]. split; [lia|]. left. exists x, xs, x. split; [done|].
      apply (Hpop x xs sig q'); auto with lia.
  - destruct Hc as (-> & Htd & Hlt & Hdv & Hne). simplify_eq/=. destruct xs as [|x xs].
    + destruct spurious eqn:Hsp; [|by destruct (Hne eq_refl)].
      pose proof (Hrecheck eq_refl). rewrite (deq_resume_empty dc q td Hdv Hv). simpl.
      eexists. split; [done|]. split; [lia|]. right.
      split; [|split; [done|by right]]. repeat (split; [done|]). done.
    + destruct (deq_resume_item dc q x xs td Hdv Hv Htd) as (sig & q' & -> & Hv' & Hs & He).
      eexists. split; [done|]. split; [lia|]. left. exists x, xs, x. split; [done|].
      apply (Hpop x xs sig q'); auto with lia.
Qed.

Lemma sys_inv_step s s' : sys_inv s → step s s' → sys_inv s'.
Proof.
  intros (xs & todo & n & Hinv) Hst.
  destruct Hst as [s1 s2 Hs|s1 s2 Hs|q c l st Hsp|q st c m td Hsp].
  - destruct (prod_step_inv _ _ _ _ _ Hinv Hs) as (s3 & a & l & [= <-] & _ & [[? _]|[? _]]);
      by eexists _, _, _.
  - destruct (cons_step_inv _ _ _ _ _ Hinv Hs)
      as (s3 & [= <-] & _ & [(?&?&?&_&?&_)|[? _]]); by eexists _, _, _.
  - exists xs, todo, n. destruct Hinv as (? & ? & ? & (? & ? & ? & ?) & ?).
    unfold sys_inv_at. simpl. split_and!; auto. by rewrite Hsp.
  - exists xs, todo, n. destruct Hinv as (? & ? & ? & ? & (? & ? & ? & ? & ?)).
    unfold sys_inv_at. simpl. split_and!; auto. by rewrite Hsp.
Qed.

Lemma sys_inv_start q : view q [] → sys_inv (start q).
Proof. intros Hv. exists [], items, 0%nat. repeat (split; [done || simpl; lia|]). done. Qed.

Lemma sys_inv_reach q s : view q [] → rtc step (start q) s → sys_inv s.
Proof.
  intros Hv Hr. apply sys_inv_start in Hv. induction Hr; eauto using sys_inv_step.
Qed.

(** Some thread can run until both have ended. *)
Lemma sys_inv_progress s :
  sys_inv s → final (Z.of_nat total) s ∨
    (∃ s', prod_step s = Some (Ret s') ∨ cons_step (Z.of_nat total) s = Some (Ret s')).
Proof.
  intros (xs & todo & n & Hinv).
  destruct (cons_step (Z.of_nat total) s) as [o|] eqn:Hcs.
  { destruct (cons_step_inv _ _ _ _ _ Hinv Hcs) as (s' & -> & _). eauto. }
  destruct (prod_step s) as [o|] eqn:Hps.
  { destruct (prod_step_inv _ _ _ _ _ Hinv Hps) as (s' & ? & ? & -> & _). eauto. }
  left. destruct Hinv as (Hv & Hn & Hd & Hp & Hc). pose proof cap_pos as Hcap.
  unfold final, prod_step, cons_step in *. destruct s as [q p c]; cbn [queue producer consumer] in *.
  destruct c as [m td|dc m td|dc m td|r]; try done.
  - destruct Hc as [-> Htd]. destruct (Z.ltb_spec (Z.of_nat n) (Z.of_nat total)); [done|].
    assert (n = total) as -> by lia. rewrite drop_ge in Hd
      by (unfold td_items; rewrite length_fmap, length_seq; lia).
    symmetry in Hd. apply app_eq_nil in Hd as [-> ->].
    destruct p as [l|ec l|ec l]; simpl in Hp; [by subst; eauto|by destruct_and?..].
  - destruct Hc as (-> & Htd & Hlt & Hdv & ->). exfalso.
    rewrite (lookup_td_items _ _ Hlt) in Hd. simpl in Hd. subst todo.
    destruct p as [l|ec l|ec l]; simpl in Hp; [by subst| |by destruct Hp as (-> & _)].
    destruct Hp as (_ & _ & _ & Hl). simpl in Hl. lia.
Qed.

(** Work left: three per item and thread, less the progress of a waiting call. *)
Definition work (s : sys Q) : nat :=
  match producer s with
  | PReady l => 3 * length l + 2
  | PWaiting _ l => 3 * length l + 1
  | PWoken _ l => 3 * length l
  end +
  match consumer s with
  | CReady n _ => 3 * (total - Z.to_nat n) + 2
  | CWaiting _ n _ => 3 * (total - Z.to_nat n) + 1
  | CWoken _ n _ => 3 * (total - Z.to_nat n)
  | CExit _ => 0
  end.

Lemma work_step s s' : spurious = false → sys_inv s → step s s' → (work s' < work s)%nat.
Proof.
  intros Hsp (xs & todo & n & Hinv) Hst.
  destruct Hst as [s1 s2 Hs|s1 s2 Hs|q c l st Hsp'|q st c m td Hsp']; [| |congruence..].
  - destruct (prod_step_inv _ _ _ _ _ Hinv Hs) as (s3 & a & l & [= <-] & -> & Hcase).
    destruct Hinv as (_ & _ & _ & Hp & _). unfold work.
    destruct Hcase as [(_ & -> & sig & ->)|(_ & -> & [(c & -> & ->)|?])]; [|lia|congruence].
    assert (Hw : match producer s1 with PReady l' | PWaiting _ l' | PWoken _ l' => l' = a :: l end)
      by (destruct (producer s1); simpl in Hp; destruct_and?; done).
    destruct (producer s1), (consumer s1), sig; simpl in *; subst; simpl; lia.
  - destruct (cons_step_inv _ _ _ _ _ Hinv Hs) as (s3 & [= <-] & Hlt & Hcase).
    destruct Hinv as (_ & _ & _ & _ & Hc). unfold work.
    destruct Hcase as [(x & xs' & td & _ & _ & -> & sig & ->)|(_ & -> & [(c & td & -> & ->)|?])];
      [|lia|congruence].
    destruct (producer s1), (consumer s1), sig; simpl in Hc; try done; destruct_and?; subst; simpl; lia.
Qed.

(** What a producer and a consumer over the queue are promised. *)
Record delivers (q : Q) : Prop := {
  (** no piece of a call faults *)
  delivers_safe s o : rtc step (start q) s →
    prod_step s = Some o ∨ cons_step (Z.of_nat total) s = Some o → ∃ s', o = Ret s';
  (** the consumer never sees a wrong item *)
  delivers_fifo s r : rtc step (start q) s → consumer s ≠ CExit r;
  (** no deadlock, and no wake-up out of the blue is needed *)
  delivers_progress s : rtc step (start q) s → final (Z.of_nat total) s ∨
    ∃ s', prod_step s = Some (Ret s') ∨ cons_step (Z.of_nat total) s = Some (Ret s');
  (** without such wake-ups, both threads end after boundedly many pieces *)
  delivers_ends k s : spurious = false → nsteps step k (start q) s → (k ≤ 6 * total + 4)%nat;
}.

Lemma fifo_delivers q : view q [] → delivers q.
Proof.
  intros Hv. split.
  - intros s o Hr Ho. destruct (sys_inv_reach _ _ Hv Hr) as (xs & todo & n & Hinv).
    destruct Ho as [Ho|Ho].
    + destruct (prod_step_inv _ _ _ _ _ Hinv Ho) as (s' & _ & _ & -> & _). eauto.
    + destruct (cons_step_inv _ _ _ _ _ Hinv Ho) as (s' & -> & _). eauto.
  - intros s r Hr. destruct (sys_inv_reach _ _ Hv Hr) as (xs & todo & n & _ & _ & _ & _ & Hc).
    by destruct (consumer s).
  - intros s Hr. apply sys_inv_progress. by eapply sys_inv_reach.
  - intros k s Hsp Hk. assert (Hw : (k + work s ≤ work (start q))%nat).
    { pose proof (sys_inv_start _ Hv) as Hinv. clear Hv. revert Hinv.
      induction Hk as [|k s1 s2 s3 H1 _ IH]; [lia|]. intros Hinv.
      pose proof (work_step _ _ Hsp Hinv H1). specialize (IH (sys_inv_step _ _ Hinv H1)). lia. }
    unfold work, start, td_items in Hw. simpl in Hw. rewrite length_fmap, length_seq in Hw. lia.
Qed.
End delivery.
