(* ===== verification/Ring.v ===== *)
(** * The ring buffer of static.c and chan.c

    Both queues keep [limit] nodes in an array, each with a buffer of its own
    and an in-use mark, and two 32-bit counters taken modulo [limit]. The mark
    tells a full ring from an empty one where the counters agree. This file has
    the structures, what [enqueue] and [dequeue] do after their wait, and the
    representation: [H] items have ever been taken, [H + length xs] put. The
    wait itself differs and is in StaticQueue and Chan. The counters wrap at
    2^32, so the representation needs [limit] to divide 2^32, as the
    [BUFFSIZE] of the sources does. *)

From Stdlib Require Import ZArith Lia Znumtheory.
From stdpp Require Import base tactics numbers list.
From S2P Require Import Prelude Channel.
Local Open Scope Z_scope.

Record node := mkNode {
  in_use : Z;
  datalen : Z;
  ndata : list Z;
}.

Record bucket := mkBucket {
  limit : Z;
  arr : list node;
  head : Z;
  tail : Z;
}.

Definition set_node (q : bucket) (i : Z) (n : node) : outcome bucket :=
  a ← awrite (arr q) i n; Ret (mkBucket (limit q) a (head q) (tail q)).

(** The node array of [make_queue]; [fresh i] is what [malloc] returned for
    node [i]. *)
Definition make_nodes (fresh : nat -> list Z) (dlen : Z) (max : nat) : list node :=
  (λ i, mkNode 0 dlen (fresh i)) <$> seq 0 max.

(** The buffers that [delete_queue] frees, in its order. *)
Definition delete_queue (q : option bucket) : outcome (list (list Z)) :=
  match q with
  | None => Ret []
  | Some q =>
    foldr (λ i k, n ← aread (arr q) i; l ← k; Ret (ndata n :: l)) (Ret [])
      (Z.of_nat <$> seq 0 (Z.to_nat (limit q)))
  end.

(** [(hidx == tidx) && (q->arr[hidx].in_use == 1)], read in this order. *)
Definition meets_used (q : bucket) (hidx tidx : Z) : outcome bool :=
  if hidx =? tidx then n ← aread (arr q) hidx; Ret (in_use n =? 1) else Ret false.

(** [(hidx == tidx) && (q->arr[hidx].in_use != 1)]. *)
Definition meets_free (q : bucket) (hidx tidx : Z) : outcome bool :=
  if hidx =? tidx then n ← aread (arr q) hidx; Ret (negb (in_use n =? 1)) else Ret false.

(** [enqueue] from its [memcpy] on. *)
Definition enqueue_finish {C} (q : bucket) (hidx tidx : Z) (data : list Z)
    : outcome (piece_end C bucket unit) :=
  n ← aread (arr q) tidx;
  d ← memcpy (ndata n) data (datalen n);
  q ← set_node q tidx (mkNode (in_use n) (datalen n) d);
  sig ← meets_free q hidx tidx;
  n ← aread (arr q) tidx;
  q ← set_node q tidx (mkNode 1 (datalen n) (ndata n));
  Ret (Leaves sig tt (mkBucket (limit q) (arr q) (head q) (u32 (tail q + 1)))).

(** [dequeue] from its [memcpy] on; it returns what [data] then holds. *)
Definition dequeue_finish {C} (q : bucket) (hidx tidx : Z) (data : list Z)
    : outcome (piece_end C bucket (list Z)) :=
  n ← aread (arr q) hidx;
  d ← memcpy data (ndata n) (datalen n);
  sig ← meets_used q hidx tidx;
  n ← aread (arr q) hidx;
  q ← set_node q hidx (mkNode 0 (datalen n) (ndata n));
  Ret (Leaves sig d (mkBucket (limit q) (arr q) (u32 (head q + 1)) (tail q))).

(** ** Representation *)

Definition slot (cap : nat) (z : Z) : nat := Z.to_nat (z mod Z.of_nat cap).

(** What the node [j] places after the head holds. *)
Definition node_view (xs : list (list Z)) (j : nat) (n : node) : Prop :=
  match xs !! j with
  | Some x => in_use n = 1 ∧ ndata n = x
  | None => in_use n ≠ 1
  end.

Record ring (cap dlen : nat) (H : Z) (q : bucket) (xs : list (list Z)) : Prop := {
  ring_cap : (0 < cap)%nat;
  ring_div : (Z.of_nat cap | 2 ^ 32);
  ring_limit : limit q = Z.of_nat cap;
  ring_arr : length (arr q) = cap;
  ring_len : (length xs ≤ cap)%nat;
  ring_head : head q = u32 H;
  ring_tail : tail q = u32 (H + Z.of_nat (length xs));
  ring_buf : Forall (λ n, datalen n = Z.of_nat dlen ∧ length (ndata n) = dlen) (arr q);
  ring_nodes : ∀ j, (j < cap)%nat →
    ∃ n, arr q !! slot cap (H + Z.of_nat j) = Some n ∧ node_view xs j n;
}.

Lemma u32_mod_div cap z : (0 < cap) → (cap | 2 ^ 32) → u32 z mod cap = z mod cap.
Proof. intros Hc Hd. unfold wrap. by apply Z.mod_mod_divide. Qed.

Lemma slot_inj cap H i j :
  (i < cap)%nat → (j < cap)%nat →
  slot cap (H + Z.of_nat i) = slot cap (H + Z.of_nat j) → i = j.
Proof.
  intros Hi Hj. unfold slot. intros E.
  apply Z2Nat.inj in E; [|apply Z.mod_pos_bound; lia..].
  pose proof (Z.div_mod (H + Z.of_nat i) (Z.of_nat cap)).
  pose proof (Z.div_mod (H + Z.of_nat j) (Z.of_nat cap)).
  assert (Z.of_nat cap * ((H + Z.of_nat i) / Z.of_nat cap - (H + Z.of_nat j) / Z.of_nat cap) =
    Z.of_nat i - Z.of_nat j) by lia.
  assert ((H + Z.of_nat i) / Z.of_nat cap - (H + Z.of_nat j) / Z.of_nat cap = 0) by nia.
  nia.
Qed.

Lemma slot_cap cap H : slot cap (H + Z.of_nat cap) = slot cap H.
Proof.
  unfold slot. destruct (decide (cap = 0%nat)) as [->|]; [by rewrite Z.add_0_r|].
  f_equal. rewrite <-(Z.mod_add H 1 (Z.of_nat cap)) by lia. f_equal. lia.
Qed.

Lemma slot_Z cap z : (0 < cap)%nat → Z.to_nat (z mod Z.of_nat cap) = slot cap z ∧ 0 ≤ z mod Z.of_nat cap.
Proof. intros. split; [done|]. apply Z.mod_pos_bound. lia. Qed.

Section ring.
Context {cap dlen : nat} {H : Z} {q : bucket} {xs : list (list Z)}.
Context (R : ring cap dlen H q xs).

Abbreviation hidx := (H mod Z.of_nat cap).
Abbreviation tidx := ((H + Z.of_nat (length xs)) mod Z.of_nat cap).

Lemma ring_hidx : umod (head q) (limit q) = Ret hidx.
Proof.
  destruct R. rewrite ring_limit0, umod_pos, ring_head0, u32_mod_div by (done || lia). done.
Qed.

Lemma ring_tidx : umod (tail q) (limit q) = Ret tidx.
Proof.
  destruct R. rewrite ring_limit0, umod_pos, ring_tail0, u32_mod_div by (done || lia). done.
Qed.

(** Reading a node by its distance from the head. *)
Lemma ring_read j : (j < cap)%nat →
  ∃ n, aread (arr q) ((H + Z.of_nat j) mod Z.of_nat cap) = Ret n ∧
    arr q !! slot cap (H + Z.of_nat j) = Some n ∧ node_view xs j n ∧
    datalen n = Z.of_nat dlen ∧ length (ndata n) = dlen.
Proof.
  intros Hj. destruct (ring_nodes _ _ _ _ _ R j Hj) as (n & Hn & Hv). exists n.
  destruct (slot_Z cap (H + Z.of_nat j)) as [E Hz]; [lia|].
  split_and!; [|done|done|..]; [by apply aread_Some|..];
    by destruct (proj1 (Forall_lookup _ _) (ring_buf _ _ _ _ _ R) _ _ Hn).
Qed.

(** The counters meet exactly on an empty and on a full ring. *)
Lemma ring_meet : hidx = tidx ↔ xs = [] ∨ length xs = cap.
Proof.
  pose proof (ring_cap _ _ _ _ _ R) as Hc. pose proof (ring_len _ _ _ _ _ R) as Hl. split.
  - intros E. destruct (decide (length xs = cap)) as [|Hne]; [by right|left].
    assert (0%nat = length xs) as Hz; [|by destruct xs].
    apply (slot_inj cap H); [lia..|]. unfold slot. by rewrite Z.add_0_r, E.
  - intros [->|E]; [by rewrite Z.add_0_r|]. rewrite E.
    destruct (slot_Z cap H Hc), (slot_Z cap (H + Z.of_nat cap) Hc).
    apply Z2Nat.inj; [done..|]. apply (eq_sym (slot_cap cap H)).
Qed.

Lemma ring_in_use j n : node_view xs j n → (in_use n =? 1) = bool_decide (j < length xs)%nat.
Proof.
  unfold node_view. destruct (xs !! j) as [x|] eqn:E.
  - intros [-> _]. apply lookup_lt_Some in E. by rewrite bool_decide_eq_true_2.
  - intros Hn. apply lookup_ge_None in E. rewrite bool_decide_eq_false_2 by lia.
    by apply Z.eqb_neq.
Qed.

Lemma meets_head : ∃ n, aread (arr q) hidx = Ret n ∧ (in_use n =? 1) = bool_decide (xs ≠ []).
Proof.
  destruct (ring_read 0 (ring_cap _ _ _ _ _ R)) as (n & Hn & _ & Hv & _).
  rewrite Z.add_0_r in Hn. exists n. split; [done|]. rewrite (ring_in_use _ _ Hv).
  apply bool_decide_ext. destruct xs; simpl; split; try done; lia.
Qed.

Lemma meets_used_full : meets_used q hidx tidx = Ret (bool_decide (length xs = cap)).
Proof.
  pose proof (ring_cap _ _ _ _ _ R) as Hc.
  unfold meets_used. destruct (Z.eqb_spec hidx tidx) as [E|E].
  - destruct meets_head as (n & -> & Hu). simpl. rewrite Hu. f_equal. apply bool_decide_ext.
    apply ring_meet in E as [->|E]; [simpl; split; [done|lia]|].
    split; [done|]. intros _ ->. simpl in E. lia.
  - rewrite bool_decide_eq_false_2; [done|]. intros ?. apply E, ring_meet. by right.
Qed.

Lemma meets_free_empty : meets_free q hidx tidx = Ret (bool_decide (xs = [])).
Proof.
  pose proof (ring_cap _ _ _ _ _ R) as Hc.
  unfold meets_free. destruct (Z.eqb_spec hidx tidx) as [E|E].
  - destruct meets_head as (n & -> & Hu). simpl. rewrite Hu. f_equal.
    destruct (decide (xs = [])) as [Hx|Hx].
    + rewrite bool_decide_eq_false_2, bool_decide_eq_true_2 by auto. done.
    + rewrite bool_decide_eq_true_2, bool_decide_eq_false_2 by done. done.
  - rewrite bool_decide_eq_false_2; [done|]. intros ?. apply E, ring_meet. by left.
Qed.
End ring.

Lemma Forall_buf_insert dlen (a : list node) i n :
  Forall (λ n, datalen n = Z.of_nat dlen ∧ length (ndata n) = dlen) a →
  datalen n = Z.of_nat dlen → length (ndata n) = dlen →
  Forall (λ n, datalen n = Z.of_nat dlen ∧ length (ndata n) = dlen) (<[i := n]> a).
Proof. intros. apply Forall_insert; auto. Qed.

Lemma ring_push cap dlen H q xs a :
  ring cap dlen H q xs → (length xs < cap)%nat → length a = dlen →
  ring cap dlen H
    (mkBucket (limit q)
       (<[slot cap (H + Z.of_nat (length xs)) := mkNode 1 (Z.of_nat dlen) a]> (arr q))
       (head q) (u32 (tail q + 1))) (xs ++ [a]).
Proof.
  intros R Hlt Ha. destruct R as [Hc Hd Hli Har Hle Hhd Htl Hbuf Hn].
  split; cbn [limit arr head tail]; rewrite ?length_insert, ?length_app; try done.
  - simpl. lia.
  - rewrite Htl, wrap_add_l. f_equal. simpl. lia.
  - by apply Forall_buf_insert.
  - intros j Hj. destruct (Hn j Hj) as (n & Hnj & Hv).
    destruct (decide (j = length xs)) as [->|Hne].
    + eexists. split; [apply list_lookup_insert_eq; by eapply lookup_lt_Some|].
      unfold node_view. by rewrite list_lookup_middle.
    + exists n. split.
      * rewrite list_lookup_insert_ne; [done|]. intros E. apply Hne. symmetry.
        by eapply slot_inj.
      * unfold node_view in *. destruct (decide (j < length xs)%nat).
        -- by rewrite lookup_app_l.
        -- rewrite lookup_ge_None_2 in Hv by lia.
           rewrite lookup_ge_None_2 by (rewrite length_app; simpl; lia). done.
Qed.

Lemma ring_pop cap dlen H q x xs n :
  ring cap dlen H q (x :: xs) → arr q !! slot cap H = Some n →
  ring cap dlen (H + 1)
    (mkBucket (limit q) (<[slot cap H := mkNode 0 (datalen n) (ndata n)]> (arr q))
       (u32 (head q + 1)) (tail q)) xs.
Proof.
  intros R Hx. destruct R as [Hc Hd Hli Har Hle Hhd Htl Hbuf Hn]. simpl in Hle.
  split; cbn [limit arr head tail]; rewrite ?length_insert; try done.
  - lia.
  - by rewrite Hhd, wrap_add_l.
  - rewrite Htl. f_equal. simpl. lia.
  - apply (proj1 (Forall_lookup _ _) Hbuf) in Hx as Hb.
    by apply Forall_buf_insert; [|apply Hb..].
  - intros j Hj. destruct (decide (S j = cap)) as [Ej|Ej].
    + replace (H + 1 + Z.of_nat j) with (H + Z.of_nat cap) by lia. rewrite slot_cap.
      eexists. split; [apply list_lookup_insert_eq; by eapply lookup_lt_Some|].
      unfold node_view. by rewrite lookup_ge_None_2 by lia.
    + destruct (Hn (S j)) as (m & Hm & Hv); [lia|]. exists m.
      replace (H + 1 + Z.of_nat j) with (H + Z.of_nat (S j)) by lia. split; [|done].
      rewrite list_lookup_insert_ne; [done|]. intros E.
      assert (0 = S j)%nat; [|lia]. eapply (slot_inj cap H); [lia..|]. by rewrite Z.add_0_r.
Qed.

(** [enqueue] after its wait: [tidx] is current; [hidx] is current or, after a
    wait, equal to [tidx]. *)
Lemma enqueue_finish_ok {C} cap dlen H q xs a h t :
  ring cap dlen H q xs → (length xs < cap)%nat → length a = dlen →
  t = (H + Z.of_nat (length xs)) mod Z.of_nat cap → h = H mod Z.of_nat cap ∨ h = t →
  ∃ sig q', enqueue_finish (C:=C) q h t a = Ret (Leaves sig tt q') ∧
    ring cap dlen H q' (xs ++ [a]) ∧ (xs = [] → sig = true) ∧
    head q' = head q ∧ limit q' = limit q.
Proof.
  intros R Hlt Ha -> Hh. pose proof (ring_push _ _ _ _ _ _ R Hlt Ha) as Hpush.
  destruct (ring_read R _ Hlt) as (n & Hread & Hn & Hv & Hdl & Hlen).
  destruct (slot_Z cap (H + Z.of_nat (length xs)) (ring_cap _ _ _ _ _ R)) as [Es Hz].
  unfold enqueue_finish, set_node. rewrite Hread. simpl.
  rewrite (memcpy_all _ _ _) by lia. simpl.
  rewrite (awrite_Some _ _ _ _ Hz Hn). cbn [mbind outcome_bind arr limit head tail].
  assert (Hs : ∃ sig, meets_free (mkBucket (limit q)
      (<[Z.to_nat ((H + Z.of_nat (length xs)) mod Z.of_nat cap) := mkNode (in_use n) (datalen n) a]> (arr q))
      (head q) (tail q)) h ((H + Z.of_nat (length xs)) mod Z.of_nat cap) = Ret sig ∧
      (xs = [] → sig = true)).
  { unfold meets_free. destruct (Z.eqb_spec h ((H + Z.of_nat (length xs)) mod Z.of_nat cap)) as [->|Hne].
    - cbn [arr]. erewrite aread_Some by (done || apply list_lookup_insert_eq; by eapply lookup_lt_Some).
      simpl. rewrite (ring_in_use _ _ Hv), bool_decide_eq_false_2 by lia. by eexists.
    - eexists. split; [done|]. intros ->. destruct Hh as [->|?]; [|done].
      by rewrite Z.add_0_r in Hne. }
  destruct Hs as (sig & -> & Hsig). simpl.
  erewrite aread_Some by (done || apply list_lookup_insert_eq; by eapply lookup_lt_Some). simpl.
  erewrite awrite_Some by (done || apply list_lookup_insert_eq; by eapply lookup_lt_Some). simpl.
  rewrite list_insert_insert_eq, Hdl. eexists _, _. split; [done|]. by split_and!.
Qed.

(** [dequeue] after its wait: [hidx] is current; [tidx] is current or, after a
    wait, equal to [hidx]. *)
Lemma dequeue_finish_ok {C} cap dlen H q x xs b h t :
  ring cap dlen H q (x :: xs) → length b = dlen → h = H mod Z.of_nat cap →
  t = (H + Z.of_nat (length (x :: xs))) mod Z.of_nat cap ∨ t = h →
  ∃ sig q', dequeue_finish (C:=C) q h t b = Ret (Leaves sig x q') ∧
    ring cap dlen (H + 1) q' xs ∧ (length (x :: xs) = cap → sig = true) ∧
    tail q' = tail q ∧ limit q' = limit q.
Proof.
  intros R Hb -> Ht. destruct (ring_read R 0 (ring_cap _ _ _ _ _ R)) as (n & Hread & Hn & Hv & Hdl & Hlen).
  rewrite Z.add_0_r in Hread, Hn. pose proof (ring_pop _ _ _ _ _ _ _ R Hn) as Hpop.
  destruct (slot_Z cap H (ring_cap _ _ _ _ _ R)) as [Es Hz].
  destruct Hv as [Hu Hx]. unfold dequeue_finish, set_node. rewrite Hread. simpl.
  rewrite (memcpy_all _ _ _) by lia. simpl.
  assert (Hs : ∃ sig, meets_used q (H mod Z.of_nat cap) t = Ret sig ∧ (length (x :: xs) = cap → sig = true)).
  { unfold meets_used. destruct (Z.eqb_spec (H mod Z.of_nat cap) t) as [E|Hne].
    - rewrite Hread. simpl. rewrite Hu. by eexists.
    - eexists. split; [done|]. intros E. destruct Hne. destruct Ht as [-> | ->]; [|done].
      apply (ring_meet R). by right. }
  destruct Hs as (sig & -> & Hsig). simpl.
  rewrite (awrite_Some _ _ _ _ Hz Hn). simpl. rewrite Hx in *. eexists _, _.
  split; [done|]. by split_and!.
Qed.

(** ** Waiting *)

(** The locals of a waiting [enqueue]: both are the tail's index, which the
    consumer does not move; of a waiting [dequeue], the head's. *)
Definition at_tail (c : Z * Z) (q : bucket) : Prop := c.1 = c.2 ∧ c.2 = tail q mod limit q.
Definition at_head (c : Z * Z) (q : bucket) : Prop := c.1 = c.2 ∧ c.1 = head q mod limit q.

Definition ring_view (cap dlen : nat) (q : bucket) (xs : list (list Z)) : Prop :=
  ∃ H, ring cap dlen H q xs.

Lemma umod_Ret a b c : umod a b = Ret c → c = a mod b.
Proof. unfold umod. case_match; congruence. Qed.

Lemma at_tail_ring cap dlen H q xs c :
  ring cap dlen H q xs → at_tail c q → c.1 = c.2 ∧ c.2 = (H + Z.of_nat (length xs)) mod Z.of_nat cap.
Proof. intros R [E1 E2]. split; [done|]. by rewrite E2, <-(umod_Ret _ _ _ (ring_tidx R)). Qed.

Lemma at_head_ring cap dlen H q xs c :
  ring cap dlen H q xs → at_head c q → c.1 = c.2 ∧ c.1 = H mod Z.of_nat cap.
Proof. intros R [E1 E2]. split; [done|]. by rewrite E2, <-(umod_Ret _ _ _ (ring_hidx R)). Qed.

(** What the second look sees. *)
Lemma meets_used_at_tail cap dlen H q xs c :
  ring cap dlen H q xs → at_tail c q →
  meets_used q c.1 c.2 = Ret (bool_decide (length xs = cap)).
Proof.
  intros R Hc. pose proof (ring_len _ _ _ _ _ R). pose proof (ring_cap _ _ _ _ _ R).
  destruct (at_tail_ring _ _ _ _ _ _ R Hc) as [-> Et]. unfold meets_used. rewrite Z.eqb_refl.
  destruct (decide (length xs = cap)) as [E|E].
  - replace c.2 with (H mod Z.of_nat cap)
      by (rewrite Et; apply (ring_meet R); by right).
    destruct (meets_head R) as (n & -> & Hu). simpl. rewrite Hu, !bool_decide_eq_true_2; [done..|].
    intros ->. simpl in E. lia.
  - destruct (ring_read R (length xs)) as (n & Hr & _ & Hv & _); [lia|]. rewrite Et, Hr. simpl.
    by rewrite (ring_in_use _ _ Hv), !bool_decide_eq_false_2 by lia.
Qed.

Lemma meets_free_at_head cap dlen H q xs c :
  ring cap dlen H q xs → at_head c q → meets_free q c.1 c.2 = Ret (bool_decide (xs = [])).
Proof.
  intros R Hc. destruct (at_head_ring _ _ _ _ _ _ R Hc) as [E1 E2].
  unfold meets_free. rewrite E1, Z.eqb_refl, <-E1, E2.
  destruct (meets_head R) as (n & -> & Hu). simpl. rewrite Hu.
  by destruct xs.
Qed.

(** After a wait the write goes to the tail and the read to the head. *)
Lemma finish_at_tail cap dlen q xs a c :
  at_tail c q → ring_view cap dlen q xs → (length xs < cap)%nat → length a = dlen →
  ∃ sig q', enqueue_finish (C:=Z * Z) q c.1 c.2 a = Ret (Leaves sig tt q') ∧
    ring_view cap dlen q' (xs ++ [a]) ∧
    (xs = [] → sig = true) ∧ ∀ c, at_head c q → at_head c q'.
Proof.
  intros Hc [H R] Hlt Ha. destruct (at_tail_ring _ _ _ _ _ _ R Hc) as [E1 E2].
  destruct (enqueue_finish_ok (C:=Z * Z) cap dlen H q xs a _ _ R Hlt Ha E2 (or_intror E1))
    as (sig & q' & E & R' & Hs & Hhd & Hli).
  exists sig, q'. split; [done|]. split; [by exists H|]. split; [done|].
  intros c'. unfold at_head. by rewrite Hhd, Hli.
Qed.

Lemma finish_at_head cap dlen q x xs b c :
  at_head c q → ring_view cap dlen q (x :: xs) → length b = dlen →
  ∃ sig q', dequeue_finish (C:=Z * Z) q c.1 c.2 b = Ret (Leaves sig x q') ∧
    ring_view cap dlen q' xs ∧
    (length (x :: xs) = cap → sig = true) ∧ ∀ c, at_tail c q → at_tail c q'.
Proof.
  intros Hc [H R] Hb. destruct (at_head_ring _ _ _ _ _ _ R Hc) as [E1 E2].
  destruct (dequeue_finish_ok (C:=Z * Z) cap dlen H q x xs b _ _ R Hb E2 (or_intror (eq_sym E1)))
    as (sig & q' & E & R' & Hs & Htl & Hli).
  exists sig, q'. split; [done|]. split; [by exists (H + 1)|]. split; [done|].
  intros c'. unfold at_tail. by rewrite Htl, Hli.
Qed.

(** A new array under equal counters is an empty ring. *)
Lemma make_nodes_ring fresh dlen max H :
  0 < max < 2 ^ 32 → (max | 2 ^ 32) → (∀ i, length (fresh i) = dlen) →
  ring (Z.to_nat max) dlen H
    (mkBucket max (make_nodes fresh (Z.of_nat dlen) (Z.to_nat max)) (u32 H) (u32 H)) [].
Proof.
  intros Hm Hd Hf. unfold make_nodes. split; cbn [limit arr head tail].
  - lia.
  - by rewrite Z2Nat.id by lia.
  - lia.
  - by rewrite length_fmap, length_seq.
  - simpl. lia.
  - done.
  - simpl. by rewrite Z.add_0_r.
  - apply Forall_fmap, Forall_forall. intros i _. simpl. by rewrite Hf.
  - intros j Hj. eexists. split.
    + rewrite list_lookup_fmap, lookup_seq_lt; [done|]. unfold slot.
      pose proof (Z.mod_pos_bound (H + Z.of_nat j) (Z.of_nat (Z.to_nat max))). lia.
    + done.
Qed.

(** [delete_queue] frees the buffer of every node once. *)
Lemma delete_queue_ok cap dlen H q xs :
  ring cap dlen H q xs → delete_queue (Some q) = Ret (ndata <$> arr q).
Proof.
  intros R. unfold delete_queue. rewrite (ring_limit _ _ _ _ _ R), Nat2Z.id.
  rewrite <-(ring_arr _ _ _ _ _ R). clear R. generalize (arr q) as l. intros l.
  assert (Hall : ∀ pre l', l = pre ++ l' →
    foldr (λ i k, n ← aread l i; l ← k; Ret (ndata n :: l)) (Ret [])
      (Z.of_nat <$> seq (length pre) (length l')) = Ret (ndata <$> l')).
  { intros pre l'. revert pre. induction l' as [|n l' IH]; intros pre ->; [done|].
    cbn [length seq fmap list_fmap foldr]. erewrite aread_Some; [|lia|].
    - change (seq (S (length pre)) (length l')) with (seq (S (length pre)) (length l')).
      specialize (IH (pre ++ [n])). rewrite length_app, Nat.add_1_r, <-app_assoc in IH.
      cbn [app] in IH. cbn [mbind outcome_bind]. by rewrite (IH eq_refl).
    - rewrite Nat2Z.id. by apply list_lookup_middle. }
  by apply (Hall []).
Qed.
