(* ===== verification/StaticQueue.v ===== *)
(** * data-queue-concurrent, static.c: the ring queue that looks again

    [enqueue] and [dequeue] wait once, look at the same node again with the
    indexes they read before the wait, and start over if nothing has changed.
    The file gives the two calls as pieces between lock operations, proves the
    laws of Channel for them, and from these the delivery of every item in
    order, also when waits end by themselves. The build takes the pthread
    branch of the lock macros ([LOCK_SPIN] is 0). *)

From Stdlib Require Import ZArith Lia.
From stdpp Require Import base tactics numbers list relations.
From S2P Require Import Prelude Channel Ring.
Local Open Scope Z_scope.

Module StaticQueue.

(** [memset(q, 0, sizeof(bucket))] and the initialisation of the nodes. *)
Definition make_queue (fresh : nat -> list Z) (dlen max : Z) : bucket :=
  mkBucket (u32 max) (make_nodes fresh dlen (Z.to_nat max)) 0 0.

(** From [LOCK] to the wait or the end. *)
Definition enqueue_enter (q : bucket) (data : list Z) : outcome (piece_end (Z * Z) bucket unit) :=
  hidx ← umod (head q) (limit q);
  tidx ← umod (tail q) (limit q);
  full ← meets_used q hidx tidx;
  if (full : bool) then Ret (Waits (hidx, tidx) q) else enqueue_finish q hidx tidx data.

(** From the return of [pthread_cond_wait], with the locals of before. *)
Definition enqueue_resume (c : Z * Z) (q : bucket) (data : list Z)
    : outcome (piece_end (Z * Z) bucket unit) :=
  let '(hidx, tidx) := c in
  full ← meets_used q hidx tidx;
  if (full : bool) then Ret (Retries q) else enqueue_finish q hidx tidx data.

Definition dequeue_enter (q : bucket) (data : list Z)
    : outcome (piece_end (Z * Z) bucket (list Z)) :=
  hidx ← umod (head q) (limit q);
  tidx ← umod (tail q) (limit q);
  empty ← meets_free q hidx tidx;
  if (empty : bool) then Ret (Waits (hidx, tidx) q) else dequeue_finish q hidx tidx data.

Definition dequeue_resume (c : Z * Z) (q : bucket) (data : list Z)
    : outcome (piece_end (Z * Z) bucket (list Z)) :=
  let '(hidx, tidx) := c in
  empty ← meets_free q hidx tidx;
  if (empty : bool) then Ret (Retries q) else dequeue_finish q hidx tidx data.

#[export] Instance static_channel : Channel bucket := {
  ectx := Z * Z;
  dctx := Z * Z;
  enq_enter := enqueue_enter;
  enq_resume := enqueue_resume;
  deq_enter := dequeue_enter;
  deq_resume := dequeue_resume;
}.

Lemma enqueue_enter_full cap dlen q xs a :
  ring_view cap dlen q xs → length xs = cap →
  ∃ c, enqueue_enter q a = Ret (Waits c q) ∧ at_tail c q.
Proof.
  intros [H R] Hf. unfold enqueue_enter.
  rewrite (ring_hidx R), (ring_tidx R). cbn [mbind outcome_bind].
  rewrite (meets_used_full R), bool_decide_eq_true_2 by done. simpl. eexists. split; [done|].
  split; [apply (ring_meet R); by right|]. simpl. apply umod_Ret, (ring_tidx R).
Qed.

Lemma enqueue_enter_room cap dlen q xs a :
  ring_view cap dlen q xs → (length xs < cap)%nat → length a = dlen →
  ∃ sig q', enqueue_enter q a = Ret (Leaves sig tt q') ∧ ring_view cap dlen q' (xs ++ [a]) ∧
    (xs = [] → sig = true) ∧ ∀ c, at_head c q → at_head c q'.
Proof.
  intros [H R] Hlt Ha. unfold enqueue_enter. rewrite (ring_hidx R), (ring_tidx R). cbn [mbind outcome_bind].
  rewrite (meets_used_full R), bool_decide_eq_false_2 by lia. simpl.
  destruct (enqueue_finish_ok (C:=Z * Z) cap dlen H q xs a _ _ R Hlt Ha eq_refl (or_introl eq_refl))
    as (sig & q' & -> & R' & Hs & Hhd & Hli).
  exists sig, q'. split; [done|]. split; [by exists H|]. split; [done|].
  intros c. unfold at_head. by rewrite Hhd, Hli.
Qed.

Lemma dequeue_enter_empty cap dlen q b :
  ring_view cap dlen q [] → ∃ c, dequeue_enter q b = Ret (Waits c q) ∧ at_head c q.
Proof.
  intros [H R]. unfold dequeue_enter. rewrite (ring_hidx R), (ring_tidx R). cbn [mbind outcome_bind].
  rewrite (meets_free_empty R), bool_decide_eq_true_2 by done. simpl. eexists. split; [done|].
  split; [apply (ring_meet R); by left|]. simpl. apply umod_Ret, (ring_hidx R).
Qed.

Lemma dequeue_enter_item cap dlen q x xs b :
  ring_view cap dlen q (x :: xs) → length b = dlen →
  ∃ sig q', dequeue_enter q b = Ret (Leaves sig x q') ∧ ring_view cap dlen q' xs ∧
    (length (x :: xs) = cap → sig = true) ∧ ∀ c, at_tail c q → at_tail c q'.
Proof.
  intros [H R] Hb. unfold dequeue_enter. rewrite (ring_hidx R), (ring_tidx R). cbn [mbind outcome_bind].
  rewrite (meets_free_empty R), bool_decide_eq_false_2 by done. cbn [mbind outcome_bind].
  destruct (dequeue_finish_ok (C:=Z * Z) cap dlen H q x xs b _ _ R Hb eq_refl (or_introl eq_refl))
    as (sig & q' & -> & R' & Hs & Htl & Hli).
  exists sig, q'. split; [done|]. split; [by exists (H + 1)|]. split; [done|].
  intros c. unfold at_tail. by rewrite Htl, Hli.
Qed.

(** The queue keeps the laws of a channel of [cap] items of [dlen] bytes. *)
#[export] Instance static_fifo (cap dlen : nat) : (0 < cap)%nat → FifoLaws bucket cap dlen.
Proof.
  intros Hcap. refine {| view := ring_view cap dlen; evalid := at_tail; dvalid := at_head |}.
  - done.
  - intros q xs [H R]. apply R.
  - apply enqueue_enter_full.
  - apply enqueue_enter_room.
  - intros [h t] q xs a Hc Hv Hlt Ha. cbn [enq_resume static_channel enqueue_resume].
    destruct Hv as [H R]. pose proof (meets_used_at_tail _ _ _ _ _ _ R Hc) as E.
    cbn [fst snd] in E. rewrite E, bool_decide_eq_false_2 by lia. eapply (finish_at_tail _ _ _ _ _ (h, t)); try done.
    by exists H.
  - apply dequeue_enter_empty.
  - apply dequeue_enter_item.
  - intros [h t] q x xs b Hc Hv Hb. cbn [deq_resume static_channel dequeue_resume].
    destruct Hv as [H R]. pose proof (meets_free_at_head _ _ _ _ _ _ R Hc) as E.
    cbn [fst snd] in E. rewrite E, bool_decide_eq_false_2 by done. eapply (finish_at_head _ _ _ _ _ _ (h, t)); try done.
    by exists H.
Defined.

Lemma static_rechecks cap dlen (Hcap : (0 < cap)%nat) :
  @FifoRechecks bucket cap dlen static_channel (static_fifo cap dlen Hcap).
Proof.
  split.
  - intros [h t] q xs a Hc [H R] Hf. cbn [enq_resume static_channel enqueue_resume].
    pose proof (meets_used_at_tail _ _ _ _ _ _ R Hc) as E. cbn [fst snd] in E.
    by rewrite E, bool_decide_eq_true_2.
  - intros [h t] q b Hc [H R]. cbn [deq_resume static_channel dequeue_resume].
    pose proof (meets_free_at_head _ _ _ _ _ _ R Hc) as E. cbn [fst snd] in E.
    by rewrite E.
Qed.

Lemma make_queue_view fresh max :
  0 < max < 2 ^ 31 → (max | 2 ^ 32) → (∀ i, length (fresh i) = 8%nat) →
  ring_view (Z.to_nat max) 8 (make_queue fresh 8 max) [].
Proof.
  intros Hm Hd Hf. exists 0. unfold make_queue. rewrite (wrap_small 32) by (unfold fits; lia).
  apply (make_nodes_ring fresh 8 max 0); [lia|done..].
Qed.

(** C1. The threads of static.c over a queue whose size divides 2^32: in every
    interleaving, with waits that end by themselves or without, no access
    faults, the consumer finds every item it checks in the order sent, and some
    thread can run until both have ended; without wake-ups out of the blue they
    end after at most six pieces per item. *)
Theorem static_queue_delivers fresh max total spurious :
  0 < max < 2 ^ 31 → (max | 2 ^ 32) → (∀ i, length (fresh i) = 8%nat) →
  delivers total spurious (make_queue fresh 8 max).
Proof.
  intros Hm Hd Hf. assert (Hcap : (0 < Z.to_nat max)%nat) by lia.
  apply (fifo_delivers (LQ := static_fifo (Z.to_nat max) 8 Hcap)).
  - intros _. apply static_rechecks.
  - by apply make_queue_view.
Qed.

Lemma static_queue_delivers_witness :
  delivers 100 true (make_queue (λ _, replicate 8 0) 8 2048).
Proof. apply static_queue_delivers; [lia|by exists 2097152|done]. Defined.
End StaticQueue.
