(* ===== verification/Chan.v ===== *)
(** * data-queue-channel, chan.c: the ring queue that trusts its wake-up

    chan.c is the ring of static.c with two differences. A call that wakes goes
    on without a second look, so the queue needs every wake-up to come from a
    signal. And [make_queue] no longer clears the bucket, so the counters start
    with what [malloc] left there: they are arguments here. The build takes the
    pthread branch of the lock macros ([USE_SPIN] is 0). *)

From Stdlib Require Import ZArith Lia.
From stdpp Require Import base tactics numbers list relations.
From S2P Require Import Prelude Channel Ring StaticQueue.
Local Open Scope Z_scope.

Module Chan.

Definition make_queue (head0 tail0 : Z) (fresh : nat -> list Z) (dlen max : Z) : bucket :=
  mkBucket (u32 max) (make_nodes fresh dlen (Z.to_nat max)) head0 tail0.

(** From [LOCK] to the wait or the end. *)
Definition enqueue_enter (q : bucket) (data : list Z) : outcome (piece_end (Z * Z) bucket unit) :=
  hidx ← umod (head q) (limit q);
  tidx ← umod (tail q) (limit q);
  full ← meets_used q hidx tidx;
  if (full : bool) then Ret (Waits (hidx, tidx) q) else enqueue_finish q hidx tidx data.

(** From the return of [pthread_cond_wait], with the locals of before. *)
Definition enqueue_resume (c : Z * Z) (q : bucket) (data : list Z)
    : outcome (piece_end (Z * Z) bucket unit) :=
  let '(hidx, tidx) := c in enqueue_finish q hidx tidx data.

Definition dequeue_enter (q : bucket) (data : list Z)
    : outcome (piece_end (Z * Z) bucket (list Z)) :=
  hidx ← umod (head q) (limit q);
  tidx ← umod (tail q) (limit q);
  empty ← meets_free q hidx tidx;
  if (empty : bool) then Ret (Waits (hidx, tidx) q) else dequeue_finish q hidx tidx data.

Definition dequeue_resume (c : Z * Z) (q : bucket) (data : list Z)
    : outcome (piece_end (Z * Z) bucket (list Z)) :=
  let '(hidx, tidx) := c in dequeue_finish q hidx tidx data.

(** Not an instance to be found by search: the ring has StaticQueue's too. *)
Definition chan_channel : Channel bucket := {|
  ectx := Z * Z;
  dctx := Z * Z;
  enq_enter := enqueue_enter;
  enq_resume := enqueue_resume;
  deq_enter := dequeue_enter;
  deq_resume := dequeue_resume;
|}.

(** The entries are those of static.c, the laws of the wait are simpler. *)
Definition chan_fifo (cap dlen : nat) : (0 < cap)%nat → @FifoLaws bucket chan_channel cap dlen.
Proof.
  intros Hcap. refine (@Build_FifoLaws bucket chan_channel cap dlen (ring_view cap dlen)
    at_tail at_head Hcap _ _ _ _ _ _ _).
  - intros q xs [H R]. apply R.
  - apply StaticQueue.enqueue_enter_full.
  - apply StaticQueue.enqueue_enter_room.
  - intros [h t] q xs a Hc. by apply (finish_at_tail _ _ _ _ _ (h, t)).
  - apply StaticQueue.dequeue_enter_empty.
  - apply StaticQueue.dequeue_enter_item.
  - intros [h t] q x xs b Hc. by apply (finish_at_head _ _ _ _ _ _ (h, t)).
Defined.

(** C2. The threads of chan.c over a queue whose size divides 2^32 and whose
    counters start equal: if a wait ends only by a signal, then in every
    interleaving no access faults, the consumer finds every item it checks in
    the order sent, no deadlock occurs, and both threads end after at most six
    pieces per item. *)
Theorem chan_queue_delivers c0 fresh max total :
  fits 32 c0 → 0 < max < 2 ^ 31 → (max | 2 ^ 32) → (∀ i, length (fresh i) = 8%nat) →
  delivers (CQ := chan_channel) total false (make_queue c0 c0 fresh 8 max).
Proof.
  intros Hc Hm Hd Hf. assert (Hcap : (0 < Z.to_nat max)%nat) by lia.
  apply (fifo_delivers (LQ := chan_fifo (Z.to_nat max) 8 Hcap)); [done|].
  exists c0. unfold make_queue. rewrite (wrap_small 32 max) by (unfold fits; lia).
  rewrite <-(wrap_small 32 c0) at 2 3 by done. apply (make_nodes_ring fresh 8 max c0); [lia|done..].
Qed.

Lemma chan_queue_delivers_witness :
  delivers (CQ := chan_channel) 100 false (make_queue 0 0 (λ _, replicate 8 0) 8 2048).
Proof. apply chan_queue_delivers; [done|lia|by exists 2097152|done]. Defined.

(** One wait that ends by itself is enough to break chan.c: the consumer
    takes an item from the empty queue and exits with -1. *)
Theorem chan_spurious_wakeup_breaks :
  ∃ s, rtc (step (CQ := chan_channel) 3 true)
         (start (CQ := chan_channel) 3 (make_queue 0 0 (λ _, replicate 8 0) 8 4)) s ∧
    consumer s = CExit (-1).
Proof.
  eexists. split.
  - eapply rtc_l; [eapply step_cons; reflexivity|].
    eapply rtc_l; [by eapply step_cons_spurious|].
    eapply rtc_l; [eapply step_cons; reflexivity|]. apply rtc_refl.
  - reflexivity.
Qed.

(** Counters that start apart, as uncleared memory may leave them, break
    chan.c as well: the first [dequeue] on the new queue does not wait and
    returns a buffer nothing was put into. *)
Theorem chan_uncleared_counters :
  ∀ buf, length buf = 8%nat → ∃ q',
    dequeue_enter (make_queue 0 1 (λ _, replicate 8 170) 8 4) buf =
      Ret (Leaves false (replicate 8 170) q').
Proof. intros buf Hb. do 8 (destruct buf as [|? buf]; [done|]). destruct buf; [|done].
  eexists. reflexivity.
Qed.

Lemma chan_uncleared_counters_witness : ∃ q',
  dequeue_enter (make_queue 0 1 (λ _, replicate 8 170) 8 4) (replicate 8 0) =
    Ret (Leaves false (replicate 8 170) q').
Proof. apply chan_uncleared_counters. reflexivity. Defined.
End Chan.
