(* ===== verification/DynQueue.v ===== *)
(** * data-queue-concurrent, dynamic.c: the linked queue

    A queue of at most [limit] nodes, linked both ways: [qhead] is the newest,
    [qtail] the oldest. The nodes live in a store; the buffer of a node is
    allocated and freed with it. As in chan.c a woken call does not look again,
    so the laws of Channel hold as long as waits end by signals, and for
    [limit >= 2]: a [dequeue] that takes the only item never signals, which
    deadlocks a queue of one. *)

From Stdlib Require Import ZArith Lia.
From stdpp Require Import base tactics numbers list gmap relations.
From S2P Require Import Prelude Heap Channel.
Local Open Scope Z_scope.

Module DynQueue.

Record node := mkNode {
  ndata : list Z;
  datalen : Z;
  prev : ptr;
  next : ptr;
}.

(** [heap] holds the nodes. *)
Record bucket := mkBucket {
  limit : Z;
  len : Z;
  qhead : ptr;
  qtail : ptr;
  heap : gmap loc node;
}.

Definition make_queue (max : Z) : bucket := mkBucket (u32 max) 0 None None ∅.

(** [enqueue] after its wait; [fresh] is the content of the new buffer. *)
Definition enqueue_finish {C} (fresh : list Z) (q : bucket) (data : list Z) (dlen : Z)
    : outcome (piece_end C bucket unit) :=
  let newd := hfresh (heap q) in
  d ← memcpy fresh data dlen;
  let h := <[newd := mkNode d dlen None (qhead q)]> (heap q) in
  if len q =? 0 then
    Ret (Leaves true tt (mkBucket (limit q) (u32 (len q + 1)) (Some newd) (Some newd) h))
  else
    n ← hread h (qhead q);
    h ← hwrite h (qhead q) (mkNode (ndata n) (datalen n) (Some newd) (next n));
    Ret (Leaves false tt (mkBucket (limit q) (u32 (len q + 1)) (Some newd) (qtail q) h)).

(** [dequeue] after its wait. *)
Definition dequeue_finish {C} (q : bucket) (data : list Z) (dlen : Z)
    : outcome (piece_end C bucket (list Z)) :=
  d ← hread (heap q) (qtail q);
  data ← memcpy data (ndata d) dlen;
  h ← hfree (heap q) (qtail q);
  if len q =? 1 then
    Ret (Leaves false data (mkBucket (limit q) (u32 (len q - 1)) None None h))
  else
    n ← hread h (prev d);
    h ← hwrite h (prev d) (mkNode (ndata n) (datalen n) (prev n) None);
    Ret (Leaves (len q =? limit q) data
           (mkBucket (limit q) (u32 (len q - 1)) (qhead q) (prev d) h)).

(** From [LOCK] to the wait or the end. *)
Definition enqueue_enter (fresh : list Z) (q : bucket) (data : list Z) (dlen : Z)
    : outcome (piece_end unit bucket unit) :=
  if len q =? limit q then Ret (Waits tt q) else enqueue_finish fresh q data dlen.

Definition dequeue_enter (q : bucket) (data : list Z) (dlen : Z)
    : outcome (piece_end unit bucket (list Z)) :=
  if len q =? 0 then Ret (Waits tt q) else dequeue_finish q data dlen.

(** The loop of [delete_queue]. *)
Fixpoint delete_nodes (fuel : nat) (h : gmap loc node) (data : ptr) : outcome (gmap loc node) :=
  match fuel with
  | O => Fault OutOfFuel
  | S fuel =>
    match data with
    | None => Ret h
    | Some _ =>
      n ← hread h data;
      h ← hfree h data;
      delete_nodes fuel h (next n)
    end
  end.

(** The nodes still allocated after [delete_queue]. *)
Definition delete_queue (q : option bucket) : outcome (gmap loc node) :=
  match q with
  | None => Ret ∅
  | Some q => delete_nodes (S (size (heap q))) (heap q) (qhead q)
  end.

(** The drivers pass the size of the buffer; [fresh] is what [malloc] returns
    for a buffer of a size. *)
Definition dyn_channel (fresh : nat -> list Z) : Channel bucket := {|
  ectx := unit;
  dctx := unit;
  enq_enter q data := enqueue_enter (fresh (length data)) q data (Z.of_nat (length data));
  enq_resume _ q data := enqueue_finish (fresh (length data)) q data (Z.of_nat (length data));
  deq_enter q data := dequeue_enter q data (Z.of_nat (length data));
  deq_resume _ q data := dequeue_finish q data (Z.of_nat (length data));
|}.

(** ** Representation *)

(** The node of place [i] among [l], newest first. *)
Definition linked (l : list (loc * list Z)) (i : nat) (n : node) : Prop :=
  next n = fst <$> l !! S i ∧ prev n = match i with O => None | S j => fst <$> l !! j end.

Record dlist (h : gmap loc node) (l : list (loc * list Z)) : Prop := {
  dl_nodup : NoDup l.*1;
  dl_nodes : ∀ i x d, l !! i = Some (x, d) →
    ∃ n, h !! x = Some n ∧ ndata n = d ∧ linked l i n;
  dl_owned : ∀ x, is_Some (h !! x) → x ∈ l.*1;
}.

Lemma dlist_fresh h l : dlist h l → hfresh h ∉ l.*1.
Proof.
  intros [_ Hn _] ([x d] & Hx & [i Hi]%list_elem_of_lookup)%list_elem_of_fmap.
  destruct (Hn _ _ _ Hi) as (n & Hh & _). simpl in *. subst x. by rewrite hfresh_spec in Hh.
Qed.

Lemma dlist_loc_inj h l i j x d d' :
  dlist h l → l !! i = Some (x, d) → l !! j = Some (x, d') → i = j.
Proof.
  intros [Hnd _ _] Hi Hj. eapply NoDup_lookup; [done|..];
    rewrite list_lookup_fmap; [by rewrite Hi|by rewrite Hj].
Qed.

(** A node put in front of the newest. *)
Lemma dlist_push h l newd d dl y n dy :
  dlist h ((y, dy) :: l) → h !! newd = None → h !! y = Some n →
  dlist (<[y := mkNode (ndata n) (datalen n) (Some newd) (next n)]>
          (<[newd := mkNode d dl None (Some y)]> h)) ((newd, d) :: (y, dy) :: l).
Proof.
  intros D Hnew Hy. pose proof D as [Hnd Hn Ho].
  assert (Hnotin : newd ∉ ((y, dy) :: l).*1).
  { intros ([x d'] & Hx & [i Hi]%list_elem_of_lookup)%list_elem_of_fmap.
    destruct (Hn _ _ _ Hi) as (m & Hm & _). simpl in *. congruence. }
  split.
  - by constructor.
  - intros [|[|i]] x d' Hi; simpl in Hi; simplify_eq.
    + eexists. rewrite lookup_insert_ne by (intros ->; apply Hnotin; simpl; set_solver).
      by rewrite lookup_insert_eq.
    + eexists. rewrite lookup_insert_eq. split; [done|].
      destruct (Hn O _ _ eq_refl) as (m & Hm & Hd & Hl & _). simplify_eq. by split.
    + destruct (Hn (S i) _ _ Hi) as (m & Hm & Hd & Hl1 & Hl2). exists m.
      rewrite !lookup_insert_ne; [by split_and!| |].
      * intros ->. congruence.
      * intros ->. by pose proof (dlist_loc_inj _ _ O (S i) _ _ _ D eq_refl Hi).
  - intros x [<-|[_ [<-|[_ Hx]]%lookup_insert_is_Some]]%lookup_insert_is_Some; [set_solver..|].
    apply list_elem_of_further. by apply Ho.
Qed.

(** The oldest of two or more nodes freed, its neighbour made the oldest. *)
Lemma dlist_pop h l y dy x dx n :
  dlist h (l ++ [(y, dy); (x, dx)]) → h !! y = Some n →
  dlist (<[y := mkNode (ndata n) (datalen n) (prev n) None]> (delete x h)) (l ++ [(y, dy)]).
Proof.
  intros D Hy. pose proof D as [Hnd Hn Ho].
  replace (l ++ [(y, dy); (x, dx)]) with ((l ++ [(y, dy)]) ++ [(x, dx)]) in * by by rewrite <-app_assoc.
  assert (Hlast : (l ++ [(y, dy)]) !! length l = Some (y, dy)) by by apply list_lookup_middle.
  assert (Hlx : ((l ++ [(y, dy)]) ++ [(x, dx)]) !! S (length l) = Some (x, dx))
    by (apply list_lookup_middle; rewrite length_app; simpl; lia).
  rewrite fmap_app in Hnd. apply NoDup_app in Hnd as (Hnd & Hdis & _). split; [done|..].
  - intros i z d Hi. pose proof (lookup_lt_Some _ _ _ Hi) as Hlt.
    rewrite length_app in Hlt. simpl in Hlt.
    pose proof (lookup_app_l_Some _ [(x, dx)] _ _ Hi) as Hi'.
    destruct (Hn _ _ _ Hi') as (m & Hm & Hd & Hl1 & Hl2).
    assert (Hprev : prev m = match i with O => None | S j => fst <$> (l ++ [(y, dy)]) !! j end).
    { rewrite Hl2. destruct i; [done|]. by rewrite lookup_app_l by (rewrite length_app; simpl; lia). }
    destruct (decide (i = length l)) as [->|Hne].
    + rewrite Hlast in Hi. simplify_eq. eexists. rewrite lookup_insert_eq. split; [done|].
      split; [done|]. split; [|done]. cbn [next].
      by rewrite lookup_ge_None_2 by (rewrite length_app; simpl; lia).
    + exists m. rewrite lookup_insert_ne, lookup_delete_ne.
      * split; [done|]. split; [done|]. split; [|done].
        rewrite Hl1. by rewrite lookup_app_l by (rewrite length_app; simpl; lia).
      * intros ->. pose proof (dlist_loc_inj _ _ _ _ _ _ _ D Hlx Hi'). lia.
      * intros ->. pose proof (lookup_app_l_Some _ [(x, dx)] _ _ Hlast) as Hlast'.
        pose proof (dlist_loc_inj _ _ _ _ _ _ _ D Hlast' Hi'). lia.
  - intros z [<-|[_ [Hne Hz]%lookup_delete_is_Some]]%lookup_insert_is_Some.
    + rewrite fmap_app. set_solver.
    + apply Ho in Hz. rewrite fmap_app in Hz. set_solver.
Qed.

Record dq (cap : nat) (q : bucket) (l : list (loc * list Z)) : Prop := {
  dq_cap : (1 < cap)%nat ∧ Z.of_nat cap < 2 ^ 32;
  dq_limit : limit q = Z.of_nat cap;
  dq_len : len q = Z.of_nat (length l);
  dq_bound : (length l ≤ cap)%nat;
  dq_head : qhead q = fst <$> head l;
  dq_tail : qtail q = fst <$> last l;
  dq_list : dlist (heap q) l;
}.

Definition dq_view (cap dlen : nat) (q : bucket) (xs : list (list Z)) : Prop :=
  ∃ l, dq cap q l ∧ xs = reverse l.*2 ∧ Forall (λ x, length x = dlen) xs.

Lemma dq_view_length cap q l xs : dq cap q l → xs = reverse l.*2 → length xs = length l.
Proof. intros _ ->. by rewrite length_reverse, length_fmap. Qed.

Lemma dyn_enqueue_finish_ok {C} fresh cap dlen q xs a :
  (∀ n, length (fresh n) = n) →
  dq_view cap dlen q xs → (length xs < cap)%nat → length a = dlen →
  ∃ sig q', enqueue_finish (C:=C) (fresh (length a)) q a (Z.of_nat (length a)) =
      Ret (Leaves sig tt q') ∧ dq_view cap dlen q' (xs ++ [a]) ∧ (xs = [] → sig = true).
Proof.
  intros Hf (l & Hq & Hxs & Hall) Hlt Ha. pose proof (dq_view_length _ _ _ _ Hq Hxs) as Hlen.
  destruct Hq as [Hcap Hli Hle Hbd Hhd Htl D]. unfold enqueue_finish.
  rewrite memcpy_all by (rewrite ?Hf; done). cbn [mbind outcome_bind].
  assert (Hu : u32 (len q + 1) = Z.of_nat (S (length l)))
    by (rewrite wrap_small; unfold fits; lia).
  assert (Hxs' : ∀ x, xs ++ [a] = reverse ((x, a) :: l).*2)
    by (intros x; rewrite Hxs; simpl; by rewrite reverse_cons).
  assert (Hall' : Forall (λ x, length x = dlen) (xs ++ [a]))
    by (apply Forall_app; split; [done|by repeat constructor]).
  destruct l as [|[y dy] l].
  - rewrite Hle. eexists _, _. split; [done|]. split; [|done].
    exists [(hfresh (heap q), a)]. split; [|done].
    split; simpl; try done; [lia|]. split.
    + repeat constructor. set_solver.
    + intros [|i] x d [= <- <-]. eexists. rewrite lookup_insert_eq. split; [done|].
      split; [done|]. by rewrite Hhd.
    + intros x [<-|[_ Hx]]%lookup_insert_is_Some; [set_solver|].
      apply (dl_owned _ _ D) in Hx. set_solver.
  - destruct (dl_nodes _ _ D O y dy eq_refl) as (n & Hn & Hd & _).
    assert (Hne : hfresh (heap q) ≠ y) by (intros E; rewrite <-E, hfresh_spec in Hn; done).
    rewrite (proj2 (Z.eqb_neq (len q) 0)) by (rewrite Hle; simpl; lia).
    rewrite Hhd. cbn [fmap option_fmap option_map head fst].
    rewrite (hread_Some _ _ n) by by rewrite lookup_insert_ne. cbn [mbind outcome_bind].
    rewrite (hwrite_Some _ _ n) by by rewrite lookup_insert_ne. cbn [mbind outcome_bind].
    eexists _, _. split; [done|]. split; [|intros ->; simpl in *; lia].
    exists ((hfresh (heap q), a) :: (y, dy) :: l). split; [|done].
    split; cbn [limit len qhead qtail heap]; try done.
    + simpl in *. lia.
    + eapply dlist_push; [done|apply hfresh_spec|done].
Qed.

Lemma dyn_dequeue_finish_ok {C} cap dlen q x xs b :
  dq_view cap dlen q (x :: xs) → length b = dlen →
  ∃ sig q', dequeue_finish (C:=C) q b (Z.of_nat (length b)) = Ret (Leaves sig x q') ∧
    dq_view cap dlen q' xs ∧ (length (x :: xs) = cap → sig = true).
Proof.
  intros (l & Hq & Hxs & Hall) Hb. pose proof (dq_view_length _ _ _ _ Hq Hxs) as Hlen.
  destruct Hq as [Hcap Hli Hle Hbd Hhd Htl D]. apply Forall_cons in Hall as [Hx Hall].
  destruct l as [|[z dz] l _] using rev_ind; [done|].
  rewrite fmap_app, reverse_app in Hxs. simpl in Hxs. injection Hxs as -> Hxs.
  rewrite last_snoc in Htl. simpl in Htl.
  assert (Hz : (l ++ [(z, dz)]) !! length l = Some (z, dz)) by by apply list_lookup_middle.
  destruct (dl_nodes _ _ D _ _ _ Hz) as (n & Hn & Hd & _ & Hprev).
  unfold dequeue_finish. rewrite Htl, (hread_Some _ _ _ Hn). cbn [mbind outcome_bind].
  rewrite memcpy_all by (rewrite ?Hd; lia). cbn [mbind outcome_bind].
  rewrite (hfree_Some _ _ _ Hn). cbn [mbind outcome_bind]. rewrite Hd.
  rewrite length_app in Hle, Hbd, Hlen. simpl in Hle, Hbd, Hlen.
  assert (Hu : u32 (len q - 1) = Z.of_nat (length l))
    by (rewrite wrap_small; unfold fits; lia).
  destruct l as [|[y dy] l _] using rev_ind.
  - rewrite Hle. eexists _, _. split; [done|]. split; [|intros E; simpl in *; exfalso; lia].
    exists []. split; [|done]. split; simpl; try done; [lia|]. split; [constructor|done|].
    intros w [Hne Hw]%lookup_delete_is_Some. apply (dl_owned _ _ D) in Hw. set_solver.
  - rewrite length_app in *. simpl in *.
    assert (Hy : ((l ++ [(y, dy)]) ++ [(z, dz)]) !! length l = Some (y, dy))
      by by rewrite <-app_assoc; apply list_lookup_middle.
    destruct (dl_nodes _ _ D _ _ _ Hy) as (m & Hm & Hdm & _).
    assert (Hzy : z ≠ y).
    { intros ->. pose proof (dlist_loc_inj _ _ _ _ _ _ _ D Hz Hy) as E. lia. }
    rewrite (Nat.add_comm _ 1) in Hprev. simpl in Hprev. rewrite Hy in Hprev. simpl in Hprev.
    rewrite (proj2 (Z.eqb_neq (len q) 1)) by lia. rewrite Hprev.
    rewrite (hread_Some _ _ m) by by rewrite lookup_delete_ne. cbn [mbind outcome_bind].
    rewrite (hwrite_Some _ _ m) by by rewrite lookup_delete_ne. cbn [mbind outcome_bind].
    eexists _, _. split; [done|]. split.
    + exists (l ++ [(y, dy)]). split; [|done].
      split; cbn [limit len qhead qtail heap]; rewrite ?length_app; simpl; try done; try lia.
      * rewrite Hhd. by destruct l.
      * by rewrite last_snoc.
      * rewrite <-app_assoc in D. exact (dlist_pop _ _ _ _ _ _ _ D Hm).
    + intros Hc. apply Z.eqb_eq. lia.
Qed.

(** ** Delivery *)

Section laws.
Context (fresh : nat -> list Z) (Hfresh : ∀ n, length (fresh n) = n).
Context (cap dlen : nat) (Hcap : (1 < cap)%nat).

Definition dyn_fifo : @FifoLaws bucket (dyn_channel fresh) cap dlen.
Proof.
  refine (@Build_FifoLaws bucket (dyn_channel fresh) cap dlen (dq_view cap dlen)
    (λ _ _, True) (λ _ _, True) _ _ _ _ _ _ _ _).
  - lia.
  - intros q xs (l & Hq & Hxs & _). rewrite (dq_view_length _ _ _ _ Hq Hxs). apply Hq.
  - intros q xs a (l & Hq & Hxs & _) Hf. exists tt. split; [|done]. cbn. unfold enqueue_enter.
    pose proof (dq_view_length _ _ _ _ Hq Hxs). destruct Hq.
    by rewrite (proj2 (Z.eqb_eq _ _)) by lia.
  - intros q xs a (l & Hq & Hxs & Hall) Hlt Ha. cbn. unfold enqueue_enter.
    pose proof (dq_view_length _ _ _ _ Hq Hxs). rewrite (proj2 (Z.eqb_neq _ _)) by (destruct Hq; lia).
    destruct (dyn_enqueue_finish_ok (C:=unit) fresh cap dlen q xs a Hfresh) as (sig & q' & -> & ? & ?);
      [by exists l|done..|]. by exists sig, q'.
  - intros [] q xs a _ Hv Hlt Ha.
    destruct (dyn_enqueue_finish_ok (C:=unit) fresh cap dlen q xs a Hfresh Hv Hlt Ha)
      as (sig & q' & E & ? & ?). by exists sig, q'.
  - intros q b (l & Hq & Hxs & _). exists tt. split; [|done]. cbn. unfold dequeue_enter.
    pose proof (dq_view_length _ _ _ _ Hq Hxs). destruct Hq. simpl in *.
    by rewrite (proj2 (Z.eqb_eq _ _)) by lia.
  - intros q x xs b (l & Hq & Hxs & Hall) Hb. cbn. unfold dequeue_enter.
    pose proof (dq_view_length _ _ _ _ Hq Hxs).
    rewrite (proj2 (Z.eqb_neq _ _)) by (destruct Hq; simpl in *; lia).
    destruct (dyn_dequeue_finish_ok (C:=unit) cap dlen q x xs b) as (sig & q' & -> & ? & ?);
      [by exists l|done|]. by exists sig, q'.
  - intros [] q x xs b _ Hv Hb.
    destruct (dyn_dequeue_finish_ok (C:=unit) cap dlen q x xs b Hv Hb) as (sig & q' & E & ? & ?).
    by exists sig, q'.
Defined.
End laws.

(** C3. The threads of dynamic.c over a queue of at least two items: if a wait
    ends only by a signal, then in every interleaving no access faults (no
    dangling, null or double-freed node), the consumer finds every item it
    checks in the order sent, no deadlock occurs, and both threads end after at
    most six pieces per item. *)
Theorem dyn_queue_delivers fresh max total :
  (∀ n, length (fresh n) = n) → 2 ≤ max < 2 ^ 31 →
  delivers (CQ := dyn_channel fresh) total false (make_queue max).
Proof.
  intros Hf Hm. assert (Hcap : (1 < Z.to_nat max)%nat) by lia.
  apply (fifo_delivers (LQ := dyn_fifo fresh Hf (Z.to_nat max) 8 Hcap)); [done|].
  exists []. split; [|done]. unfold make_queue. rewrite (wrap_small 32) by (unfold fits; lia).
  split; cbn [limit len qhead qtail heap]; try done; try (simpl; lia).
  split; [constructor|done|]. by intros x [? ?].
Qed.

Lemma dyn_queue_delivers_witness :
  delivers (CQ := dyn_channel (λ n, replicate n 0)) 100 false (make_queue 64).
Proof. apply dyn_queue_delivers; [|lia]. intros n. apply length_replicate. Defined.

(** A queue of one item deadlocks: the producer waits with the queue full,
    the consumer takes the item without a signal and waits too. *)
Theorem dyn_queue_of_one_deadlocks :
  let CQ := dyn_channel (λ n, replicate n 0) in
  ∃ s, rtc (step (CQ := CQ) 3 false) (start (CQ := CQ) 3 (make_queue 1)) s ∧
    prod_step (CQ := CQ) s = None ∧ cons_step (CQ := CQ) 3 s = None ∧
    ~ final (CQ := CQ) 3 s.
Proof.
  intros CQ. eexists. split; [|split_and!].
  - eapply rtc_l; [eapply step_prod; reflexivity|].
    eapply rtc_l; [eapply step_prod; reflexivity|].
    eapply rtc_l; [eapply step_cons; reflexivity|].
    eapply rtc_l; [eapply step_cons; reflexivity|]. apply rtc_refl.
  - reflexivity.
  - reflexivity.
  - intros [H _]. cbn in H. discriminate H.
Qed.

(** ** Destruction *)

Lemma delete_nodes_ok fuel h (l : list (loc * list Z)) :
  NoDup l.*1 →
  (∀ i x d, l !! i = Some (x, d) → ∃ n, h !! x = Some n ∧ next n = fst <$> l !! S i) →
  (length l < fuel)%nat →
  ∃ h', delete_nodes fuel h (fst <$> head l) = Ret h' ∧
    ∀ x, h' !! x = if decide (x ∈ l.*1) then None else h !! x.
Proof.
  revert h l. induction fuel as [|fuel IH]; intros h [|[x d] l] Hnd Hl Hf; simpl in *; try lia.
  { by exists h. }
  apply NoDup_cons in Hnd as [Hx Hnd].
  destruct (Hl O x d eq_refl) as (n & Hn & Hnext). simpl in Hnext.
  rewrite (hread_Some _ _ _ Hn). cbn [mbind outcome_bind]. rewrite (hfree_Some _ _ _ Hn).
  cbn [mbind outcome_bind]. rewrite Hnext, <-head_lookup.
  destruct (IH (delete x h) l Hnd) as (h' & E & Hh'); [|lia|].
  - intros i y d' Hi. destruct (Hl (S i) y d' Hi) as (m & Hm & ?). exists m.
    rewrite lookup_delete_ne; [done|]. intros ->. apply Hx.
    apply list_elem_of_fmap. exists (y, d'). split; [done|]. by eapply list_elem_of_lookup_2.
  - exists h'. split; [done|]. intros y. rewrite Hh'. destruct (decide (y = x)) as [->|Hne].
    + rewrite lookup_delete_eq. repeat case_decide; try done. set_solver.
    + rewrite lookup_delete_ne by done. repeat case_decide; set_solver.
Qed.

(** [delete_queue] on a well-formed queue, with items left or without, ends
    and frees every node, each once. *)
Theorem delete_queue_frees_all cap dlen q xs :
  dq_view cap dlen q xs → delete_queue (Some q) = Ret ∅.
Proof.
  intros (l & [_ _ _ _ Hhd _ [Hnd Hn Ho]] & _). unfold delete_queue. rewrite Hhd.
  destruct (delete_nodes_ok (S (size (heap q))) (heap q) l Hnd) as (h' & -> & Hh').
  - intros i x d Hi. destruct (Hn i x d Hi) as (n & ? & _ & ? & _). eauto.
  - rewrite <-(length_fmap fst), <-(size_list_to_set (C:=gset loc) l.*1) by done.
    rewrite <-size_dom. apply Nat.lt_succ_r, subseteq_size.
    intros x ([y d] & -> & [i Hi]%list_elem_of_lookup)%elem_of_list_to_set%list_elem_of_fmap.
    destruct (Hn i y d Hi) as (n & ? & _). by eapply elem_of_dom_2.
  - f_equal. apply map_empty. intros x. rewrite Hh'. case_decide as Hx; [done|].
    destruct (heap q !! x) eqn:E; [|done]. by destruct Hx; apply Ho; eexists.
Qed.

Lemma delete_queue_frees_all_witness : delete_queue (Some (make_queue 8)) = Ret ∅.
Proof.
  apply (delete_queue_frees_all 8 8 _ []). exists []. split; [|done].
  split; cbn; try done; try lia. split; [constructor|done|]. by intros x [? ?].
Defined.
End DynQueue.
