(* ===== verification/Packet.v ===== *)
(** * Packets in memory

    What the packet programs use of the C language and of the kernel's wire
    formats: a packet is the bytes between [ctx->data] and [ctx->data_end], a
    header pointer is an offset into it, and every load and store has the
    packet's bounds. Multi-byte loads are little-endian, as on the machines the
    sources target; [bpf_htons] and [bpf_ntohs] swap the bytes. The offsets are
    those of the structures of the Linux headers the sources include
    (if_ether.h, ip.h, ipv6.h, udp.h, tcp.h, icmp.h). *)

From Stdlib Require Import ZArith Lia.
From stdpp Require Import base tactics numbers list.
From S2P Require Import Prelude.
Local Open Scope Z_scope.

(** [ctx->data_end], with [ctx->data] at offset 0. *)
Definition data_end (p : list Z) : Z := Z.of_nat (length p).

Definition rd8 (p : list Z) (o : Z) : outcome Z := aread p o.
Definition rd16 (p : list Z) (o : Z) : outcome Z :=
  a ← rd8 p o; b ← rd8 p (o + 1); Ret (a + 256 * b).
Definition rd32 (p : list Z) (o : Z) : outcome Z :=
  a ← rd16 p o; b ← rd16 p (o + 2); Ret (a + 65536 * b).

Definition wr8 (p : list Z) (o v : Z) : outcome (list Z) := awrite p o (u8 v).
Definition wr16 (p : list Z) (o v : Z) : outcome (list Z) :=
  p ← wr8 p o v; wr8 p (o + 1) (v / 256).
Definition wr32 (p : list Z) (o v : Z) : outcome (list Z) :=
  p ← wr16 p o v; wr16 p (o + 2) (v / 65536).

(** [n] bytes from [o] on, and [memcpy] of the bytes [bs] to [o]. *)
Definition rd_bytes (p : list Z) (o n : Z) : outcome (list Z) :=
  if decide (0 ≤ o ∧ 0 ≤ n ∧ o + n ≤ data_end p)
  then Ret (take (Z.to_nat n) (drop (Z.to_nat o) p)) else Fault OutOfBounds.

Definition wr_bytes (p : list Z) (o : Z) (bs : list Z) : outcome (list Z) :=
  if decide (0 ≤ o ∧ o + Z.of_nat (length bs) ≤ data_end p)
  then Ret (take (Z.to_nat o) p ++ bs ++ drop (Z.to_nat o + length bs) p)
  else Fault OutOfBounds.

(** [bpf_htons], [bpf_ntohs]. *)
Definition bswap16 (x : Z) : Z := u8 x * 256 + u8 (x / 256).

Lemma bswap16_fits x : fits 16 (bswap16 x).
Proof.
  unfold bswap16, fits, wrap. change (2 ^ 8) with 256. change (2 ^ 16) with 65536.
  pose proof (Z.mod_pos_bound x 256). pose proof (Z.mod_pos_bound (x / 256) 256). lia.
Qed.

Lemma bswap16_invol x : fits 16 x → bswap16 (bswap16 x) = x.
Proof.
  unfold bswap16, fits, wrap. change (2 ^ 8) with 256. change (2 ^ 16) with 65536. intros H.
  pose proof (Z.mod_pos_bound (x / 256) 256). pose proof (Z.mod_pos_bound x 256).
  rewrite (Z.add_comm (x mod 256 * 256)), Z.mod_add, Z.div_add by lia.
  rewrite !Z.mod_mod, (Z.div_small ((x / 256) mod 256)), Z.add_0_l, Z.mod_mod by lia.
  rewrite (Z.mod_small (x / 256)) by (split; [apply Z.div_pos|apply Z.div_lt_upper_bound]; lia).
  pose proof (Z.div_mod x 256). lia.
Qed.

(** ** Loads and stores in bounds *)

Section access.
Context (p : list Z).

Lemma rd8_in o : 0 ≤ o < data_end p → ∃ v, rd8 p o = Ret v ∧ p !! Z.to_nat o = Some v.
Proof.
  unfold data_end. intros H. destruct (lookup_lt_is_Some_2 p (Z.to_nat o)) as [v Hv]; [lia|].
  exists v. split; [|done]. apply aread_Some; [lia|done].
Qed.

Lemma rd16_in o : 0 ≤ o → o + 2 ≤ data_end p → ∃ v, rd16 p o = Ret v.
Proof.
  intros Ho H. unfold rd16. destruct (rd8_in o) as (a & -> & _); [lia|].
  destruct (rd8_in (o + 1)) as (b & -> & _); [lia|]. by eexists.
Qed.

Lemma rd32_in o : 0 ≤ o → o + 4 ≤ data_end p → ∃ v, rd32 p o = Ret v.
Proof.
  intros Ho H. unfold rd32. destruct (rd16_in o) as (a & ->); [lia..|].
  destruct (rd16_in (o + 2)) as (b & ->); [lia..|]. by eexists.
Qed.

Lemma rd8_bounds o v : bytes p → rd8 p o = Ret v → fits 8 v.
Proof.
  intros Hp. unfold rd8, aread. destruct (o <? 0); [done|].
  destruct (p !! Z.to_nat o) as [w|] eqn:E; [|done]. intros [= <-].
  by apply (proj1 (Forall_lookup _ _) Hp _ _ E).
Qed.

Lemma rd16_bounds o v : bytes p → rd16 p o = Ret v → fits 16 v.
Proof.
  intros Hp. unfold rd16. destruct (rd8 p o) as [a|] eqn:Ea; [|done]. cbn [mbind outcome_bind].
  destruct (rd8 p (o + 1)) as [b|] eqn:Eb; [|done]. intros [= <-].
  apply rd8_bounds in Ea, Eb; [|done..]. unfold fits in *. lia.
Qed.

Lemma wr8_in o v : 0 ≤ o < data_end p → wr8 p o v = Ret (<[Z.to_nat o := u8 v]> p).
Proof.
  intros H. destruct (rd8_in o H) as (w & _ & Hw). unfold wr8. by eapply awrite_Some; [lia|].
Qed.
End access.

Lemma data_end_insert p i v : data_end (<[i := v]> p) = data_end p.
Proof. unfold data_end. by rewrite length_insert. Qed.

Lemma wr16_in p o v : 0 ≤ o → o + 2 ≤ data_end p →
  wr16 p o v = Ret (<[Z.to_nat (o + 1) := u8 (v / 256)]> (<[Z.to_nat o := u8 v]> p)).
Proof.
  intros Ho H. unfold wr16. rewrite wr8_in by lia. cbn [mbind outcome_bind].
  by rewrite wr8_in by (rewrite data_end_insert; lia).
Qed.

Lemma rd_bytes_in p o n : 0 ≤ o → 0 ≤ n → o + n ≤ data_end p →
  rd_bytes p o n = Ret (take (Z.to_nat n) (drop (Z.to_nat o) p)).
Proof. intros. unfold rd_bytes. by rewrite decide_True. Qed.

Lemma wr_bytes_in p o bs : 0 ≤ o → o + Z.of_nat (length bs) ≤ data_end p →
  wr_bytes p o bs = Ret (take (Z.to_nat o) p ++ bs ++ drop (Z.to_nat o + length bs) p).
Proof. intros. unfold wr_bytes. by rewrite decide_True. Qed.

(** A store of two bytes, as one. *)
Lemma wr16_bytes p o v : 0 ≤ o → o + 2 ≤ data_end p →
  wr16 p o v = wr_bytes p o [u8 v; u8 (v / 256)].
Proof.
  intros Ho H. rewrite wr16_in, wr_bytes_in by done. f_equal. unfold data_end in H.
  rewrite Z2Nat.inj_add by lia. change (Z.to_nat 1) with 1%nat.
  rewrite <-(take_drop (Z.to_nat o) p) at 1.
  assert (Hl : length (take (Z.to_nat o) p) = Z.to_nat o) by (rewrite length_take; lia).
  rewrite insert_app_r_alt by lia. rewrite Hl, Nat.sub_diag.
  rewrite insert_app_r_alt by lia. rewrite Hl. replace (Z.to_nat o + 1 - Z.to_nat o)%nat with 1%nat by lia.
  f_equal. rewrite <-drop_drop.
  assert (Hd : (2 ≤ length (drop (Z.to_nat o) p))%nat) by (rewrite length_drop; lia).
  destruct (drop (Z.to_nat o) p) as [|a [|b r]]; simpl in Hd; try lia. done.
Qed.

(** A load after a store at the same place, and elsewhere. *)
Lemma rd16_wr16 p p' o v : wr16 p o v = Ret p' → rd16 p' o = Ret (u16 v).
Proof.
  unfold wr16, wr8, awrite. destruct (aread p o) as [a|] eqn:Ea; [|done]. cbn [mbind outcome_bind].
  destruct (aread (<[Z.to_nat o := u8 v]> p) (o + 1)) as [b|] eqn:Eb; [|done].
  cbn [mbind outcome_bind]. intros [= <-].
  unfold aread in Ea, Eb. destruct (Z.ltb_spec o 0); [done|]. destruct (Z.ltb_spec (o + 1) 0); [done|].
  destruct (p !! Z.to_nat o) eqn:E1; [|done].
  destruct (<[Z.to_nat o := u8 v]> p !! Z.to_nat (o + 1)) eqn:E2; [|done].
  apply lookup_lt_Some in E1, E2. rewrite length_insert in E2.
  assert (Hne : Z.to_nat (o + 1) ≠ Z.to_nat o) by lia.
  unfold rd16, rd8. rewrite (aread_Some _ o (u8 v)); [|lia|].
  2: { rewrite list_lookup_insert_ne by done. by apply list_lookup_insert_eq. }
  rewrite (aread_Some _ (o + 1) (u8 (v / 256))); [|lia|].
  2: { apply list_lookup_insert_eq. by rewrite length_insert. }
  cbn [mbind outcome_bind]. f_equal. unfold wrap. change (2 ^ 8) with 256. change (2 ^ 16) with (256 * 256).
  by rewrite Z.rem_mul_r by lia.
Qed.

(** ** Packets as concatenations *)

Lemma wr_bytes_prefix a b c : length a = length b →
  wr_bytes (a ++ c) 0 b = Ret (b ++ c).
Proof.
  intros E. rewrite wr_bytes_in by (unfold data_end; rewrite ?length_app; lia).
  cbn [Z.to_nat take app Nat.add]. by rewrite drop_app_length'.
Qed.

Lemma wr_bytes_mid a b c d : length b = length c →
  wr_bytes (a ++ b ++ d) (Z.of_nat (length a)) c = Ret (a ++ c ++ d).
Proof.
  intros E. rewrite wr_bytes_in by (unfold data_end; rewrite ?length_app; lia).
  rewrite Nat2Z.id, take_app_length. do 2 f_equal. f_equal.
  by rewrite app_assoc, drop_app_length' by (rewrite length_app; lia).
Qed.

Lemma rd_bytes_mid a b c :
  rd_bytes (a ++ b ++ c) (Z.of_nat (length a)) (Z.of_nat (length b)) = Ret b.
Proof.
  rewrite rd_bytes_in by (unfold data_end; rewrite ?length_app; lia).
  by rewrite !Nat2Z.id, drop_app_length, take_app_length.
Qed.

Lemma rd_bytes_at a b c o n :
  o = Z.of_nat (length a) → n = Z.of_nat (length b) → rd_bytes (a ++ b ++ c) o n = Ret b.
Proof. intros -> ->. apply rd_bytes_mid. Qed.

Lemma wr_bytes_at a b c d o :
  o = Z.of_nat (length a) → length c = length b → wr_bytes (a ++ b ++ d) o c = Ret (a ++ c ++ d).
Proof. intros -> E. by apply wr_bytes_mid. Qed.

(** Copying to the start of a buffer that is long enough. *)
Lemma wr_bytes_start p bs : Z.of_nat (length bs) ≤ data_end p →
  wr_bytes p 0 bs = Ret (bs ++ drop (length bs) p).
Proof. intros H. rewrite wr_bytes_in by lia. done. Qed.

Lemma rd_bytes_start a b n : n = Z.of_nat (length a) → rd_bytes (a ++ b) 0 n = Ret a.
Proof. intros ->. by apply (rd_bytes_mid [] a b). Qed.

(** A load of the front of a concatenation. *)
Lemma rd8_app a b o : 0 ≤ o < data_end a → rd8 (a ++ b) o = rd8 a o.
Proof.
  intros Ho. destruct (rd8_in a o Ho) as (v & -> & Hv).
  unfold rd8. apply aread_Some; [lia|]. by apply lookup_app_l_Some.
Qed.

Lemma rd16_app a b o : 0 ≤ o → o + 2 ≤ data_end a → rd16 (a ++ b) o = rd16 a o.
Proof. intros. unfold rd16. by rewrite !rd8_app by lia. Qed.

Lemma rd_bytes_front a b n : 0 ≤ n ≤ data_end a → rd_bytes (a ++ b) 0 n = Ret (take (Z.to_nat n) a).
Proof.
  unfold data_end. intros Hn. rewrite rd_bytes_in by (unfold data_end; rewrite ?length_app; lia).
  change (Z.to_nat 0) with 0%nat. by rewrite drop_0, take_app_le by lia.
Qed.

Lemma wr_bytes_end a b c o :
  o = Z.of_nat (length a) → length b = length c → wr_bytes (a ++ b) o c = Ret (a ++ c).
Proof.
  intros -> E. pose proof (wr_bytes_mid a b c [] E) as H. by rewrite !app_nil_r in H.
Qed.

Lemma rd_bytes_end a b o n :
  o = Z.of_nat (length a) → n = Z.of_nat (length b) → rd_bytes (a ++ b) o n = Ret b.
Proof. intros -> ->. pose proof (rd_bytes_mid a b []) as H. by rewrite app_nil_r in H. Qed.

Lemma rd8_mid a p r o : 0 ≤ o < data_end p → rd8 (a ++ p ++ r) (Z.of_nat (length a) + o) = rd8 p o.
Proof.
  intros Ho. destruct (rd8_in p o Ho) as (v & -> & Hv). unfold rd8. apply aread_Some; [lia|].
  rewrite lookup_app_r by lia. replace (Z.to_nat (Z.of_nat (length a) + o) - length a)%nat with (Z.to_nat o) by lia.
  by apply lookup_app_l_Some.
Qed.

Lemma rd16_mid a p r o : 0 ≤ o → o + 2 ≤ data_end p →
  rd16 (a ++ p ++ r) (Z.of_nat (length a) + o) = rd16 p o.
Proof. intros. unfold rd16. by rewrite <-Z.add_assoc, !rd8_mid by lia. Qed.

(** Copying into the middle of a buffer that is long enough. *)
Lemma wr_bytes_into p o bs : 0 ≤ o → o + Z.of_nat (length bs) ≤ data_end p →
  ∃ a r, wr_bytes p o bs = Ret (a ++ bs ++ r) ∧ Z.of_nat (length a) = o ∧
    data_end (a ++ bs ++ r) = data_end p.
Proof.
  unfold data_end. intros Ho H. rewrite wr_bytes_in by (unfold data_end; lia). eexists _, _.
  split; [done|]. rewrite !length_app, length_take, length_drop. lia.
Qed.
