(* ===== verification/Parsing.v ===== *)
(** * dev-net-ebpf-xdp/kernel/parsing_helpers.h: the header parsers

    Each parser checks that its header lies between the cursor and [data_end],
    advances the cursor and returns the type of the content, or -1. The model
    of a parser takes the packet and the cursor and gives the return value, the
    header pointer it stored (if it did) and the new cursor. The theorems: no
    parser reads outside the packet, whatever the bytes and wherever the cursor;
    and the parsers undo the printers of the wire formats, with up to
    [VLAN_MAX_DEPTH] tags collected. *)

From Stdlib Require Import ZArith Lia.
From stdpp Require Import base tactics numbers list.
From S2P Require Import Prelude Packet.
Local Open Scope Z_scope.

Definition VLAN_MAX_DEPTH : nat := 2.
Definition VLAN_VID_MASK : Z := 0x0fff.
Definition ETH_P_8021Q : Z := 0x8100.
Definition ETH_P_8021AD : Z := 0x88A8.

(** Sizes of the headers. *)
Definition sizeof_ethhdr : Z := 14.
Definition sizeof_vlan_hdr : Z := 4.
Definition sizeof_iphdr : Z := 20.
Definition sizeof_ipv6hdr : Z := 40.
Definition sizeof_icmphdr : Z := 8.
Definition sizeof_icmphdr_common : Z := 4.
Definition sizeof_udphdr : Z := 8.
Definition sizeof_tcphdr : Z := 20.

Definition proto_is_vlan (h_proto : Z) : bool :=
  (h_proto =? bswap16 ETH_P_8021Q) || (h_proto =? bswap16 ETH_P_8021AD).

(** What a parser leaves: return value, [*hdr] if it was stored, [nh->pos]. *)
Abbreviation parsed := (Z * option Z * Z)%type.

(** The unrolled loop of [parse_ethhdr_vlan] from iteration [i] on, with [n]
    iterations left; [vlans] is [NULL] or the array of ids. *)
Fixpoint vlan_loop (n : nat) (i : Z) (p : list Z) (h_proto vlh : Z) (vlans : option (list Z))
    : outcome (Z * Z * option (list Z)) :=
  match n with
  | O => Ret (h_proto, vlh, vlans)
  | S n =>
    if negb (proto_is_vlan h_proto) then Ret (h_proto, vlh, vlans)
    else if vlh + sizeof_vlan_hdr >? data_end p then Ret (h_proto, vlh, vlans)
    else
      h_proto ← rd16 p (vlh + 2);
      vlans ← match vlans with
              | None => Ret None
              | Some ids =>
                tci ← rd16 p vlh;
                ids ← awrite ids i (Z.land (bswap16 tci) VLAN_VID_MASK);
                Ret (Some ids)
              end;
      vlan_loop n (i + 1) p h_proto (vlh + sizeof_vlan_hdr) vlans
  end.

Definition parse_ethhdr_vlan (p : list Z) (pos : Z) (vlans : option (list Z))
    : outcome (parsed * option (list Z)) :=
  if pos + sizeof_ethhdr >? data_end p then Ret ((-1, None, pos), vlans)
  else
    h_proto ← rd16 p (pos + 12);
    '(h_proto, vlh, vlans) ← vlan_loop VLAN_MAX_DEPTH 0 p h_proto (pos + sizeof_ethhdr) vlans;
    Ret ((h_proto, Some pos, vlh), vlans).

Definition parse_ethhdr (p : list Z) (pos : Z) : outcome parsed :=
  '(r, _) ← parse_ethhdr_vlan p pos None; Ret r.

Definition parse_ip6hdr (p : list Z) (pos : Z) : outcome parsed :=
  if pos + sizeof_ipv6hdr >? data_end p then Ret (-1, None, pos)
  else
    nexthdr ← rd8 p (pos + 6);
    Ret (nexthdr, Some pos, pos + sizeof_ipv6hdr).

Definition parse_iphdr (p : list Z) (pos : Z) : outcome parsed :=
  if pos + sizeof_iphdr >? data_end p then Ret (-1, None, pos)
  else
    b ← rd8 p pos;
    let hdrsize := Z.land b 0x0f * 4 in
    if hdrsize <? sizeof_iphdr then Ret (-1, None, pos)
    else if pos + hdrsize >? data_end p then Ret (-1, None, pos)
    else
      protocol ← rd8 p (pos + 9);
      Ret (protocol, Some pos, pos + hdrsize).

Definition parse_icmp6hdr (p : list Z) (pos : Z) : outcome parsed :=
  if pos + sizeof_icmphdr >? data_end p then Ret (-1, None, pos)
  else type ← rd8 p pos; Ret (type, Some pos, pos + sizeof_icmphdr).

Definition parse_icmphdr (p : list Z) (pos : Z) : outcome parsed :=
  if pos + sizeof_icmphdr >? data_end p then Ret (-1, None, pos)
  else type ← rd8 p pos; Ret (type, Some pos, pos + sizeof_icmphdr).

Definition parse_icmphdr_common (p : list Z) (pos : Z) : outcome parsed :=
  if pos + sizeof_icmphdr_common >? data_end p then Ret (-1, None, pos)
  else type ← rd8 p pos; Ret (type, Some pos, pos + sizeof_icmphdr_common).

(** [bpf_ntohs(h->len) - sizeof(struct udphdr)] is computed as [unsigned long]
    and converted to [int]. *)
Definition parse_udphdr (p : list Z) (pos : Z) : outcome parsed :=
  if pos + sizeof_udphdr >? data_end p then Ret (-1, None, pos)
  else
    ulen ← rd16 p (pos + 4);
    let len := s32 (u64 (bswap16 ulen - sizeof_udphdr)) in
    Ret (if len <? 0 then -1 else len, Some pos, pos + sizeof_udphdr).

Definition parse_tcphdr (p : list Z) (pos : Z) : outcome parsed :=
  if pos + sizeof_tcphdr >? data_end p then Ret (-1, None, pos)
  else
    b ← rd8 p (pos + 12);
    let len := Z.shiftr b 4 * 4 in
    if len <? sizeof_tcphdr then Ret (-1, None, pos)
    else if pos + len >? data_end p then Ret (-1, None, pos)
    else Ret (len, Some pos, pos + len).

(** ** Safety *)

(** What a caller may rely on, for a header of at least [size] bytes: the
    parser does not fault; it returns -1, or it stored the cursor as the header
    pointer and moved the cursor past the header and not past the packet. *)
Definition sound_parse (p : list Z) (pos size : Z) (o : outcome parsed) : Prop :=
  ∃ r h pos', o = Ret (r, h, pos') ∧
    (r = -1 ∨ 0 ≤ r ∧ h = Some pos ∧ pos + size ≤ pos' ≤ data_end p).

Lemma vlan_loop_safe n i p h_proto vlh vlans :
  bytes p → fits 16 h_proto → 0 ≤ vlh ≤ data_end p →
  (∀ ids, vlans = Some ids → 0 ≤ i ∧ i + Z.of_nat n ≤ Z.of_nat (length ids)) →
  ∃ h vlh' vlans', vlan_loop n i p h_proto vlh vlans = Ret (h, vlh', vlans') ∧
    fits 16 h ∧ vlh ≤ vlh' ≤ data_end p.
Proof.
  intros Hp. revert i h_proto vlh vlans. induction n as [|n IH]; intros i h vlh vlans Hh Hv Hids.
  { eexists _, _, _. split; [done|]. split; [done|lia]. }
  cbn [vlan_loop]. destruct (negb (proto_is_vlan h)).
  { eexists _, _, _. split; [done|]. split; [done|lia]. }
  unfold sizeof_vlan_hdr. rewrite Z.gtb_ltb. destruct (Z.ltb_spec (data_end p) (vlh + 4)) as [Hlt|Hge].
  { eexists _, _, _. split; [done|]. split; [done|lia]. }
  destruct (rd16_in p (vlh + 2)) as (h' & Eh); [lia..|]. rewrite Eh. cbn [mbind outcome_bind].
  apply rd16_bounds in Eh; [|done].
  assert (Hw : ∃ vlans', match vlans with
              | None => Ret None
              | Some ids =>
                tci ← rd16 p vlh;
                ids ← awrite ids i (Z.land (bswap16 tci) VLAN_VID_MASK);
                Ret (Some ids)
              end = Ret vlans' ∧
      (∀ ids, vlans' = Some ids → 0 ≤ i + 1 ∧ i + 1 + Z.of_nat n ≤ Z.of_nat (length ids))).
  { destruct vlans as [ids|]; [|by eexists]. destruct (Hids ids eq_refl).
    destruct (rd16_in p vlh) as (tci & ->); [lia..|]. cbn [mbind outcome_bind].
    destruct (lookup_lt_is_Some_2 ids (Z.to_nat i)) as [v Ev]; [lia|].
    erewrite awrite_Some by (done || lia). eexists. split; [done|]. intros ? [= <-].
    rewrite length_insert. lia. }
  destruct Hw as (vlans' & -> & Hids'). cbn [mbind outcome_bind].
  destruct (IH (i + 1) h' (vlh + 4) vlans' Eh) as (h2 & vlh2 & vlans2 & -> & ? & ?); [lia|done|].
  eexists _, _, _. split; [done|]. split; [done|lia].
Qed.

Lemma parse_ethhdr_vlan_sound p pos vlans :
  bytes p → 0 ≤ pos → (∀ ids, vlans = Some ids → length ids = VLAN_MAX_DEPTH) →
  ∃ r vlans', parse_ethhdr_vlan p pos vlans = Ret (r, vlans') ∧
    sound_parse p pos sizeof_ethhdr (Ret r).
Proof.
  intros Hp Hpos Hids. unfold parse_ethhdr_vlan, sizeof_ethhdr. rewrite Z.gtb_ltb.
  destruct (Z.ltb_spec (data_end p) (pos + 14)).
  { eexists _, _. split; [done|]. eexists _, _, _. split; [done|]. by left. }
  destruct (rd16_in p (pos + 12)) as (h & Eh); [lia..|]. rewrite Eh. cbn [mbind outcome_bind].
  apply rd16_bounds in Eh; [|done].
  destruct (vlan_loop_safe VLAN_MAX_DEPTH 0 p h (pos + 14) vlans Hp Eh)
    as (h' & vlh & vlans' & -> & Hh & Hv); [lia| |].
  { intros ids E. apply Hids in E. rewrite E. unfold VLAN_MAX_DEPTH. lia. }
  eexists _, _. split; [done|]. eexists _, _, _. split; [done|]. right. unfold fits in Hh.
  split_and!; [lia|done|lia..].
Qed.

Lemma parse_ethhdr_sound p pos : bytes p → 0 ≤ pos → sound_parse p pos sizeof_ethhdr (parse_ethhdr p pos).
Proof.
  intros Hp Hpos. unfold parse_ethhdr.
  by destruct (parse_ethhdr_vlan_sound p pos None Hp Hpos) as (r & vlans & -> & H).
Qed.

(** Cuts the goal of a parser's soundness at its bounds checks. *)
Ltac parse_checks :=
  rewrite ?Z.gtb_ltb;
  repeat match goal with
  | |- context [Z.ltb ?a ?b] =>
    destruct (Z.ltb_spec a b); [by eexists _, _, _; split; [reflexivity|left]|]
  end.

(** The parser of a fixed header that returns one of its bytes. *)
Lemma fixed_parse_sound p pos size o :
  bytes p → 0 ≤ pos → 0 ≤ o < size →
  sound_parse p pos size
    (if pos + size >? data_end p then Ret (-1, None, pos)
     else v ← rd8 p (pos + o); Ret (v, Some pos, pos + size)).
Proof.
  intros Hp Hpos Ho. parse_checks.
  destruct (rd8_in p (pos + o)) as (v & E & _); [lia|]. rewrite E. apply rd8_bounds in E; [|done].
  unfold fits in E. eexists _, _, _. split; [reflexivity|right]. split_and!; [lia|done|lia..].
Qed.

Lemma first_byte_parse_sound p pos size :
  bytes p → 0 ≤ pos → 0 < size →
  sound_parse p pos size
    (if pos + size >? data_end p then Ret (-1, None, pos)
     else v ← rd8 p pos; Ret (v, Some pos, pos + size)).
Proof.
  intros Hp Hpos Hs. pose proof (fixed_parse_sound p pos size 0 Hp Hpos) as H.
  rewrite Z.add_0_r in H. apply H. lia.
Qed.

Lemma parse_iphdr_sound p pos : bytes p → 0 ≤ pos → sound_parse p pos sizeof_iphdr (parse_iphdr p pos).
Proof.
  intros Hp Hpos. unfold parse_iphdr, sizeof_iphdr. parse_checks.
  destruct (rd8_in p pos) as (b & -> & _); [lia|]. cbn [mbind outcome_bind]. parse_checks.
  destruct (rd8_in p (pos + 9)) as (v & E & _); [lia|]. rewrite E. apply rd8_bounds in E; [|done].
  unfold fits in E. eexists _, _, _. split; [reflexivity|right]. split_and!; [lia|done|lia..].
Qed.

Lemma parse_udphdr_sound p pos : bytes p → 0 ≤ pos → sound_parse p pos sizeof_udphdr (parse_udphdr p pos).
Proof.
  intros Hp Hpos. unfold parse_udphdr, sizeof_udphdr. parse_checks.
  destruct (rd16_in p (pos + 4)) as (v & ->); [lia..|]. cbn [mbind outcome_bind].
  eexists _, _, _. split; [reflexivity|].
  destruct (Z.ltb_spec (s32 (u64 (bswap16 v - 8))) 0); [by left|right]. split_and!; [lia|done|lia..].
Qed.

Lemma parse_tcphdr_sound p pos : bytes p → 0 ≤ pos → sound_parse p pos sizeof_tcphdr (parse_tcphdr p pos).
Proof.
  intros Hp Hpos. unfold parse_tcphdr, sizeof_tcphdr. parse_checks.
  destruct (rd8_in p (pos + 12)) as (b & -> & _); [lia|]. cbn [mbind outcome_bind]. parse_checks.
  eexists _, _, _. split; [reflexivity|right]. split_and!; [lia|done|lia..].
Qed.

(** C37. The parsers, on any packet and from any cursor: they return, read nothing
    outside the packet (nor write outside the array of VLAN ids), and either
    report -1 or leave the whole header, and the cursor after it, inside the
    packet. *)
Theorem header_parsers_safe p pos vlans :
  bytes p → 0 ≤ pos → (∀ ids, vlans = Some ids → length ids = VLAN_MAX_DEPTH) →
  (∃ r vlans', parse_ethhdr_vlan p pos vlans = Ret (r, vlans') ∧
    sound_parse p pos sizeof_ethhdr (Ret r)) ∧
  sound_parse p pos sizeof_ipv6hdr (parse_ip6hdr p pos) ∧
  sound_parse p pos sizeof_iphdr (parse_iphdr p pos) ∧
  sound_parse p pos sizeof_icmphdr (parse_icmp6hdr p pos) ∧
  sound_parse p pos sizeof_icmphdr (parse_icmphdr p pos) ∧
  sound_parse p pos sizeof_icmphdr_common (parse_icmphdr_common p pos) ∧
  sound_parse p pos sizeof_udphdr (parse_udphdr p pos) ∧
  sound_parse p pos sizeof_tcphdr (parse_tcphdr p pos).
Proof.
  intros Hp Hpos Hids. split_and!.
  - by apply parse_ethhdr_vlan_sound.
  - by apply fixed_parse_sound; [..|unfold sizeof_ipv6hdr; lia].
  - by apply parse_iphdr_sound.
  - by apply first_byte_parse_sound.
  - by apply first_byte_parse_sound.
  - by apply first_byte_parse_sound.
  - by apply parse_udphdr_sound.
  - by apply parse_tcphdr_sound.
Qed.

Lemma header_parsers_safe_witness :
  let p := replicate 33 0x45 in
  (∃ r vlans', parse_ethhdr_vlan p 0 (Some [0; 0]) = Ret (r, vlans') ∧
    sound_parse p 0 sizeof_ethhdr (Ret r)) ∧
  sound_parse p 0 sizeof_ipv6hdr (parse_ip6hdr p 0) ∧
  sound_parse p 0 sizeof_iphdr (parse_iphdr p 0) ∧
  sound_parse p 0 sizeof_icmphdr (parse_icmp6hdr p 0) ∧
  sound_parse p 0 sizeof_icmphdr (parse_icmphdr p 0) ∧
  sound_parse p 0 sizeof_icmphdr_common (parse_icmphdr_common p 0) ∧
  sound_parse p 0 sizeof_udphdr (parse_udphdr p 0) ∧
  sound_parse p 0 sizeof_tcphdr (parse_tcphdr p 0).
Proof. apply header_parsers_safe; [apply Forall_replicate; done|lia|by intros ? [= <-]]. Defined.

(** ** Printing and parsing *)

(** Two bytes in network order. *)
Definition be16 (x : Z) : list Z := [u8 (x / 256); u8 x].

(** The end of an Ethernet header: its VLAN tags (type and control information
    each) and the type of the payload. *)
Fixpoint print_tags (tags : list (Z * Z)) (proto : Z) : list Z :=
  match tags with
  | [] => be16 proto
  | (tpid, tci) :: tags => be16 tpid ++ be16 tci ++ print_tags tags proto
  end.

Definition print_eth (dst src : list Z) (tags : list (Z * Z)) (proto : Z) : list Z :=
  dst ++ src ++ print_tags tags proto.

(** The type field that starts [print_tags]. *)
Definition first_type (tags : list (Z * Z)) (proto : Z) : Z :=
  match tags with [] => proto | (tpid, _) :: _ => tpid end.

Lemma rd16_be16 pre x post o :
  fits 16 x → o = Z.of_nat (length pre) → rd16 (pre ++ be16 x ++ post) o = Ret (bswap16 x).
Proof.
  intros Hx ->. unfold rd16, rd8.
  rewrite (aread_Some _ (Z.of_nat (length pre)) (u8 (x / 256))); [|lia|].
  2: { rewrite Nat2Z.id. by rewrite lookup_app_r, Nat.sub_diag. }
  cbn [mbind outcome_bind].
  rewrite (aread_Some _ (Z.of_nat (length pre) + 1) (u8 x)); [|lia|].
  2: { replace (Z.to_nat (Z.of_nat (length pre) + 1)) with (length pre + 1)%nat by lia.
       rewrite lookup_app_r by lia. by replace (length pre + 1 - length pre)%nat with 1%nat by lia. }
  cbn [mbind outcome_bind]. f_equal. unfold bswap16. lia.
Qed.

Lemma first_type_fits tags proto :
  Forall (λ t, fits 16 t.1 ∧ fits 16 t.2) tags → fits 16 proto → fits 16 (first_type tags proto).
Proof. destruct tags as [|[tpid tci] tags]; [done|]. intros [[? _] _]%Forall_cons. done. Qed.

Lemma print_tags_first tags proto :
  ∃ rest, print_tags tags proto = be16 (first_type tags proto) ++ rest.
Proof.
  destruct tags as [|[tpid tci] tags]; simpl; [exists []; done|].
  by exists (be16 tci ++ print_tags tags proto).
Qed.

Definition is_vlan_type (t : Z) : bool := (t =? ETH_P_8021Q) || (t =? ETH_P_8021AD).

Lemma proto_is_vlan_swap t : fits 16 t → proto_is_vlan (bswap16 t) = is_vlan_type t.
Proof.
  intros Ht. unfold proto_is_vlan, is_vlan_type.
  assert (H : ∀ u, fits 16 u → (bswap16 t =? bswap16 u) = (t =? u)).
  { intros u Hu. destruct (Z.eqb_spec t u) as [->|Hne]; [apply Z.eqb_refl|].
    apply Z.eqb_neq. intros E. apply Hne.
    by rewrite <-(bswap16_invol t), <-(bswap16_invol u), E. }
  by rewrite !H.
Qed.

(** The loop over printed tags: it stops after the last, with all collected. *)
Lemma vlan_loop_print n i pre tags proto post ids done_ids rest_ids :
  Forall (λ t, fits 16 t.1 ∧ fits 16 t.2 ∧ is_vlan_type t.1 = true) tags →
  fits 16 proto → is_vlan_type proto = false → (length tags ≤ n)%nat →
  i = Z.of_nat (length done_ids) → length rest_ids = length tags →
  vlan_loop n i (pre ++ print_tags tags proto ++ post) (bswap16 (first_type tags proto))
    (Z.of_nat (length pre) + 2) (Some (done_ids ++ rest_ids ++ ids)) =
  Ret (bswap16 proto, Z.of_nat (length pre + length (print_tags tags proto)),
       Some (done_ids ++ ((λ t, Z.land t.2 VLAN_VID_MASK) <$> tags) ++ ids)).
Proof.
  revert n i pre done_ids rest_ids.
  induction tags as [|[tpid tci] tags IH]; intros n i pre dn rest Ht Hp Hv Hn Hi Hr.
  { destruct rest; [|done]. assert (E : ∀ m, vlan_loop m i (pre ++ print_tags [] proto ++ post)
      (bswap16 (first_type [] proto)) (Z.of_nat (length pre) + 2) (Some (dn ++ [] ++ ids)) =
      Ret (bswap16 proto, Z.of_nat (length pre) + 2, Some (dn ++ ids))).
    { intros [|m]; [done|]. cbn [vlan_loop first_type]. by rewrite proto_is_vlan_swap, Hv. }
    rewrite E. do 3 f_equal. simpl. lia. }
  apply Forall_cons in Ht as [(Hf1 & Hf2 & Hvl) Ht]. cbn [fst snd] in *.
  destruct n as [|n]; [simpl in Hn; lia|]. destruct rest as [|r0 rest]; [done|].
  destruct (print_tags_first tags proto) as [rst Erst].
  assert (Hft : fits 16 (first_type tags proto)).
  { apply first_type_fits; [|done]. eapply Forall_impl; [exact Ht|]. by intros t (? & ? & _). }
  cbn [vlan_loop first_type]. rewrite proto_is_vlan_swap, Hvl by done. cbn [negb].
  rewrite Z.gtb_ltb. unfold sizeof_vlan_hdr.
  destruct (Z.ltb_spec (data_end (pre ++ print_tags ((tpid, tci) :: tags) proto ++ post))
    (Z.of_nat (length pre) + 2 + 4)) as [Hlt|_].
  { exfalso. unfold data_end in Hlt. cbn [print_tags] in Hlt. rewrite Erst in Hlt.
    rewrite !length_app in Hlt. simpl in Hlt. lia. }
  assert (Epkt : pre ++ print_tags ((tpid, tci) :: tags) proto ++ post =
    ((pre ++ be16 tpid ++ be16 tci) ++ be16 (first_type tags proto) ++ rst ++ post))
    by (cbn [print_tags]; rewrite Erst, <-!app_assoc; done).
  rewrite Epkt at 1. rewrite rd16_be16 by (done || rewrite !length_app; simpl; lia).
  cbn [mbind outcome_bind].
  assert (Epkt2 : pre ++ print_tags ((tpid, tci) :: tags) proto ++ post =
    ((pre ++ be16 tpid) ++ be16 tci ++ print_tags tags proto ++ post))
    by (cbn [print_tags]; rewrite <-!app_assoc; done).
  rewrite Epkt2 at 1. rewrite rd16_be16 by (done || rewrite !length_app; simpl; lia).
  cbn [mbind outcome_bind]. rewrite bswap16_invol by done.
  rewrite (awrite_Some _ _ r0); [|lia|].
  2: { rewrite Hi, Nat2Z.id, lookup_app_r, Nat.sub_diag by lia. done. }
  cbn [mbind outcome_bind]. rewrite Hi, Nat2Z.id, insert_app_r_alt, Nat.sub_diag by lia.
  cbn [app insert list_insert].
  specialize (IH n (i + 1) (pre ++ be16 tpid ++ be16 tci) (dn ++ [Z.land tci VLAN_VID_MASK]) rest Ht Hp Hv).
  rewrite !length_app in IH. cbn [length be16] in IH. rewrite <-!app_assoc in IH. cbn [app] in IH.
  cbn [print_tags]. rewrite <-!app_assoc. cbn [app].
  replace (Z.of_nat (length dn) + 1) with (i + 1) by lia.
  replace (Z.of_nat (length pre) + 2 + 4) with (Z.of_nat (length pre + 4) + 2) by lia.
  simpl in IH, Hn, Hr |- *. rewrite IH by lia. do 3 f_equal. lia.
Qed.

Lemma print_eth_lookup dst src tags proto post :
  length dst = 6%nat → length src = 6%nat →
  print_eth dst src tags proto ++ post = (dst ++ src) ++ print_tags tags proto ++ post.
Proof. intros. unfold print_eth. by rewrite <-!app_assoc. Qed.

(** [parse_ethhdr_vlan] undoes the printing of an Ethernet header with up to
    two VLAN tags: it returns the type of the payload (in network order) and
    the id of every tag in order, and leaves the cursor on the payload. *)
Theorem parse_ethhdr_vlan_print dst src tags proto payload ids :
  length dst = 6%nat → length src = 6%nat → (length tags ≤ VLAN_MAX_DEPTH)%nat →
  Forall (λ t, fits 16 t.1 ∧ fits 16 t.2 ∧ is_vlan_type t.1 = true) tags →
  fits 16 proto → is_vlan_type proto = false → length ids = VLAN_MAX_DEPTH →
  parse_ethhdr_vlan (print_eth dst src tags proto ++ payload) 0 (Some ids) =
  Ret ((bswap16 proto, Some 0, Z.of_nat (length (print_eth dst src tags proto))),
       Some (((λ t, Z.land t.2 VLAN_VID_MASK) <$> tags) ++ drop (length tags) ids)).
Proof.
  intros Hd Hs Hn Ht Hp Hv Hids. destruct (print_tags_first tags proto) as [rst Erst].
  assert (Hft : fits 16 (first_type tags proto)).
  { apply first_type_fits; [|done]. eapply Forall_impl; [exact Ht|]. by intros t (? & ? & _). }
  assert (Hlen : (length (print_eth dst src tags proto) =
    12 + length (print_tags tags proto))%nat) by (unfold print_eth; rewrite !length_app; lia).
  unfold parse_ethhdr_vlan, sizeof_ethhdr. rewrite Z.gtb_ltb.
  rewrite (proj2 (Z.ltb_ge _ _)).
  2: { unfold data_end. rewrite length_app, Hlen, Erst, length_app. simpl. lia. }
  rewrite print_eth_lookup by done.
  assert (E : rd16 ((dst ++ src) ++ print_tags tags proto ++ payload) (0 + 12) =
    Ret (bswap16 (first_type tags proto))).
  { rewrite Erst, <-(app_assoc (be16 _)). apply rd16_be16; [done|]. rewrite length_app. lia. }
  rewrite E. cbn [mbind outcome_bind].
  pose proof (vlan_loop_print VLAN_MAX_DEPTH 0 (dst ++ src) tags proto payload
    (drop (length tags) ids) [] (take (length tags) ids) Ht Hp Hv Hn eq_refl) as Hloop.
  rewrite length_take in Hloop. specialize (Hloop ltac:(lia)).
  cbn [app] in Hloop. rewrite take_drop, length_app, Hd, Hs in Hloop.
  change (Z.of_nat (6 + 6) + 2) with (0 + 14) in Hloop. rewrite Hloop.
  cbn [mbind outcome_bind]. by rewrite Hlen.
Qed.

Lemma parse_ethhdr_vlan_print_witness :
  parse_ethhdr_vlan
    (print_eth (replicate 6 1) (replicate 6 2) [(0x88A8, 0x2064); (0x8100, 0x0007)] 0x0800 ++ [1; 2; 3])
    0 (Some [0; 0]) =
  Ret ((bswap16 0x0800, Some 0, 22), Some [0x64; 7]).
Proof.
  apply (parse_ethhdr_vlan_print (replicate 6 1) (replicate 6 2)
    [(0x88A8, 0x2064); (0x8100, 0x0007)] 0x0800 [1; 2; 3] [0; 0]); [done|done|unfold VLAN_MAX_DEPTH; simpl; lia| |done..].
  repeat constructor; done.
Defined.

(** IPv4 and TCP headers, options included. *)
Definition print_ip (tos tot_len id frag_off ttl protocol check : Z) (saddr daddr opts : list Z) : list Z :=
  [0x40 + (5 + Z.of_nat (length opts) / 4); tos] ++ be16 tot_len ++ be16 id ++ be16 frag_off ++
  [ttl; protocol] ++ be16 check ++ saddr ++ daddr ++ opts.

Definition print_tcp (source dest : Z) (seq ack : list Z) (flags window check urg : Z) (opts : list Z)
    : list Z :=
  be16 source ++ be16 dest ++ seq ++ ack ++ [16 * (5 + Z.of_nat (length opts) / 4); flags] ++
  be16 window ++ be16 check ++ be16 urg ++ opts.

Lemma rd8_at pre x post o : o = Z.of_nat (length pre) → rd8 (pre ++ x :: post) o = Ret x.
Proof.
  intros ->. apply aread_Some; [lia|]. rewrite Nat2Z.id, lookup_app_r by lia.
  by rewrite Nat.sub_diag.
Qed.

Lemma length_print_ip tos tot_len id frag_off ttl protocol check saddr daddr opts :
  length saddr = 4%nat → length daddr = 4%nat →
  length (print_ip tos tot_len id frag_off ttl protocol check saddr daddr opts) =
    (20 + length opts)%nat.
Proof. intros H1 H2. unfold print_ip. rewrite !length_app, H1, H2. simpl. lia. Qed.

Lemma length_print_tcp source dest seq ack flags window check urg opts :
  length seq = 4%nat → length ack = 4%nat →
  length (print_tcp source dest seq ack flags window check urg opts) = (20 + length opts)%nat.
Proof. intros H1 H2. unfold print_tcp. rewrite !length_app, H1, H2. simpl. lia. Qed.

Lemma low_nibble k : 0 ≤ k ≤ 10 → Z.land (0x40 + (5 + k)) 0x0f * 4 = 20 + 4 * k.
Proof.
  intros H. replace 0x0f with (Z.ones 4) by done. rewrite Z.land_ones by lia.
  replace (0x40 + (5 + k)) with (5 + k + 4 * 2 ^ 4) by lia.
  rewrite Z.mod_add, Z.mod_small by (change (2 ^ 4) with 16; lia). lia.
Qed.

Lemma high_nibble k : Z.shiftr (16 * (5 + k)) 4 * 4 = 20 + 4 * k.
Proof.
  rewrite Z.shiftr_div_pow2 by lia. change (2 ^ 4) with 16.
  rewrite (Z.mul_comm 16), Z.div_mul by lia. lia.
Qed.

Lemma parse_iphdr_print pre tos tot_len id frag_off ttl protocol check saddr daddr opts k post :
  length saddr = 4%nat → length daddr = 4%nat →
  Z.of_nat (length opts) = 4 * k → 0 ≤ k ≤ 10 →
  parse_iphdr (pre ++ print_ip tos tot_len id frag_off ttl protocol check saddr daddr opts ++ post)
    (Z.of_nat (length pre)) =
  Ret (protocol, Some (Z.of_nat (length pre)), Z.of_nat (length pre) + (20 + 4 * k)).
Proof.
  intros Hs Hd Hk Hk'. pose proof (length_print_ip tos tot_len id frag_off ttl protocol check _ _ opts Hs Hd) as Hlen.
  assert (Hend : data_end (pre ++ print_ip tos tot_len id frag_off ttl protocol check saddr daddr opts ++ post) =
    Z.of_nat (length pre) + (20 + 4 * k) + Z.of_nat (length post)).
  { unfold data_end. rewrite !length_app, Hlen. lia. }
  unfold parse_iphdr, sizeof_iphdr. rewrite !Z.gtb_ltb, Hend, (proj2 (Z.ltb_ge _ _)) by lia.
  assert (E1 : rd8 (pre ++ print_ip tos tot_len id frag_off ttl protocol check saddr daddr opts ++ post)
    (Z.of_nat (length pre)) = Ret (0x40 + (5 + k))).
  { unfold print_ip. rewrite Hk, (Z.mul_comm 4 k), Z.div_mul by lia. by apply rd8_at. }
  assert (E2 : rd8 (pre ++ print_ip tos tot_len id frag_off ttl protocol check saddr daddr opts ++ post)
    (Z.of_nat (length pre) + 9) = Ret protocol).
  { unfold print_ip. set (b0 := 0x40 + _).
    transitivity (rd8 ((pre ++ [b0; tos] ++ be16 tot_len ++ be16 id ++ be16 frag_off ++ [ttl]) ++
      protocol :: be16 check ++ saddr ++ daddr ++ opts ++ post) (Z.of_nat (length pre) + 9));
      [by rewrite <-!app_assoc|]. apply rd8_at. rewrite !length_app. simpl. lia. }
  rewrite E1. cbn [mbind outcome_bind]. rewrite low_nibble by lia.
  rewrite (proj2 (Z.ltb_ge (20 + 4 * k) 20)) by lia.
  rewrite Z.gtb_ltb, ?Hend, (proj2 (Z.ltb_ge _ (Z.of_nat (length pre) + (20 + 4 * k)))) by lia.
  by rewrite E2.
Qed.

Lemma parse_tcphdr_print pre source dest seq ack flags window check urg opts k post :
  length seq = 4%nat → length ack = 4%nat →
  Z.of_nat (length opts) = 4 * k → 0 ≤ k ≤ 10 →
  parse_tcphdr (pre ++ print_tcp source dest seq ack flags window check urg opts ++ post)
    (Z.of_nat (length pre)) =
  Ret (20 + 4 * k, Some (Z.of_nat (length pre)), Z.of_nat (length pre) + (20 + 4 * k)).
Proof.
  intros Hs Hd Hk Hk'. pose proof (length_print_tcp source dest _ _ flags window check urg opts Hs Hd) as Hlen.
  assert (Hend : data_end (pre ++ print_tcp source dest seq ack flags window check urg opts ++ post) =
    Z.of_nat (length pre) + (20 + 4 * k) + Z.of_nat (length post)).
  { unfold data_end. rewrite !length_app, Hlen. lia. }
  unfold parse_tcphdr, sizeof_tcphdr. rewrite !Z.gtb_ltb, Hend, (proj2 (Z.ltb_ge _ _)) by lia.
  assert (E : rd8 (pre ++ print_tcp source dest seq ack flags window check urg opts ++ post)
    (Z.of_nat (length pre) + 12) = Ret (16 * (5 + k))).
  { unfold print_tcp. rewrite Hk, (Z.mul_comm 4 k), Z.div_mul by lia. set (b0 := 16 * _).
    transitivity (rd8 ((pre ++ be16 source ++ be16 dest ++ seq ++ ack) ++
      b0 :: [flags] ++ be16 window ++ be16 check ++ be16 urg ++ opts ++ post) (Z.of_nat (length pre) + 12));
      [by rewrite <-!app_assoc|]. apply rd8_at. rewrite !length_app, Hs, Hd. simpl. lia. }
  rewrite E. cbn [mbind outcome_bind]. rewrite high_nibble.
  rewrite (proj2 (Z.ltb_ge (20 + 4 * k) 20)) by lia.
  by rewrite Z.gtb_ltb, ?Hend, (proj2 (Z.ltb_ge _ (Z.of_nat (length pre) + (20 + 4 * k)))) by lia.
Qed.

(** The IPv4 and TCP parsers chained, on a printed header pair with options
    of any length the formats allow, after any prefix: the IPv4 parser returns
    the protocol and stops at the TCP header, whose parser returns its length
    and stops at the payload. *)
Theorem parse_ip_tcp_print pre tos tot_len id frag_off ttl protocol icheck saddr daddr iopts ki
    source dest seq ack flags window tcheck urg topts kt payload :
  length saddr = 4%nat → length daddr = 4%nat → length seq = 4%nat → length ack = 4%nat →
  Z.of_nat (length iopts) = 4 * ki → 0 ≤ ki ≤ 10 →
  Z.of_nat (length topts) = 4 * kt → 0 ≤ kt ≤ 10 →
  let p := pre ++ print_ip tos tot_len id frag_off ttl protocol icheck saddr daddr iopts ++
    print_tcp source dest seq ack flags window tcheck urg topts ++ payload in
  let ip := Z.of_nat (length pre) in
  let tcp := ip + (20 + 4 * ki) in
  parse_iphdr p ip = Ret (protocol, Some ip, tcp) ∧
  parse_tcphdr p tcp = Ret (20 + 4 * kt, Some tcp, tcp + (20 + 4 * kt)).
Proof.
  intros Hs Hd Hq Ha Hki Hki' Hkt Hkt' p ip tcp. split.
  - by apply parse_iphdr_print.
  - subst p tcp ip. rewrite app_assoc.
    assert (E : Z.of_nat (length pre) + (20 + 4 * ki) =
      Z.of_nat (length (pre ++ print_ip tos tot_len id frag_off ttl protocol icheck saddr daddr iopts)))
      by (rewrite length_app, length_print_ip by done; lia).
    rewrite E. by apply parse_tcphdr_print.
Qed.

Lemma parse_ip_tcp_print_witness :
  let p := replicate 14 0 ++ print_ip 0 64 1 0 64 6 0 [10; 0; 0; 1] [10; 0; 0; 2] [7; 4; 5; 0] ++
    print_tcp 4000 80 [0; 0; 0; 1] [0; 0; 0; 0] 2 512 0 0 [1; 1; 1; 0; 1; 1; 1; 0] ++ [1; 2; 3] in
  parse_iphdr p 14 = Ret (6, Some 14, 14 + 24) ∧
  parse_tcphdr p (14 + 24) = Ret (28, Some (14 + 24), 14 + 24 + 28).
Proof.
  apply (parse_ip_tcp_print (replicate 14 0) 0 64 1 0 64 6 0 [10; 0; 0; 1] [10; 0; 0; 2] [7; 4; 5; 0] 1
    4000 80 [0; 0; 0; 1] [0; 0; 0; 0] 2 512 0 0 [1; 1; 1; 0; 1; 1; 1; 0] 2 [1; 2; 3]); done || lia.
Defined.
