(* ===== verification/Rewrite.v ===== *)
(** * dev-net-ebpf-xdp/kernel/rewrite_helpers.h: changing packets in place

    [vlan_tag_pop] and [vlan_tag_push] move the start of the packet with the
    kernel helper [bpf_xdp_adjust_head], an argument of the model whose
    documented effect is [adjust_head_spec]: a positive offset cuts bytes off
    the front, a negative one puts bytes of any content there, and a failure
    changes nothing. The three [swap_src_dst] functions exchange addresses. The
    theorems say what each does to a printed packet, that a pop undoes a push,
    and that swapping IPv4 addresses keeps the header checksum valid. *)

From Stdlib Require Import ZArith Lia.
From stdpp Require Import base tactics numbers list.
From S2P Require Import Prelude Packet Parsing.
Local Open Scope Z_scope.

(** [bpf_xdp_adjust_head(ctx, delta)]: the packet after it, [None] when it
    returns an error. *)
Definition adjust_head_spec (adjust_head : list Z -> Z -> option (list Z)) : Prop :=
  ∀ p d p', adjust_head p d = Some p' →
    (0 ≤ d → p' = drop (Z.to_nat d) p) ∧
    (d ≤ 0 → ∃ room, length room = Z.to_nat (- d) ∧ p' = room ++ p).

Section rewrite.
Context (adjust_head : list Z -> Z -> option (list Z)).

(** The return value and the packet the call leaves. *)
Definition vlan_tag_pop (p : list Z) (eth : Z) : outcome (Z * list Z) :=
  h ← rd16 p (eth + 12);
  if negb (proto_is_vlan h) then Ret (-1, p)
  else
    let vlh := eth + sizeof_ethhdr in
    if vlh + sizeof_vlan_hdr >? data_end p then Ret (-1, p)
    else
      tci ← rd16 p vlh;
      let vlid := bswap16 tci in
      h_proto ← rd16 p (vlh + 2);
      eth_cpy ← rd_bytes p eth sizeof_ethhdr;
      match adjust_head p sizeof_vlan_hdr with
      | None => Ret (-1, p)
      | Some p =>
        let eth := 0 in
        if eth + sizeof_ethhdr >? data_end p then Ret (-1, p)
        else
          p ← wr_bytes p eth eth_cpy;
          p ← wr16 p (eth + 12) h_proto;
          Ret (vlid, p)
      end.

Definition vlan_tag_push (p : list Z) (eth vlid : Z) : outcome (Z * list Z) :=
  eth_cpy ← rd_bytes p eth sizeof_ethhdr;
  match adjust_head p (0 - sizeof_vlan_hdr) with
  | None => Ret (-1, p)
  | Some p =>
    let eth := 0 in
    if eth + sizeof_ethhdr >? data_end p then Ret (-1, p)
    else
      p ← wr_bytes p eth eth_cpy;
      let vlh := eth + sizeof_ethhdr in
      if vlh + sizeof_vlan_hdr >? data_end p then Ret (-1, p)
      else
        p ← wr16 p vlh (bswap16 vlid);
        h ← rd16 p (eth + 12);
        p ← wr16 p (vlh + 2) h;
        p ← wr16 p (eth + 12) (bswap16 ETH_P_8021Q);
        Ret (0, p)
  end.
End rewrite.

Definition swap_src_dst_mac (p : list Z) (eth : Z) : outcome (list Z) :=
  h_tmp ← rd_bytes p (eth + 6) 6;
  dest ← rd_bytes p eth 6;
  p ← wr_bytes p (eth + 6) dest;
  wr_bytes p eth h_tmp.

Definition swap_src_dst_ipv6 (p : list Z) (ipv6 : Z) : outcome (list Z) :=
  tmp ← rd_bytes p (ipv6 + 8) 16;
  daddr ← rd_bytes p (ipv6 + 24) 16;
  p ← wr_bytes p (ipv6 + 8) daddr;
  wr_bytes p (ipv6 + 24) tmp.

Definition swap_src_dst_ipv4 (p : list Z) (iphdr : Z) : outcome (list Z) :=
  tmp ← rd_bytes p (iphdr + 12) 4;
  daddr ← rd_bytes p (iphdr + 16) 4;
  p ← wr_bytes p (iphdr + 12) daddr;
  wr_bytes p (iphdr + 16) tmp.

(** ** Loads and stores by position *)

Lemma wr_bytes_front old bs post :
  length bs = length old → wr_bytes (old ++ post) 0 bs = Ret (bs ++ post).
Proof. by apply (wr_bytes_at []). Qed.

(** [be16] is what a store of the swapped value writes. *)
Lemma wr16_be16 pre old post o x :
  o = Z.of_nat (length pre) → length old = 2%nat →
  wr16 (pre ++ old ++ post) o (bswap16 x) = Ret (pre ++ be16 x ++ post).
Proof.
  intros Ho Hl. rewrite wr16_bytes by (unfold data_end; rewrite ?length_app; lia).
  assert (E : [u8 (bswap16 x); u8 (bswap16 x / 256)] = be16 x).
  { unfold be16, bswap16, wrap. change (2 ^ 8) with 256.
    pose proof (Z.mod_pos_bound (x / 256) 256). pose proof (Z.mod_pos_bound x 256).
    rewrite (Z.add_comm (x mod 256 * 256)), Z.mod_add, Z.div_add by lia.
    by rewrite !Z.mod_mod, (Z.div_small ((x / 256) mod 256)), Z.add_0_l, Z.mod_mod by lia. }
  rewrite E. by apply wr_bytes_at.
Qed.

Lemma length_ge_split {A} (l : list A) n :
  (n ≤ length l)%nat → ∃ l1 l2, l = l1 ++ l2 ∧ length l1 = n.
Proof.
  intros H. exists (take n l), (drop n l). by rewrite take_drop, length_take_le.
Qed.

(** The popped frame, byte by byte. *)
Lemma vlan_tag_pop_bytes adjust_head macs tpid tci ft rest :
  adjust_head_spec adjust_head → length macs = 12%nat →
  fits 16 tpid → is_vlan_type tpid = true → fits 16 tci → fits 16 ft →
  is_Some (adjust_head (macs ++ be16 tpid ++ be16 tci ++ be16 ft ++ rest) sizeof_vlan_hdr) →
  vlan_tag_pop adjust_head (macs ++ be16 tpid ++ be16 tci ++ be16 ft ++ rest) 0 =
    Ret (tci, macs ++ be16 ft ++ rest).
Proof.
  intros Hadj Hm Htp Hvl Htc Hft [p' Hp']. unfold vlan_tag_pop, sizeof_ethhdr, sizeof_vlan_hdr in *.
  assert (E0 : rd16 (macs ++ be16 tpid ++ be16 tci ++ be16 ft ++ rest) (0 + 12) = Ret (bswap16 tpid))
    by (apply rd16_be16; [done|by rewrite Hm]).
  rewrite E0. cbn [mbind outcome_bind]. rewrite proto_is_vlan_swap, Hvl by done. cbn [negb].
  rewrite Z.gtb_ltb, (proj2 (Z.ltb_ge _ _)) by (unfold data_end; rewrite !length_app; simpl; lia).
  assert (E1 : rd16 (macs ++ be16 tpid ++ be16 tci ++ be16 ft ++ rest) (0 + 14) = Ret (bswap16 tci)).
  { rewrite (app_assoc macs). apply rd16_be16; [done|]. rewrite length_app, Hm. done. }
  assert (E2 : rd16 (macs ++ be16 tpid ++ be16 tci ++ be16 ft ++ rest) (0 + 14 + 2) = Ret (bswap16 ft)).
  { rewrite (app_assoc macs), (app_assoc (macs ++ _)). apply rd16_be16; [done|].
    rewrite !length_app, Hm. done. }
  assert (E3 : rd_bytes (macs ++ be16 tpid ++ be16 tci ++ be16 ft ++ rest) 0 14 = Ret (macs ++ be16 tpid)).
  { rewrite (app_assoc macs). apply (rd_bytes_at []); [done|]. rewrite length_app, Hm. done. }
  rewrite E1. cbn [mbind outcome_bind]. rewrite E2. cbn [mbind outcome_bind]. rewrite E3.
  cbn [mbind outcome_bind]. rewrite Hp'. destruct (Hadj _ _ _ Hp') as [Hcut _].
  specialize (Hcut ltac:(lia)). change (Z.to_nat 4) with 4%nat in Hcut.
  assert (Hp2 : ∃ old, p' = old ++ rest ∧ length old = 14%nat).
  { exists (drop 4 (macs ++ be16 tpid ++ be16 tci ++ be16 ft)).
    rewrite length_drop, !length_app, Hm. split; [|done]. rewrite Hcut.
    replace (macs ++ be16 tpid ++ be16 tci ++ be16 ft ++ rest) with
      ((macs ++ be16 tpid ++ be16 tci ++ be16 ft) ++ rest) by by rewrite <-!app_assoc.
    apply drop_app_le. rewrite !length_app, Hm. simpl. lia. }
  destruct Hp2 as (old & -> & Hold).
  rewrite Z.gtb_ltb, (proj2 (Z.ltb_ge _ _)) by (unfold data_end; rewrite !length_app; lia).
  rewrite wr_bytes_front by (rewrite length_app, Hold, Hm; done).
  cbn [mbind outcome_bind app]. rewrite <-app_assoc, wr16_be16 by (done || lia).
  cbn [mbind outcome_bind]. by rewrite bswap16_invol.
Qed.

(** The pushed frame, byte by byte. *)
Lemma vlan_tag_push_bytes adjust_head macs ft rest vlid :
  adjust_head_spec adjust_head → length macs = 12%nat → fits 16 ft →
  is_Some (adjust_head (macs ++ be16 ft ++ rest) (0 - sizeof_vlan_hdr)) →
  vlan_tag_push adjust_head (macs ++ be16 ft ++ rest) 0 vlid =
    Ret (0, macs ++ be16 ETH_P_8021Q ++ be16 vlid ++ be16 ft ++ rest).
Proof.
  intros Hadj Hm Hft [p' Hp']. unfold vlan_tag_push, sizeof_ethhdr, sizeof_vlan_hdr in *.
  assert (E1 : rd_bytes (macs ++ be16 ft ++ rest) 0 14 = Ret (macs ++ be16 ft)).
  { rewrite (app_assoc macs). apply (rd_bytes_at []); [done|]. rewrite length_app, Hm. done. }
  rewrite E1. cbn [mbind outcome_bind]. rewrite Hp'. destruct (Hadj _ _ _ Hp') as [_ Hroom].
  destruct (Hroom ltac:(lia)) as (room & Hr & ->). change (Z.to_nat (- (0 - 4))) with 4%nat in Hr.
  assert (Hp2 : ∃ old x2 y2, room ++ macs ++ be16 ft ++ rest = old ++ x2 ++ y2 ++ rest ∧
    length old = 14%nat ∧ length x2 = 2%nat ∧ length y2 = 2%nat).
  { destruct (length_ge_split macs 10) as (m1 & m2 & -> & Hm1); [lia|].
    rewrite length_app in Hm. exists (room ++ m1), m2, (be16 ft).
    rewrite length_app, <-!app_assoc. split_and!; [done|lia|lia|done]. }
  destruct Hp2 as (old & x2 & y2 & -> & Ho & Hx & Hy).
  rewrite Z.gtb_ltb, (proj2 (Z.ltb_ge _ _)) by (unfold data_end; rewrite !length_app; lia).
  rewrite wr_bytes_front by (rewrite length_app, Ho, Hm; done).
  cbn [mbind outcome_bind app].
  rewrite Z.gtb_ltb, (proj2 (Z.ltb_ge _ _)) by (unfold data_end; rewrite !length_app, Hm; simpl; lia).
  assert (Hmf : length (macs ++ be16 ft) = 14%nat) by (rewrite length_app, Hm; done).
  rewrite wr16_be16 by (done || rewrite Hmf; done). cbn [mbind outcome_bind].
  assert (E2 : rd16 ((macs ++ be16 ft) ++ be16 vlid ++ y2 ++ rest) (0 + 12) = Ret (bswap16 ft)).
  { rewrite <-app_assoc. apply rd16_be16; [done|]. by rewrite Hm. }
  rewrite E2. cbn [mbind outcome_bind]. rewrite (app_assoc (macs ++ be16 ft)).
  rewrite wr16_be16 by (done || rewrite length_app, Hmf; done). cbn [mbind outcome_bind].
  rewrite <-!app_assoc, wr16_be16 by (done || rewrite Hm; done). done.
Qed.

(** A tag put in front of printed tags. *)
Lemma print_eth_cons dst src tpid tci tags proto payload :
  print_eth dst src ((tpid, tci) :: tags) proto ++ payload =
  (dst ++ src) ++ be16 tpid ++ be16 tci ++ print_tags tags proto ++ payload.
Proof. unfold print_eth. cbn [print_tags]. by rewrite <-!app_assoc. Qed.

(** [vlan_tag_pop] takes the outermost tag off an Ethernet header and keeps
    addresses, inner tags, type and payload; it returns the whole control
    information of the tag. *)
Theorem vlan_tag_pop_print adjust_head dst src tpid tci tags proto payload :
  adjust_head_spec adjust_head → length dst = 6%nat → length src = 6%nat →
  fits 16 tpid → is_vlan_type tpid = true → fits 16 tci →
  Forall (λ t, fits 16 t.1 ∧ fits 16 t.2) tags → fits 16 proto →
  is_Some (adjust_head (print_eth dst src ((tpid, tci) :: tags) proto ++ payload) sizeof_vlan_hdr) →
  vlan_tag_pop adjust_head (print_eth dst src ((tpid, tci) :: tags) proto ++ payload) 0 =
    Ret (tci, print_eth dst src tags proto ++ payload).
Proof.
  intros Ha Hd Hs Htp Hvl Htc Ht Hp. rewrite print_eth_cons, print_eth_lookup by done.
  destruct (print_tags_first tags proto) as [rst ->]. rewrite <-!(app_assoc (be16 (first_type _ _))).
  intros Hsome. apply vlan_tag_pop_bytes; auto using first_type_fits.
  rewrite length_app. lia.
Qed.

(** The helper with [n] bytes of headroom, filled with zeros. *)
Definition adjust_head_room (n : nat) (p : list Z) (d : Z) : option (list Z) :=
  if d <? 0 then if (Z.to_nat (- d) <=? n)%nat then Some (replicate (Z.to_nat (- d)) 0 ++ p) else None
  else if (Z.to_nat d <=? length p - 14)%nat then Some (drop (Z.to_nat d) p) else None.

Lemma adjust_head_room_spec n : adjust_head_spec (adjust_head_room n).
Proof.
  intros p d p'. unfold adjust_head_room. destruct (Z.ltb_spec d 0).
  - case_match; [|done]. intros [= <-]. split; [lia|]. intros _.
    eexists. split; [|done]. by rewrite length_replicate.
  - case_match; [|done]. intros [= <-]. split; [done|]. intros ?.
    assert (d = 0) as -> by lia. exists []. by rewrite drop_0.
Qed.

Lemma vlan_tag_pop_print_witness :
  vlan_tag_pop (adjust_head_room 0)
    (print_eth (replicate 6 1) (replicate 6 2) [(0x8100, 0x2064)] 0x0800 ++ [9; 9]) 0 =
  Ret (0x2064, print_eth (replicate 6 1) (replicate 6 2) [] 0x0800 ++ [9; 9]).
Proof.
  apply (vlan_tag_pop_print (adjust_head_room 0) (replicate 6 1) (replicate 6 2) 0x8100 0x2064 []
    0x0800 [9; 9]); first [done|apply adjust_head_room_spec|by vm_compute; eexists].
Defined.

(** [vlan_tag_push] puts a tag with the id in front of the tags of an
    Ethernet header, and [vlan_tag_pop] on the result returns the id and the
    packet there was before. *)
Theorem vlan_push_pop adjust_head dst src tags proto payload vlid :
  adjust_head_spec adjust_head → length dst = 6%nat → length src = 6%nat →
  Forall (λ t, fits 16 t.1 ∧ fits 16 t.2) tags → fits 16 proto → fits 16 vlid →
  let p := print_eth dst src tags proto ++ payload in
  let p1 := print_eth dst src ((ETH_P_8021Q, vlid) :: tags) proto ++ payload in
  is_Some (adjust_head p (0 - sizeof_vlan_hdr)) → is_Some (adjust_head p1 sizeof_vlan_hdr) →
  vlan_tag_push adjust_head p 0 vlid = Ret (0, p1) ∧
  vlan_tag_pop adjust_head p1 0 = Ret (vlid, p).
Proof.
  intros Ha Hd Hs Ht Hp Hv p p1. subst p p1. rewrite print_eth_cons, print_eth_lookup by done.
  destruct (print_tags_first tags proto) as [rst ->]. rewrite <-!(app_assoc (be16 (first_type _ _))).
  assert (Hm : length (dst ++ src) = 12%nat) by (rewrite length_app; lia).
  intros H1 H2. split.
  - apply vlan_tag_push_bytes; auto using first_type_fits.
  - apply vlan_tag_pop_bytes; auto using first_type_fits; done.
Qed.

Lemma vlan_push_pop_witness :
  let p := print_eth (replicate 6 1) (replicate 6 2) [(0x88A8, 5)] 0x86DD ++ [9; 9] in
  let p1 := print_eth (replicate 6 1) (replicate 6 2) [(0x8100, 77); (0x88A8, 5)] 0x86DD ++ [9; 9] in
  vlan_tag_push (adjust_head_room 8) p 0 77 = Ret (0, p1) ∧
  vlan_tag_pop (adjust_head_room 8) p1 0 = Ret (77, p).
Proof.
  apply (vlan_push_pop (adjust_head_room 8) (replicate 6 1) (replicate 6 2) [(0x88A8, 5)] 0x86DD
    [9; 9] 77);
    first [done|apply adjust_head_room_spec|by repeat constructor|by vm_compute; eexists].
Defined.

(** ** Swapped addresses *)

(** The sum of the 16-bit words of a header, as its checksum adds them up. *)
Fixpoint word_sum (bs : list Z) : Z :=
  match bs with
  | a :: b :: bs => 256 * a + b + word_sum bs
  | [a] => 256 * a
  | [] => 0
  end.

Lemma word_sum_app n l1 l2 : length l1 = (n + n)%nat → word_sum (l1 ++ l2) = word_sum l1 + word_sum l2.
Proof.
  revert l1. induction n as [|n IH]; intros l1 Hl.
  - by destruct l1.
  - destruct l1 as [|a [|b l1]]; simpl in Hl; try lia. cbn [app word_sum]. rewrite IH; lia.
Qed.

(** The exchange of two regions next to each other. *)
Lemma swap_adjacent pre a b post o1 o2 n :
  o1 = Z.of_nat (length pre) → o2 = o1 + n →
  n = Z.of_nat (length a) → n = Z.of_nat (length b) →
  (tmp ← rd_bytes (pre ++ a ++ b ++ post) o1 n;
   y ← rd_bytes (pre ++ a ++ b ++ post) o2 n;
   p ← wr_bytes (pre ++ a ++ b ++ post) o1 y;
   wr_bytes p o2 tmp) = Ret (pre ++ b ++ a ++ post).
Proof.
  intros E1 E2 Ha Hb. rewrite (rd_bytes_at pre a (b ++ post) o1 n) by done. cbn [mbind outcome_bind].
  assert (Eb : rd_bytes (pre ++ a ++ b ++ post) o2 n = Ret b).
  { rewrite (app_assoc pre). apply rd_bytes_at; [rewrite length_app; lia|done]. }
  rewrite Eb. cbn [mbind outcome_bind]. rewrite (wr_bytes_at pre a b (b ++ post)) by (done || lia).
  cbn [mbind outcome_bind]. rewrite (app_assoc pre), wr_bytes_at by (rewrite ?length_app; lia).
  by rewrite <-app_assoc.
Qed.

(** The three swaps exchange exactly the two addresses, wherever the header
    is, and the sum of the words of an IPv4 header, hence its checksum, is the
    same before and after. *)
Theorem swap_src_dst_spec pre dst src hd6 saddr6 daddr6 hd4 saddr daddr post :
  length dst = 6%nat → length src = 6%nat →
  length hd6 = 8%nat → length saddr6 = 16%nat → length daddr6 = 16%nat →
  length hd4 = 12%nat → length saddr = 4%nat → length daddr = 4%nat →
  swap_src_dst_mac (pre ++ dst ++ src ++ post) (Z.of_nat (length pre)) =
    Ret (pre ++ src ++ dst ++ post) ∧
  swap_src_dst_ipv6 (pre ++ hd6 ++ saddr6 ++ daddr6 ++ post) (Z.of_nat (length pre)) =
    Ret (pre ++ hd6 ++ daddr6 ++ saddr6 ++ post) ∧
  swap_src_dst_ipv4 (pre ++ hd4 ++ saddr ++ daddr ++ post) (Z.of_nat (length pre)) =
    Ret (pre ++ hd4 ++ daddr ++ saddr ++ post) ∧
  word_sum (hd4 ++ saddr ++ daddr ++ post) = word_sum (hd4 ++ daddr ++ saddr ++ post).
Proof.
  intros Hd Hs H6 Hs6 Hd6 H4 Hs4 Hd4. split_and!.
  - unfold swap_src_dst_mac.
    assert (E1 : rd_bytes (pre ++ dst ++ src ++ post) (Z.of_nat (length pre) + 6) 6 = Ret src).
    { rewrite (app_assoc pre). apply rd_bytes_at; rewrite ?length_app; lia. }
    rewrite E1. cbn [mbind outcome_bind]. rewrite (rd_bytes_at pre dst (src ++ post)) by lia.
    cbn [mbind outcome_bind]. rewrite (app_assoc pre), (wr_bytes_at (pre ++ dst) src dst post)
      by (rewrite ?length_app; lia). cbn [mbind outcome_bind].
    rewrite <-app_assoc. by rewrite (wr_bytes_at pre dst src (dst ++ post)) by lia.
  - unfold swap_src_dst_ipv6. rewrite !(app_assoc pre). apply swap_adjacent; rewrite ?length_app; lia.
  - unfold swap_src_dst_ipv4. rewrite !(app_assoc pre). apply swap_adjacent; rewrite ?length_app; lia.
  - rewrite (word_sum_app 6 hd4), (word_sum_app 6 hd4) by lia. repeat rewrite (word_sum_app 2) by lia. lia.
Qed.

Lemma swap_src_dst_spec_witness :
  swap_src_dst_mac ([7] ++ replicate 6 1 ++ replicate 6 2 ++ [3]) 1 =
    Ret ([7] ++ replicate 6 2 ++ replicate 6 1 ++ [3]) ∧
  swap_src_dst_ipv6 ([7] ++ replicate 8 0 ++ replicate 16 1 ++ replicate 16 2 ++ [3]) 1 =
    Ret ([7] ++ replicate 8 0 ++ replicate 16 2 ++ replicate 16 1 ++ [3]) ∧
  swap_src_dst_ipv4 ([7] ++ replicate 12 0 ++ [10; 0; 0; 1] ++ [10; 0; 0; 2] ++ [3]) 1 =
    Ret ([7] ++ replicate 12 0 ++ [10; 0; 0; 2] ++ [10; 0; 0; 1] ++ [3]) ∧
  word_sum (replicate 12 0 ++ [10; 0; 0; 1] ++ [10; 0; 0; 2] ++ [3]) =
    word_sum (replicate 12 0 ++ [10; 0; 0; 2] ++ [10; 0; 0; 1] ++ [3]).
Proof. apply (swap_src_dst_spec [7]); reflexivity. Defined.
