(* ===== verification/Xdp.v ===== *)
(** * XDP programs of dev-net-ebpf-xdp/kernel and dev-net-firewall/ebpf-xdp

    Each program is a function of the packet, the context fields it reads and
    the kernel services it calls, and gives its action and the packet it leaves.
    The services are arguments: a map lookup is a function from keys to values,
    [bpf_fib_lookup] a function of the request, [bpf_redirect] and
    [bpf_redirect_map] functions to an action. [bpf_printk] has no effect on
    the result and is left out. The numbers of the actions, protocols and lookup
    results are those of the Linux headers. *)

From Stdlib Require Import ZArith Lia.
From stdpp Require Import base tactics numbers list.
From S2P Require Import Prelude Packet Parsing Rewrite.
Local Open Scope Z_scope.

Definition XDP_ABORTED : Z := 0.
Definition XDP_DROP : Z := 1.
Definition XDP_PASS : Z := 2.
Definition XDP_REDIRECT : Z := 4.

Definition IPPROTO_ICMP : Z := 1.
Definition IPPROTO_TCP : Z := 6.
Definition IPPROTO_UDP : Z := 17.
Definition ETH_P_IP : Z := 0x0800.
Definition ETH_P_IPV6 : Z := 0x86DD.
Definition PROTO_IP : Z := 0x0800.

Definition BPF_FIB_LKUP_RET_SUCCESS : Z := 0.
Definition BPF_FIB_LKUP_RET_NO_NEIGH : Z := 7.

(** ** xdp_pass.c *)

Definition xdp_pass_prog (p : list Z) : outcome (Z * list Z) := Ret (XDP_PASS, p).

(** ** xdp_packet_block.c *)

(** [x->check += bpf_htons(1); if (!x->check) x->check += bpf_htons(1);] *)
Definition check_inc (check : Z) : Z :=
  let check := u16 (check + bswap16 1) in
  if check =? 0 then u16 (check + bswap16 1) else check.

(** The UDP branch: the destination port goes down by one. *)
Definition block_udp (p : list Z) (udphdr : Z) : outcome (list Z) :=
  dest ← rd16 p (udphdr + 2);
  p ← wr16 p (udphdr + 2) (bswap16 (u16 (bswap16 dest - 1)));
  check ← rd16 p (udphdr + 6);
  wr16 p (udphdr + 6) (check_inc check).

(** The TCP branch: whether the packet is dropped, and the packet. *)
Definition block_tcp (p : list Z) (tcphdr : Z) : outcome (bool * list Z) :=
  dest ← rd16 p (tcphdr + 2);
  p ← wr16 p (tcphdr + 2) (bswap16 dest);
  check ← rd16 p (tcphdr + 16);
  p ← wr16 p (tcphdr + 16) (check_inc check);
  dest ← rd16 p (tcphdr + 2);
  if dest =? 9999 then Ret (true, p)
  else
    p ← wr16 p (tcphdr + 2) (bswap16 dest);
    Ret (false, p).

(** From the parsed IP header on: the action, the counter [rxcnt] (absent when
    its lookup fails) and the packet. *)
Definition block_l4 (rxcnt : option Z) (p : list Z) (r : parsed) : outcome (Z * option Z * list Z) :=
  let '(ip_type, _, pos) := r in
  if ip_type =? IPPROTO_UDP then
    '(len, udphdr, _) ← parse_udphdr p pos;
    if len <? 0 then Ret (XDP_ABORTED, rxcnt, p)
    else
      udphdr ← or_fault Uninit udphdr;
      p ← block_udp p udphdr;
      Ret (XDP_PASS, rxcnt, p)
  else if ip_type =? IPPROTO_TCP then
    '(len, tcphdr, _) ← parse_tcphdr p pos;
    if len <? 0 then Ret (XDP_ABORTED, rxcnt, p)
    else
      tcphdr ← or_fault Uninit tcphdr;
      '(drop, p) ← block_tcp p tcphdr;
      if (drop : bool) then Ret (XDP_DROP, (λ v, v + 1) <$> rxcnt, p)
      else Ret (XDP_PASS, rxcnt, p)
  else Ret (XDP_PASS, rxcnt, p).

Definition xdp_block_port_func (rxcnt : option Z) (p : list Z)
    : outcome (Z * option Z * list Z) :=
  '(eth_type, _, pos) ← parse_ethhdr p 0;
  if eth_type <? 0 then Ret (XDP_ABORTED, rxcnt, p)
  else if eth_type =? bswap16 ETH_P_IP then r ← parse_iphdr p pos; block_l4 rxcnt p r
  else if eth_type =? bswap16 ETH_P_IPV6 then r ← parse_ip6hdr p pos; block_l4 rxcnt p r
  else Ret (XDP_PASS, rxcnt, p).

(** ** xdp_map_allow.c *)

(** [allowed_addr] is looked up at the address 0 with a prefix of 32 bits. *)
Definition allowed_addr_prog (lookup : Z -> Z -> option Z) (p : list Z) : outcome Z :=
  if sizeof_ethhdr >? data_end p then Ret XDP_DROP
  else
    h_proto ← rd16 p 12;
    if negb (bswap16 h_proto =? PROTO_IP) then Ret XDP_PASS
    else
      let ip := sizeof_ethhdr in
      if sizeof_ethhdr + sizeof_iphdr >? data_end p then Ret XDP_DROP
      else
        match lookup 32 0 with
        | None => Ret XDP_DROP
        | Some v =>
          let allow_port := u16 v in
          if allow_port =? 0 then Ret XDP_DROP
          else
            protocol ← rd8 p (ip + 9);
            if protocol =? IPPROTO_UDP then
              let udp := sizeof_ethhdr + sizeof_iphdr in
              if sizeof_ethhdr + sizeof_iphdr + sizeof_udphdr >? data_end p then Ret XDP_DROP
              else
                dest ← rd16 p (udp + 2);
                if bswap16 dest =? allow_port then Ret XDP_PASS else Ret XDP_DROP
            else Ret XDP_DROP
        end.

(** ** dev-net-firewall/ebpf-xdp/prog/firewall.c *)

(** The map takes the two low bytes of [dest_port] as its key. *)
Definition firewall_prog (port_verdict : Z -> option Z) (p : list Z) : outcome Z :=
  if sizeof_ethhdr >? data_end p then Ret XDP_DROP
  else
    h_proto ← rd16 p 12;
    if negb (bswap16 h_proto =? PROTO_IP) then Ret XDP_PASS
    else
      let ip := sizeof_ethhdr in
      if sizeof_ethhdr + sizeof_iphdr >? data_end p then Ret XDP_DROP
      else
        protocol ← rd8 p (ip + 9);
        if negb (protocol =? IPPROTO_TCP) then Ret XDP_PASS
        else
          let tcp := sizeof_ethhdr + sizeof_iphdr in
          if sizeof_ethhdr + sizeof_iphdr + sizeof_tcphdr >? data_end p then Ret XDP_DROP
          else
            dest ← rd16 p (tcp + 2);
            let dest_port := bswap16 dest in
            match port_verdict (u16 dest_port) with
            | None => Ret XDP_PASS
            | Some v =>
              let verdict := u16 v in
              if verdict =? 1 then Ret XDP_PASS
              else if verdict =? 0 then Ret XDP_DROP
              else Ret XDP_PASS
            end.

(** ** The redirecting programs *)

(** What the programs fill in of [struct bpf_fib_lookup] (the rest is zero),
    and what they read of it after the lookup. *)
Record fib_request := mkFibRequest {
  family : Z;
  ipv4_src : Z;
  ipv4_dst : Z;
  ifindex : Z;
}.

Record fib_result := mkFibResult {
  fib_rc : Z;
  fib_ifindex : Z;
  dmac : list Z;
  smac : list Z;
}.

Section redirect.
Context (bpf_fib_lookup : fib_request -> fib_result).
Context (bpf_redirect : Z -> Z) (bpf_redirect_map : Z -> Z -> Z).
Context (ingress_ifindex rx_queue_index refcnt : Z).

(** Offsets of the Ethernet and the IPv4 header. *)
Abbreviation eth_header := 0.
Abbreviation ip_header := sizeof_ethhdr.

(** The lookup with its two early returns. *)
Definition fib_route (src dst : Z) : Z + fib_result :=
  let fib_params := bpf_fib_lookup (mkFibRequest 2 src dst ingress_ifindex) in
  let rc := fib_rc fib_params in
  if negb (rc =? BPF_FIB_LKUP_RET_SUCCESS) && negb (rc =? BPF_FIB_LKUP_RET_NO_NEIGH) then inl XDP_DROP
  else if rc =? BPF_FIB_LKUP_RET_NO_NEIGH then inl XDP_PASS
  else inr fib_params.

(** [memcpy] of the two addresses into the Ethernet header. *)
Definition set_macs (p : list Z) (fib_params : fib_result) : outcome (list Z) :=
  p ← wr_bytes p eth_header (dmac fib_params);
  wr_bytes p (eth_header + 6) (smac fib_params).

(** [_xsk_def_xdp_prog.c] *)
Definition xsk_def_prog (p : list Z) : outcome (Z * list Z) :=
  if refcnt =? 0 then Ret (XDP_PASS, p)
  else if eth_header + sizeof_ethhdr >? data_end p then Ret (XDP_PASS, p)
  else
    h_proto ← rd16 p (eth_header + 12);
    if negb (bswap16 h_proto =? 0x0800) then Ret (XDP_PASS, p)
    else if ip_header + sizeof_iphdr >? data_end p then Ret (XDP_PASS, p)
    else
      saddr ← rd32 p (ip_header + 12);
      daddr ← rd32 p (ip_header + 16);
      match fib_route saddr daddr with
      | inl action => Ret (action, p)
      | inr fib_params =>
        p ← set_macs p fib_params;
        Ret (bpf_redirect_map rx_queue_index XDP_PASS, p)
      end.

(** The ICMP branch of xdp_redirect_dev.c: the reply goes back to the sender. *)
Definition redirect_icmp (p : list Z) : outcome (Z * list Z) :=
  src ← rd32 p (ip_header + 16);
  dst ← rd32 p (ip_header + 12);
  match fib_route src dst with
  | inl action => Ret (action, p)
  | inr fib_params =>
    oldipdst ← rd32 p (ip_header + 16);
    saddr ← rd32 p (ip_header + 12);
    p ← wr32 p (ip_header + 16) saddr;
    p ← wr32 p (ip_header + 12) oldipdst;
    p ← set_macs p fib_params;
    Ret (bpf_redirect (fib_ifindex fib_params), p)
  end.

(** Its TCP and UDP branches, which differ in the size of the header they ask
    for. *)
Definition redirect_l4 (size : Z) (p : list Z) : outcome (Z * list Z) :=
  if ip_header + sizeof_iphdr + size >? data_end p then Ret (XDP_PASS, p)
  else
    src ← rd32 p (ip_header + 12);
    dst ← rd32 p (ip_header + 16);
    match fib_route src dst with
    | inl action => Ret (action, p)
    | inr fib_params =>
      p ← set_macs p fib_params;
      Ret (bpf_redirect (fib_ifindex fib_params), p)
    end.

(** [xdp_redirect_dev.c]; it compares [h_proto] in network order. *)
Definition xdp_sock2_prog (p : list Z) : outcome (Z * list Z) :=
  if eth_header + sizeof_ethhdr >? data_end p then Ret (XDP_PASS, p)
  else
    h_proto ← rd16 p (eth_header + 12);
    if negb (h_proto =? 0x08) then Ret (XDP_PASS, p)
    else if ip_header + sizeof_iphdr >? data_end p then Ret (XDP_PASS, p)
    else
      protocol ← rd8 p (ip_header + 9);
      if protocol =? IPPROTO_ICMP then redirect_icmp p
      else if protocol =? IPPROTO_TCP then redirect_l4 sizeof_tcphdr p
      else if protocol =? IPPROTO_UDP then redirect_l4 sizeof_udphdr p
      else Ret (XDP_PASS, p).

(** A branch of xdp_redirect_xsk.c: the lookup and the new addresses; the left
    injection is its early return. *)
Definition xsk_branch (p : list Z) : outcome (Z + list Z) :=
  src ← rd32 p (ip_header + 12);
  dst ← rd32 p (ip_header + 16);
  match fib_route src dst with
  | inl action => Ret (inl action)
  | inr fib_params => p ← set_macs p fib_params; Ret (inr p)
  end.

(** [xdp_redirect_xsk.c] *)
Definition xdp_def_prog (p : list Z) : outcome (Z * list Z) :=
  if refcnt =? 0 then Ret (XDP_PASS, p)
  else if eth_header + sizeof_ethhdr >? data_end p then Ret (XDP_PASS, p)
  else
    h_proto ← rd16 p (eth_header + 12);
    if negb (bswap16 h_proto =? PROTO_IP) then Ret (XDP_PASS, p)
    else if ip_header + sizeof_iphdr >? data_end p then Ret (XDP_PASS, p)
    else
      protocol ← rd8 p (ip_header + 9);
      r ← if (protocol =? IPPROTO_ICMP) || (protocol =? IPPROTO_TCP) || (protocol =? IPPROTO_UDP)
          then xsk_branch p else Ret (inr p);
      match r with
      | inl action => Ret (action, p)
      | inr p => Ret (bpf_redirect_map rx_queue_index XDP_PASS, p)
      end.
End redirect.

(** ** Safety and verdicts *)

Lemma bytes_insert p i v : bytes p → fits 8 v → bytes (<[i := v]> p).
Proof. intros. by apply Forall_insert. Qed.

(** The programs' bounds checks, one by one. *)
Ltac xdp_checks :=
  rewrite ?Z.gtb_ltb;
  repeat match goal with
  | |- context [Z.ltb ?a ?b] => destruct (Z.ltb_spec a b); [by eauto|]
  end.

(** [firewall_prog] on any packet: it reads nothing outside the packet and
    returns pass or drop. *)
Theorem firewall_prog_total port_verdict p :
  ∃ a, firewall_prog port_verdict p = Ret a ∧ (a = XDP_PASS ∨ a = XDP_DROP).
Proof.
  unfold firewall_prog, sizeof_ethhdr, sizeof_iphdr, sizeof_tcphdr. xdp_checks.
  destruct (rd16_in p 12) as (h & ->); [lia..|]. cbn [mbind outcome_bind].
  destruct (negb _); [by eauto|]. xdp_checks.
  destruct (rd8_in p (14 + 9)) as (pr & -> & _); [lia|]. cbn [mbind outcome_bind].
  destruct (negb _); [by eauto|]. xdp_checks.
  destruct (rd16_in p (14 + 20 + 2)) as (d & ->); [lia..|]. cbn [mbind outcome_bind].
  destruct (port_verdict _); [|by eauto]. repeat case_match; by eauto.
Qed.

(** An untagged IPv4 frame. *)
Definition ip_frame (dst src : list Z) (ip rest : list Z) : list Z :=
  print_eth dst src [] ETH_P_IP ++ ip ++ rest.

Lemma ip_frame_proto dst src ip rest :
  length dst = 6%nat → length src = 6%nat →
  rd16 (ip_frame dst src ip rest) 12 = Ret (bswap16 ETH_P_IP).
Proof.
  intros Hd Hs. unfold ip_frame. rewrite print_eth_lookup by done.
  apply (rd16_be16 (dst ++ src) ETH_P_IP (ip ++ rest)); [done|]. rewrite length_app. lia.
Qed.

Lemma ip_frame_protocol dst src tos tot_len id frag_off ttl protocol check saddr daddr opts rest :
  length dst = 6%nat → length src = 6%nat →
  rd8 (ip_frame dst src (print_ip tos tot_len id frag_off ttl protocol check saddr daddr opts) rest) 23 =
    Ret protocol.
Proof.
  intros Hd Hs. unfold ip_frame, print_ip. rewrite print_eth_lookup by done. set (b0 := 0x40 + _).
  transitivity (rd8 (((dst ++ src) ++ be16 ETH_P_IP ++ [b0; tos] ++ be16 tot_len ++ be16 id ++
    be16 frag_off ++ [ttl]) ++ protocol :: be16 check ++ saddr ++ daddr ++ opts ++ rest) 23);
    [by rewrite <-!app_assoc|].
  apply rd8_at. rewrite !length_app. simpl. lia.
Qed.

Lemma data_end_ip_frame dst src ip rest :
  length dst = 6%nat → length src = 6%nat →
  data_end (ip_frame dst src ip rest) = 14 + Z.of_nat (length ip) + Z.of_nat (length rest).
Proof.
  intros Hd Hs. unfold data_end, ip_frame. rewrite print_eth_lookup by done.
  rewrite !length_app. simpl. lia.
Qed.

(** The destination port of a TCP header that follows an IPv4 header. *)
Lemma ip_frame_port dst src ip source dest seq ack flags window check urg opts payload :
  length dst = 6%nat → length src = 6%nat → length ip = 20%nat → fits 16 dest →
  rd16 (ip_frame dst src ip
    (print_tcp source dest seq ack flags window check urg opts ++ payload)) 36 = Ret (bswap16 dest).
Proof.
  intros Hd Hs Hip Hp. unfold ip_frame, print_tcp. rewrite print_eth_lookup by done. set (b0 := 16 * _).
  transitivity (rd16 (((dst ++ src) ++ be16 ETH_P_IP ++ ip ++ be16 source) ++ be16 dest ++
    seq ++ ack ++ [b0; flags] ++ be16 window ++ be16 check ++ be16 urg ++ opts ++ payload) 36);
    [cbn [print_tags]; by rewrite <-!app_assoc|].
  apply rd16_be16; [done|]. rewrite !length_app. simpl. lia.
Qed.

(** C38. [firewall_prog] on a TCP packet without IPv4 options decides by the
    verdict stored for its destination port: 0 drops, anything else and no
    entry pass. Other protocols pass. *)
Theorem firewall_prog_filters port_verdict dst src tos tot_len id frag_off ttl protocol icheck saddr daddr
    source dest seq ack flags window tcheck urg topts payload :
  length dst = 6%nat → length src = 6%nat → length saddr = 4%nat → length daddr = 4%nat →
  length seq = 4%nat → length ack = 4%nat → fits 16 dest →
  (∀ k v, port_verdict k = Some v → fits 16 v) →
  firewall_prog port_verdict
    (ip_frame dst src (print_ip tos tot_len id frag_off ttl protocol icheck saddr daddr [])
       (print_tcp source dest seq ack flags window tcheck urg topts ++ payload)) =
  Ret (if decide (protocol = IPPROTO_TCP ∧ port_verdict dest = Some 0) then XDP_DROP else XDP_PASS).
Proof.
  intros Hd Hs Hsa Hda Hseq Hack Hdest Hv.
  set (ip := print_ip tos tot_len id frag_off ttl protocol icheck saddr daddr []).
  set (tcp := print_tcp source dest seq ack flags window tcheck urg topts).
  assert (Hip : length ip = 20%nat) by (subst ip; by rewrite length_print_ip).
  assert (Htcp : length tcp = (20 + length topts)%nat) by by apply length_print_tcp.
  unfold firewall_prog, sizeof_ethhdr, sizeof_iphdr, sizeof_tcphdr.
  rewrite !Z.gtb_ltb, data_end_ip_frame, length_app, Htcp by done.
  rewrite !(proj2 (Z.ltb_ge _ 14)) by lia.
  rewrite ip_frame_proto by done. cbn [mbind outcome_bind].
  rewrite bswap16_invol by done. change (negb (ETH_P_IP =? PROTO_IP)) with false. cbn iota.
  rewrite (proj2 (Z.ltb_ge _ (14 + 20))) by lia.
  change (14 + 9) with 23. subst ip. rewrite ip_frame_protocol by done. cbn [mbind outcome_bind].
  destruct (Z.eqb_spec protocol IPPROTO_TCP) as [->|Hne]; cbn [negb].
  2: { by rewrite decide_False by by intros [? _]. }
  rewrite ?Z.gtb_ltb, (proj2 (Z.ltb_ge _ (14 + 20 + 20))) by lia.
  change (14 + 20 + 2) with 36. subst tcp. rewrite ip_frame_port by done. cbn [mbind outcome_bind].
  rewrite bswap16_invol, (wrap_small 16) by done.
  destruct (port_verdict dest) as [v|] eqn:E.
  - rewrite (wrap_small 16) by by eapply Hv.
    destruct (Z.eqb_spec v 1) as [->|]; [by rewrite decide_False by by intros [_ [=]]|].
    destruct (Z.eqb_spec v 0) as [->|]; [by rewrite decide_True|].
    by rewrite decide_False by by intros [_ [=]].
  - by rewrite decide_False by by intros [_ [=]].
Qed.

Definition block_http (k : Z) : option Z := if k =? 80 then Some 0 else None.

Lemma firewall_prog_filters_witness :
  firewall_prog block_http
    (ip_frame (replicate 6 1) (replicate 6 2) (print_ip 0 60 1 0 64 6 0 [10; 0; 0; 1] [10; 0; 0; 2] [])
       (print_tcp 4000 80 [0; 0; 0; 1] [0; 0; 0; 0] 2 512 0 0 [] ++ [1; 2; 3])) = Ret XDP_DROP.
Proof.
  apply (firewall_prog_filters block_http); try done.
  intros k v. unfold block_http. case_match; [|done]. by intros [= <-].
Defined.

(** The program takes the port from a fixed offset: a packet to the blocked
    port passes when its IPv4 header has options. The parsers of
    parsing_helpers.h find its TCP header and its port. *)
Theorem firewall_prog_options_bypass :
  let p := ip_frame (replicate 6 1) (replicate 6 2)
    (print_ip 0 60 1 0 64 6 0 [10; 0; 0; 1] [10; 0; 0; 2] [7; 4; 5; 0])
    (print_tcp 4000 80 [0; 0; 0; 1] [0; 0; 0; 0] 2 512 0 0 [] ++ [1; 2; 3]) in
  parse_iphdr p 14 = Ret (6, Some 14, 38) ∧ rd16 p (38 + 2) = Ret (bswap16 80) ∧
  block_http 80 = Some 0 ∧ firewall_prog block_http p = Ret XDP_PASS.
Proof. vm_compute. done. Qed.

(** [allowed_addr_prog] on any packet: it reads nothing outside the packet,
    and what passes is not IPv4 or is UDP to the one port that the map allows,
    read at the fixed offset. *)
Theorem allowed_addr_prog_sound lookup p :
  ∃ a, allowed_addr_prog lookup p = Ret a ∧
    (a = XDP_DROP ∨
     a = XDP_PASS ∧
       ((∃ h, rd16 p 12 = Ret h ∧ bswap16 h ≠ PROTO_IP) ∨
        (∃ v d, lookup 32 0 = Some v ∧ u16 v ≠ 0 ∧ rd8 p 23 = Ret IPPROTO_UDP ∧
           rd16 p 36 = Ret d ∧ bswap16 d = u16 v))).
Proof.
  unfold allowed_addr_prog, sizeof_ethhdr, sizeof_iphdr, sizeof_udphdr. xdp_checks.
  destruct (rd16_in p 12) as (h & Eh); [lia..|]. rewrite Eh. cbn [mbind outcome_bind].
  destruct (Z.eqb_spec (bswap16 h) PROTO_IP); cbn [negb]; [|by eauto 10]. xdp_checks.
  destruct (lookup 32 0) as [v|] eqn:El; [|by eauto].
  destruct (Z.eqb_spec (u16 v) 0); [by eauto|]. change (14 + 9) with 23.
  destruct (rd8_in p 23) as (pr & Ep & _); [lia|]. rewrite Ep. cbn [mbind outcome_bind].
  destruct (Z.eqb_spec pr IPPROTO_UDP) as [->|]; [|by eauto]. xdp_checks.
  change (14 + 20 + 2) with 36.
  destruct (rd16_in p 36) as (d & Ed); [lia..|]. rewrite Ed. cbn [mbind outcome_bind].
  destruct (Z.eqb_spec (bswap16 d) (u16 v)); [|by eauto].
  eexists. split; [done|]. right. split; [done|]. right. by exists v, d.
Qed.

(** ** xdp_packet_block.c *)

Lemma wr16_ok p o v : 0 ≤ o → o + 2 ≤ data_end p →
  ∃ p', wr16 p o v = Ret p' ∧ data_end p' = data_end p.
Proof.
  intros Ho H. rewrite wr16_in by done. eexists. split; [done|]. by rewrite !data_end_insert.
Qed.

(** Steps over a load or a store in bounds. *)
Ltac step_rd16 :=
  match goal with
  | |- context [rd16 ?p ?o] =>
    let v := fresh "v" in destruct (rd16_in p o) as (v & ->); [lia..|]; cbn [mbind outcome_bind]
  end.
Ltac step_wr16 :=
  match goal with
  | |- context [wr16 ?p ?o ?v] =>
    let p' := fresh "p" in let E := fresh "E" in
    destruct (wr16_ok p o v) as (p' & -> & E); [lia..|]; cbn [mbind outcome_bind]
  end.

Lemma block_udp_ok p udphdr : 0 ≤ udphdr → udphdr + 8 ≤ data_end p →
  ∃ p', block_udp p udphdr = Ret p' ∧ data_end p' = data_end p.
Proof.
  intros H0 H. unfold block_udp. step_rd16. step_wr16. step_rd16. step_wr16.
  eexists. split; [done|lia].
Qed.

Lemma block_tcp_ok p tcphdr : 0 ≤ tcphdr → tcphdr + 20 ≤ data_end p →
  ∃ drop p', block_tcp p tcphdr = Ret (drop, p') ∧ data_end p' = data_end p.
Proof.
  intros H0 H. unfold block_tcp. step_rd16. step_wr16. step_rd16. step_wr16. step_rd16.
  case_match; [eexists _, _; split; [done|lia]|]. step_wr16. eexists _, _. split; [done|lia].
Qed.

Definition block_result (p : list Z) (o : outcome (Z * option Z * list Z)) : Prop :=
  ∃ a c p', o = Ret (a, c, p') ∧ data_end p' = data_end p ∧
    (a = XDP_ABORTED ∨ a = XDP_DROP ∨ a = XDP_PASS).

Lemma block_l4_safe rxcnt p ty h pos :
  bytes p → ty = -1 ∨ 0 ≤ pos → block_result p (block_l4 rxcnt p (ty, h, pos)).
Proof.
  intros Hp Hpos. unfold block_l4.
  assert (Hret : ∀ a c, a = XDP_ABORTED ∨ a = XDP_DROP ∨ a = XDP_PASS →
    block_result p (Ret (a, c, p))) by (intros a c Ha; by exists a, c, p).
  destruct (Z.eqb_spec ty IPPROTO_UDP) as [->|]; [|destruct (Z.eqb_spec ty IPPROTO_TCP) as [->|];
    [|by apply Hret; auto]]; (destruct Hpos as [[=]|Hpos]).
  - destruct (parse_udphdr_sound p pos Hp Hpos) as (r & h' & pos' & -> & Hr). cbn [mbind outcome_bind].
    unfold sizeof_udphdr in Hr. destruct (Z.ltb_spec r 0); [by apply Hret; auto|].
    destruct Hr as [->|(_ & -> & Hr)]; [lia|]. cbn [or_fault mbind outcome_bind].
    destruct (block_udp_ok p pos) as (p' & -> & Hl); [lia..|]. eexists _, _, p'. by auto.
  - destruct (parse_tcphdr_sound p pos Hp Hpos) as (r & h' & pos' & -> & Hr). cbn [mbind outcome_bind].
    unfold sizeof_tcphdr in Hr. destruct (Z.ltb_spec r 0); [by apply Hret; auto|].
    destruct Hr as [->|(_ & -> & Hr)]; [lia|]. cbn [or_fault mbind outcome_bind].
    destruct (block_tcp_ok p pos) as (drop & p' & -> & Hl); [lia..|]. cbn [mbind outcome_bind].
    destruct drop; eexists _, _, p'; by auto.
Qed.

(** [xdp_block_port_func] on any packet and counter: no access leaves the
    packet, no header pointer is used that a parser did not set, and the packet
    keeps its length. *)
Theorem xdp_block_port_safe rxcnt p :
  bytes p → block_result p (xdp_block_port_func rxcnt p).
Proof.
  intros Hp. unfold xdp_block_port_func.
  destruct (parse_ethhdr_sound p 0 Hp) as (ty & h & pos & -> & Hty); [lia|]. cbn [mbind outcome_bind].
  destruct (Z.ltb_spec ty 0); [by eexists _, _, p; auto|].
  destruct Hty as [->|(_ & _ & Hpos)]; [lia|]. unfold sizeof_ethhdr in Hpos.
  case_match; [|case_match; [|by eexists _, _, p; auto]].
  - destruct (parse_iphdr_sound p pos Hp) as (r & h' & pos' & -> & Hr); [lia|].
    unfold sizeof_iphdr in Hr. apply block_l4_safe; [done|]. destruct Hr as [->|(_ & _ & Hr)]; [by left|right; lia].
  - destruct (fixed_parse_sound p pos sizeof_ipv6hdr 6 Hp) as (r & h' & pos' & E & Hr);
      [lia|unfold sizeof_ipv6hdr; lia|]. unfold parse_ip6hdr. rewrite E.
    unfold sizeof_ipv6hdr in Hr. apply block_l4_safe; [done|]. destruct Hr as [->|(_ & _ & Hr)]; [by left|right; lia].
Qed.

Lemma xdp_block_port_safe_witness :
  block_result (replicate 60 8) (xdp_block_port_func (Some 0) (replicate 60 8)).
Proof. apply xdp_block_port_safe. apply Forall_replicate. done. Defined.

Lemma wr16_at pre old post o v :
  o = Z.of_nat (length pre) → length old = 2%nat →
  wr16 (pre ++ old ++ post) o v = Ret (pre ++ le_bytes 2 v ++ post).
Proof.
  intros Ho Hl. rewrite wr16_bytes by (unfold data_end; rewrite ?length_app; lia).
  by rewrite (wr_bytes_at pre old) by done.
Qed.

Lemma rd16_at pre v post o :
  o = Z.of_nat (length pre) → rd16 (pre ++ le_bytes 2 v ++ post) o = Ret (u16 v).
Proof.
  intros Ho. eapply (rd16_wr16 (pre ++ le_bytes 2 v ++ post)). by apply wr16_at.
Qed.

Lemma be16_le_bytes x : fits 16 x → be16 x = le_bytes 2 (bswap16 x).
Proof.
  intros Hx. pose proof (wr16_be16 [] [0; 0] [] 0 x eq_refl eq_refl) as H1.
  rewrite (wr16_at [] [0; 0] []) in H1 by done. cbn [app] in H1. rewrite !app_nil_r in H1. congruence.
Qed.

(** The TCP branch on a printed header. *)
Lemma block_tcp_print pre source dest seq ack flags window check urg opts rest :
  length seq = 4%nat → length ack = 4%nat → fits 16 dest → fits 16 check →
  ∃ p', block_tcp (pre ++ print_tcp source dest seq ack flags window check urg opts ++ rest)
          (Z.of_nat (length pre)) = Ret (dest =? 9999, p') ∧
    (dest ≠ 9999 → p' = pre ++ print_tcp source dest seq ack flags window
       (bswap16 (check_inc (bswap16 check))) urg opts ++ rest).
Proof.
  intros Hs Ha Hd Hc. unfold print_tcp. set (b0 := 16 * _).
  set (mid := seq ++ ack ++ [b0; flags] ++ be16 window).
  set (tl := be16 urg ++ opts ++ rest). set (pre2 := pre ++ be16 source).
  assert (Hpre2 : length pre2 = (length pre + 2)%nat) by (subst pre2; rewrite length_app; done).
  assert (Hmid : length mid = 12%nat) by (subst mid; rewrite !length_app, Hs, Ha; done).
  assert (Hci : ∀ c, fits 16 (check_inc c)) by (intros c; unfold check_inc; case_match; apply wrap_fits; lia).
  assert (Epkt : ∀ c, pre ++ (be16 source ++ be16 dest ++ seq ++ ack ++ [b0; flags] ++ be16 window ++
    be16 c ++ be16 urg ++ opts) ++ rest = pre2 ++ be16 dest ++ mid ++ be16 c ++ tl)
    by (intros c; subst pre2 mid tl; by rewrite <-!app_assoc).
  rewrite !Epkt, !be16_le_bytes, bswap16_invol by (done || apply bswap16_fits).
  unfold block_tcp. rewrite rd16_at by (rewrite Hpre2; lia). cbn [mbind outcome_bind].
  rewrite wr16_at by (done || rewrite Hpre2; lia). cbn [mbind outcome_bind].
  rewrite (wrap_small 16), bswap16_invol by (done || apply bswap16_fits).
  assert (El : ∀ x y, length (pre2 ++ le_bytes 2 x ++ mid) = length (pre2 ++ le_bytes 2 y ++ mid)).
  { intros. by rewrite !length_app, !length_le_bytes. }
  assert (Elen : ∀ x, Z.of_nat (length pre) + 16 = Z.of_nat (length (pre2 ++ le_bytes 2 x ++ mid))).
  { intros. rewrite !length_app, length_le_bytes, Hpre2, Hmid. lia. }
  replace (pre2 ++ le_bytes 2 dest ++ mid ++ le_bytes 2 (bswap16 check) ++ tl) with
    ((pre2 ++ le_bytes 2 dest ++ mid) ++ le_bytes 2 (bswap16 check) ++ tl) by by rewrite <-!app_assoc.
  rewrite rd16_at by apply Elen. cbn [mbind outcome_bind].
  rewrite wr16_at by (done || apply Elen). cbn [mbind outcome_bind].
  rewrite (wrap_small 16 (bswap16 check)) by apply bswap16_fits.
  rewrite <-!app_assoc. rewrite rd16_at by (rewrite Hpre2; lia). cbn [mbind outcome_bind].
  rewrite (wrap_small 16 dest) by done. destruct (Z.eqb_spec dest 9999) as [->|Hne].
  - eexists. split; [done|]. by intros [].
  - rewrite wr16_at by (done || rewrite Hpre2; lia). cbn [mbind outcome_bind].
    eexists. split; [done|]. done.
Qed.

Lemma parse_ethhdr_ip_frame dst src ip rest :
  length dst = 6%nat → length src = 6%nat →
  parse_ethhdr (ip_frame dst src ip rest) 0 = Ret (bswap16 ETH_P_IP, Some 0, 14).
Proof.
  intros Hd Hs. unfold parse_ethhdr, parse_ethhdr_vlan, sizeof_ethhdr.
  rewrite Z.gtb_ltb, data_end_ip_frame, (proj2 (Z.ltb_ge _ _)) by (done || lia).
  change (0 + 12) with 12. rewrite ip_frame_proto by done. done.
Qed.

(** [xdp_block_port_func] on a TCP packet, IPv4 options allowed: port 9999 is
    dropped and counted; any other port passes, the counter stays, and the
    packet is the one that came but for a TCP checksum increased by one
    although nothing it covers has changed. *)
Theorem xdp_block_port_tcp rxcnt dst src tos tot_len id frag_off ttl icheck saddr daddr iopts ki
    source dest seq ack flags window check urg topts kt payload :
  length dst = 6%nat → length src = 6%nat → length saddr = 4%nat → length daddr = 4%nat →
  length seq = 4%nat → length ack = 4%nat → fits 16 dest → fits 16 check →
  Z.of_nat (length iopts) = 4 * ki → 0 ≤ ki ≤ 10 →
  Z.of_nat (length topts) = 4 * kt → 0 ≤ kt ≤ 10 →
  let ip := print_ip tos tot_len id frag_off ttl IPPROTO_TCP icheck saddr daddr iopts in
  let frame c := ip_frame dst src ip
    (print_tcp source dest seq ack flags window c urg topts ++ payload) in
  ∃ p', xdp_block_port_func rxcnt (frame check) =
      Ret (if dest =? 9999 then XDP_DROP else XDP_PASS,
           if dest =? 9999 then (λ v, v + 1) <$> rxcnt else rxcnt, p') ∧
    (dest ≠ 9999 → p' = frame (bswap16 (check_inc (bswap16 check)))).
Proof.
  intros Hd Hs Hsa Hda Hseq Hack Hdest Hc Hki Hki' Hkt Hkt' ip frame. subst frame. cbn beta.
  assert (Hip : length ip = (20 + length iopts)%nat) by by apply length_print_ip.
  set (eth := print_eth dst src [] ETH_P_IP).
  assert (Heth : length eth = 14%nat) by (subst eth; unfold print_eth; rewrite !length_app; simpl; lia).
  assert (Ei : parse_iphdr (ip_frame dst src ip
      (print_tcp source dest seq ack flags window check urg topts ++ payload)) 14 =
    Ret (IPPROTO_TCP, Some 14, 14 + (20 + 4 * ki))).
  { change 14 with (Z.of_nat 14). rewrite <-Heth. by apply parse_iphdr_print. }
  assert (Hpre : 14 + (20 + 4 * ki) = Z.of_nat (length (eth ++ ip))) by (rewrite length_app; lia).
  assert (Ef : ∀ c, ip_frame dst src ip (print_tcp source dest seq ack flags window c urg topts ++ payload) =
    (eth ++ ip) ++ print_tcp source dest seq ack flags window c urg topts ++ payload)
    by (intros c; unfold ip_frame; by rewrite <-app_assoc).
  assert (Et : parse_tcphdr (ip_frame dst src ip
      (print_tcp source dest seq ack flags window check urg topts ++ payload)) (14 + (20 + 4 * ki)) =
    Ret (20 + 4 * kt, Some (14 + (20 + 4 * ki)), 14 + (20 + 4 * ki) + (20 + 4 * kt))).
  { rewrite Ef, Hpre. by apply parse_tcphdr_print. }
  destruct (block_tcp_print (eth ++ ip) source dest seq ack flags window check urg topts payload)
    as (p' & Eb & Hp'); [done..|]. rewrite <-Ef, <-Hpre in Eb.
  unfold xdp_block_port_func. rewrite parse_ethhdr_ip_frame by done. cbn [mbind outcome_bind].
  change (bswap16 ETH_P_IP <? 0) with false. rewrite Z.eqb_refl, Ei. cbn [mbind outcome_bind block_l4].
  change (IPPROTO_TCP =? IPPROTO_UDP) with false. change (IPPROTO_TCP =? IPPROTO_TCP) with true. cbn iota.
  rewrite Et. cbn [mbind outcome_bind]. rewrite (proj2 (Z.ltb_ge (20 + 4 * kt) 0)) by lia.
  cbn [or_fault mbind outcome_bind]. rewrite Eb. cbn [mbind outcome_bind].
  exists p'. rewrite Ef. split; [|done]. by destruct (dest =? 9999).
Qed.

Lemma xdp_block_port_tcp_witness :
  let frame c := ip_frame (replicate 6 1) (replicate 6 2)
    (print_ip 0 60 1 0 64 6 0 [10; 0; 0; 1] [10; 0; 0; 2] [7; 4; 5; 0])
    (print_tcp 4000 9999 [0; 0; 0; 1] [0; 0; 0; 0] 2 512 c 0 [] ++ [1; 2; 3]) in
  ∃ p', xdp_block_port_func (Some 41) (frame 77) = Ret (XDP_DROP, Some 42, p') ∧
    (9999 ≠ 9999 → p' = frame (bswap16 (check_inc (bswap16 77)))).
Proof.
  apply (xdp_block_port_tcp (Some 41) (replicate 6 1) (replicate 6 2) 0 60 1 0 64 0 [10; 0; 0; 1]
    [10; 0; 0; 2] [7; 4; 5; 0] 1 4000 9999 [0; 0; 0; 1] [0; 0; 0; 0] 2 512 77 0 [] 0 [1; 2; 3]);
    done || lia.
Defined.

(** One's complement addition of 16-bit words, with its end-around carry. *)
Definition oc_add (a b : Z) : Z := let s := a + b in if s <? 65536 then s else s - 65535.

(** The checksum update of [xdp_block_port_func]: the checksum of a port that
    went down by one is one more in one's complement. In the byte order the
    program adds in, this is what [check_inc] computes when the addition does
    not carry out, and it is wrong in every case where it does. *)
Theorem check_inc_carry check :
  fits 16 check →
  (check < 0xFF00 → check_inc check = oc_add check (bswap16 1)) ∧
  (0xFF00 ≤ check → check_inc check ≠ oc_add check (bswap16 1)).
Proof.
  unfold fits. intros H. change (2 ^ 16) with 65536 in H. change (bswap16 1) with 256.
  unfold check_inc, oc_add. change (bswap16 1) with 256. split; intros Hlt.
  - rewrite (wrap_small 16) by (unfold fits; lia). rewrite (proj2 (Z.eqb_neq _ _)) by lia.
    by rewrite (proj2 (Z.ltb_lt _ _)) by lia.
  - rewrite (proj2 (Z.ltb_ge _ _)) by lia.
    assert (E : u16 (check + 256) = check + 256 - 65536).
    { unfold wrap. change (2 ^ 16) with 65536.
      rewrite <-(Z.mod_add _ (-1)) by lia. apply Z.mod_small. lia. }
    rewrite E. destruct (Z.eqb_spec (check + 256 - 65536) 0); [|lia].
    rewrite (wrap_small 16) by (unfold fits; lia). lia.
Qed.

Lemma check_inc_carry_witness :
  (0xFF05 < 0xFF00 → check_inc 0xFF05 = oc_add 0xFF05 (bswap16 1)) ∧
  (0xFF00 ≤ 0xFF05 → check_inc 0xFF05 ≠ oc_add 0xFF05 (bswap16 1)).
Proof. apply check_inc_carry. done. Defined.

(** ** The redirecting programs *)

Section redirect_spec.
Context (bpf_fib_lookup : fib_request -> fib_result).
Context (bpf_redirect : Z -> Z) (bpf_redirect_map : Z -> Z -> Z).
Context (ingress_ifindex rx_queue_index refcnt : Z).
(** The addresses of a lookup have the size of their fields. *)
Context (Hmacs : ∀ r, length (dmac (bpf_fib_lookup r)) = 6%nat ∧ length (smac (bpf_fib_lookup r)) = 6%nat).

(** The frame with the addresses that the lookup gave for [src] and [dst]. *)
Definition rerouted (src dst : Z) (p : list Z) : list Z :=
  let r := bpf_fib_lookup (mkFibRequest 2 src dst ingress_ifindex) in
  dmac r ++ smac r ++ drop 12 p.

(** Either nothing was changed, or the lookup for [src] and [dst] succeeded and
    the frame [q] got its addresses. *)
Definition routed (p q : list Z) (src dst : Z) (p' : list Z) : Prop :=
  p' = p ∨ fib_rc (bpf_fib_lookup (mkFibRequest 2 src dst ingress_ifindex)) = 0 ∧
    p' = rerouted src dst q.

Lemma set_macs_ok p r :
  length (dmac r) = 6%nat → length (smac r) = 6%nat → 12 ≤ data_end p →
  set_macs p r = Ret (dmac r ++ smac r ++ drop 12 p).
Proof.
  intros Hd Hs Hl. unfold data_end in Hl.
  destruct (length_ge_split p 6) as (a & p1 & -> & Ha); [lia|]. rewrite length_app in Hl.
  destruct (length_ge_split p1 6) as (b & p2 & -> & Hb); [lia|].
  unfold set_macs. rewrite wr_bytes_front by lia. cbn [mbind outcome_bind].
  rewrite (wr_bytes_at (dmac r) b) by lia. do 2 f_equal. f_equal.
  rewrite (app_assoc a), drop_app_length' by (rewrite length_app; lia). done.
Qed.

Lemma fib_route_cases src dst :
  fib_route bpf_fib_lookup ingress_ifindex src dst = inl XDP_DROP ∨
  fib_route bpf_fib_lookup ingress_ifindex src dst = inl XDP_PASS ∨
  fib_route bpf_fib_lookup ingress_ifindex src dst =
    inr (bpf_fib_lookup (mkFibRequest 2 src dst ingress_ifindex)) ∧
  fib_rc (bpf_fib_lookup (mkFibRequest 2 src dst ingress_ifindex)) = 0.
Proof.
  unfold fib_route, BPF_FIB_LKUP_RET_SUCCESS, BPF_FIB_LKUP_RET_NO_NEIGH.
  destruct (Z.eqb_spec (fib_rc (bpf_fib_lookup (mkFibRequest 2 src dst ingress_ifindex))) 0) as [->|];
    cbn [negb andb]; [by right; right|].
  destruct (Z.eqb_spec (fib_rc (bpf_fib_lookup (mkFibRequest 2 src dst ingress_ifindex))) 7);
    cbn [negb andb]; [by right; left|by left].
Qed.

Lemma set_macs_routed src dst p q :
  12 ≤ data_end q → fib_rc (bpf_fib_lookup (mkFibRequest 2 src dst ingress_ifindex)) = 0 →
  ∃ p', set_macs q (bpf_fib_lookup (mkFibRequest 2 src dst ingress_ifindex)) = Ret p' ∧
    routed p q src dst p'.
Proof.
  intros Hl Hrc. destruct (Hmacs (mkFibRequest 2 src dst ingress_ifindex)).
  rewrite set_macs_ok by done. eexists. split; [done|]. right. done.
Qed.

(** The addresses of the IPv4 header, as the programs load them, and the frame
    with the two exchanged. *)
Definition saddr_of (p : list Z) : Z := le_val (take 4 (drop 26 p)).
Definition daddr_of (p : list Z) : Z := le_val (take 4 (drop 30 p)).
Definition addrs_swapped (p : list Z) : list Z :=
  take 26 p ++ take 4 (drop 30 p) ++ take 4 (drop 26 p) ++ drop 34 p.

Lemma rd32_at pre s post o :
  o = Z.of_nat (length pre) → length s = 4%nat → rd32 (pre ++ s ++ post) o = Ret (le_val s).
Proof.
  intros -> Hs. destruct s as [|a [|b [|c [|d [|]]]]]; try done.
  unfold rd32, rd16, rd8.
  assert (Hr : ∀ k x, [a; b; c; d] !! k = Some x →
    aread (pre ++ [a; b; c; d] ++ post) (Z.of_nat (length pre) + Z.of_nat k) = Ret x).
  { intros k x Hk. apply aread_Some; [lia|].
    replace (Z.to_nat (Z.of_nat (length pre) + Z.of_nat k)) with (length pre + k)%nat by lia.
    rewrite lookup_app_r by lia. replace (length pre + k - length pre)%nat with k by lia.
    rewrite lookup_app_l by by eapply lookup_lt_Some. done. }
  pose proof (Hr 0%nat a eq_refl) as R0. rewrite Z.add_0_r in R0.
  pose proof (Hr 1%nat b eq_refl) as R1. pose proof (Hr 2%nat c eq_refl) as R2.
  pose proof (Hr 3%nat d eq_refl) as R3.
  change (Z.of_nat 1) with 1 in R1. change (Z.of_nat 2) with 2 in R2.
  replace (Z.of_nat (length pre) + Z.of_nat 3) with (Z.of_nat (length pre) + 2 + 1) in R3 by lia.
  rewrite R0. cbn [mbind outcome_bind]. rewrite R1. cbn [mbind outcome_bind].
  rewrite R2. cbn [mbind outcome_bind]. rewrite R3. cbn [mbind outcome_bind le_val]. f_equal. lia.
Qed.

Lemma wr32_at pre old post o s :
  o = Z.of_nat (length pre) → length old = 4%nat → length s = 4%nat → bytes s →
  wr32 (pre ++ old ++ post) o (le_val s) = Ret (pre ++ s ++ post).
Proof.
  intros Ho Hl Hs Hb. destruct old as [|a [|b [|c [|d [|]]]]]; try done.
  unfold wr32. rewrite (wr16_at pre [a; b] ([c; d] ++ post)) by done. cbn [mbind outcome_bind].
  rewrite (app_assoc pre), (wr16_at _ [c; d] post) by (done || rewrite ?length_app, ?length_le_bytes; lia).
  rewrite <-app_assoc. f_equal. f_equal. rewrite app_assoc. f_equal.
  rewrite <-(le_bytes_le_val s Hb) at 3. rewrite Hs. cbn [le_bytes app].
  change 65536 with (256 * 256). by rewrite <-!Z.div_div by lia.
Qed.

(** A frame cut at its IPv4 addresses. *)
Lemma frame_split p : 34 ≤ data_end p →
  ∃ pre s d post, p = pre ++ s ++ d ++ post ∧ length pre = 26%nat ∧ length s = 4%nat ∧
    length d = 4%nat ∧ saddr_of p = le_val s ∧ daddr_of p = le_val d ∧
    addrs_swapped p = pre ++ d ++ s ++ post.
Proof.
  unfold data_end. intros H.
  destruct (length_ge_split p 26) as (pre & p1 & -> & H1); [lia|]. rewrite length_app in H.
  destruct (length_ge_split p1 4) as (s & p2 & -> & H2); [lia|]. rewrite length_app in H.
  destruct (length_ge_split p2 4) as (d & post & -> & H3); [lia|].
  exists pre, s, d, post. do 4 (split; [done|]).
  unfold saddr_of, daddr_of, addrs_swapped.
  assert (E26 : drop 26 (pre ++ s ++ d ++ post) = s ++ d ++ post) by by rewrite drop_app_length'.
  assert (E30 : drop 30 (pre ++ s ++ d ++ post) = d ++ post)
    by (rewrite (app_assoc pre); by rewrite drop_app_length' by (rewrite length_app; lia)).
  assert (E34 : drop 34 (pre ++ s ++ d ++ post) = post)
    by (rewrite (app_assoc pre), (app_assoc (pre ++ s)); by rewrite drop_app_length' by (rewrite !length_app; lia)).
  rewrite E26, E30, E34, !take_app_length' by done. by split_and!.
Qed.

Lemma ip_addrs p : 34 ≤ data_end p →
  rd32 p (14 + 12) = Ret (saddr_of p) ∧ rd32 p (14 + 16) = Ret (daddr_of p).
Proof.
  intros H. destruct (frame_split p H) as (pre & s & d & post & -> & H1 & H2 & H3 & -> & -> & _).
  split; [apply rd32_at; lia|]. rewrite (app_assoc pre). apply rd32_at; rewrite ?length_app; lia.
Qed.

Lemma redirect_icmp_routed p :
  bytes p → 34 ≤ data_end p →
  ∃ a p', redirect_icmp bpf_fib_lookup bpf_redirect ingress_ifindex p = Ret (a, p') ∧
    routed p (addrs_swapped p) (daddr_of p) (saddr_of p) p'.
Proof.
  intros Hp H. destruct (ip_addrs p H) as [Es Ed]. unfold redirect_icmp, sizeof_ethhdr.
  rewrite Ed. cbn [mbind outcome_bind]. rewrite Es. cbn [mbind outcome_bind].
  destruct (fib_route_cases (daddr_of p) (saddr_of p)) as [->|[->|[-> Hrc]]].
  1-2: eexists _, _; split; [done|by left].
  cbn [mbind outcome_bind].
  destruct (frame_split p H) as (pre & s & d & post & Ep & H1 & H2 & H3 & Hs & Hd & Hsw).
  assert (Hbs : bytes s ∧ bytes d).
  { rewrite Ep in Hp. apply Forall_app in Hp as [_ Hp]. apply Forall_app in Hp as [? Hp].
    by apply Forall_app in Hp as [? _]. }
  assert (E1 : wr32 p (14 + 16) (saddr_of p) = Ret (pre ++ s ++ s ++ post)).
  { rewrite Hs, Ep, (app_assoc pre), (wr32_at _ d post) by (done || rewrite ?length_app; lia || apply Hbs).
    by rewrite <-app_assoc. }
  assert (E2 : wr32 (pre ++ s ++ s ++ post) (14 + 12) (daddr_of p) = Ret (addrs_swapped p)).
  { rewrite Hd, Hsw. apply wr32_at; (done || lia || apply Hbs). }
  rewrite E1. cbn [mbind outcome_bind]. rewrite E2. cbn [mbind outcome_bind].
  destruct (set_macs_routed (daddr_of p) (saddr_of p) p (addrs_swapped p)) as (p' & -> & Hr); [|done|].
  - rewrite Hsw. unfold data_end. rewrite !length_app. lia.
  - eexists _, _. split; [done|]. done.
Qed.

Lemma redirect_l4_routed size p :
  34 ≤ data_end p → 0 ≤ size →
  ∃ a p', redirect_l4 bpf_fib_lookup bpf_redirect ingress_ifindex size p = Ret (a, p') ∧
    routed p p (saddr_of p) (daddr_of p) p'.
Proof.
  intros H Hsz. destruct (ip_addrs p H) as [Es Ed]. unfold redirect_l4, sizeof_ethhdr, sizeof_iphdr.
  rewrite Z.gtb_ltb. destruct (Z.ltb_spec (data_end p) (14 + 20 + size)).
  { eexists _, _. split; [done|by left]. }
  rewrite Es. cbn [mbind outcome_bind]. rewrite Ed. cbn [mbind outcome_bind].
  destruct (fib_route_cases (saddr_of p) (daddr_of p)) as [->|[->|[-> Hrc]]].
  1-2: eexists _, _; split; [done|by left].
  destruct (set_macs_routed (saddr_of p) (daddr_of p) p p) as (p' & -> & Hr); [lia|done|].
  eexists _, _. split; [done|]. done.
Qed.

(** Ends a branch that leaves the frame alone. *)
Ltac untouched := by eexists _, _; split; [reflexivity|left].

Lemma xsk_def_routed p :
  ∃ a p', xsk_def_prog bpf_fib_lookup bpf_redirect_map ingress_ifindex rx_queue_index refcnt p =
      Ret (a, p') ∧ routed p p (saddr_of p) (daddr_of p) p'.
Proof.
  unfold xsk_def_prog, sizeof_ethhdr, sizeof_iphdr. case_match; [untouched|].
  rewrite !Z.gtb_ltb. destruct (Z.ltb_spec (data_end p) (0 + 14)); [untouched|].
  destruct (rd16_in p (0 + 12)) as (h & ->); [lia..|]. cbn [mbind outcome_bind].
  case_match; [untouched|]. destruct (Z.ltb_spec (data_end p) (14 + 20)); [untouched|].
  destruct (ip_addrs p) as [Es Ed]; [lia|].
  rewrite Es. cbn [mbind outcome_bind]. rewrite Ed. cbn [mbind outcome_bind].
  destruct (fib_route_cases (saddr_of p) (daddr_of p)) as [->|[->|[-> Hrc]]]; [untouched..|].
  destruct (set_macs_routed (saddr_of p) (daddr_of p) p p) as (p' & -> & Hr); [lia|done|].
  by eexists _, _.
Qed.

Lemma xdp_def_routed p :
  ∃ a p', xdp_def_prog bpf_fib_lookup bpf_redirect_map ingress_ifindex rx_queue_index refcnt p =
      Ret (a, p') ∧ routed p p (saddr_of p) (daddr_of p) p'.
Proof.
  unfold xdp_def_prog, sizeof_ethhdr, sizeof_iphdr. case_match; [untouched|].
  rewrite !Z.gtb_ltb. destruct (Z.ltb_spec (data_end p) (0 + 14)); [untouched|].
  destruct (rd16_in p (0 + 12)) as (h & ->); [lia..|]. cbn [mbind outcome_bind].
  case_match; [untouched|]. destruct (Z.ltb_spec (data_end p) (14 + 20)); [untouched|].
  destruct (rd8_in p (14 + 9)) as (pr & -> & _); [lia|]. cbn [mbind outcome_bind].
  case_match; [|untouched]. destruct (ip_addrs p) as [Es Ed]; [lia|].
  unfold xsk_branch, sizeof_ethhdr.
  rewrite Es. cbn [mbind outcome_bind]. rewrite Ed. cbn [mbind outcome_bind].
  destruct (fib_route_cases (saddr_of p) (daddr_of p)) as [->|[->|[-> Hrc]]]; [untouched..|].
  destruct (set_macs_routed (saddr_of p) (daddr_of p) p p) as (p' & -> & Hr); [lia|done|].
  by eexists _, _.
Qed.

Lemma xdp_sock2_routed p :
  bytes p → ∃ a p', xdp_sock2_prog bpf_fib_lookup bpf_redirect ingress_ifindex p = Ret (a, p') ∧
    (routed p p (saddr_of p) (daddr_of p) p' ∨
     routed p (addrs_swapped p) (daddr_of p) (saddr_of p) p').
Proof.
  intros Hp. assert (Hsame : ∀ a, ∃ a' p', Ret (a : Z, p) = Ret (a', p') ∧
    (routed p p (saddr_of p) (daddr_of p) p' ∨
     routed p (addrs_swapped p) (daddr_of p) (saddr_of p) p')).
  { intros a. exists a, p. split; [done|]. by left; left. }
  unfold xdp_sock2_prog, sizeof_ethhdr, sizeof_iphdr.
  rewrite !Z.gtb_ltb. destruct (Z.ltb_spec (data_end p) (0 + 14)); [apply Hsame|].
  destruct (rd16_in p (0 + 12)) as (h & ->); [lia..|]. cbn [mbind outcome_bind].
  case_match; [apply Hsame|]. destruct (Z.ltb_spec (data_end p) (14 + 20)); [apply Hsame|].
  destruct (rd8_in p (14 + 9)) as (pr & -> & _); [lia|]. cbn [mbind outcome_bind].
  case_match; [|case_match; [|case_match; [|apply Hsame]]].
  - destruct (redirect_icmp_routed p) as (a & p' & -> & Hr); [done|lia|]. by eauto.
  - destruct (redirect_l4_routed sizeof_tcphdr p) as (a & p' & -> & Hr); [lia|done|]. by eauto.
  - destruct (redirect_l4_routed sizeof_udphdr p) as (a & p' & -> & Hr); [lia|done|]. by eauto.
Qed.
End redirect_spec.

(** The three redirecting programs, on any frame and for any answers of the
    kernel: no access leaves the frame, and the frame either stays as it was or
    gets the addresses of a successful lookup in front of its unchanged rest.
    For xdp_redirect_dev.c an ICMP frame that is sent back has, besides, its two
    IPv4 addresses exchanged. *)
Theorem redirect_progs_spec fib redirect redirect_map ifindex queue refcnt p :
  (∀ r, length (dmac (fib r)) = 6%nat ∧ length (smac (fib r)) = 6%nat) → bytes p →
  (∃ a p', xsk_def_prog fib redirect_map ifindex queue refcnt p = Ret (a, p') ∧
     routed fib ifindex p p (saddr_of p) (daddr_of p) p') ∧
  (∃ a p', xdp_def_prog fib redirect_map ifindex queue refcnt p = Ret (a, p') ∧
     routed fib ifindex p p (saddr_of p) (daddr_of p) p') ∧
  (∃ a p', xdp_sock2_prog fib redirect ifindex p = Ret (a, p') ∧
     (routed fib ifindex p p (saddr_of p) (daddr_of p) p' ∨
      routed fib ifindex p (addrs_swapped p) (daddr_of p) (saddr_of p) p')).
Proof.
  intros Hmacs Hp. split_and!;
    [by apply xsk_def_routed|by apply xdp_def_routed|by apply xdp_sock2_routed].
Qed.

Definition fib_to_gateway (r : fib_request) : fib_result :=
  mkFibResult 0 3 (replicate 6 0xAA) (replicate 6 0xBB).

Lemma redirect_progs_spec_witness :
  let p := ip_frame (replicate 6 1) (replicate 6 2)
    (print_ip 0 28 1 0 64 1 0 [10; 0; 0; 1] [10; 0; 0; 2] []) [8; 0; 0; 0; 0; 0; 0; 0] in
  (∃ a p', xsk_def_prog fib_to_gateway (λ _ _, XDP_REDIRECT) 2 0 1 p = Ret (a, p') ∧
     routed fib_to_gateway 2 p p (saddr_of p) (daddr_of p) p') ∧
  (∃ a p', xdp_def_prog fib_to_gateway (λ _ _, XDP_REDIRECT) 2 0 1 p = Ret (a, p') ∧
     routed fib_to_gateway 2 p p (saddr_of p) (daddr_of p) p') ∧
  (∃ a p', xdp_sock2_prog fib_to_gateway (λ _, XDP_REDIRECT) 2 p = Ret (a, p') ∧
     (routed fib_to_gateway 2 p p (saddr_of p) (daddr_of p) p' ∨
      routed fib_to_gateway 2 p (addrs_swapped p) (daddr_of p) (saddr_of p) p')).
Proof.
  intros p. apply (redirect_progs_spec fib_to_gateway); [done|].
  subst p. vm_compute. repeat constructor; done.
Defined.
