(* ===== verification/Veth.v ===== *)
(** * kdev-net-veth/kernel: the pair of virtual Ethernet devices

    Two devices, each with a pool of packet buffers and a receive queue. A
    transmission takes a buffer from the sender's pool, copies the frame into it
    and queues it at the other device; receiving hands a copy to the network
    stack and gives the buffer back to the pool it came from. The model keeps
    the buffers in a store, the devices as records, spin locks as flags (taking
    a held one never returns) and the kernel around the driver as far as the
    code depends on it: the allocation outcomes are an oracle [mem_ok], the
    socket buffers the stack handed over and not yet freed are a set, and what
    was delivered to the stack is a list. [module_param]s are arguments. *)

From Stdlib Require Import ZArith Lia.
From stdpp Require Import base tactics numbers list gmap relations.
From S2P Require Import Prelude Heap Packet.
Local Open Scope Z_scope.

Module Veth.

Definition ETH_ALEN : Z := 6.
Definition ETH_HLEN : Z := 14.
Definition ETH_ZLEN : Z := 60.
Definition ETH_DATA_LEN : Z := 1500.
Definition DUMMVETH_RX_INTR : Z := 1.
Definition DUMMVETH_TX_INTR : Z := 2.
Definition EBUSY : Z := 16.
Definition EINVAL : Z := 22.
Definition EOPNOTSUPP : Z := 95.
Definition ENOMEM : Z := 12.

(** [false] is [dummveth_devs[0]], [true] is [dummveth_devs[1]]. *)
Abbreviation dev_id := bool.

Record packet := mkPacket {
  next : ptr;
  dev : dev_id;
  datalen : Z;
  data : list Z;
}.

#[export] Instance packet_linked : Linked packet := {
  lnext := next;
  set_lnext p n := mkPacket p (dev n) (datalen n) (data n);
  lnext_set p n := eq_refl;
}.

Record net_device_stats := mkStats {
  rx_packets : Z;
  rx_bytes : Z;
  rx_dropped : Z;
  tx_packets : Z;
  tx_bytes : Z;
  tx_errors : Z;
}.

(** [struct dummveth_priv] and what the driver uses of its [struct net_device]:
    the address, the MTU, the interrupt line and whether the transmit queue is
    stopped, and whether the poll of the device is scheduled and enabled. *)
Record device := mkDevice {
  stats : net_device_stats;
  status : Z;
  ppool : ptr;
  rx_queue : ptr;
  rx_int_enabled : Z;
  tx_packetlen : Z;
  skb : ptr;
  lock : bool;
  dev_addr : list Z;
  mtu : Z;
  irq : Z;
  stopped : bool;
  napi_scheduled : bool;
  napi_enabled : bool;
}.

Record sys := mkSys {
  dev0 : device;
  dev1 : device;
  heap : gmap loc packet;
  skbs : gset loc;
  ticks : nat;
  delivered : list (dev_id * list Z);
}.

Definition get_dev (s : sys) (d : dev_id) : device := if d then dev1 s else dev0 s.

Definition set_dev (s : sys) (d : dev_id) (v : device) : sys :=
  if d then mkSys (dev0 s) v (heap s) (skbs s) (ticks s) (delivered s)
  else mkSys v (dev1 s) (heap s) (skbs s) (ticks s) (delivered s).

Definition set_heap (s : sys) h := mkSys (dev0 s) (dev1 s) h (skbs s) (ticks s) (delivered s).
Definition set_skbs (s : sys) k := mkSys (dev0 s) (dev1 s) (heap s) k (ticks s) (delivered s).
Definition set_ticks (s : sys) t := mkSys (dev0 s) (dev1 s) (heap s) (skbs s) t (delivered s).
Definition set_delivered (s : sys) l := mkSys (dev0 s) (dev1 s) (heap s) (skbs s) (ticks s) l.

(** ** Reading and writing the state *)

Abbreviation V := (CM sys).

Definition dev_get {A} (d : dev_id) (f : device -> A) : V A := λ s, Ret (f (get_dev s d), s).
Definition dev_upd (d : dev_id) (f : device -> device) : V unit :=
  λ s, Ret (tt, set_dev s d (f (get_dev s d))).

Definition with_stats f (v : device) := mkDevice (f (stats v)) (status v) (ppool v) (rx_queue v)
  (rx_int_enabled v) (tx_packetlen v) (skb v) (lock v) (dev_addr v) (mtu v) (irq v) (stopped v)
  (napi_scheduled v) (napi_enabled v).
Definition with_status x (v : device) := mkDevice (stats v) x (ppool v) (rx_queue v)
  (rx_int_enabled v) (tx_packetlen v) (skb v) (lock v) (dev_addr v) (mtu v) (irq v) (stopped v)
  (napi_scheduled v) (napi_enabled v).
Definition with_ppool x (v : device) := mkDevice (stats v) (status v) x (rx_queue v)
  (rx_int_enabled v) (tx_packetlen v) (skb v) (lock v) (dev_addr v) (mtu v) (irq v) (stopped v)
  (napi_scheduled v) (napi_enabled v).
Definition with_rx_queue x (v : device) := mkDevice (stats v) (status v) (ppool v) x
  (rx_int_enabled v) (tx_packetlen v) (skb v) (lock v) (dev_addr v) (mtu v) (irq v) (stopped v)
  (napi_scheduled v) (napi_enabled v).
Definition with_rx_int x (v : device) := mkDevice (stats v) (status v) (ppool v) (rx_queue v)
  x (tx_packetlen v) (skb v) (lock v) (dev_addr v) (mtu v) (irq v) (stopped v)
  (napi_scheduled v) (napi_enabled v).
Definition with_tx_packetlen x (v : device) := mkDevice (stats v) (status v) (ppool v) (rx_queue v)
  (rx_int_enabled v) x (skb v) (lock v) (dev_addr v) (mtu v) (irq v) (stopped v)
  (napi_scheduled v) (napi_enabled v).
Definition with_skb x (v : device) := mkDevice (stats v) (status v) (ppool v) (rx_queue v)
  (rx_int_enabled v) (tx_packetlen v) x (lock v) (dev_addr v) (mtu v) (irq v) (stopped v)
  (napi_scheduled v) (napi_enabled v).
Definition with_lock x (v : device) := mkDevice (stats v) (status v) (ppool v) (rx_queue v)
  (rx_int_enabled v) (tx_packetlen v) (skb v) x (dev_addr v) (mtu v) (irq v) (stopped v)
  (napi_scheduled v) (napi_enabled v).
Definition with_dev_addr x (v : device) := mkDevice (stats v) (status v) (ppool v) (rx_queue v)
  (rx_int_enabled v) (tx_packetlen v) (skb v) (lock v) x (mtu v) (irq v) (stopped v)
  (napi_scheduled v) (napi_enabled v).
Definition with_mtu x (v : device) := mkDevice (stats v) (status v) (ppool v) (rx_queue v)
  (rx_int_enabled v) (tx_packetlen v) (skb v) (lock v) (dev_addr v) x (irq v) (stopped v)
  (napi_scheduled v) (napi_enabled v).
Definition with_irq x (v : device) := mkDevice (stats v) (status v) (ppool v) (rx_queue v)
  (rx_int_enabled v) (tx_packetlen v) (skb v) (lock v) (dev_addr v) (mtu v) x (stopped v)
  (napi_scheduled v) (napi_enabled v).
Definition with_stopped x (v : device) := mkDevice (stats v) (status v) (ppool v) (rx_queue v)
  (rx_int_enabled v) (tx_packetlen v) (skb v) (lock v) (dev_addr v) (mtu v) (irq v) x
  (napi_scheduled v) (napi_enabled v).
Definition with_napi x y (v : device) := mkDevice (stats v) (status v) (ppool v) (rx_queue v)
  (rx_int_enabled v) (tx_packetlen v) (skb v) (lock v) (dev_addr v) (mtu v) (irq v) (stopped v) x y.

Definition add_rx len (st : net_device_stats) := mkStats (u64 (rx_packets st + 1))
  (u64 (rx_bytes st + len)) (rx_dropped st) (tx_packets st) (tx_bytes st) (tx_errors st).
Definition add_rx_dropped (st : net_device_stats) := mkStats (rx_packets st) (rx_bytes st)
  (u64 (rx_dropped st + 1)) (tx_packets st) (tx_bytes st) (tx_errors st).
Definition add_tx len (st : net_device_stats) := mkStats (rx_packets st) (rx_bytes st)
  (rx_dropped st) (u64 (tx_packets st + 1)) (u64 (tx_bytes st + len)) (tx_errors st).
Definition add_tx_errors (st : net_device_stats) := mkStats (rx_packets st) (rx_bytes st)
  (rx_dropped st) (tx_packets st) (tx_bytes st) (u64 (tx_errors st + 1)).

(** The kernel: spin locks, the transmit queue, the poll, allocation. *)
Definition spin_lock (d : dev_id) : V unit :=
  held ← dev_get d lock;
  if (held : bool) then fails Deadlock else dev_upd d (with_lock true).
Definition spin_unlock (d : dev_id) : V unit := dev_upd d (with_lock false).
Definition netif_stop_queue (d : dev_id) : V unit := dev_upd d (with_stopped true).
Definition netif_wake_queue (d : dev_id) : V unit := dev_upd d (with_stopped false).
Definition napi_schedule (d : dev_id) : V unit :=
  dev_upd d (λ v, with_napi true (napi_enabled v) v).

Definition pkt_read (p : ptr) : V packet := λ s, n ← hread (heap s) p; Ret (n, s).
Definition pkt_write (p : ptr) (n : packet) : V unit := λ s,
  h ← hwrite (heap s) p n; Ret (tt, set_heap s h).
Definition kfree (p : ptr) : V unit := λ s,
  h ← hfree (heap s) p; Ret (tt, set_heap s h).

(** [dev_kfree_skb]: nothing for [NULL], a fault unless the buffer is the
    driver's. *)
Definition dev_kfree_skb (p : ptr) : V unit := λ s,
  match p with
  | None => Ret (tt, s)
  | Some x =>
    if decide (x ∈ skbs s) then
      Ret (tt, set_skbs s (skbs s ∖ {[x]}))
    else Fault BadFree
  end.

(** A copy of the buffer goes to the stack. *)
Definition deliver (d : dev_id) (bs : list Z) : V unit := λ s,
  Ret (tt, set_delivered s (delivered s ++ [(d, bs)])).

Section driver.
(** [mem_ok n] is whether the [n]th allocation succeeds; [fresh_data n] is what
    the new memory holds. *)
Context (mem_ok : nat -> bool) (fresh_data : nat -> list Z).
Context (use_napi : bool) (lockup : Z) (pool_size : nat).

Definition alloc_ok : V bool := λ s,
  Ret (mem_ok (ticks s), set_ticks s (S (ticks s))).

(** [kmalloc] of a packet, and the assignments to it. *)
Definition new_packet (n : packet) : V ptr := λ s,
  let l := hfresh (heap s) in
  Ret (Some l, set_heap s (<[l := n]> (heap s))).

Definition kmalloc_packet (n : packet) : V ptr :=
  ok ← alloc_ok;
  if (ok : bool) then new_packet n else mret None.

Definition get_ticks : V nat := λ s, Ret (ticks s, s).

(** The loop of [dummveth_setup_pool], [n] iterations left. *)
Fixpoint fill_pool (n : nat) (d : dev_id) : V unit :=
  match n with
  | O => mret tt
  | S n =>
    t ← get_ticks;
    head ← dev_get d ppool;
    pkt ← kmalloc_packet (mkPacket head d 0 (fresh_data t));
    match pkt with
    | None => mret tt
    | Some _ => dev_upd d (with_ppool pkt);; fill_pool n d
    end
  end.

Definition dummveth_setup_pool (d : dev_id) : V unit :=
  dev_upd d (with_ppool None);; fill_pool pool_size d.

Fixpoint drain_pool (fuel : nat) (d : dev_id) : V unit :=
  match fuel with
  | O => fails OutOfFuel
  | S fuel =>
    pkt ← dev_get d ppool;
    match pkt with
    | None => mret tt
    | Some _ =>
      n ← pkt_read pkt;
      dev_upd d (with_ppool (next n));;
      kfree pkt;;
      drain_pool fuel d
    end
  end.

Definition dummveth_teardown_pool (d : dev_id) : V unit := λ s,
  drain_pool (S (size (heap s))) d s.

(** [spin_lock_irqsave] is [spin_lock]. Without a buffer the function returns
    with the lock held, as the source does. *)
Definition dummveth_get_tx_buffer (d : dev_id) : V ptr :=
  spin_lock d;;
  pkt ← dev_get d ppool;
  match pkt with
  | None => mret None
  | Some _ =>
    n ← pkt_read pkt;
    dev_upd d (with_ppool (next n));;
    head ← dev_get d ppool;
    when (bool_decide (head = None)) (netif_stop_queue d);;
    spin_unlock d;;
    mret pkt
  end.

Definition dummveth_release_buffer (pkt : ptr) : V unit :=
  n ← pkt_read pkt;
  let d := dev n in
  spin_lock d;;
  head ← dev_get d ppool;
  pkt_write pkt (set_lnext head n);;
  dev_upd d (with_ppool pkt);;
  spin_unlock d;;
  st ← dev_get d stopped;
  n ← pkt_read pkt;
  when (st && bool_decide (next n = None)) (netif_wake_queue d).

Definition dummveth_enqueue_buf (d : dev_id) (pkt : ptr) : V unit :=
  spin_lock d;;
  head ← dev_get d rx_queue;
  n ← pkt_read pkt;
  pkt_write pkt (set_lnext head n);;
  dev_upd d (with_rx_queue pkt);;
  spin_unlock d.

Definition dummveth_dequeue_buf (d : dev_id) : V ptr :=
  spin_lock d;;
  pkt ← dev_get d rx_queue;
  match pkt with
  | None => spin_unlock d;; mret pkt
  | Some _ =>
    n ← pkt_read pkt;
    dev_upd d (with_rx_queue (next n));;
    spin_unlock d;;
    mret pkt
  end.

Definition dummveth_rx_ints (d : dev_id) (enable : Z) : V unit := dev_upd d (with_rx_int enable).

Definition dummveth_rx (d : dev_id) (pkt : ptr) : V unit :=
  n ← pkt_read pkt;
  ok ← alloc_ok;
  if negb ok then dev_upd d (with_stats add_rx_dropped)
  else
    bs ← lift_outcome (rd_bytes (data n) 0 (datalen n));
    dev_upd d (with_stats (add_rx (datalen n)));;
    deliver d bs.

(** The loop of [dummveth_poll]: [rem] is [budget - npackets]. *)
Fixpoint poll_loop (rem : nat) (npackets : Z) (d : dev_id) : V Z :=
  match rem with
  | O => mret npackets
  | S rem =>
    head ← dev_get d rx_queue;
    match head with
    | None => mret npackets
    | Some _ =>
      pkt ← dummveth_dequeue_buf d;
      n ← pkt_read pkt;
      ok ← alloc_ok;
      if negb ok then
        dev_upd d (with_stats add_rx_dropped);;
        dummveth_release_buffer pkt;;
        poll_loop rem (npackets + 1) d
      else
        bs ← lift_outcome (rd_bytes (data n) 0 (datalen n));
        deliver d bs;;
        dev_upd d (with_stats (add_rx (datalen n)));;
        dummveth_release_buffer pkt;;
        poll_loop rem (npackets + 1) d
    end
  end.

Definition dummveth_poll (d : dev_id) (budget : Z) : V Z :=
  npackets ← poll_loop (Z.to_nat budget) 0 d;
  when (npackets <? budget)
    (spin_lock d;;
     dev_upd d (λ v, with_napi false (napi_enabled v) v);;
     spin_unlock d);;
  mret npackets.

Definition dummveth_regular_interrupt (d : dev_id) : V unit :=
  spin_lock d;;
  statusword ← dev_get d status;
  dev_upd d (with_status 0);;
  pkt ← (if negb (Z.land statusword DUMMVETH_RX_INTR =? 0) then
           pkt ← dev_get d rx_queue;
           match pkt with
           | None => mret None
           | Some _ =>
             n ← pkt_read pkt;
             dev_upd d (with_rx_queue (next n));;
             dummveth_rx d pkt;;
             mret pkt
           end
         else mret None);
  when (negb (Z.land statusword DUMMVETH_TX_INTR =? 0))
    (len ← dev_get d tx_packetlen;
     dev_upd d (with_stats (add_tx len));;
     buf ← dev_get d skb;
     dev_kfree_skb buf);;
  spin_unlock d;;
  match pkt with
  | None => mret tt
  | Some _ => dummveth_release_buffer pkt
  end.

Definition dummveth_napi_interrupt (d : dev_id) : V unit :=
  spin_lock d;;
  statusword ← dev_get d status;
  dev_upd d (with_status 0);;
  when (negb (Z.land statusword DUMMVETH_RX_INTR =? 0)) (napi_schedule d);;
  when (negb (Z.land statusword DUMMVETH_TX_INTR =? 0))
    (len ← dev_get d tx_packetlen;
     dev_upd d (with_stats (add_tx len));;
     buf ← dev_get d skb;
     match buf with
     | None => mret tt
     | Some _ => dev_kfree_skb buf;; dev_upd d (with_skb None)
     end);;
  spin_unlock d.

Definition dummveth_interrupt (d : dev_id) : V unit :=
  if use_napi then dummveth_napi_interrupt d else dummveth_regular_interrupt d.

(** The end of [dummveth_hw_tx], once the frame is ready: a receive interrupt on
    the other device, then a transmission done on this one. *)
Definition loop_back (buf : list Z) (len : Z) (d : dev_id) : V unit :=
  let dest := negb d in
  tx_buffer ← dummveth_get_tx_buffer d;
  match tx_buffer with
  | None => mret tt
  | Some _ =>
    n ← pkt_read tx_buffer;
    bs ← lift_outcome (memcpy (data n) buf len);
    pkt_write tx_buffer (mkPacket (next n) (dev n) len bs);;
    dummveth_enqueue_buf dest tx_buffer;;
    en ← dev_get dest rx_int_enabled;
    when (negb (en =? 0))
      (dev_upd dest (λ v, with_status (Z.lor (status v) DUMMVETH_RX_INTR) v);;
       dummveth_interrupt dest);;
    dev_upd d (with_tx_packetlen len);;
    dev_upd d (λ v, with_status (Z.lor (status v) DUMMVETH_TX_INTR) v);;
    st ← dev_get d stats;
    if negb (lockup =? 0) && ((u64 (tx_packets st + 1) mod u64 lockup) =? 0)
    then netif_stop_queue d
    else dummveth_interrupt d
  end.

Definition dummveth_hw_tx (buf : list Z) (len : Z) (d : dev_id) : V unit :=
  if len <? 14 + 20 then mret tt else loop_back buf len d.

(** [eth->h_dest[ETH_ALEN-1] ^= 0x01] *)
Definition flip_dest (p : list Z) : outcome (list Z) :=
  b ← rd8 p (ETH_ALEN - 1); wr8 p (ETH_ALEN - 1) (Z.lxor b 1).

Definition dummveth_rebuild_header (skb_data addr : list Z) : outcome (list Z) :=
  p ← wr_bytes skb_data 6 addr;
  p ← wr_bytes p 0 addr;
  flip_dest p.

(** [room] is what [skb_push] put in front of the data. *)
Definition dummveth_header (room skb_data addr : list Z) (type : Z) (daddr saddr : option (list Z))
    : outcome (Z * list Z) :=
  let p := room ++ skb_data in
  p ← wr16 p 12 (bswap16 type);
  p ← wr_bytes p 6 (default addr saddr);
  p ← wr_bytes p 0 (default addr daddr);
  p ← flip_dest p;
  Ret (ETH_HLEN, p).

Definition dummveth_change_mtu (d : dev_id) (new_mtu : Z) : V Z :=
  if (new_mtu <? 68) || (new_mtu >? 1500) then mret (- EINVAL)
  else
    spin_lock d;;
    dev_upd d (with_mtu new_mtu);;
    spin_unlock d;;
    mret 0.

(** "VDETH1" and "VDETH0". *)
Definition dummveth_open (d : dev_id) : V Z :=
  dev_upd d (with_dev_addr ([86; 68; 69; 84; 72] ++ [if d then 49 else 48]));;
  when use_napi (dev_upd d (λ v, with_napi (napi_scheduled v) true v));;
  netif_wake_queue d;;
  mret 0.

Definition dummveth_stop (d : dev_id) : V Z :=
  netif_stop_queue d;;
  when use_napi (dev_upd d (λ v, with_napi (napi_scheduled v) false v));;
  mret 0.

(** [up] is [dev->flags & IFF_UP]. *)
Definition dummveth_set_config (d : dev_id) (up : bool) (base_addr map_base_addr map_irq : Z) : V Z :=
  if up then mret (- EBUSY)
  else if negb (map_base_addr =? base_addr) then mret (- EOPNOTSUPP)
  else
    i ← dev_get d irq;
    when (negb (map_irq =? i)) (dev_upd d (with_irq map_irq));;
    mret 0.

(** The stack gives its buffer [x] away with the call. *)
Definition take_skb (x : loc) : V unit := λ s,
  Ret (tt, set_skbs s (skbs s ∪ {[x]})).

(** The frame as it goes out: padded with zeros to [ETH_ZLEN]. *)
Definition padded (bs : list Z) : list Z :=
  if Z.of_nat (length bs) <? ETH_ZLEN then bs ++ replicate (Z.to_nat ETH_ZLEN - length bs) 0 else bs.

(** [dummveth_xmit] for any [hw_tx]. *)
Definition xmit_with (hw_tx : list Z -> Z -> dev_id -> V unit) (x : loc) (bs : list Z) (d : dev_id) : V Z :=
  take_skb x;;
  dev_upd d (with_skb (Some x));;
  hw_tx (padded bs) (Z.of_nat (length (padded bs))) d;;
  mret 0.

Definition dummveth_xmit : loc -> list Z -> dev_id -> V Z := xmit_with dummveth_hw_tx.

Definition dummveth_do_ioctl (d : dev_id) : V Z := mret 0.

Definition dummveth_get_stats (d : dev_id) : V net_device_stats := dev_get d stats.

Definition dummveth_tx_timeout (d : dev_id) : V unit :=
  dev_upd d (λ v, with_status (Z.lor (status v) DUMMVETH_TX_INTR) v);;
  dummveth_interrupt d;;
  dev_upd d (with_stats add_tx_errors);;
  spin_lock d;;
  dummveth_teardown_pool d;;
  dummveth_setup_pool d;;
  spin_unlock d;;
  netif_wake_queue d.

(** [memset] of the private part and its initialisation; the queue of a new
    device runs. *)
Definition zero_device : device :=
  mkDevice (mkStats 0 0 0 0 0 0) 0 None None 0 0 None false [] 1500 0 false false false.

Definition dummveth_setup (d : dev_id) : V unit :=
  dev_upd d (λ _, zero_device);;
  dummveth_rx_ints d 1;;
  dummveth_setup_pool d.
End driver.

(** ** Loading the module *)

(** What has become of a [net_device]. *)
Inductive netdev_state := NoDev | Allocated | Registered | Freed.

(** [free_netdev] is for devices that are not registered. *)
Definition free_netdev (st : netdev_state) : outcome netdev_state :=
  match st with Allocated => Ret Freed | _ => Fault BadFree end.

(** [a0], [a1]: whether the allocations succeed; [e0], [e1]: what
    [register_netdevice] returns. The result and the state of both devices. *)
Definition dummveth_init_module (a0 a1 : bool) (e0 e1 : Z)
    : outcome (Z * netdev_state * netdev_state) :=
  if negb a0 then Ret (- ENOMEM, NoDev, NoDev)
  else if negb a1 then Ret (- ENOMEM, Allocated, NoDev)
  else
    let d0 := if e0 <? 0 then Allocated else Registered in
    if e0 <? 0 then
      d0 ← free_netdev d0; Ret (e0, d0, Allocated)
    else
      let d1 := if e1 <? 0 then Allocated else Registered in
      if e1 <? 0 then
        d0 ← free_netdev d0; d1 ← free_netdev d1; Ret (e1, d0, d1)
      else Ret (0, d0, d1).

(** [unregister_netdev] is for devices that are. *)
Definition unregister_netdev (st : netdev_state) : outcome netdev_state :=
  match st with Registered => Ret Allocated | _ => Fault BadFree end.

Definition cleanup_dev (d : dev_id) (st : netdev_state) : V netdev_state :=
  match st with
  | NoDev => mret NoDev
  | _ =>
    st ← lift_outcome (unregister_netdev st);
    dummveth_teardown_pool d;;
    lift_outcome (free_netdev st)
  end.

(** The state of both devices before and after. *)
Definition dummveth_cleanup_module (st0 st1 : netdev_state) : V (netdev_state * netdev_state) :=
  st0 ← cleanup_dev false st0;
  st1 ← cleanup_dev true st1;
  mret (st0, st1).

(** The error paths of loading: a second allocation that fails and a first
    registration that fails each leave a device allocated for good; a second
    registration that fails frees the first device while it is registered. *)
Theorem veth_init_error_paths e :
  e < 0 →
  dummveth_init_module true false 0 0 = Ret (- ENOMEM, Allocated, NoDev) ∧
  dummveth_init_module true true e 0 = Ret (e, Freed, Allocated) ∧
  dummveth_init_module true true 0 e = Fault BadFree.
Proof.
  intros He. unfold dummveth_init_module. cbn [negb].
  by rewrite !(proj2 (Z.ltb_lt e 0)) by lia.
Qed.

Lemma veth_init_error_paths_witness :
  dummveth_init_module true false 0 0 = Ret (- ENOMEM, Allocated, NoDev) ∧
  dummveth_init_module true true (-22) 0 = Ret (-22, Freed, Allocated) ∧
  dummveth_init_module true true 0 (-22) = Fault BadFree.
Proof. apply veth_init_error_paths. lia. Defined.
End Veth.
