(* ===== verification/VethFlow.v ===== *)
(** * kdev-net-veth/kernel: buffers and frames in flight

    In NAPI mode, with a stack that transmits only while the queue runs, and
    frames that fit a buffer: every buffer is at any time on exactly one list,
    its owner's pool or the other device's receive queue; each device's buffers
    add up to [pool_size]; the queue is stopped exactly when the pool is empty;
    no call faults or blocks; and every transmitted frame is, once, among the
    delivered ones or waiting for a scheduled poll. *)

From Stdlib Require Import ZArith Lia.
From stdpp Require Import base tactics numbers list gmap relations.
From S2P Require Import Prelude Heap Packet Veth.
Import Veth.
Local Open Scope Z_scope.

(** ** The state, component by component *)

Lemma get_set_dev s d v : get_dev (set_dev s d v) d = v.
Proof. by destruct d. Qed.
Lemma get_set_dev_ne s d v : get_dev (set_dev s d v) (negb d) = get_dev s (negb d).
Proof. by destruct d. Qed.
Lemma get_set_dev_ne' s d v : get_dev (set_dev s (negb d) v) d = get_dev s d.
Proof. by destruct d. Qed.
Lemma heap_set_dev s d v : heap (set_dev s d v) = heap s.
Proof. by destruct d. Qed.
Lemma skbs_set_dev s d v : skbs (set_dev s d v) = skbs s.
Proof. by destruct d. Qed.
Lemma ticks_set_dev s d v : ticks (set_dev s d v) = ticks s.
Proof. by destruct d. Qed.
Lemma delivered_set_dev s d v : delivered (set_dev s d v) = delivered s.
Proof. by destruct d. Qed.
Lemma get_dev_set_heap s h d : get_dev (set_heap s h) d = get_dev s d.
Proof. by destruct d. Qed.
Lemma get_dev_set_skbs s k d : get_dev (set_skbs s k) d = get_dev s d.
Proof. by destruct d. Qed.
Lemma get_dev_set_ticks s t d : get_dev (set_ticks s t) d = get_dev s d.
Proof. by destruct d. Qed.
Lemma get_dev_set_delivered s l d : get_dev (set_delivered s l) d = get_dev s d.
Proof. by destruct d. Qed.

Create Rewrite HintDb veth.
#[export] Hint Rewrite get_set_dev get_set_dev_ne get_set_dev_ne' heap_set_dev skbs_set_dev
  ticks_set_dev delivered_set_dev get_dev_set_heap get_dev_set_skbs get_dev_set_ticks
  get_dev_set_delivered : veth.

(** Normalises reads of the state. *)
Ltac vsimpl :=
  repeat (autorewrite with veth; cbn [heap skbs ticks delivered set_heap set_skbs set_ticks
    set_delivered stats status ppool rx_queue rx_int_enabled tx_packetlen skb lock dev_addr mtu irq
    stopped napi_scheduled napi_enabled with_stats with_status with_ppool with_rx_queue with_rx_int
    with_tx_packetlen with_skb with_lock with_dev_addr with_mtu with_irq with_stopped with_napi
    next dev datalen data set_lnext packet_linked]).

(** ** Runs of the primitives *)

Lemma dev_get_run {A} d (f : device -> A) s : dev_get d f s = Ret (f (get_dev s d), s).
Proof. done. Qed.

Lemma dev_upd_run d f s : dev_upd d f s = Ret (tt, set_dev s d (f (get_dev s d))).
Proof. done. Qed.

Lemma spin_lock_run d s :
  lock (get_dev s d) = false → spin_lock d s = Ret (tt, set_dev s d (with_lock true (get_dev s d))).
Proof. intros H. unfold spin_lock. rewrite (cm_bind_ret _ _ _ _ _ (dev_get_run d lock s)). by rewrite H. Qed.

Lemma pkt_read_run p s x n : p = Some x → heap s !! x = Some n → pkt_read p s = Ret (n, s).
Proof. intros -> H. unfold pkt_read. by rewrite (hread_Some _ _ _ H). Qed.

Lemma pkt_write_run p s x n n' :
  p = Some x → heap s !! x = Some n → pkt_write p n' s = Ret (tt, set_heap s (<[x := n']> (heap s))).
Proof. intros -> H. unfold pkt_write. by rewrite (hwrite_Some _ _ _ _ H). Qed.

(** Runs the next primitive of a sequence. *)
Ltac vbind :=
  first
    [ erewrite cm_bind_ret; [|apply dev_upd_run]
    | erewrite cm_bind_ret; [|apply dev_get_run]
    | erewrite cm_bind_ret; [|apply spin_lock_run; by vsimpl]
    | erewrite cm_bind_ret; [|eapply pkt_read_run; [done|vsimpl; done]]
    | erewrite cm_bind_ret; [|eapply pkt_write_run; [done|vsimpl; done]]
    | erewrite cm_bind_ret; [|reflexivity] ];
  cbv beta; vsimpl.

(** [s'] differs from [s] at most in device [d] and the store. *)
Definition only_dev (d : dev_id) (s s' : sys) : Prop :=
  get_dev s' (negb d) = get_dev s (negb d) ∧ skbs s' = skbs s ∧
  ticks s' = ticks s ∧ delivered s' = delivered s.

Lemma get_tx_buffer_run d s x n :
  lock (get_dev s d) = false → ppool (get_dev s d) = Some x → heap s !! x = Some n →
  ∃ s', dummveth_get_tx_buffer d s = Ret (Some x, s') ∧
    get_dev s' d = with_lock false (with_stopped (bool_decide (next n = None) || stopped (get_dev s d))
      (with_ppool (next n) (get_dev s d))) ∧
    heap s' = heap s ∧ only_dev d s s'.
Proof.
  intros Hl Hp Hx. unfold dummveth_get_tx_buffer, only_dev. vbind. vbind. rewrite Hp. vbind. vbind. vbind.
  destruct (decide (next n = None)) as [E|E].
  - rewrite bool_decide_eq_true_2 by done. cbn [when]. do 2 vbind.
    eexists. split; [done|]. vsimpl. by split_and!.
  - rewrite bool_decide_eq_false_2 by done. cbn [when]. do 2 vbind.
    eexists. split; [done|]. vsimpl. by split_and!.
Qed.

Lemma enqueue_buf_run d s x n :
  lock (get_dev s d) = false → heap s !! x = Some n →
  ∃ s', dummveth_enqueue_buf d (Some x) s = Ret (tt, s') ∧
    get_dev s' d = with_lock false (with_rx_queue (Some x) (get_dev s d)) ∧
    heap s' = <[x := set_lnext (rx_queue (get_dev s d)) n]> (heap s) ∧ only_dev d s s'.
Proof.
  intros Hl Hx. unfold dummveth_enqueue_buf, only_dev. do 5 vbind.
  eexists. split; [done|]. vsimpl. by split_and!.
Qed.

Lemma dequeue_buf_run d s x n :
  lock (get_dev s d) = false → rx_queue (get_dev s d) = Some x → heap s !! x = Some n →
  ∃ s', dummveth_dequeue_buf d s = Ret (Some x, s') ∧
    get_dev s' d = with_lock false (with_rx_queue (next n) (get_dev s d)) ∧
    heap s' = heap s ∧ only_dev d s s'.
Proof.
  intros Hl Hq Hx. unfold dummveth_dequeue_buf, only_dev. do 2 vbind. rewrite Hq. do 3 vbind.
  eexists. split; [done|]. vsimpl. by split_and!.
Qed.

Lemma release_buffer_run s x n :
  lock (get_dev s (dev n)) = false → heap s !! x = Some n →
  ∃ s', dummveth_release_buffer (Some x) s = Ret (tt, s') ∧
    get_dev s' (dev n) = with_lock false (with_stopped
      (stopped (get_dev s (dev n)) && negb (bool_decide (ppool (get_dev s (dev n)) = None)))
      (with_ppool (Some x) (get_dev s (dev n)))) ∧
    heap s' = <[x := set_lnext (ppool (get_dev s (dev n))) n]> (heap s) ∧ only_dev (dev n) s s'.
Proof.
  intros Hl Hx. unfold dummveth_release_buffer, only_dev. do 7 vbind.
  erewrite cm_bind_ret.
  2: { eapply pkt_read_run; [done|]. vsimpl. by rewrite lookup_insert_eq. }
  cbv beta. vsimpl. destruct (stopped (get_dev s (dev n))) eqn:Est; cbn [andb].
  - destruct (decide (ppool (get_dev s (dev n)) = None)) as [E|E].
    + rewrite bool_decide_eq_true_2 by done. cbn [when negb]. unfold netif_wake_queue.
      rewrite dev_upd_run. eexists. split; [done|]. vsimpl. by split_and!.
    + rewrite bool_decide_eq_false_2 by done. cbn [when negb].
      eexists. split; [done|]. vsimpl. rewrite <-Est. by split_and!.
  - eexists. split; [done|]. vsimpl. rewrite <-Est. by split_and!.
Qed.

(** The interrupt of a received frame and of a completed transmission. *)
Lemma napi_interrupt_rx_run d s :
  lock (get_dev s d) = false → status (get_dev s d) = DUMMVETH_RX_INTR →
  ∃ s', dummveth_napi_interrupt d s = Ret (tt, s') ∧
    get_dev s' d = with_lock false (with_napi true (napi_enabled (get_dev s d))
      (with_status 0 (get_dev s d))) ∧
    heap s' = heap s ∧ only_dev d s s'.
Proof.
  intros Hl Hst. unfold dummveth_napi_interrupt, only_dev. do 3 vbind. rewrite Hst.
  cbn [Z.land Pos.land DUMMVETH_RX_INTR DUMMVETH_TX_INTR Z.eqb negb when]. do 2 vbind.
  eexists. split; [done|]. vsimpl. by split_and!.
Qed.

Lemma napi_interrupt_tx_run d s x :
  lock (get_dev s d) = false → status (get_dev s d) = DUMMVETH_TX_INTR →
  skb (get_dev s d) = Some x → x ∈ skbs s →
  ∃ s', dummveth_napi_interrupt d s = Ret (tt, s') ∧
    get_dev s' d = with_lock false (with_skb None
      (with_stats (add_tx (tx_packetlen (get_dev s d))) (with_status 0 (get_dev s d)))) ∧
    get_dev s' (negb d) = get_dev s (negb d) ∧ heap s' = heap s ∧ skbs s' = skbs s ∖ {[x]} ∧
    ticks s' = ticks s ∧ delivered s' = delivered s.
Proof.
  intros Hl Hst Hskb Hx. unfold dummveth_napi_interrupt. do 3 vbind. rewrite Hst.
  vbind. change (negb (Z.land DUMMVETH_TX_INTR DUMMVETH_TX_INTR =? 0)) with true. cbn [when].
  rewrite cm_bind_assoc. vbind. rewrite cm_bind_assoc. vbind. rewrite cm_bind_assoc. vbind.
  rewrite Hskb, cm_bind_assoc.
  erewrite cm_bind_ret. 2: { unfold dev_kfree_skb. vsimpl. by rewrite decide_True. }
  cbv beta. vbind. eexists. split; [done|]. vsimpl. by split_and!.
Qed.

(** ** The lists of buffers *)

(** The pool of a device and its receive queue. *)
Inductive qid := Pool (d : dev_id) | Rx (d : dev_id).

#[export] Instance qid_eq_dec : EqDecision qid.
Proof. solve_decision. Defined.

Definition qhead (s : sys) (q : qid) : ptr :=
  match q with Pool d => ppool (get_dev s d) | Rx d => rx_queue (get_dev s d) end.

(** Whose buffers the list holds. *)
Definition qowner (q : qid) : dev_id := match q with Pool d => d | Rx d => negb d end.

Abbreviation buffers := (qid -> list (loc * packet)).

Definition upd (L : buffers) (q : qid) (l : list (loc * packet)) : buffers :=
  λ q', if decide (q' = q) then l else L q'.

Record lists_ok (h : gmap loc packet) (heads : qid -> ptr) (L : buffers) : Prop := {
  lo_chain q : chain h (heads q) (L q);
  lo_disj q q' x : x ∈ (L q).*1 → x ∈ (L q').*1 → q = q';
  lo_owner q x n : (x, n) ∈ L q → dev n = qowner q;
  lo_buf q x n : (x, n) ∈ L q →
    Z.of_nat (length (data n)) = ETH_DATA_LEN ∧ 0 ≤ datalen n ≤ ETH_DATA_LEN;
}.

Lemma elem_keys {A} (x : loc) (n : A) l : (x, n) ∈ l → x ∈ l.*1.
Proof. apply (list_elem_of_fmap_2 fst). Qed.

(** The first buffer of one list becomes the first of another, of the same
    owner. *)
Lemma lists_move h heads L q1 q2 x n l n' heads' :
  lists_ok h heads L → q1 ≠ q2 → L q1 = (x, n) :: l → qowner q1 = qowner q2 →
  next n' = heads q2 → dev n' = dev n →
  Z.of_nat (length (data n')) = ETH_DATA_LEN → 0 ≤ datalen n' ≤ ETH_DATA_LEN →
  (∀ q, heads' q = if decide (q = q1) then next n else if decide (q = q2) then Some x else heads q) →
  lists_ok (<[x := n']> h) heads' (upd (upd L q1 l) q2 ((x, n') :: L q2)).
Proof.
  intros [Hc Hd Ho Hb] Hne E1 Hown Hnext Hdev Hlen Hdl Hh.
  pose proof (Hc q1) as Hc1. rewrite E1 in Hc1. pose proof (chain_NoDup _ _ _ Hc1) as Hnd.
  destruct Hc1 as (_ & Hx & Hc1). apply NoDup_cons in Hnd as [Hxl _].
  assert (Hx1 : x ∈ (L q1).*1) by (rewrite E1; apply list_elem_of_here).
  assert (Hoff : ∀ q, q ≠ q1 → x ∉ (L q).*1) by (intros q Hq Hin; by apply Hq, (Hd _ _ x)).
  assert (Hsub : ∀ q y, y ∈ (upd (upd L q1 l) q2 ((x, n') :: L q2) q).*1 →
    (q = q2 ∧ y = x) ∨ (y ∈ (L q).*1 ∧ (y = x → False))).
  { intros q y. unfold upd. repeat case_decide; subst.
    - simpl. intros [->|Hy]%elem_of_cons; [by left|]. right. split; [done|].
      intros ->. by apply (Hoff q2).
    - intros Hy. right. rewrite E1. split; [by right|]. intros ->. done.
    - intros Hy. right. split; [done|]. intros ->. by apply (Hoff q). }
  assert (Hin : ∀ q y m, (y, m) ∈ upd (upd L q1 l) q2 ((x, n') :: L q2) q →
    (q = q2 ∧ y = x ∧ m = n') ∨ (y, m) ∈ L q).
  { intros q y m. unfold upd. repeat case_decide; subst.
    - intros [[= -> ->]|?]%elem_of_cons; [by left|by right].
    - intros ?. right. rewrite E1. by right.
    - by right. }
  split.
  - intros q. rewrite Hh. unfold upd. repeat case_decide; subst; try done.
    + by apply chain_insert_notin.
    + split; [done|]. rewrite lookup_insert_eq. split; [done|]. cbn [lnext packet_linked].
      rewrite Hnext. apply chain_insert_notin; [by apply Hoff|done].
    + apply chain_insert_notin; [by apply Hoff|done].
  - intros q q' y [[-> ->]|[Hy Hyx]]%Hsub [[-> Hyx']|[Hy' Hyx']]%Hsub; [done|by destruct Hyx'|
      by destruct Hyx|by eapply Hd].
  - intros q y m [(-> & -> & ->)|Hm]%Hin; [|by eapply Ho]. rewrite Hdev, <-Hown.
    eapply (Ho q1 x). rewrite E1. apply list_elem_of_here.
  - intros q y m [(-> & -> & ->)|Hm]%Hin; [done|by eapply Hb].
Qed.

(** What holds between the calls of the stack. *)
Record flow (pool_size : nat) (s : sys) (L : buffers) : Prop := {
  fl_lists : lists_ok (heap s) (qhead s) L;
  fl_count d : (length (L (Pool d)) + length (L (Rx (negb d))))%nat = pool_size;
  fl_lock d : lock (get_dev s d) = false;
  fl_stopped d : stopped (get_dev s d) = bool_decide (L (Pool d) = []);
  fl_skb d : skb (get_dev s d) = None;
  fl_rx_int d : rx_int_enabled (get_dev s d) = 1;
  fl_status d : status (get_dev s d) = 0;
  fl_poll d : L (Rx d) ≠ [] → napi_scheduled (get_dev s d) = true;
  fl_skbs : skbs s = ∅;
}.

(** The frame a buffer holds, and the frames waiting at a device. *)
Definition frame (n : packet) : list Z := take (Z.to_nat (datalen n)) (data n).
Definition waiting (L : buffers) (d : dev_id) : list (dev_id * list Z) :=
  (λ xn, (d, frame xn.2)) <$> L (Rx d).

Lemma dev_cases d d' : d' = d ∨ d' = negb d.
Proof. destruct d, d'; auto. Qed.

Lemma padded_length bs : Z.of_nat (length (padded bs)) = Z.max 60 (Z.of_nat (length bs)).
Proof.
  unfold padded, ETH_ZLEN. destruct (Z.ltb_spec (Z.of_nat (length bs)) 60).
  - rewrite length_app, length_replicate. lia.
  - lia.
Qed.

Lemma memcpy_frame (dst src : list Z) len :
  Z.of_nat (length src) = len → len ≤ Z.of_nat (length dst) →
  ∃ bs, memcpy dst src len = Ret bs ∧ length bs = length dst ∧ take (Z.to_nat len) bs = src.
Proof.
  intros Hs Hd. unfold memcpy. rewrite decide_True by lia. eexists. split; [done|].
  rewrite take_ge by lia. split.
  - rewrite length_app, length_drop. lia.
  - by rewrite take_app_length' by lia.
Qed.

(** The two interrupts that end a transmission, once the frame is queued. *)
Lemma tx_interrupts_run mem_ok d s len x :
  lock (get_dev s d) = false → lock (get_dev s (negb d)) = false →
  rx_int_enabled (get_dev s (negb d)) = 1 → status (get_dev s d) = 0 →
  status (get_dev s (negb d)) = 0 → skb (get_dev s d) = Some x → skbs s = {[x]} →
  ∃ s', (en ← dev_get (negb d) rx_int_enabled;
         when (negb (en =? 0))
           (dev_upd (negb d) (λ v, with_status (Z.lor (status v) DUMMVETH_RX_INTR) v);;
            dummveth_interrupt mem_ok true (negb d));;
         dev_upd d (with_tx_packetlen len);;
         dev_upd d (λ v, with_status (Z.lor (status v) DUMMVETH_TX_INTR) v);;
         st ← dev_get d stats;
         if negb (0 =? 0) && ((u64 (tx_packets st + 1) mod u64 0) =? 0)
         then netif_stop_queue d
         else dummveth_interrupt mem_ok true d) s = Ret (tt, s') ∧
    get_dev s' d = with_lock false (with_skb None (with_stats (add_tx len) (with_status 0
      (with_tx_packetlen len (get_dev s d))))) ∧
    get_dev s' (negb d) = with_lock false (with_napi true (napi_enabled (get_dev s (negb d)))
      (with_status 0 (get_dev s (negb d)))) ∧
    heap s' = heap s ∧ skbs s' = ∅ ∧ ticks s' = ticks s ∧ delivered s' = delivered s.
Proof.
  intros Hl Hl' Hrx Hst Hst' Hskb Hsk. vbind. rewrite Hrx. cbn [Z.eqb negb when].
  rewrite cm_bind_assoc. vbind. unfold dummveth_interrupt. set (s1 := set_dev _ _ _).
  destruct (napi_interrupt_rx_run (negb d) s1) as (s2 & E2 & Hd2 & Hh2 & Ho2 & Hs2 & Ht2 & Hl2);
    [by subst s1; vsimpl|by subst s1; vsimpl; rewrite Hst'|].
  rewrite (cm_bind_ret _ _ _ _ _ E2). cbv beta. rewrite negb_involutive in Ho2.
  subst s1. revert Hd2 Hh2 Ho2 Hs2 Ht2 Hl2. vsimpl. intros Hd2 Hh2 Ho2 Hs2 Ht2 Hl2.
  do 3 vbind. cbn [andb]. set (s3 := set_dev _ _ _).
  destruct (napi_interrupt_tx_run d s3 x) as (s4 & E4 & Hd4 & Ho4 & Hh4 & Hs4 & Ht4 & Hl4).
  1-4: subst s3; vsimpl; rewrite ?Ho2, ?Hs2, ?Hsk; vsimpl; rewrite ?Hst; first [done|set_solver].
  subst s3. revert Hd4 Ho4 Hh4 Hs4 Ht4 Hl4. vsimpl. intros Hd4 Ho4 Hh4 Hs4 Ht4 Hl4.
  exists s4. split; [done|]. rewrite Hd4, Ho4, Hh4, Hs4, Ht4, Hl4, Hh2, Ht2, Hl2, Ho2, Hd2, Hs2, Hsk.
  split_and!; [by vsimpl..|set_solver|done|done].
Qed.

(** The run of a transmission with a buffer in the pool: what it does to each
    component of the state. *)
Lemma xmit_run mem_ok d s x bs y n :
  lock (get_dev s d) = false → lock (get_dev s (negb d)) = false →
  ppool (get_dev s d) = Some y → heap s !! y = Some n →
  rx_int_enabled (get_dev s (negb d)) = 1 → status (get_dev s d) = 0 →
  status (get_dev s (negb d)) = 0 → skbs s = ∅ →
  Z.of_nat (length (data n)) = ETH_DATA_LEN → (length bs ≤ Z.to_nat ETH_DATA_LEN)%nat →
  ∃ s' n', dummveth_xmit mem_ok true 0 x bs d s = Ret (0, s') ∧
    n' = mkPacket (rx_queue (get_dev s (negb d))) (dev n) (Z.of_nat (length (padded bs))) (data n') ∧
    length (data n') = length (data n) ∧ frame n' = padded bs ∧
    heap s' = <[y := n']> (heap s) ∧
    (∃ st len, get_dev s' d = with_lock false (with_skb None (with_stats st (with_status 0
      (with_tx_packetlen len (with_stopped (bool_decide (next n = None) || stopped (get_dev s d))
      (with_ppool (next n) (get_dev s d)))))))) ∧
    get_dev s' (negb d) = with_lock false (with_napi true (napi_enabled (get_dev s (negb d)))
      (with_status 0 (with_rx_queue (Some y) (get_dev s (negb d))))) ∧
    skbs s' = ∅ ∧ ticks s' = ticks s ∧ delivered s' = delivered s.
Proof.
  intros Hl Hl' Hp Hy Hrx Hst Hst' Hsk Hbuf Hlen. pose proof (padded_length bs) as Hpl.
  unfold ETH_DATA_LEN in *. unfold dummveth_xmit, xmit_with. vbind. vbind.
  set (s0 := set_dev _ _ _). unfold dummveth_hw_tx, loop_back.
  rewrite (proj2 (Z.ltb_ge (Z.of_nat (length (padded bs))) (14 + 20))) by lia.
  destruct (get_tx_buffer_run d s0 y n) as (s1 & E1 & Hd1 & Hh1 & Ho1 & Hs1 & Ht1 & Hl1);
    [by subst s0; vsimpl..|].
  rewrite !cm_bind_assoc, (cm_bind_ret _ _ _ _ _ E1). cbv beta iota.
  destruct (memcpy_frame (data n) (padded bs) (Z.of_nat (length (padded bs)))) as (bs' & Em & Hbl & Hfr);
    [done|lia|].
  rewrite cm_bind_assoc, (cm_bind_ret _ _ _ _ _ (pkt_read_run (Some y) s1 y n eq_refl
    ltac:(rewrite Hh1; subst s0; by vsimpl))). cbv beta.
  rewrite cm_bind_assoc, (cm_bind_ret _ _ s1 bs' s1) by (unfold lift_outcome; by rewrite Em). cbv beta.
  set (n1 := mkPacket (next n) (dev n) (Z.of_nat (length (padded bs))) bs').
  rewrite cm_bind_assoc, (cm_bind_ret _ _ _ _ _ (pkt_write_run (Some y) s1 y n n1 eq_refl
    ltac:(rewrite Hh1; subst s0; by vsimpl))). cbv beta.
  destruct (enqueue_buf_run (negb d) (set_heap s1 (<[y := n1]> (heap s1))) y n1)
    as (s2 & E2 & Hd2 & Hh2 & Ho2 & Hs2 & Ht2 & Hl2).
  { vsimpl. rewrite Ho1. subst s0. by vsimpl. }
  { vsimpl. by rewrite lookup_insert_eq. }
  rewrite negb_involutive in Ho2. revert Hd2 Hh2 Ho2 Hs2 Ht2 Hl2. vsimpl. intros Hd2 Hh2 Ho2 Hs2 Ht2 Hl2.
  rewrite cm_bind_assoc, (cm_bind_ret _ _ _ _ _ E2). cbv beta.
  assert (Hv1 : get_dev s1 (negb d) = get_dev s (negb d)) by (rewrite Ho1; subst s0; by vsimpl).
  assert (Hv2 : skbs s2 = {[x]}) by (rewrite Hs2, Hs1; subst s0; vsimpl; rewrite Hsk; set_solver).
  assert (Hv3 : get_dev s2 d = with_lock false (with_stopped (bool_decide (next n = None) || stopped (get_dev s d))
    (with_ppool (next n) (with_skb (Some x) (get_dev s d))))) by (rewrite Ho2, Hd1; subst s0; by vsimpl).
  destruct (tx_interrupts_run mem_ok d s2 (Z.of_nat (length (padded bs))) x)
    as (s3 & E3 & Hd3 & Ho3 & Hh3 & Hs3 & Ht3 & Hl3);
    [rewrite ?Hv3, ?Hd2, ?Hv1; by vsimpl..|done|].
  rewrite (cm_bind_ret _ _ _ _ _ E3).
  exists s3, (set_lnext (rx_queue (get_dev s (negb d))) n1). split; [done|].
  split; [done|]. split; [done|]. split; [exact Hfr|]. split_and!.
  - rewrite Hh3, Hh2, Hv1, Hh1. subst s0. vsimpl. by rewrite insert_insert_eq.
  - exists (add_tx (Z.of_nat (length (padded bs)))), (Z.of_nat (length (padded bs))).
    rewrite Hd3, Hv3. by vsimpl.
  - rewrite Ho3, Hd2, Hv1. by vsimpl.
  - done.
  - rewrite Ht3, Ht2, Ht1. subst s0. by vsimpl.
  - rewrite Hl3, Hl2, Hl1. subst s0. by vsimpl.
Qed.

(** ** The invariant is kept *)

Lemma upd_eq L q l : upd L q l q = l.
Proof. unfold upd. by rewrite decide_True. Qed.
Lemma upd_ne L q l q' : q' ≠ q → upd L q l q' = L q'.
Proof. intros. unfold upd. by rewrite decide_False. Qed.

Lemma chain_head_nil (h : gmap loc packet) p l : chain h p l → (p = None ↔ l = []).
Proof. destruct l as [|[]]; simpl; [done|]. intros (-> & _). done. Qed.

Lemma negb_ne d : negb d ≠ d.
Proof. by destruct d. Qed.

(** The queue runs, so there is a buffer to take. *)
Lemma flow_pool ps s L d :
  flow ps s L → stopped (get_dev s d) = false → ∃ y n l, L (Pool d) = (y, n) :: l ∧
    ppool (get_dev s d) = Some y ∧ heap s !! y = Some n ∧ chain (heap s) (next n) l.
Proof.
  intros F Hst. rewrite (fl_stopped _ _ _ F) in Hst. apply bool_decide_eq_false in Hst.
  pose proof (lo_chain _ _ _ (fl_lists _ _ _ F) (Pool d)) as Hc.
  destruct (L (Pool d)) as [|[y n] l]; [done|]. destruct Hc as (Hp & Hy & Hc). by exists y, n, l.
Qed.

Lemma xmit_flow mem_ok ps d x bs s L :
  flow ps s L → stopped (get_dev s d) = false → (length bs ≤ Z.to_nat ETH_DATA_LEN)%nat →
  ∃ s' L', dummveth_xmit mem_ok true 0 x bs d s = Ret (0, s') ∧ flow ps s' L' ∧
    waiting L' (negb d) = (negb d, padded bs) :: waiting L (negb d) ∧
    waiting L' d = waiting L d ∧ delivered s' = delivered s.
Proof.
  intros F Hst Hlen. destruct (flow_pool _ _ _ _ F Hst) as (y & n & l & EL & Hp & Hy & Hc).
  pose proof F as [Hlo Hcnt Hlk Hsto Hskb Hrx Hsta Hpoll Hsk].
  destruct (lo_buf _ _ _ Hlo (Pool d) y n) as [Hbuf _]; [rewrite EL; apply list_elem_of_here|].
  destruct (xmit_run mem_ok d s x bs y n) as
    (s' & n' & E & En' & Hln & Hfr & Hh & (st & len & Hd) & Hd' & Hsk' & Ht & Hdel); try done.
  pose proof (padded_length bs) as Hpl. unfold ETH_DATA_LEN in *.
  pose proof (chain_head_nil _ _ _ Hc) as Hnil.
  exists s', (upd (upd L (Pool d) l) (Rx (negb d)) ((y, n') :: L (Rx (negb d)))).
  split; [done|]. split; [split|].
  - rewrite Hh. apply (lists_move _ (qhead s) L (Pool d) (Rx (negb d)) y n); try done.
    + cbn [qowner]. by rewrite negb_involutive.
    + by rewrite En'.
    + by rewrite En'.
    + by rewrite Hln.
    + rewrite En'. cbn [datalen]. unfold ETH_DATA_LEN. lia.
    + intros [d'|d']; destruct (dev_cases d d') as [-> | ->]; cbn [qhead];
        rewrite ?Hd, ?Hd'; vsimpl; repeat case_decide; simplify_eq; try done; by destruct d.
  - intros d'. destruct (dev_cases d d') as [-> | ->].
    + rewrite upd_ne, upd_eq, upd_eq by done. rewrite <-(Hcnt d), EL. simpl. lia.
    + rewrite negb_involutive. pose proof (negb_ne d). rewrite !upd_ne by congruence.
      rewrite <-(Hcnt (negb d)). by rewrite negb_involutive.
  - intros d'. destruct (dev_cases d d') as [-> | ->]; rewrite ?Hd, ?Hd'; by vsimpl.
  - intros d'. pose proof (negb_ne d). destruct (dev_cases d d') as [-> | ->]; rewrite ?Hd, ?Hd'; vsimpl.
    + rewrite upd_ne, upd_eq, Hst by done. rewrite orb_false_r. by apply bool_decide_ext.
    + by rewrite !upd_ne, Hsto by congruence.
  - intros d'. destruct (dev_cases d d') as [-> | ->]; rewrite ?Hd, ?Hd'; by vsimpl.
  - intros d'. destruct (dev_cases d d') as [-> | ->]; rewrite ?Hd, ?Hd'; by vsimpl.
  - intros d'. destruct (dev_cases d d') as [-> | ->]; rewrite ?Hd, ?Hd'; by vsimpl.
  - intros d'. pose proof (negb_ne d). destruct (dev_cases d d') as [-> | ->]; rewrite ?Hd, ?Hd'; vsimpl.
    + rewrite !upd_ne by congruence. apply Hpoll.
    + done.
  - done.
  - pose proof (negb_ne d). unfold waiting. rewrite upd_eq, fmap_cons. cbn [snd]. rewrite Hfr.
    by rewrite !upd_ne by congruence.
Qed.

(** One round of the poll: the frame is delivered, or dropped for want of
    memory; the buffer goes back to the device that sent it. *)
Lemma poll_iter_run mem_ok d s x n rem np :
  lock (get_dev s d) = false → lock (get_dev s (negb d)) = false →
  rx_queue (get_dev s d) = Some x → heap s !! x = Some n → dev n = negb d →
  0 ≤ datalen n ≤ Z.of_nat (length (data n)) →
  ∃ s', poll_loop mem_ok (S rem) np d s = poll_loop mem_ok rem (np + 1) d s' ∧
    (∃ st, get_dev s' d = with_stats st (with_lock false (with_rx_queue (next n) (get_dev s d)))) ∧
    get_dev s' (negb d) = with_lock false (with_stopped
      (stopped (get_dev s (negb d)) && negb (bool_decide (ppool (get_dev s (negb d)) = None)))
      (with_ppool (Some x) (get_dev s (negb d)))) ∧
    heap s' = <[x := set_lnext (ppool (get_dev s (negb d))) n]> (heap s) ∧ skbs s' = skbs s ∧
    delivered s' = delivered s ++ (if mem_ok (ticks s) then [(d, frame n)] else []).
Proof.
  intros Hl Hl' Hq Hx Hdev Hlen.
  assert (∃ s2, poll_loop mem_ok (S rem) np d s =
      (dummveth_release_buffer (Some x);; poll_loop mem_ok rem (np + 1) d) s2 ∧
    (∃ st, get_dev s2 d = with_stats st (with_lock false (with_rx_queue (next n) (get_dev s d)))) ∧
    get_dev s2 (negb d) = get_dev s (negb d) ∧ heap s2 = heap s ∧ skbs s2 = skbs s ∧
    delivered s2 = delivered s ++ (if mem_ok (ticks s) then [(d, frame n)] else []))
    as (s2 & -> & [st Hd2] & Ho2 & Hh2 & Hs2 & Hl2).
  { cbn [poll_loop]. vbind. rewrite Hq.
    destruct (dequeue_buf_run d s x n) as (s1 & E1 & Hd1 & Hh1 & Ho1 & Hs1 & Ht1 & Hl1); try done.
    rewrite (cm_bind_ret _ _ _ _ _ E1). cbv beta.
    rewrite (cm_bind_ret _ _ _ _ _ (pkt_read_run (Some x) s1 x n eq_refl ltac:(by rewrite Hh1))).
    cbv beta. erewrite cm_bind_ret; [|reflexivity]. cbv beta. rewrite Ht1.
    destruct (mem_ok (ticks s)) eqn:Em; cbn [negb].
    - rewrite (cm_bind_ret _ _ _ (frame n) (set_ticks s1 (S (ticks s)))).
      2: { unfold lift_outcome. rewrite rd_bytes_in by (unfold data_end; lia). done. }
      cbv beta. do 2 vbind. eexists. split; [done|]. split; [by eexists; vsimpl; rewrite Hd1|].
      vsimpl. by rewrite Hl1.
    - vbind. eexists. split; [done|]. split; [by eexists; vsimpl; rewrite Hd1|].
      vsimpl. by rewrite Hl1, app_nil_r. }
  destruct (release_buffer_run s2 x n) as (s3 & E3 & Hd3 & Hh3 & Ho3 & Hs3 & Ht3 & Hl3).
  { by rewrite Hdev, Ho2. }
  { by rewrite Hh2. }
  rewrite (cm_bind_ret _ _ _ _ _ E3). cbv beta. rewrite Hdev, Ho2 in *. rewrite negb_involutive in Ho3.
  exists s3. split; [done|]. split; [exists st; by rewrite Ho3|].
  rewrite Hh3, Hs3, Hl3, Hh2, Hs2, Hl2. by split_and!.
Qed.

Lemma poll_iter_flow mem_ok ps d s L x n l rem np :
  flow ps s L → L (Rx d) = (x, n) :: l →
  ∃ s' L', poll_loop mem_ok (S rem) np d s = poll_loop mem_ok rem (np + 1) d s' ∧ flow ps s' L' ∧
    L' (Rx d) = l ∧ L' (Rx (negb d)) = L (Rx (negb d)) ∧
    delivered s' = delivered s ++ (if mem_ok (ticks s) then [(d, frame n)] else []).
Proof.
  intros F EL. pose proof F as [Hlo Hcnt Hlk Hsto Hskb Hrx Hsta Hpoll Hsk].
  assert (Hin : (x, n) ∈ L (Rx d)) by (rewrite EL; apply list_elem_of_here).
  pose proof (lo_chain _ _ _ Hlo (Rx d)) as Hc. rewrite EL in Hc. destruct Hc as (Hq & Hx & Hc).
  pose proof (chain_head_nil _ _ _ (lo_chain _ _ _ Hlo (Pool (negb d)))) as Hnil. cbn [qhead] in Hq, Hnil.
  pose proof (lo_owner _ _ _ Hlo _ _ _ Hin) as Hdev. destruct (lo_buf _ _ _ Hlo _ _ _ Hin) as [Hbuf Hdl].
  destruct (poll_iter_run mem_ok d s x n rem np) as
    (s' & E & [st Hd] & Hd' & Hh & Hs & Hdel); try done; [by rewrite Hbuf|].
  pose proof (negb_ne d) as Hne. pose proof (not_eq_sym Hne) as Hne'.
  exists s', (upd (upd L (Rx d) l) (Pool (negb d))
    ((x, set_lnext (ppool (get_dev s (negb d))) n) :: L (Pool (negb d)))).
  split; [done|]. split; [split|].
  - rewrite Hh. apply (lists_move _ (qhead s) L (Rx d) (Pool (negb d)) x n); try done.
    intros [d'|d']; destruct (dev_cases d d') as [-> | ->]; cbn [qhead];
      rewrite ?Hd, ?Hd'; vsimpl; repeat case_decide; simplify_eq; try done; by destruct d.
  - intros d'. destruct (dev_cases d d') as [-> | ->].
    + rewrite !upd_ne by congruence. apply Hcnt.
    + rewrite negb_involutive, upd_eq, upd_ne, upd_eq by done. rewrite <-(Hcnt (negb d)).
      rewrite negb_involutive, EL. simpl. lia.
  - intros d'. destruct (dev_cases d d') as [-> | ->]; rewrite ?Hd, ?Hd'; by vsimpl.
  - intros d'. destruct (dev_cases d d') as [-> | ->]; rewrite ?Hd, ?Hd'; vsimpl.
    + by rewrite !upd_ne, Hsto by congruence.
    + rewrite upd_eq, Hsto, (bool_decide_ext _ _ Hnil), andb_negb_r.
      by rewrite bool_decide_eq_false_2.
  - intros d'. destruct (dev_cases d d') as [-> | ->]; rewrite ?Hd, ?Hd'; by vsimpl.
  - intros d'. destruct (dev_cases d d') as [-> | ->]; rewrite ?Hd, ?Hd'; by vsimpl.
  - intros d'. destruct (dev_cases d d') as [-> | ->]; rewrite ?Hd, ?Hd'; by vsimpl.
  - intros d'. destruct (dev_cases d d') as [-> | ->]; rewrite ?Hd, ?Hd'; vsimpl.
    + intros _. apply Hpoll. by rewrite EL.
    + rewrite !upd_ne by congruence. apply Hpoll.
  - by rewrite Hs.
  - split_and!; [by rewrite upd_ne, upd_eq|by rewrite !upd_ne by congruence|done].
Qed.

Lemma waiting_ext L L' d : L' (Rx d) = L (Rx d) → waiting L' d = waiting L d.
Proof. intros E. unfold waiting. by rewrite E. Qed.

Lemma poll_loop_flow mem_ok ps d rem : ∀ np s L, flow ps s L →
  ∃ s' L' got lost, let k := Nat.min rem (length (L (Rx d))) in
    poll_loop mem_ok rem np d s = Ret (np + Z.of_nat k, s') ∧ flow ps s' L' ∧
    L' (Rx d) = drop k (L (Rx d)) ∧ L' (Rx (negb d)) = L (Rx (negb d)) ∧
    delivered s' = delivered s ++ got ∧ waiting L d ≡ₚ got ++ lost ++ waiting L' d ∧
    ((∀ t, mem_ok t = true) → lost = []).
Proof.
  induction rem as [|rem IH]; intros np s L F; cbv zeta.
  - exists s, L, [], []. simpl. rewrite Z.add_0_r, app_nil_r. by split_and!.
  - destruct (L (Rx d)) as [|[x n] l] eqn:EL.
    + pose proof (lo_chain _ _ _ (fl_lists _ _ _ F) (Rx d)) as Hc. rewrite EL in Hc.
      exists s, L, [], []. split.
      { cbn [poll_loop]. vbind. cbn [chain qhead] in Hc. rewrite Hc. simpl. by rewrite Z.add_0_r. }
      rewrite drop_nil, app_nil_r. by split_and!.
    + destruct (poll_iter_flow mem_ok ps d s L x n l rem np F EL)
        as (s1 & L1 & -> & F1 & EL1 & EL1' & Hdel1).
      destruct (IH (np + 1) s1 L1 F1) as (s2 & L2 & got & lost & -> & F2 & EL2 & EL2' & Hdel2 & HP & Hm).
      exists s2, L2, ((if mem_ok (ticks s) then [(d, frame n)] else []) ++ got),
        ((if mem_ok (ticks s) then [] else [(d, frame n)]) ++ lost).
      rewrite EL1 in *. cbn [length Nat.min drop]. split; [do 2 f_equal; lia|].
      split; [done|]. split; [done|]. split; [congruence|].
      rewrite Hdel2, Hdel1, app_assoc. split; [done|].
      assert (Ew : waiting L d = (d, frame n) :: waiting L1 d) by (unfold waiting; by rewrite EL, EL1).
      rewrite Ew, HP. split.
      * destruct (mem_ok (ticks s)); simpl; solve_Permutation.
      * intros Hall. by rewrite Hall, Hm.
Qed.

Lemma poll_flow mem_ok ps d budget s L :
  flow ps s L → 0 ≤ budget →
  ∃ s' L' got lost, let k := Z.min budget (Z.of_nat (length (L (Rx d)))) in
    dummveth_poll mem_ok d budget s = Ret (k, s') ∧ flow ps s' L' ∧
    L' (Rx d) = drop (Z.to_nat k) (L (Rx d)) ∧ L' (Rx (negb d)) = L (Rx (negb d)) ∧
    delivered s' = delivered s ++ got ∧ waiting L d ≡ₚ got ++ lost ++ waiting L' d ∧
    ((∀ t, mem_ok t = true) → lost = []).
Proof.
  intros F Hb. cbv zeta.
  destruct (poll_loop_flow mem_ok ps d (Z.to_nat budget) 0 s L F)
    as (s1 & L1 & got & lost & E1 & F1 & HL1 & HL1' & Hdel & HP & Hm).
  set (k := Nat.min _ _) in *. replace (0 + Z.of_nat k) with (Z.of_nat k) in E1 by lia.
  replace (Z.min budget (Z.of_nat (length (L (Rx d))))) with (Z.of_nat k) by lia.
  rewrite Nat2Z.id. unfold dummveth_poll. rewrite (cm_bind_ret _ _ _ _ _ E1). cbv beta.
  destruct (Z.ltb_spec (Z.of_nat k) budget) as [Hlt|Hge]; cbn [when].
  - assert (Hnil : L1 (Rx d) = []) by (rewrite HL1; apply drop_ge; lia).
    destruct F1 as [Hlo Hcnt Hlk Hsto Hskb Hrx Hsta Hpoll Hsk].
    rewrite cm_bind_assoc. vbind. rewrite cm_bind_assoc. do 2 vbind.
    eexists _, L1, got, lost. split; [done|]. split; [|vsimpl; by split_and!]. split; vsimpl; try done.
    + destruct Hlo as [Hc Hd Ho Hbuf]. split; [|done..]. intros q. specialize (Hc q).
      destruct q as [d'|d'], (dev_cases d d') as [-> | ->]; cbn [qhead] in *; by vsimpl.
    + intros d'; destruct (dev_cases d d') as [-> | ->]; by vsimpl.
    + intros d'; destruct (dev_cases d d') as [-> | ->]; by vsimpl.
    + intros d'; destruct (dev_cases d d') as [-> | ->]; by vsimpl.
    + intros d'; destruct (dev_cases d d') as [-> | ->]; by vsimpl.
    + intros d'; destruct (dev_cases d d') as [-> | ->]; by vsimpl.
    + intros d'; destruct (dev_cases d d') as [-> | ->]; vsimpl; [by rewrite Hnil|apply Hpoll].
  - erewrite cm_bind_ret; [|reflexivity]. by exists s1, L1, got, lost.
Qed.

(** ** Setting the devices up *)

Lemma chain_mono (h h' : gmap loc packet) p l : h ⊆ h' → chain h p l → chain h' p l.
Proof.
  intros Hsub. revert p. induction l as [|[x n] l IH]; intros p; [done|].
  intros (-> & Hx & Hc). split_and!; [done| |by apply IH]. by eapply lookup_weaken.
Qed.

(** A new buffer of [d], off the store [h]. *)
Definition new_buffer (h : gmap loc packet) (d : dev_id) (xn : loc * packet) : Prop :=
  h !! xn.1 = None ∧ dev xn.2 = d ∧ datalen xn.2 = 0 ∧ Z.of_nat (length (data xn.2)) = ETH_DATA_LEN.

Section setup.
Context (mem_ok : nat -> bool) (fresh_data : nat -> list Z).
Hypothesis fresh_length : ∀ t, Z.of_nat (length (fresh_data t)) = ETH_DATA_LEN.

Lemma fill_pool_run d n : ∀ s l,
  chain (heap s) (ppool (get_dev s d)) l →
  (∀ t, (ticks s ≤ t < ticks s + n)%nat → mem_ok t = true) →
  ∃ s' l', fill_pool mem_ok fresh_data n d s = Ret (tt, s') ∧
    chain (heap s') (ppool (get_dev s' d)) (l' ++ l) ∧ length l' = n ∧
    Forall (new_buffer (heap s) d) l' ∧ heap s ⊆ heap s' ∧
    get_dev s' d = with_ppool (ppool (get_dev s' d)) (get_dev s d) ∧
    get_dev s' (negb d) = get_dev s (negb d) ∧ skbs s' = skbs s ∧
    ticks s' = (ticks s + n)%nat ∧ delivered s' = delivered s.
Proof.
  induction n as [|n IH]; intros s l Hc Hm.
  - exists s, []. rewrite Nat.add_0_r. split_and!; try done. by destruct (get_dev s d).
  - cbn [fill_pool]. vbind. vbind. unfold kmalloc_packet. rewrite cm_bind_assoc.
    erewrite cm_bind_ret; [|reflexivity]. cbv beta. rewrite (Hm (ticks s)) by lia. vbind. vbind.
    set (m := mkPacket _ _ _ _). set (x := hfresh (heap s)). set (s1 := set_dev _ _ _).
    assert (Hc1 : chain (heap s1) (ppool (get_dev s1 d)) ((x, m) :: l)).
    { subst s1. vsimpl. split; [done|]. rewrite lookup_insert_eq. split; [done|].
      by apply chain_alloc. }
    assert (Hsub : heap s ⊆ heap s1).
    { subst s1. vsimpl. apply insert_subseteq, hfresh_spec. }
    destruct (IH s1 _ Hc1) as (s2 & l2 & -> & Hc2 & Hl2 & Hnew & Hsub2 & Hd2 & Ho2 & Hs2 & Ht2 & Hdel2).
    { subst s1. vsimpl. intros t Ht. apply Hm. lia. }
    exists s2, (l2 ++ [(x, m)]). rewrite <-app_assoc. split; [done|]. split; [done|].
    split; [rewrite length_app, Hl2; simpl; lia|]. split; [|split; [by transitivity (heap s1)|]].
    + apply Forall_app. split.
      * eapply Forall_impl; [exact Hnew|]. intros [y k] (Hy & Hk). split; [|done].
        by eapply lookup_weaken_None.
      * constructor; [|constructor]. split_and!; [apply hfresh_spec|done..|apply fresh_length].
    + rewrite Hd2, Ho2, Hs2, Ht2, Hdel2. subst s1. vsimpl. split_and!; try done. lia.
Qed.

(** A device as [dummveth_setup] leaves it. *)
Lemma setup_run d n s :
  (∀ t, (ticks s ≤ t < ticks s + n)%nat → mem_ok t = true) →
  ∃ s' l, dummveth_setup mem_ok fresh_data n d s = Ret (tt, s') ∧
    chain (heap s') (ppool (get_dev s' d)) l ∧ length l = n ∧
    Forall (new_buffer (heap s) d) l ∧ heap s ⊆ heap s' ∧
    get_dev s' d = with_ppool (ppool (get_dev s' d)) (with_rx_int 1 zero_device) ∧
    get_dev s' (negb d) = get_dev s (negb d) ∧ skbs s' = skbs s ∧
    ticks s' = (ticks s + n)%nat ∧ delivered s' = delivered s.
Proof.
  intros Hm. unfold dummveth_setup, dummveth_setup_pool, dummveth_rx_ints. do 3 vbind.
  set (s1 := set_dev _ _ _).
  destruct (fill_pool_run d n s1 []) as (s2 & l & -> & H); [by subst s1; vsimpl| |].
  { subst s1. by vsimpl. }
  exists s2, l. split; [done|]. rewrite app_nil_r in H. subst s1. revert H. vsimpl. done.
Qed.
End setup.

(** Loading the module and bringing both devices up. *)
Definition bring_up mem_ok fresh_data (pool_size : nat) : V unit :=
  dummveth_setup mem_ok fresh_data pool_size false;;
  dummveth_setup mem_ok fresh_data pool_size true;;
  dummveth_open true false;;
  dummveth_open true true;;
  mret tt.

Definition no_devices : sys := mkSys zero_device zero_device ∅ ∅ 0 [].

(** The lists after setting up: two pools. *)
Definition two_pools (l0 l1 : list (loc * packet)) : buffers := λ q,
  match q with Pool d => if d then l1 else l0 | Rx _ => [] end.

Lemma two_pools_ok h0 h heads l0 l1 :
  chain h (heads (Pool false)) l0 → chain h (heads (Pool true)) l1 →
  (∀ d, heads (Rx d) = None) → (∀ x n, (x, n) ∈ l0 → h0 !! x = Some n) →
  Forall (new_buffer ∅ false) l0 → Forall (new_buffer h0 true) l1 →
  lists_ok h heads (two_pools l0 l1).
Proof.
  intros H0 H1 Hrx Hold N0 N1. rewrite Forall_forall in N0, N1.
  assert (Hd : ∀ x, x ∈ l0.*1 → x ∈ l1.*1 → False).
  { intros x ([y n] & -> & Hy)%list_elem_of_fmap ([z m] & Ez & Hz)%list_elem_of_fmap.
    destruct (N1 _ Hz) as [Hnone _]. simpl in *. subst z. by rewrite (Hold _ _ Hy) in Hnone. }
  split.
  - intros [[]|d]; simpl; [done..|by rewrite Hrx].
  - intros [[]|d] [[]|d'] x; simpl; intros Hx Hx'; try done; try (by apply elem_of_nil in Hx || by apply elem_of_nil in Hx');
      exfalso; by eapply Hd.
  - intros [[]|d] x n; simpl; intros Hx; [by destruct (N1 _ Hx) as (_ & ? & _)|
      by destruct (N0 _ Hx) as (_ & ? & _)|by apply elem_of_nil in Hx].
  - intros [[]|d] x n; simpl; intros Hx; [destruct (N1 _ Hx) as (_ & _ & E & ?)|
      destruct (N0 _ Hx) as (_ & _ & E & ?)|by apply elem_of_nil in Hx];
      simpl in E; rewrite E; by unfold ETH_DATA_LEN.
Qed.

Lemma open_run d s : ∃ a, dummveth_open true d s =
  Ret (0, set_dev s d (with_stopped false (with_napi (napi_scheduled (get_dev s d)) true
    (with_dev_addr a (get_dev s d))))).
Proof. eexists. by destruct d. Qed.

Lemma bring_up_flow mem_ok fresh_data pool_size :
  (∀ t, Z.of_nat (length (fresh_data t)) = ETH_DATA_LEN) →
  (0 < pool_size)%nat → (∀ t, (t < 2 * pool_size)%nat → mem_ok t = true) →
  ∃ s L, bring_up mem_ok fresh_data pool_size no_devices = Ret (tt, s) ∧ flow pool_size s L ∧
    delivered s = [] ∧ waiting L false = [] ∧ waiting L true = [].
Proof.
  intros Hf Hps Hm. unfold bring_up.
  destruct (setup_run mem_ok fresh_data Hf false pool_size no_devices) as
    (s0 & l0 & E0 & Hc0 & Hl0 & Hn0 & _ & Hd0 & _ & Hs0 & Ht0 & Hdel0).
  { intros t Ht. apply Hm. simpl in Ht. lia. }
  rewrite (cm_bind_ret _ _ _ _ _ E0). cbv beta.
  destruct (setup_run mem_ok fresh_data Hf true pool_size s0) as
    (s1 & l1 & E1 & Hc1 & Hl1 & Hn1 & Hsub & Hd1 & Ho1 & Hs1 & Ht1 & Hdel1).
  { intros t. rewrite Ht0. intros Ht. apply Hm. simpl in Ht. lia. }
  rewrite (cm_bind_ret _ _ _ _ _ E1). cbv beta. cbn [negb] in Ho1.
  destruct (open_run false s1) as [a0 E2]. rewrite (cm_bind_ret _ _ _ _ _ E2). cbv beta.
  match goal with |- context [dummveth_open true true ≫= _] => set (s2 := set_dev _ _ _) end.
  destruct (open_run true s2) as [a1 E3]. rewrite (cm_bind_ret _ _ _ _ _ E3). cbv beta.
  set (s3 := set_dev s2 _ _).
  assert (H0 : get_dev s3 false = with_stopped false (with_napi false true (with_dev_addr a0
    (with_ppool (ppool (get_dev s1 false)) (with_rx_int 1 zero_device))))).
  { change (get_dev s3 false) with (with_stopped false (with_napi (napi_scheduled (get_dev s1 false))
      true (with_dev_addr a0 (get_dev s1 false)))). by rewrite Ho1, Hd0. }
  assert (H1 : get_dev s3 true = with_stopped false (with_napi false true (with_dev_addr a1
    (with_ppool (ppool (get_dev s1 true)) (with_rx_int 1 zero_device))))).
  { change (get_dev s3 true) with (with_stopped false (with_napi (napi_scheduled (get_dev s1 true))
      true (with_dev_addr a1 (get_dev s1 true)))). by rewrite Hd1. }
  exists s3, (two_pools l0 l1). split; [done|].
  split; [|subst s3 s2; by rewrite !delivered_set_dev, Hdel1, Hdel0].
  assert (Hh3 : heap s3 = heap s1) by (subst s3 s2; by vsimpl).
  split.
  - rewrite Hh3. apply (two_pools_ok (heap s0)); cbn [qhead]; rewrite ?H0, ?H1; vsimpl; try done.
    + rewrite Ho1. by apply (chain_mono (heap s0)).
    + intros []; by rewrite ?H0, ?H1.
    + intros x n. by apply chain_elem with (p := ppool (get_dev s0 false)).
  - intros []; simpl; lia.
  - intros []; by rewrite ?H0, ?H1.
  - intros []; rewrite ?H0, ?H1; cbn [two_pools]; symmetry; apply bool_decide_eq_false_2;
      [destruct l1|destruct l0]; simpl in *; by (lia || done).
  - intros []; by rewrite ?H0, ?H1.
  - intros []; by rewrite ?H0, ?H1.
  - intros []; by rewrite ?H0, ?H1.
  - intros d Hne. done.
  - subst s3 s2. vsimpl. by rewrite Hs1, Hs0.
Qed.

(** A padded frame is long enough for the headers [dummveth_hw_tx] expects. *)
Lemma hw_tx_long mem_ok use_napi lockup bs d :
  dummveth_hw_tx mem_ok use_napi lockup (padded bs) (Z.of_nat (length (padded bs))) d =
  loop_back mem_ok use_napi lockup (padded bs) (Z.of_nat (length (padded bs))) d.
Proof.
  unfold dummveth_hw_tx. pose proof (padded_length bs).
  by rewrite (proj2 (Z.ltb_ge (Z.of_nat (length (padded bs))) (14 + 20))) by lia.
Qed.

(** ** Configuration *)

(** A device with other settings: all that the flow of frames depends on is the same. *)
Definition same_flow (v v' : device) : Prop :=
  ppool v' = ppool v ∧ rx_queue v' = rx_queue v ∧ lock v' = lock v ∧ stopped v' = stopped v ∧
  skb v' = skb v ∧ rx_int_enabled v' = rx_int_enabled v ∧ status v' = status v ∧
  napi_scheduled v' = napi_scheduled v.

Lemma set_get_dev s d : set_dev s d (get_dev s d) = s.
Proof. by destruct s, d. Qed.

Lemma set_dev_twice s d v w : set_dev (set_dev s d v) d w = set_dev s d w.
Proof. by destruct d. Qed.

Lemma same_flow_refl v : same_flow v v.
Proof. by split_and!. Qed.

Lemma flow_settings pool_size s L d v :
  flow pool_size s L → same_flow (get_dev s d) v → flow pool_size (set_dev s d v) L.
Proof.
  intros F (E1 & E2 & E3 & E4 & E5 & E6 & E7 & E8).
  assert (∀ d', same_flow (get_dev s d') (get_dev (set_dev s d v) d')) as Hs.
  { intros d'. destruct (dev_cases d d') as [->| ->]; vsimpl; [by split_and!|apply same_flow_refl]. }
  assert (∀ q, qhead (set_dev s d v) q = qhead s q) as Hq by (intros [d'|d']; apply (Hs d')).
  destruct F as [F1 F2 F3 F4 F5 F6 F7 F8 F9]. split; try intros d'; try destruct (Hs d')
    as (H1 & H2 & H3 & H4 & H5 & H6 & H7 & H8).
  - destruct F1 as [G1 G2 G3 G4]. split; try done. intros q. rewrite Hq. vsimpl. apply G1.
  - done.
  - by rewrite H3.
  - by rewrite H4.
  - by rewrite H5.
  - by rewrite H6.
  - by rewrite H7.
  - rewrite H8. apply F8.
  - by vsimpl.
Qed.

Lemma change_mtu_flow pool_size s L d m :
  flow pool_size s L → ∃ r v, dummveth_change_mtu d m s = Ret (r, set_dev s d v) ∧
    same_flow (get_dev s d) v.
Proof.
  intros F. pose proof (fl_lock _ _ _ F d) as Hl. unfold dummveth_change_mtu.
  destruct (_ || _).
  - eexists _, (get_dev s d). split; [by rewrite set_get_dev|apply same_flow_refl].
  - do 2 vbind. unfold spin_unlock. vbind. rewrite !set_dev_twice. eexists _, _.
    split; [done|]. by split_and!.
Qed.

Lemma set_config_flow s d up base mb mi :
  ∃ r v, dummveth_set_config d up base mb mi s = Ret (r, set_dev s d v) ∧
    same_flow (get_dev s d) v.
Proof.
  unfold dummveth_set_config. pose proof (same_flow_refl (get_dev s d)) as Hr.
  destruct up; [eexists _, _; by rewrite set_get_dev|].
  destruct (negb (mb =? base)); [eexists _, _; by rewrite set_get_dev|].
  vbind. destruct (negb (mi =? irq (get_dev s d))); cbn [when].
  - vbind. eexists _, _. split; [done|]. by split_and!.
  - eexists _, (get_dev s d). by rewrite set_get_dev.
Qed.

(** ** What the stack may do *)

(** The calls of the stack, with the frames sent: it transmits on a running
    queue frames that fit a buffer, polls a device whose poll is scheduled, changes the
    MTU and the configuration. Not among them are taking a device down and up, which
    can deadlock it ([veth_reopen_deadlocks]), frames of more than [ETH_DATA_LEN] bytes
    ([veth_full_frame_overflows]) and the transmit timeout, which makes a new pool while
    buffers are with the peer. *)
Inductive served (mem_ok : nat -> bool) : sys -> list (dev_id * list Z) -> sys -> Prop :=
  | served_nil s : served mem_ok s [] s
  | served_xmit s sent s1 d x bs r s2 :
    served mem_ok s sent s1 →
    stopped (get_dev s1 d) = false → (length bs ≤ Z.to_nat ETH_DATA_LEN)%nat →
    dummveth_xmit mem_ok true 0 x bs d s1 = Ret (r, s2) →
    served mem_ok s ((negb d, padded bs) :: sent) s2
  | served_poll s sent s1 d budget k s2 :
    served mem_ok s sent s1 →
    napi_scheduled (get_dev s1 d) = true → 0 ≤ budget →
    dummveth_poll mem_ok d budget s1 = Ret (k, s2) →
    served mem_ok s sent s2
  | served_mtu s sent s1 d m r s2 :
    served mem_ok s sent s1 → dummveth_change_mtu d m s1 = Ret (r, s2) → served mem_ok s sent s2
  | served_config s sent s1 d up base mb mi r s2 :
    served mem_ok s sent s1 → dummveth_set_config d up base mb mi s1 = Ret (r, s2) →
    served mem_ok s sent s2.

(** The states in use: loaded with [pool_size] buffers each, then served. *)
Definition in_use mem_ok fresh_data pool_size sent s : Prop :=
  ∃ s0, bring_up mem_ok fresh_data pool_size no_devices = Ret (tt, s0) ∧ served mem_ok s0 sent s.

Section in_use.
Context (mem_ok : nat -> bool) (fresh_data : nat -> list Z) (pool_size : nat).
(** A [struct dummveth_packet] holds [ETH_DATA_LEN] bytes; the module is loaded
    with at least one buffer, and memory enough for all of them. *)
Hypothesis fresh_length : ∀ t, Z.of_nat (length (fresh_data t)) = ETH_DATA_LEN.
Hypothesis pool_nonempty : (0 < pool_size)%nat.
Hypothesis loads : ∀ t, (t < 2 * pool_size)%nat → mem_ok t = true.

Lemma served_flow sent s :
  in_use mem_ok fresh_data pool_size sent s → ∃ L dropped, flow pool_size s L ∧
    sent ≡ₚ delivered s ++ dropped ++ waiting L false ++ waiting L true ∧
    ((∀ t, mem_ok t = true) → dropped = []).
Proof.
  intros (s0 & E0 & Hs).
  destruct (bring_up_flow mem_ok fresh_data pool_size) as (s0' & L0 & E0' & F0 & Hdel0 & W0 & W1);
    [done..|].
  rewrite E0 in E0'. injection E0' as <-.
  induction Hs as [s|s sent s1 d x bs r s2 _ IH Hst Hlen E|s sent s1 d b k s2 _ IH Hsch Hb E|
    s sent s1 d m r s2 _ IH E|s sent s1 d up base mb mi r s2 _ IH E].
  - exists L0, []. by rewrite Hdel0, W0, W1.
  - destruct IH as (L & dr & F & HP & Hdr); try done.
    destruct (xmit_flow mem_ok _ d x bs s1 L F Hst Hlen) as (s2' & L' & E' & F' & W & W' & Hdel).
    rewrite E in E'. injection E' as -> <-. exists L', dr. split; [done|]. split; [|done].
    rewrite Hdel, HP. destruct d; simpl in *; rewrite W, W'; solve_Permutation.
  - destruct IH as (L & dr & F & HP & Hdr); try done.
    destruct (poll_flow mem_ok _ d b s1 L F Hb) as (s2' & L' & got & lost & E' & F' & _ & EL' & Hdel & W & Hm).
    rewrite E in E'. injection E' as -> <-. exists L', (dr ++ lost). split; [done|].
    pose proof (waiting_ext _ _ _ EL') as W'. split.
    + rewrite Hdel, HP. destruct d; simpl in *; rewrite W, W'; solve_Permutation.
    + intros Hall. by rewrite Hdr, Hm.
  - destruct IH as (L & dr & F & HP & Hdr); try done.
    destruct (change_mtu_flow _ _ _ d m F) as (r' & v & E' & Hv). rewrite E in E'.
    injection E' as _ ->. exists L, dr. split; [by apply flow_settings|]. by vsimpl.
  - destruct IH as (L & dr & F & HP & Hdr); try done.
    destruct (set_config_flow s1 d up base mb mi) as (r' & v & E' & Hv). rewrite E in E'.
    injection E' as _ ->. exists L, dr. split; [by apply flow_settings|]. by vsimpl.
Qed.

(** C10. Frames are neither lost, duplicated nor altered between the devices: the
    frames sent so far, each padded to the minimal length and addressed to the
    other device, are the ones delivered, the ones waiting in a receive queue
    and the ones dropped for want of memory, and with memory none is dropped. *)
Theorem veth_frames_conserved sent s :
  in_use mem_ok fresh_data pool_size sent s →
  ∃ L dropped, lists_ok (heap s) (qhead s) L ∧
    sent ≡ₚ delivered s ++ dropped ++ waiting L false ++ waiting L true ∧
    ((∀ t, mem_ok t = true) → dropped = []).
Proof.
  intros (L & dr & F & HP & Hdr)%served_flow. exists L, dr. by split; [apply F|].
Qed.

(** C14. Buffers are conserved by any transmissions of at most 1500 bytes on a running
    queue, polls and changes of MTU and configuration, in NAPI mode: every buffer is on
    exactly one list, its owner's
    pool or the receive queue of the other device, [pool_size] of each device;
    no lock is held between calls, the queue of a device is stopped exactly
    when its pool is empty, and a device with frames waiting has its poll
    scheduled. *)
Theorem veth_buffers_conserved sent s :
  in_use mem_ok fresh_data pool_size sent s →
  ∃ L, lists_ok (heap s) (qhead s) L ∧ ∀ d,
    (length (L (Pool d)) + length (L (Rx (negb d))))%nat = pool_size ∧
    lock (get_dev s d) = false ∧
    (stopped (get_dev s d) = true ↔ ppool (get_dev s d) = None) ∧
    (rx_queue (get_dev s d) ≠ None → napi_scheduled (get_dev s d) = true) ∧ skbs s = ∅.
Proof.
  intros (L & dr & F & _ & _)%served_flow. exists L. split; [apply F|]. intros d.
  pose proof (lo_chain _ _ _ (fl_lists _ _ _ F)) as Hc.
  pose proof (chain_head_nil _ _ _ (Hc (Pool d))) as Hp. pose proof (chain_head_nil _ _ _ (Hc (Rx d))) as Hr.
  cbn [qhead] in *. split_and!; [apply F|apply F| | |apply F].
  - by rewrite (fl_stopped _ _ _ F), bool_decide_eq_true, Hp.
  - rewrite Hr. apply F.
Qed.

(** C11. In NAPI mode, after any transmissions of at most 1500 bytes on a running queue,
    polls and changes of MTU and configuration, none of these calls faults or blocks: a
    transmission of at most 1500 bytes on a running queue succeeds, a poll returns the
    number of frames it took, within its budget, and changing MTU or configuration
    returns. *)
Theorem veth_calls_succeed sent s d :
  in_use mem_ok fresh_data pool_size sent s →
  (∀ x bs, stopped (get_dev s d) = false → (length bs ≤ Z.to_nat ETH_DATA_LEN)%nat →
    ∃ s', dummveth_xmit mem_ok true 0 x bs d s = Ret (0, s')) ∧
  (∀ budget, 0 ≤ budget → ∃ k s', dummveth_poll mem_ok d budget s = Ret (k, s') ∧ 0 ≤ k ≤ budget ∧
    (k < budget → rx_queue (get_dev s' d) = None)) ∧
  (∀ m, ∃ r s', dummveth_change_mtu d m s = Ret (r, s')) ∧
  (∀ up base mb mi, ∃ r s', dummveth_set_config d up base mb mi s = Ret (r, s')).
Proof.
  intros (L & dr & F & _ & _)%served_flow. split_and!.
  - intros x bs Hst Hlen. destruct (xmit_flow mem_ok _ d x bs s L F Hst Hlen) as (s' & L' & E & _). eauto.
  - intros b Hb. destruct (poll_flow mem_ok _ d b s L F Hb) as (s' & L' & got & lost & E & F' & EL & _).
    eexists _, s'. split; [exact E|]. split; [lia|]. intros Hk.
    pose proof (lo_chain _ _ _ (fl_lists _ _ _ F') (Rx d)) as Hc.
    apply (chain_head_nil _ _ _ Hc). rewrite EL. apply drop_ge. lia.
  - intros m. destruct (change_mtu_flow _ _ _ d m F) as (r & v & E & _). eauto.
  - intros up base mb mi. destruct (set_config_flow s d up base mb mi) as (r & v & E & _). eauto.
Qed.

(** C15. Everything sent arrives: with memory, polling both devices with a budget
    no smaller than their pools leaves exactly the frames sent delivered, and
    both queues running. *)
Theorem veth_delivers_all sent s budget :
  in_use mem_ok fresh_data pool_size sent s → (∀ t, mem_ok t = true) → Z.of_nat pool_size ≤ budget →
  ∃ k0 k1 s0 s', dummveth_poll mem_ok false budget s = Ret (k0, s0) ∧
    dummveth_poll mem_ok true budget s0 = Ret (k1, s') ∧ delivered s' ≡ₚ sent ∧
    ∀ d, stopped (get_dev s' d) = false.
Proof.
  intros (L & dr & F & HP & Hdr)%served_flow Hall Hb. rewrite (Hdr Hall) in HP.
  destruct (poll_flow mem_ok _ false budget s L F ltac:(lia))
    as (s0 & L0 & got0 & lost0 & E0 & F0 & EL0 & EL0' & Hdel0 & W0 & Hm0).
  destruct (poll_flow mem_ok _ true budget s0 L0 F0 ltac:(lia))
    as (s1 & L1 & got1 & lost1 & E1 & F1 & EL1 & EL1' & Hdel1 & W1 & Hm1).
  rewrite (Hm0 Hall) in W0. rewrite (Hm1 Hall) in W1. cbn [negb] in *.
  pose proof (fl_count _ _ _ F true) as C0. pose proof (fl_count _ _ _ F0 false) as C1.
  cbn [negb] in C0, C1. rewrite drop_ge in EL0, EL1 by lia. rewrite EL0 in EL1'.
  pose proof (waiting_ext _ _ _ EL0') as Wn.
  assert (Z0 : waiting L0 false = []) by (unfold waiting; by rewrite EL0).
  assert (Z1 : waiting L1 true = []) by (unfold waiting; by rewrite EL1).
  eexists _, _, s0, s1. split; [exact E0|]. split; [exact E1|]. split.
  - rewrite HP, W0, <-Wn, W1, Z0, Z1, Hdel1, Hdel0. simpl. solve_Permutation.
  - intros d. rewrite (fl_stopped _ _ _ F1). apply bool_decide_eq_false_2. intros Hnil.
    pose proof (fl_count _ _ _ F1 d) as C2. rewrite Hnil in C2.
    destruct d; simpl in C2; rewrite ?EL1, ?EL1' in C2; simpl in C2; lia.
Qed.

(** A device that is taken down and up again while its buffers are all with
    its peer deadlocks: opening it starts the queue whatever the pool holds,
    and a transmission that finds the pool empty reports success but keeps the
    lock of the device, so that the next one never returns. *)
Theorem veth_reopen_deadlocks sent s d x bs :
  in_use mem_ok fresh_data pool_size sent s → ppool (get_dev s d) = None →
  ∃ s1 s2, (dummveth_stop true d;; dummveth_open true d) s = Ret (0, s1) ∧
    stopped (get_dev s1 d) = false ∧ dummveth_xmit mem_ok true 0 x bs d s1 = Ret (0, s2) ∧
    ∀ y bs', dummveth_xmit mem_ok true 0 y bs' d s2 = Fault Deadlock.
Proof.
  intros (L & dr & F & _ & _)%served_flow Hp. pose proof (fl_lock _ _ _ F d) as Hl.
  unfold dummveth_stop, netif_stop_queue. cbn [when]. rewrite cm_bind_assoc. vbind.
  rewrite cm_bind_assoc. do 2 vbind. set (s0 := set_dev _ _ _).
  destruct (open_run d s0) as [a ->]. eexists _, _. split; [done|]. split; [by vsimpl|].
  set (s1 := set_dev _ _ _).
  assert (H1 : lock (get_dev s1 d) = false ∧ ppool (get_dev s1 d) = None) by (subst s1 s0; by vsimpl).
  destruct H1 as [Hl1 Hp1]. split; [|intros y bs'].
  - unfold dummveth_xmit, xmit_with. do 2 vbind. rewrite hw_tx_long. unfold loop_back.
    rewrite cm_bind_assoc.
    unfold dummveth_get_tx_buffer. rewrite cm_bind_assoc. vbind. rewrite cm_bind_assoc. vbind.
    rewrite Hp1. do 2 (erewrite cm_bind_ret; [|reflexivity]; cbv beta). done.
  - unfold dummveth_xmit, xmit_with. do 2 vbind. rewrite hw_tx_long. unfold loop_back.
    rewrite cm_bind_assoc.
    apply cm_bind_fault. unfold dummveth_get_tx_buffer. apply cm_bind_fault.
    unfold spin_lock. vbind. done.
Qed.

(** A buffer has room for the payload of a frame but not for its header: a
    frame of more than 1500 bytes, which with the header the MTU of 1500 allows,
    is copied past the end of the buffer. *)
Theorem veth_full_frame_overflows sent s d x bs :
  in_use mem_ok fresh_data pool_size sent s → stopped (get_dev s d) = false →
  ETH_DATA_LEN < Z.of_nat (length bs) ≤ ETH_HLEN + ETH_DATA_LEN →
  dummveth_xmit mem_ok true 0 x bs d s = Fault OutOfBounds.
Proof.
  intros (L & dr & F & _ & _)%served_flow Hst Hlen.
  destruct (flow_pool _ _ _ _ F Hst) as (y & n & l & EL & Hp & Hy & _).
  destruct (lo_buf _ _ _ (fl_lists _ _ _ F) (Pool d) y n) as [Hbuf _];
    [rewrite EL; apply list_elem_of_here|].
  pose proof (fl_lock _ _ _ F d) as Hl. pose proof (padded_length bs) as Hpl.
  unfold dummveth_xmit, xmit_with. do 2 vbind. rewrite hw_tx_long. unfold loop_back. apply cm_bind_fault.
  set (s0 := set_dev _ _ _).
  destruct (get_tx_buffer_run d s0 y n) as (s1 & E1 & _ & Hh1 & _); [by subst s0; vsimpl..|].
  rewrite (cm_bind_ret _ _ _ _ _ E1). cbv beta iota.
  rewrite (cm_bind_ret _ _ _ _ _ (pkt_read_run (Some y) s1 y n eq_refl
    ltac:(rewrite Hh1; subst s0; by vsimpl))). cbv beta.
  apply cm_bind_fault. unfold lift_outcome, memcpy. unfold ETH_DATA_LEN, ETH_HLEN in *.
  by rewrite decide_False by lia.
Qed.
End in_use.
