(* ===== verification/VethOps.v ===== *)
(** * kdev-net-veth/kernel: the other operations

    Headers, configuration, transmit timeouts without NAPI, and unloading. *)

From Stdlib Require Import ZArith Lia.
From stdpp Require Import base tactics numbers list gmap relations.
From S2P Require Import Prelude Heap Packet Veth VethFlow.
Import Veth.
Local Open Scope Z_scope.

(** ** Headers *)

(** The address of the other end: the last bit flipped. *)
Definition flip_addr (a : list Z) : list Z :=
  take 5 a ++ ((λ b, u8 (Z.lxor b 1)) <$> drop 5 a).

Lemma flip_dest_run a p : length a = 6%nat → flip_dest (a ++ p) = Ret (flip_addr a ++ p).
Proof.
  intros Ha. by destruct a as [|a0 [|a1 [|a2 [|a3 [|a4 [|a5 []]]]]]].
Qed.

Lemma bswap16_bytes t : fits 16 t →
  u8 (bswap16 t) = t / 256 ∧ u8 (bswap16 t / 256) = t mod 256.
Proof.
  unfold bswap16, fits, wrap. change (2 ^ 8) with 256. change (2 ^ 16) with 65536. intros H.
  assert (0 ≤ t / 256 < 256) by (split; [apply Z.div_pos|apply Z.div_lt_upper_bound]; lia).
  rewrite (Z.mod_small (t / 256)) by lia. rewrite Z.add_comm. split.
  - rewrite Z.mod_add by lia. apply Z.mod_small. lia.
  - rewrite Z.div_add, (Z.div_small (t / 256)), Z.add_0_l, Z.mod_mod by lia. done.
Qed.

(** A header is built for the device's peer: in front of the data come the
    destination, the given one or the device's own with its last bit flipped,
    the source, and the protocol in network order; the header length is
    returned. *)
Theorem header_layout room skb_data addr type daddr saddr :
  length room = 14%nat → length (default addr daddr) = 6%nat →
  length (default addr saddr) = 6%nat → fits 16 type →
  dummveth_header room skb_data addr type daddr saddr =
  Ret (14, flip_addr (default addr daddr) ++ default addr saddr ++ [type / 256; type mod 256] ++ skb_data).
Proof.
  intros Hr Hd Hs Ht. unfold dummveth_header.
  assert (∃ a b c, room = a ++ b ++ c ∧ length a = 6%nat ∧ length b = 6%nat ∧ length c = 2%nat)
    as (a & b & c & -> & La & Lb & Lc).
  { exists (take 6 room), (take 6 (drop 6 room)), (drop 6 (drop 6 room)).
    rewrite !take_drop, !length_take, !length_drop. split_and!; [done|lia..]. }
  destruct (bswap16_bytes type Ht) as [Hhi Hlo].
  rewrite wr16_bytes by (unfold data_end; rewrite ?length_app; lia). rewrite Hhi, Hlo.
  replace ((a ++ b ++ c) ++ skb_data) with ((a ++ b) ++ c ++ skb_data) by by rewrite <-!app_assoc.
  replace 12 with (Z.of_nat (length (a ++ b))) by (rewrite length_app; lia).
  rewrite wr_bytes_mid by (simpl; lia). cbn [mbind outcome_bind]. rewrite <-app_assoc.
  replace 6 with (Z.of_nat (length a)) by lia. rewrite wr_bytes_mid by lia. cbn [mbind outcome_bind].
  rewrite wr_bytes_prefix by lia. cbn [mbind outcome_bind].
  by rewrite flip_dest_run by done.
Qed.

Lemma header_layout_witness :
  dummveth_header (replicate 14 0) [1; 2] [86; 68; 69; 84; 72; 48] 2048 None None =
  Ret (14, flip_addr [86; 68; 69; 84; 72; 48] ++ [86; 68; 69; 84; 72; 48] ++ [8; 0] ++ [1; 2]).
Proof. apply (header_layout (replicate 14 0) [1; 2] _ 2048 None None); done. Defined.

(** ** Configuration *)

(** The MTU of a device stays within what the checks allow: a change outside
    68 to 1500 is refused and changes nothing, one within it is made. *)
Theorem change_mtu_bounds d m s :
  lock (get_dev s d) = false →
  (68 ≤ m ≤ 1500 ∧ ∃ s', dummveth_change_mtu d m s = Ret (0, s') ∧
     get_dev s' d = with_mtu m (get_dev s d)) ∨
  (¬ (68 ≤ m ≤ 1500) ∧ dummveth_change_mtu d m s = Ret (- EINVAL, s)).
Proof.
  intros Hl. unfold dummveth_change_mtu.
  destruct (Z.ltb_spec m 68); [right; split; [lia|done]|].
  destruct (Z.gtb_spec m 1500); [right; split; [lia|done]|]. left. split; [lia|]. cbn [orb].
  do 3 vbind. eexists. split; [done|]. vsimpl. by rewrite <-Hl.
Qed.

Lemma change_mtu_bounds_witness :
  (∃ s', dummveth_change_mtu false 1500 no_devices = Ret (0, s') ∧
     get_dev s' false = with_mtu 1500 zero_device) ∧
  dummveth_change_mtu false 1501 no_devices = Ret (- EINVAL, no_devices).
Proof.
  split.
  - destruct (change_mtu_bounds false 1500 no_devices eq_refl) as [[_ H]|[[] _]]; [exact H|lia].
  - destruct (change_mtu_bounds false 1501 no_devices eq_refl) as [[H _]|[_ H]]; [lia|exact H].
Defined.

(** Reconfiguring: a running device refuses, a changed I/O address is not
    supported, and otherwise the interrupt line becomes the one asked for, with
    nothing else changed. *)
Theorem set_config_cases d up base mb mi s :
  (up = true ∧ dummveth_set_config d up base mb mi s = Ret (- EBUSY, s)) ∨
  (up = false ∧ mb ≠ base ∧ dummveth_set_config d up base mb mi s = Ret (- EOPNOTSUPP, s)) ∨
  (up = false ∧ mb = base ∧ ∃ s', dummveth_set_config d up base mb mi s = Ret (0, s') ∧
     get_dev s' d = with_irq mi (get_dev s d) ∧ get_dev s' (negb d) = get_dev s (negb d)).
Proof.
  unfold dummveth_set_config. destruct up; [by left|right].
  destruct (Z.eqb_spec mb base) as [->|]; [right|by left]. cbn [negb]. do 2 (split; [done|]). vbind.
  destruct (Z.eqb_spec mi (irq (get_dev s d))) as [->|]; cbn [negb when].
  - exists s. split; [done|]. split; [by destruct (get_dev s d)|done].
  - vbind. eexists. split; [done|]. by vsimpl.
Qed.

(** ** Transmit timeouts without NAPI *)

(** Without NAPI the interrupt of a completed transmission frees the socket
    buffer but keeps the pointer to it, and a transmit timeout raises that
    interrupt again: with no new transmission in between, the buffer is freed a
    second time. *)
Theorem timeout_double_free mem_ok fresh_data pool_size d s x :
  lock (get_dev s d) = false → Z.land (status (get_dev s d)) DUMMVETH_RX_INTR = 0 →
  Z.land (status (get_dev s d)) DUMMVETH_TX_INTR ≠ 0 →
  skb (get_dev s d) = Some x → x ∈ skbs s →
  ∃ s', dummveth_regular_interrupt mem_ok d s = Ret (tt, s') ∧
    dummveth_tx_timeout mem_ok fresh_data false pool_size d s' = Fault BadFree.
Proof.
  intros Hl Hrx Htx Hskb Hx. eexists. split.
  - unfold dummveth_regular_interrupt. do 3 vbind. rewrite Hrx. cbn [Z.eqb negb].
    erewrite cm_bind_ret; [|reflexivity]. cbv beta.
    rewrite (proj2 (Z.eqb_neq _ 0) Htx). cbn [negb when].
    rewrite cm_bind_assoc. vbind. rewrite cm_bind_assoc. vbind. rewrite cm_bind_assoc. vbind.
    rewrite Hskb. erewrite cm_bind_ret.
    2: { unfold dev_kfree_skb. vsimpl. by rewrite decide_True. }
    cbv beta. vbind. reflexivity.
  - unfold dummveth_tx_timeout. vbind. apply cm_bind_fault.
    unfold dummveth_interrupt, dummveth_regular_interrupt. do 3 vbind.
    erewrite cm_bind_ret; [|reflexivity]. cbv beta.
    change (negb (Z.land (Z.lor 0 DUMMVETH_TX_INTR) DUMMVETH_TX_INTR =? 0)) with true. cbn [when].
    apply cm_bind_fault. do 3 vbind. rewrite Hskb. unfold dev_kfree_skb. vsimpl.
    rewrite decide_False; [done|set_solver].
Qed.

(** A device that has transmitted and waits for the interrupt. *)
Definition transmitting : sys :=
  set_skbs (set_dev no_devices false (with_status DUMMVETH_TX_INTR (with_skb (Some 1%positive) zero_device)))
    {[1%positive]}.

Lemma timeout_double_free_witness :
  ∃ s', dummveth_regular_interrupt (λ _, true) false transmitting = Ret (tt, s') ∧
    dummveth_tx_timeout (λ _, true) (λ _, replicate 1500 0) false 8 false s' = Fault BadFree.
Proof. apply (timeout_double_free _ _ _ _ _ 1%positive); done || set_solver. Defined.

(** ** Unloading *)

Lemma kfree_run s x n :
  heap s !! x = Some n → kfree (Some x) s = Ret (tt, set_heap s (delete x (heap s))).
Proof. intros H. unfold kfree. by rewrite (hfree_Some _ _ _ H). Qed.

Definition delete_all (xs : list loc) (h : gmap loc packet) : gmap loc packet :=
  foldl (λ h x, delete x h) h xs.

Lemma delete_all_in xs h x : x ∈ xs → delete_all xs h !! x = None.
Proof.
  unfold delete_all. revert h. induction xs as [|y xs IH]; intros h; [by intros ?%elem_of_nil|].
  intros [-> | Hx]%elem_of_cons; simpl; [|by apply IH].
  assert (∀ h : gmap loc packet, h !! y = None → foldl (λ h x, delete x h) h xs !! y = None) as K.
  { clear. induction xs as [|z xs IH]; intros h Hh; [done|]. simpl. apply IH.
    rewrite lookup_delete_None. auto. }
  apply K, lookup_delete_eq.
Qed.

Lemma delete_all_notin xs h x : x ∉ xs → delete_all xs h !! x = h !! x.
Proof.
  unfold delete_all. revert h. induction xs as [|y xs IH]; intros h Hx; [done|].
  apply not_elem_of_cons in Hx as [Hne Hx]. simpl. rewrite IH by done. by apply lookup_delete_ne.
Qed.

Lemma drain_pool_run d l : ∀ fuel s,
  chain (heap s) (ppool (get_dev s d)) l → (length l < fuel)%nat →
  ∃ s', drain_pool fuel d s = Ret (tt, s') ∧ ppool (get_dev s' d) = None ∧
    get_dev s' (negb d) = get_dev s (negb d) ∧ heap s' = delete_all l.*1 (heap s).
Proof.
  induction l as [|[x n] l IH]; intros [|fuel] s Hc Hf; simpl in Hf; try lia; cbn [drain_pool]; vbind.
  - rewrite Hc. by exists s.
  - pose proof (chain_NoDup _ _ _ Hc) as Hnd. destruct Hc as (Hp & Hx & Hc). rewrite Hp. vbind. vbind.
    erewrite cm_bind_ret; [|eapply kfree_run; vsimpl; exact Hx]. cbv beta.
    apply NoDup_cons in Hnd as [Hxl _]. set (s1 := set_heap _ _).
    destruct (IH fuel s1) as (s2 & -> & Hp2 & Ho2 & Hh2); [|lia|].
    { subst s1. vsimpl. by apply chain_delete_notin. }
    exists s2. split; [done|]. rewrite Ho2, Hh2. subst s1. vsimpl. by split_and!.
Qed.

Lemma teardown_pool_run d l s :
  chain (heap s) (ppool (get_dev s d)) l →
  ∃ s', dummveth_teardown_pool d s = Ret (tt, s') ∧ ppool (get_dev s' d) = None ∧
    get_dev s' (negb d) = get_dev s (negb d) ∧ heap s' = delete_all l.*1 (heap s).
Proof.
  intros Hc. apply drain_pool_run; [done|]. apply chain_length in Hc. lia.
Qed.

Lemma cleanup_dev_run d l s :
  chain (heap s) (ppool (get_dev s d)) l →
  ∃ s', cleanup_dev d Registered s = Ret (Freed, s') ∧
    get_dev s' (negb d) = get_dev s (negb d) ∧ heap s' = delete_all l.*1 (heap s).
Proof.
  intros (s' & E & _ & Ho & Hh)%teardown_pool_run. exists s'. split; [|done]. unfold cleanup_dev.
  vbind. by rewrite (cm_bind_ret _ _ _ _ _ E).
Qed.

(** Unloading frees the pools and nothing else: every buffer in a pool is
    freed, and every one that still waits in a receive queue stays allocated
    for good. *)
Theorem cleanup_leaks_queued mem_ok fresh_data pool_size sent s :
  (∀ t, Z.of_nat (length (fresh_data t)) = ETH_DATA_LEN) → (0 < pool_size)%nat →
  (∀ t, (t < 2 * pool_size)%nat → mem_ok t = true) →
  in_use mem_ok fresh_data pool_size sent s →
  ∃ L s', lists_ok (heap s) (qhead s) L ∧ dummveth_cleanup_module Registered Registered s = Ret ((Freed, Freed), s') ∧ ∀ d,
    (∀ x n, (x, n) ∈ L (Pool d) → heap s' !! x = None) ∧
    (∀ x n, (x, n) ∈ L (Rx d) → heap s' !! x = Some n).
Proof.
  intros Hf Hps Hm Hu. destruct (served_flow _ _ _ Hf Hps Hm _ _ Hu) as (L & dr & F & _).
  destruct (fl_lists _ _ _ F) as [Hc Hd _ _]. exists L.
  unfold dummveth_cleanup_module.
  destruct (cleanup_dev_run false (L (Pool false)) s (Hc (Pool false))) as (s1 & E1 & Ho1 & Hh1).
  rewrite (cm_bind_ret _ _ _ _ _ E1). cbv beta. cbn [negb] in Ho1.
  destruct (cleanup_dev_run true (L (Pool true)) s1) as (s2 & E2 & _ & Hh2).
  { rewrite Hh1, Ho1. eapply chain_frame; [|exact (Hc (Pool true))].
    intros x Hx. apply delete_all_notin. intros Hx'. by pose proof (Hd _ _ _ Hx Hx'). }
  exists s2. split; [apply F|]. split.
  { by rewrite (cm_bind_ret _ _ _ _ _ E2). }
  rewrite Hh2, Hh1. intros d. split; intros x n Hin.
  - apply elem_keys in Hin. destruct d; [by apply delete_all_in|].
    rewrite delete_all_notin; [by apply delete_all_in|]. intros Hx'. by pose proof (Hd _ _ _ Hin Hx').
  - pose proof (elem_keys _ _ _ Hin) as Hk.
    rewrite !delete_all_notin; [by eapply chain_elem; [apply (Hc (Rx d))|]|..];
      intros Hx'; by pose proof (Hd _ _ _ Hk Hx').
Qed.

(** ** The hypotheses hold *)

(** Memory is always there, and a new buffer is zeroed. *)
Definition plenty (n : nat) : bool := true.
Definition zeroed (n : nat) : list Z := replicate 1500 0.

Lemma zeroed_length t : Z.of_nat (length (zeroed t)) = ETH_DATA_LEN.
Proof. unfold zeroed. by rewrite length_replicate. Qed.

(** One buffer each, and one frame sent. *)
Lemma in_use_example :
  ∃ s, in_use plenty zeroed 1 [(true, padded [7; 8; 9])] s ∧ ppool (get_dev s false) = None ∧
    stopped (get_dev s true) = false ∧ ∃ L x n, flow 1 s L ∧ L (Rx true) = [(x, n)].
Proof.
  destruct (bring_up_flow plenty zeroed 1 zeroed_length) as (s0 & L0 & E0 & F0 & Hdel & W0 & W1);
    [lia|done|].
  assert (Hlen : (length [7; 8; 9] ≤ Z.to_nat ETH_DATA_LEN)%nat) by (unfold ETH_DATA_LEN; cbn [length]; lia).
  assert (Hst : ∀ d, stopped (get_dev s0 d) = false).
  { intros d. rewrite (fl_stopped _ _ _ F0). apply bool_decide_eq_false_2. intros Hn.
    pose proof (fl_count _ _ _ F0 d) as C. rewrite Hn in C. apply fmap_nil_inv in W0, W1.
    destruct d; simpl in C; [rewrite W0 in C|rewrite W1 in C]; done. }
  destruct (xmit_flow plenty 1 false 1%positive [7; 8; 9] s0 L0 F0 (Hst false)) as
    (s1 & L1 & E1 & F1 & W & W' & _); [done|].
  exists s1. split; [exists s0; split; [done|]; apply (served_xmit _ _ [] s0 false 1%positive [7; 8; 9] 0);
    eauto using served_nil|].
  cbn [negb] in *. rewrite W1 in W. rewrite W0 in W'.
  assert (Hl : length (L1 (Rx true)) = 1%nat)
    by (rewrite <-(length_fmap (λ xn, (true, frame xn.2))); change (length (waiting L1 true) = 1%nat); by rewrite W).
  apply fmap_nil_inv in W'. pose proof (fl_count _ _ _ F1 false) as C. cbn [negb] in C. split_and!.
  - apply (chain_head_nil _ _ _ (lo_chain _ _ _ (fl_lists _ _ _ F1) (Pool false))).
    apply length_zero_iff_nil. lia.
  - rewrite (fl_stopped _ _ _ F1). apply bool_decide_eq_false_2. intros Hn.
    pose proof (fl_count _ _ _ F1 true) as C'. rewrite Hn in C'. cbn [negb] in C'. by rewrite W' in C'.
  - destruct (L1 (Rx true)) as [|[x n] [|]] eqn:EL; try done. by exists L1, x, n.
Qed.

Lemma loads_one t : (t < 2 * 1)%nat → plenty t = true.
Proof. done. Qed.

Lemma veth_frames_conserved_witness :
  ∃ s L dropped, lists_ok (heap s) (qhead s) L ∧
    [(true, padded [7; 8; 9])] ≡ₚ delivered s ++ dropped ++ waiting L false ++ waiting L true ∧
    dropped = [].
Proof.
  destruct in_use_example as (s & Hu & _).
  destruct (veth_frames_conserved plenty zeroed 1 zeroed_length Nat.lt_0_1 loads_one _ s Hu)
    as (L & dr & Hlo & HP & Hdr).
  exists s, L, dr. split; [exact Hlo|]. split; [exact HP|]. apply Hdr. reflexivity.
Defined.

Lemma veth_buffers_conserved_witness :
  ∃ s (L : buffers), ∀ d, (length (L (Pool d)) + length (L (Rx (negb d))))%nat = 1%nat ∧ lock (get_dev s d) = false.
Proof.
  destruct in_use_example as (s & Hu & _).
  destruct (veth_buffers_conserved plenty zeroed 1 zeroed_length Nat.lt_0_1 loads_one _ s Hu) as (L & _ & H).
  exists s, L. intros d. destruct (H d) as (Hc & Hl & _). split; [exact Hc|exact Hl].
Defined.

Lemma veth_calls_succeed_witness :
  ∃ s s', dummveth_xmit plenty true 0 2%positive [1] true s = Ret (0, s').
Proof.
  destruct in_use_example as (s & Hu & _ & Hst & _). exists s.
  destruct (veth_calls_succeed plenty zeroed 1 zeroed_length Nat.lt_0_1 loads_one _ s true Hu) as [H _].
  apply (H 2%positive [1] Hst). unfold ETH_DATA_LEN. cbn [length]. lia.
Defined.

Lemma veth_delivers_all_witness :
  ∃ s k0 k1 s0 s', dummveth_poll plenty false 64 s = Ret (k0, s0) ∧
    dummveth_poll plenty true 64 s0 = Ret (k1, s') ∧ delivered s' ≡ₚ [(true, padded [7; 8; 9])].
Proof.
  destruct in_use_example as (s & Hu & _).
  destruct (veth_delivers_all plenty zeroed 1 zeroed_length Nat.lt_0_1 loads_one _ s 64 Hu)
    as (k0 & k1 & s0 & s' & E0 & E1 & HP & _); [reflexivity|lia|].
  exists s, k0, k1, s0, s'. split; [exact E0|]. split; [exact E1|exact HP].
Defined.

Lemma veth_reopen_deadlocks_witness :
  ∃ s1 s2, dummveth_xmit plenty true 0 2%positive [1] false s1 = Ret (0, s2) ∧
    dummveth_xmit plenty true 0 3%positive [2] false s2 = Fault Deadlock.
Proof.
  destruct in_use_example as (s & Hu & Hp & _).
  destruct (veth_reopen_deadlocks plenty zeroed 1 zeroed_length Nat.lt_0_1 loads_one _ s false
    2%positive [1] Hu Hp) as (s1 & s2 & _ & _ & E & H).
  exists s1, s2. split; [exact E|apply H].
Defined.

Lemma veth_full_frame_overflows_witness :
  ∃ s, dummveth_xmit plenty true 0 2%positive (replicate 1514 0) true s = Fault OutOfBounds.
Proof.
  destruct in_use_example as (s & Hu & _ & Hst & _). exists s.
  apply (veth_full_frame_overflows plenty zeroed 1 zeroed_length Nat.lt_0_1 loads_one _ s true
    2%positive (replicate 1514 0) Hu Hst).
  rewrite length_replicate. unfold ETH_DATA_LEN, ETH_HLEN. lia.
Defined.

Lemma cleanup_leaks_queued_witness :
  ∃ s (L : buffers) s', dummveth_cleanup_module Registered Registered s = Ret ((Freed, Freed), s') ∧ ∀ x n, (x, n) ∈ L (Rx true) → heap s' !! x = Some n.
Proof.
  destruct in_use_example as (s & Hu & _).
  destruct (cleanup_leaks_queued plenty zeroed 1 _ s zeroed_length Nat.lt_0_1 loads_one Hu)
    as (L & s' & _ & E & H).
  exists s, L, s'. split; [exact E|apply (H true)].
Defined.
