(* ===== verification/Kdrivers.v ===== *)
(** * kneigh and kxdp/generic: drivers made from the device pair

    Both modules repeat the code of kdev-net-veth/kernel/core.c with their own
    prefix: the pools and queues, the NAPI interrupt, the poll, the transmit
    timeout, setting up and unloading are the same text, and are the same
    definitions here. What is their own is how a frame is looked at before it is
    looped back: kneigh resolves the neighbour the frame is for, and both read
    the ports of the frame for the log. *)

From Stdlib Require Import ZArith Lia.
From stdpp Require Import base tactics numbers list gmap relations.
From S2P Require Import Prelude Heap Packet Veth VethFlow.
Import Veth.
Local Open Scope Z_scope.

Definition IPPROTO_UDP : Z := 17.
Definition IPPROTO_TCP : Z := 6.

(** The ports of a UDP or TCP frame with a plain IPv4 header, as they are logged;
    for other protocols the variables keep no value. *)
Definition log_ports (buf : list Z) : outcome (option (Z * Z)) :=
  protocol ← rd8 buf 23;
  if (protocol =? IPPROTO_UDP) || (protocol =? IPPROTO_TCP) then
    sport ← rd16 buf 34;
    dport ← rd16 buf 36;
    Ret (Some (bswap16 sport, bswap16 dport))
  else Ret None.

(** The address as [memcpy] of a string and a digit. *)
Definition open_with (name : list Z) (d : dev_id) : V Z :=
  dev_upd d (with_dev_addr (name ++ [if d then 49 else 48]));;
  dev_upd d (λ v, with_napi (napi_scheduled v) true v);;
  netif_wake_queue d;;
  mret 0.

Definition stop_always (d : dev_id) : V Z :=
  netif_stop_queue d;;
  dev_upd d (λ v, with_napi (napi_scheduled v) false v);;
  mret 0.

Module Kneigh.
Section driver.
Context (mem_ok : nat -> bool) (fresh_data : nat -> list Z).
Context (lockup : Z) (pool_size : nat).
(** The kernel's neighbour table: whether it has an entry for an address at a
    device, and whether one can be created. *)
Context (neigh_lookup neigh_create : dev_id -> Z -> bool).

Definition kneigh_setup_pool := dummveth_setup_pool mem_ok fresh_data pool_size.
Definition kneigh_teardown_pool := dummveth_teardown_pool.
Definition kneigh_tx_reserve_buffer := dummveth_get_tx_buffer.
Definition kneigh_tx_release_buffer := dummveth_release_buffer.
Definition kneigh_rx_prod_buf := dummveth_enqueue_buf.
Definition kneigh_rx_cons_buf := dummveth_dequeue_buf.
Definition kneigh_rx_ints := dummveth_rx_ints.
Definition kneigh_napi_interrupt := dummveth_napi_interrupt.
Definition kneigh_poll := dummveth_poll mem_ok.

(** [__ipv4_neigh_lookup], and [neigh_create] when there is none; [false] when
    that fails. The entry is released after it is logged. *)
Definition got_neigh (d : dev_id) (daddr : Z) : bool :=
  neigh_lookup d daddr || neigh_create d daddr.

Definition kneigh_hw_tx (buf : list Z) (len : Z) (d : dev_id) : V unit :=
  if len <? 14 + 20 then mret tt
  else
    daddr ← lift_outcome (rd32 buf 30);
    if negb (got_neigh d daddr) then mret tt
    else
      lift_outcome (rd_bytes buf 0 12);;
      lift_outcome (log_ports buf);;
      loop_back mem_ok true lockup buf len d.

Definition kneigh_xmit := xmit_with kneigh_hw_tx.

(** "KNEI0" and the digit. *)
Definition kneigh_open := open_with [75; 78; 69; 73; 48].
Definition kneigh_stop := stop_always.
Definition kneigh_tx_timeout := dummveth_tx_timeout mem_ok fresh_data true pool_size.
Definition kneigh_setup := dummveth_setup mem_ok fresh_data pool_size.
Definition kneigh_init_module := dummveth_init_module.
Definition kneigh_cleanup_module := dummveth_cleanup_module.
End driver.
End Kneigh.

Module KxdpGeneric.
Section driver.
Context (mem_ok : nat -> bool) (fresh_data : nat -> list Z).
Context (lockup : Z) (pool_size : nat).

Definition kxdp_setup_pool := dummveth_setup_pool mem_ok fresh_data pool_size.
Definition kxdp_teardown_pool := dummveth_teardown_pool.
Definition kxdp_tx_reserve_buffer := dummveth_get_tx_buffer.
Definition kxdp_tx_release_buffer := dummveth_release_buffer.
Definition kxdp_rx_prod_buf := dummveth_enqueue_buf.
Definition kxdp_rx_cons_buf := dummveth_dequeue_buf.
Definition kxdp_rx_ints := dummveth_rx_ints.
Definition kxdp_napi_interrupt := dummveth_napi_interrupt.
Definition kxdp_poll := dummveth_poll mem_ok.

Definition kxdp_hw_tx (buf : list Z) (len : Z) (d : dev_id) : V unit :=
  if len <? 14 + 20 then mret tt
  else
    lift_outcome (log_ports buf);;
    loop_back mem_ok true lockup buf len d.

Definition kxdp_xmit := xmit_with kxdp_hw_tx.

(** "KXDP0" and the digit. *)
Definition kxdp_open := open_with [75; 88; 68; 80; 48].
Definition kxdp_stop := stop_always.
Definition kxdp_tx_timeout := dummveth_tx_timeout mem_ok fresh_data true pool_size.
Definition kxdp_setup := dummveth_setup mem_ok fresh_data pool_size.
Definition kxdp_init_module := dummveth_init_module.
Definition kxdp_cleanup_module := dummveth_cleanup_module.
End driver.
End KxdpGeneric.

(** ** The drivers are the device pair *)

Lemma log_ports_total buf : 38 ≤ data_end buf → ∃ r, log_ports buf = Ret r.
Proof.
  intros H. unfold log_ports.
  destruct (rd8_in buf 23) as (v & -> & _); [lia|]. cbn [mbind outcome_bind].
  destruct ((v =? IPPROTO_UDP) || (v =? IPPROTO_TCP)); [|eauto].
  destruct (rd16_in buf 34) as [a ->]; [lia..|]. cbn [mbind outcome_bind].
  destruct (rd16_in buf 36) as [b ->]; [lia..|]. cbn [mbind outcome_bind]. eauto.
Qed.

Lemma padded_end bs : 60 ≤ data_end (padded bs).
Proof. pose proof (padded_length bs). unfold data_end. lia. Qed.

Lemma lift_ret {A B} (m : outcome A) a (k : A -> V B) s :
  m = Ret a → (lift_outcome m ≫= k) s = k a s.
Proof. intros ->. done. Qed.

(** Two [hw_tx] that agree on a frame make transmissions that agree. *)
Lemma xmit_with_ext hw hw' x bs d s :
  (∀ s, hw (padded bs) (Z.of_nat (length (padded bs))) d s =
        hw' (padded bs) (Z.of_nat (length (padded bs))) d s) →
  xmit_with hw x bs d s = xmit_with hw' x bs d s.
Proof. intros H. unfold xmit_with. do 2 vbind. unfold mbind at 1 3, cm_bind. by rewrite H. Qed.

(** Not looking a frame through leaves the socket buffer with the driver. *)
Lemma xmit_with_stop hw x bs d s :
  (∀ s, hw (padded bs) (Z.of_nat (length (padded bs))) d s = Ret (tt, s)) →
  xmit_with hw x bs d s =
  Ret (0, set_dev (set_skbs s (skbs s ∪ {[x]})) d (with_skb (Some x) (get_dev s d))).
Proof.
  intros H. unfold xmit_with. do 2 vbind. rewrite (cm_bind_ret _ _ _ _ _ (H _)). done.
Qed.

Lemma long_frame bs : (Z.of_nat (length (padded bs)) <? 14 + 20) = false.
Proof. pose proof (padded_length bs). apply Z.ltb_ge. lia. Qed.

(** kxdp/generic transmits every frame as the device pair does, and kneigh
    those whose destination is resolved, so that what is shown of the pair
    holds of both. A frame whose destination is not resolved is not sent, and
    its socket buffer stays with the driver, to be forgotten at the next
    transmission. *)
Theorem looped_drivers_agree mem_ok lockup lookup create x bs d s :
  KxdpGeneric.kxdp_xmit mem_ok lockup x bs d s = dummveth_xmit mem_ok true lockup x bs d s ∧
  ∃ daddr, rd32 (padded bs) 30 = Ret daddr ∧
    Kneigh.kneigh_xmit mem_ok lockup lookup create x bs d s =
    if lookup d daddr || create d daddr then dummveth_xmit mem_ok true lockup x bs d s
    else Ret (0, set_dev (set_skbs s (skbs s ∪ {[x]})) d (with_skb (Some x) (get_dev s d))).
Proof.
  pose proof (padded_end bs) as He. destruct (log_ports_total (padded bs)) as [r Hr]; [lia|]. split.
  - apply xmit_with_ext. intros s'. unfold KxdpGeneric.kxdp_hw_tx, dummveth_hw_tx.
    rewrite long_frame. by rewrite (lift_ret _ _ _ _ Hr).
  - destruct (rd32_in (padded bs) 30) as [a Ha]; [lia..|]. exists a. split; [done|].
    destruct (lookup d a || create d a) eqn:Eg.
    + apply xmit_with_ext. intros s'. unfold Kneigh.kneigh_hw_tx, dummveth_hw_tx, Kneigh.got_neigh.
      rewrite long_frame, (lift_ret _ _ _ _ Ha), Eg. cbn [negb].
      rewrite (lift_ret _ _ _ _ (rd_bytes_in (padded bs) 0 12 ltac:(lia) ltac:(lia) ltac:(lia))).
      by rewrite (lift_ret _ _ _ _ Hr).
    + apply xmit_with_stop. intros s'. unfold Kneigh.kneigh_hw_tx, Kneigh.got_neigh.
      by rewrite long_frame, (lift_ret _ _ _ _ Ha), Eg.
Qed.
