(* ===== verification/KxdpNative.v ===== *)
(** * kxdp/native: the device pair with XDP programs

    The pools, queues, interrupt, transmission, timeout, setting up and
    unloading are those of the device pair; the poll runs an XDP program on one
    frame, and programs are attached by [kxdp_xdp]. *)

From Stdlib Require Import ZArith Lia.
From stdpp Require Import base tactics numbers list gmap relations.
From S2P Require Import Prelude Heap Packet Veth VethFlow VethOps Kdrivers.
Import Veth.
Local Open Scope Z_scope.

Module KxdpNative.

Definition XDP_PASS : Z := 2.
Definition ENOTCONN : Z := 107.
Definition ENOSPC : Z := 28.

(** ** Running a program *)

(** A linear [struct sk_buff]: its memory, and where in it the data are. *)
Record sk_buff := mkSkb { head : list Z; data_off : Z; len : Z }.

Definition skb_push (n : Z) (k : sk_buff) := mkSkb (head k) (data_off k - n) (len k + n).
Definition skb_pull (n : Z) (k : sk_buff) := mkSkb (head k) (data_off k + n) (len k - n).
Definition skb_put (n : Z) (k : sk_buff) := mkSkb (head k) (data_off k) (len k + n).
Definition skb_data (k : sk_buff) : outcome (list Z) := rd_bytes (head k) (data_off k) (len k).

(** An XDP program: given the memory and where the data start and end, its
    verdict and the three after it. *)
Definition program : Type := list Z -> Z -> Z -> Z * (list Z * Z * Z).

(** The buffer follows the data of the program. *)
Definition xdp_adjust (k : sk_buff) (mem : list Z) (xdata xdata_end : Z) : sk_buff :=
  let orig_data := data_off k in
  let orig_data_end := data_off k + len k in
  let k := mkSkb mem (data_off k) (len k) in
  let off := orig_data - xdata in
  let k := if 0 <? off then skb_push off k else if off <? 0 then skb_pull (- off) k else k in
  let off := xdata_end - orig_data_end in
  if negb (off =? 0) then skb_put off k else k.

(** [None] when the verdict is not to pass. *)
Definition run_xdp (prog : option program) (k : sk_buff) : option sk_buff :=
  match prog with
  | None => Some k
  | Some run =>
    let '(act, (mem, xdata, xdata_end)) := run (head k) (data_off k) (data_off k + len k) in
    if act =? XDP_PASS then Some (xdp_adjust k mem xdata xdata_end) else None
  end.

Section driver.
Context (mem_ok : nat -> bool) (fresh_data : nat -> list Z).
Context (lockup : Z) (pool_size : nat).
(** What a new socket buffer has in front of its data and behind them. *)
Context (headroom tailroom : list Z).

Definition kxdp_setup_pool := dummveth_setup_pool mem_ok fresh_data pool_size.
Definition kxdp_teardown_pool := dummveth_teardown_pool.
Definition kxdp_tx_reserve_buffer := dummveth_get_tx_buffer.
Definition kxdp_tx_release_buffer := dummveth_release_buffer.
Definition kxdp_rx_prod_buf := dummveth_enqueue_buf.
Definition kxdp_rx_cons_buf := dummveth_dequeue_buf.
Definition kxdp_rx_ints := dummveth_rx_ints.
Definition kxdp_napi_interrupt := dummveth_napi_interrupt.

(** One frame, whatever the budget. The queue is not looked at before, nor the
    allocation after: an empty queue and a failed allocation are null
    pointers. *)
Definition kxdp_poll (prog : option program) (d : dev_id) (budget : Z) : V Z :=
  pkt ← kxdp_rx_cons_buf d;
  n ← pkt_read pkt;
  ok ← alloc_ok mem_ok;
  if negb ok then fails NullDeref
  else
    bs ← lift_outcome (rd_bytes (data n) 0 (datalen n));
    let skb := mkSkb (headroom ++ bs ++ tailroom) (Z.of_nat (length headroom)) (datalen n) in
    npackets ← match run_xdp prog skb with
               | None => mret 0
               | Some skb =>
                 out ← lift_outcome (skb_data skb);
                 deliver d out;;
                 dev_upd d (with_stats (add_rx (datalen n)));;
                 mret 1
               end;
    when (npackets <? budget)
      (spin_lock d;;
       dev_upd d (λ v, with_napi false (napi_enabled v) v);;
       spin_unlock d);;
    kxdp_tx_release_buffer pkt;;
    mret npackets.

Definition kxdp_hw_tx := KxdpGeneric.kxdp_hw_tx mem_ok lockup.
Definition kxdp_xmit := xmit_with kxdp_hw_tx.
Definition kxdp_open := open_with [75; 88; 68; 80; 48].
Definition kxdp_stop := stop_always.
Definition kxdp_tx_timeout := dummveth_tx_timeout mem_ok fresh_data true pool_size.
Definition kxdp_setup := dummveth_setup mem_ok fresh_data pool_size.
Definition kxdp_init_module := dummveth_init_module.
Definition kxdp_cleanup_module := dummveth_cleanup_module.
End driver.

(** ** Attaching a program *)

(** The XDP part of a device: the program, whether the receive queue is
    registered, how many polls were added to it, and its GRO feature. *)
Record xdp_state := mkXdp {
  xdp_prog : option nat;
  rxq_reg : bool;
  napi_adds : nat;
  gro_feature : bool;
}.

Section attach.
(** The device's wanted features and flags, the queue counts of the device and
    its peer ([None] without a peer), and what registering queue [i] and its
    memory model return. *)
Context (wants_gro is_up : bool) (real_num_rx_queues : nat) (peer_tx_queues : option nat).
Context (info_reg reg_mem_model : nat -> Z).

Definition kxdp_gro_requested : bool := wants_gro.

Definition napi_add (st : xdp_state) :=
  mkXdp (xdp_prog st) (rxq_reg st) (S (napi_adds st)) (gro_feature st).
Definition napi_del (st : xdp_state) :=
  mkXdp (xdp_prog st) (rxq_reg st) (pred (napi_adds st)) (gro_feature st).
Definition set_reg (b : bool) (st : xdp_state) :=
  mkXdp (xdp_prog st) b (napi_adds st) (gro_feature st).
Definition set_prog (p : option nat) (st : xdp_state) :=
  mkXdp p (rxq_reg st) (napi_adds st) (gro_feature st).

(** [n] queues from [start] on. *)
Fixpoint kxdp_disable_xdp_range (n : nat) (delete_napi : bool) (st : xdp_state) : xdp_state :=
  match n with
  | O => st
  | S n =>
    let st := set_reg false st in
    kxdp_disable_xdp_range n delete_napi (if delete_napi then napi_del st else st)
  end.

(** The loop at [err_rxq_reg]: the [k] queues before the one that failed. *)
Fixpoint unwind (k : nat) (napi_already_on : bool) (st : xdp_state) : xdp_state :=
  match k with
  | O => st
  | S k =>
    let st := set_reg false st in
    unwind k napi_already_on (if napi_already_on then st else napi_del st)
  end.

(** [n] queues left, [k] done, from [start] on. *)
Fixpoint enable_range (n k start : nat) (napi_already_on : bool) (st : xdp_state) : Z * xdp_state :=
  match n with
  | O => (0, st)
  | S n =>
    let st := if napi_already_on then st else napi_add st in
    let err := info_reg (start + k) in
    if err <? 0 then (err, unwind k napi_already_on st)
    else
      let st := set_reg true st in
      let err := reg_mem_model (start + k) in
      if err <? 0 then (err, unwind k napi_already_on (set_reg false st))
      else enable_range n (S k) start napi_already_on st
  end.

Definition kxdp_enable_xdp_range (start end_ : nat) (napi_already_on : bool) (st : xdp_state)
    : Z * xdp_state :=
  enable_range (end_ - start) 0 start napi_already_on st.

Definition kxdp_enable_xdp (st : xdp_state) : Z * xdp_state :=
  let napi_already_on := kxdp_gro_requested && is_up in
  if negb (rxq_reg st) then
    let '(err, st) := kxdp_enable_xdp_range 0 real_num_rx_queues napi_already_on st in
    if negb (err =? 0) then (err, st) else (0, st)
  else (0, st).

(** The first half of [kxdp_xdp_set], for a program: an error, or 0. *)
Definition xdp_set_checks (st : xdp_state) : Z * xdp_state :=
  match peer_tx_queues with
  | None => (- ENOTCONN, st)
  | Some tx =>
    if (real_num_rx_queues <? tx)%nat then (- ENOSPC, st)
    else if is_up then kxdp_enable_xdp st else (0, st)
  end.

Definition kxdp_xdp_set (prog : option nat) (st : xdp_state) : Z * xdp_state :=
  let old_prog := xdp_prog st in
  let st := set_prog prog st in
  match prog with
  | None => (0, st)
  | Some _ =>
    let '(err, st) := xdp_set_checks st in
    if negb (err =? 0) then (err, set_prog old_prog st)
    else
      (0, match old_prog with
          | None => if kxdp_gro_requested then st
                    else mkXdp (xdp_prog st) (rxq_reg st) (napi_adds st) true
          | Some _ => st
          end)
  end.

(** [setup] is [xdp->command == XDP_SETUP_PROG]. *)
Definition kxdp_xdp (setup : bool) (prog : option nat) (st : xdp_state) : Z * xdp_state :=
  if setup then kxdp_xdp_set prog st else (- EINVAL, st).
End attach.

(** ** The poll *)

Lemma xdp_adjust_region k mem a e :
  xdp_adjust k mem a e = mkSkb mem a (e - a).
Proof.
  unfold xdp_adjust, skb_push, skb_pull, skb_put. simpl.
  destruct (Z.ltb_spec 0 (data_off k - a)); [|destruct (Z.ltb_spec (data_off k - a) 0)]; simpl;
    destruct (Z.eqb_spec (e - (data_off k + len k)) 0); simpl; f_equal; lia.
Qed.

(** The verifier lets a program leave only data inside the buffer. *)
Definition in_buffer (prog : option program) : Prop :=
  ∀ run mem a e act mem' a' e', prog = Some run → 0 ≤ a ≤ e ∧ e ≤ data_end mem →
    run mem a e = (act, (mem', a', e')) → 0 ≤ a' ≤ e' ∧ e' ≤ data_end mem'.

(** What the stack gets of a frame. *)
Definition xdp_output (prog : option program) (hr tr frame : list Z) : list (list Z) :=
  match prog with
  | None => [frame]
  | Some run =>
    let a := Z.of_nat (length hr) in
    let '(act, (mem, a', e')) := run (hr ++ frame ++ tr) a (a + Z.of_nat (length frame)) in
    if act =? XDP_PASS then [take (Z.to_nat (e' - a')) (drop (Z.to_nat a') mem)] else []
  end.

(** Running the program and handing the result over, as one step. *)
Lemma run_xdp_run prog d s n hr tr fr :
  in_buffer prog → datalen n = Z.of_nat (length fr) →
  ∃ s', (match run_xdp prog (mkSkb (hr ++ fr ++ tr) (Z.of_nat (length hr)) (datalen n)) with
         | None => mret 0
         | Some skb =>
           out ← lift_outcome (skb_data skb);
           deliver d out;;
           dev_upd d (with_stats (add_rx (datalen n)));;
           mret 1
         end) s = Ret (Z.of_nat (length (xdp_output prog hr tr fr)), s') ∧
    (∃ st, get_dev s' d = with_stats st (get_dev s d)) ∧ get_dev s' (negb d) = get_dev s (negb d) ∧
    heap s' = heap s ∧ delivered s' = delivered s ++ (pair d <$> xdp_output prog hr tr fr).
Proof.
  intros Hin Hlen.
  assert (∀ out, ∃ s', (deliver d out;; dev_upd d (with_stats (add_rx (datalen n)));; mret 1) s =
      Ret (1, s') ∧
    (∃ st, get_dev s' d = with_stats st (get_dev s d)) ∧ get_dev s' (negb d) = get_dev s (negb d) ∧
    heap s' = heap s ∧ delivered s' = delivered s ++ [(d, out)]) as Hpass.
  { intros out. do 2 vbind. eexists. split; [done|]. split; [by eexists; vsimpl|]. by vsimpl. }
  assert (∃ st, get_dev s d = with_stats st (get_dev s d)) as Hid
    by (exists (λ x, x); by destruct (get_dev s d) as [[]]).
  unfold run_xdp, xdp_output. cbn [head data_off len]. destruct prog as [run|].
  - rewrite Hlen. destruct (run _ _ _) as [act [[mem a'] e']] eqn:Er.
    destruct (act =? XDP_PASS).
    + rewrite xdp_adjust_region. edestruct (Hin run) as [Ha He]; [done| |exact Er|];
        [unfold data_end; rewrite !length_app; lia|].
      unfold skb_data. cbn [head data_off len].
      rewrite rd_bytes_in by lia. rewrite (lift_ret _ _ _ _ eq_refl). rewrite <-Hlen. apply Hpass.
    + exists s. split; [done|]. cbn [fmap list_fmap]. rewrite app_nil_r. by split_and!.
  - unfold skb_data. cbn [head data_off len].
    rewrite rd_bytes_in by (unfold data_end; rewrite ?length_app; lia).
    rewrite (lift_ret _ _ _ _ eq_refl), Nat2Z.id, drop_app_length, take_app_length' by lia. apply Hpass.
Qed.

(** The poll of kxdp/native takes one frame, whatever its budget: what the
    program makes of it goes to the stack, or nothing when the program does not
    pass it, and the poll is taken off the schedule. Further frames then wait
    with no poll scheduled, until the next frame arrives. *)
Theorem kxdp_poll_one_frame mem_ok hr tr prog ps d budget s L x n l :
  flow ps s L → L (Rx d) = (x, n) :: l → in_buffer prog → mem_ok (ticks s) = true → 1 < budget →
  ∃ s', kxdp_poll mem_ok hr tr prog d budget s =
      Ret (Z.of_nat (length (xdp_output prog hr tr (frame n))), s') ∧
    delivered s' = delivered s ++ (pair d <$> xdp_output prog hr tr (frame n)) ∧
    napi_scheduled (get_dev s' d) = false ∧
    (l ≠ [] → rx_queue (get_dev s' d) ≠ None).
Proof.
  intros F EL Hin Hm Hb. pose proof F as [Hlo Hcnt Hlk _ _ _ _ _ _].
  assert (Hel : (x, n) ∈ L (Rx d)) by (rewrite EL; apply list_elem_of_here).
  pose proof (lo_chain _ _ _ Hlo (Rx d)) as Hc. rewrite EL in Hc. destruct Hc as (Hq & Hx & Hc).
  pose proof (lo_owner _ _ _ Hlo _ _ _ Hel) as Hdev. destruct (lo_buf _ _ _ Hlo _ _ _ Hel) as [Hbuf Hdl].
  cbn [qhead qowner] in Hq, Hdev. unfold kxdp_poll, kxdp_rx_cons_buf, kxdp_tx_release_buffer.
  destruct (dequeue_buf_run d s x n) as (s1 & E1 & Hd1 & Hh1 & Ho1 & Hs1 & Ht1 & Hl1); try done.
  rewrite (cm_bind_ret _ _ _ _ _ E1). cbv beta.
  rewrite (cm_bind_ret _ _ _ _ _ (pkt_read_run (Some x) s1 x n eq_refl ltac:(by rewrite Hh1))). cbv beta.
  erewrite cm_bind_ret; [|reflexivity]. cbv beta. rewrite Ht1, Hm. cbn [negb].
  assert (Hfl : datalen n = Z.of_nat (length (frame n))) by (unfold frame; rewrite length_take; lia).
  rewrite (lift_ret _ (frame n)) by by rewrite rd_bytes_in by (unfold data_end; lia).
  cbv beta zeta. set (s2 := set_ticks _ _).
  destruct (run_xdp_run prog d s2 n hr tr (frame n) Hin Hfl) as (s3 & E3 & [st Hd3] & Ho3 & Hh3 & Hdel3).
  rewrite (cm_bind_ret _ _ _ _ _ E3). cbv beta.
  set (k := Z.of_nat (length (xdp_output prog hr tr (frame n)))) in *.
  assert (Hk : k < budget).
  { subst k. unfold xdp_output. destruct prog; [|simpl; lia].
    destruct (p _ _ _) as [act [[]]]; destruct (act =? XDP_PASS); simpl; lia. }
  rewrite (proj2 (Z.ltb_lt k budget) Hk). cbn [when].
  assert (Hv3 : get_dev s3 d = with_stats st (with_lock false (with_rx_queue (next n) (get_dev s d))))
    by (rewrite Hd3; subst s2; vsimpl; by rewrite Hd1).
  assert (Hlk3 : lock (get_dev s3 d) = false) by by rewrite Hv3.
  rewrite cm_bind_assoc. vbind. rewrite cm_bind_assoc. do 2 vbind. set (s4 := set_dev _ _ _).
  assert (Hv4 : get_dev s4 (negb d) = get_dev s (negb d)).
  { subst s4. vsimpl. rewrite Ho3. subst s2. vsimpl. by rewrite Ho1. }
  destruct (release_buffer_run s4 x n) as (s5 & E5 & _ & _ & Ho5 & _ & _ & Hdel5).
  { by rewrite Hdev, Hv4. }
  { subst s4. vsimpl. rewrite Hh3. subst s2. vsimpl. by rewrite Hh1. }
  rewrite (cm_bind_ret _ _ _ _ _ E5). exists s5. split; [done|].
  rewrite Hdev, negb_involutive in Ho5. rewrite Hdel5, Ho5. subst s4. vsimpl. rewrite Hdel3, Hv3.
  subst s2. vsimpl. rewrite Hl1. split; [done|]. split; [done|].
  intros Hne Hnil. apply Hne. by apply (chain_head_nil _ _ _ Hc).
Qed.

(** A program that strips the Ethernet header and passes the rest. *)
Definition strip_eth : program := λ mem a e, (XDP_PASS, (mem, Z.min (a + 14) e, e)).

Lemma kxdp_poll_one_frame_witness :
  ∃ s s' n, kxdp_poll plenty [] [] (Some strip_eth) true 2 s = Ret (1, s') ∧
    delivered s' = delivered s ++ (pair true <$> xdp_output (Some strip_eth) [] [] (frame n)) ∧
    napi_scheduled (get_dev s' true) = false.
Proof.
  destruct in_use_example as (s & _ & _ & _ & L & x & n & F & EL).
  destruct (kxdp_poll_one_frame plenty [] [] (Some strip_eth) 1 true 2 s L x n [] F EL)
    as (s' & E & Hdel & Hn & _).
  - intros run mem a e act mem' a' e' Hrun Hae Er. injection Hrun as <-. injection Er as <- <- <- <-. lia.
  - reflexivity.
  - lia.
  - exists s, s', n. split; [exact E|]. split; [exact Hdel|exact Hn].
Defined.

(** An empty queue is dereferenced. *)
Lemma kxdp_poll_empty mem_ok hr tr prog d budget s :
  lock (get_dev s d) = false → rx_queue (get_dev s d) = None →
  kxdp_poll mem_ok hr tr prog d budget s = Fault NullDeref.
Proof.
  intros Hl Hq. unfold kxdp_poll, kxdp_rx_cons_buf, dummveth_dequeue_buf.
  rewrite cm_bind_assoc. vbind. rewrite cm_bind_assoc. vbind. rewrite Hq.
  rewrite cm_bind_assoc. do 2 vbind. done.
Qed.

(** ** Attaching *)

Lemma unwind_keeps k on st :
  xdp_prog (unwind k on st) = xdp_prog st ∧ gro_feature (unwind k on st) = gro_feature st ∧
  (rxq_reg st = false → rxq_reg (unwind k on st) = false).
Proof.
  revert st. induction k as [|k IH]; intros st; [done|]. cbn [unwind].
  destruct (IH (if on then set_reg false st else napi_del (set_reg false st))) as (-> & -> & Hr).
  destruct on; split_and!; try done; intros _; by apply Hr.
Qed.

Lemma enable_range_spec info mm n : ∀ k start on st err st',
  enable_range info mm n k start on st = (err, st') →
  xdp_prog st' = xdp_prog st ∧ gro_feature st' = gro_feature st ∧ err ≤ 0 ∧
  (err < 0 → rxq_reg st = false ∨ (0 < k)%nat → rxq_reg st' = false) ∧
  (err = 0 → (0 < n)%nat → rxq_reg st' = true).
Proof.
  induction n as [|n IH]; intros k start on st err st'; cbn [enable_range].
  { intros [= <- <-]. split_and!; try done; lia. }
  set (st1 := if on then st else napi_add st).
  assert (H1 : xdp_prog st1 = xdp_prog st ∧ gro_feature st1 = gro_feature st ∧ rxq_reg st1 = rxq_reg st)
    by (subst st1; by destruct on). destruct H1 as (Hp1 & Hg1 & Hr1).
  destruct (Z.ltb_spec (info (start + k)%nat) 0).
  { intros [= <- <-]. destruct (unwind_keeps k on st1) as (-> & -> & Hu). split_and!; try done; try lia.
    intros _ [Hr|Hk]; [by apply Hu; rewrite Hr1|]. destruct k as [|k]; [lia|]. cbn [unwind].
    apply unwind_keeps. by destruct on. }
  destruct (Z.ltb_spec (mm (start + k)%nat) 0).
  { intros [= <- <-]. destruct (unwind_keeps k on (set_reg false (set_reg true st1))) as (-> & -> & Hu).
    split_and!; try done; try lia. intros _ _. by apply Hu. }
  intros E. destruct (IH _ _ _ _ _ _ E) as (Hp & Hg & He & Hn & Hz).
  rewrite Hp, Hg. split_and!; try done.
  - intros Hlt _. apply Hn; [done|]. right. lia.
  - intros Hz0 _. destruct n as [|n]; [|by apply Hz; lia]. cbn [enable_range] in E. by injection E as <- <-.
Qed.

(** Attaching a program: on success it is the device's program, and a device
    that is up has its receive queue registered; on failure the call returns
    the error, the old program is back, and the features are as before. A
    command other than setting a program is refused. *)
Theorem kxdp_xdp_spec gro up nrx peer info mm setup prog st err st' :
  (0 < nrx)%nat → kxdp_xdp gro up nrx peer info mm setup prog st = (err, st') →
  (err = 0 ∧ setup = true ∧ xdp_prog st' = prog ∧ (prog ≠ None → up = true → rxq_reg st' = true)) ∨
  (err < 0 ∧ xdp_prog st' = xdp_prog st ∧ gro_feature st' = gro_feature st ∧
   (rxq_reg st = false → rxq_reg st' = false)).
Proof.
  intros Hn. unfold kxdp_xdp. destruct setup; [|intros [= <- <-]; right; split_and!; done].
  unfold kxdp_xdp_set. destruct prog as [p|]; [|intros [= <- <-]; by left].
  destruct (xdp_set_checks _ _ _ _ _ _ _) as [e st1] eqn:Ec.
  assert (Hc : xdp_prog st1 = Some p ∧ gro_feature st1 = gro_feature st ∧ e ≤ 0 ∧
    (e < 0 → rxq_reg st = false → rxq_reg st1 = false) ∧ (e = 0 → up = true → rxq_reg st1 = true)).
  { revert Ec. unfold xdp_set_checks. destruct peer as [tx|]; [|intros [= <- <-]; split_and!; done].
    destruct (nrx <? tx)%nat; [intros [= <- <-]; split_and!; done|].
    destruct up; [|intros [= <- <-]; split_and!; done]. unfold kxdp_enable_xdp.
    destruct (rxq_reg (set_prog (Some p) st)) eqn:Er; cbn [negb]; [intros [= <- <-]; split_and!; done|].
    destruct (kxdp_enable_xdp_range _ _ _ _ _ _) as [e2 st2] eqn:E2.
    apply enable_range_spec in E2 as (Hp & Hg & He & Hneg & Hz). rewrite Nat.sub_0_r in Hz.
    destruct (Z.eqb_spec e2 0) as [->|]; cbn [negb]; intros [= <- <-]; split_and!; try done.
    - intros _ _. by apply Hz.
    - intros Hlt Hr. by apply Hneg; [|left]. }
  destruct Hc as (Hp & Hg & He & Hneg & Hz). destruct (Z.eqb_spec e 0) as [->|]; cbn [negb]; intros [= <- <-].
  - left. split; [done|]. split; [done|].
    destruct (xdp_prog st); [|destruct kxdp_gro_requested]; split; try done; intros _; by apply Hz.
  - right. split; [lia|]. split; [done|]. split; [done|]. intros Hr. apply Hneg; [lia|done].
Qed.

Lemma kxdp_xdp_spec_witness :
  kxdp_xdp false true 1 (Some 1%nat) (λ _, 0) (λ _, 0) true (Some 7%nat) (mkXdp None false 0 false) =
    (0, mkXdp (Some 7%nat) true 1 true) ∧ xdp_prog (mkXdp (Some 7%nat) true 1 true) = Some 7%nat.
Proof.
  split; [reflexivity|].
  destruct (kxdp_xdp_spec false true 1 (Some 1%nat) (λ _, 0) (λ _, 0) true (Some 7%nat)
    (mkXdp None false 0 false) 0 (mkXdp (Some 7%nat) true 1 true)) as [(_ & _ & H & _)|[H _]];
    [lia|reflexivity|exact H|lia].
Defined.
End KxdpNative.
