(* ===== verification/Kxfrm.v ===== *)
(** * kxfrm: ESP frames taken apart and put together again

    The device pair of kdev-net-veth with an ESP stage in front of the loop
    back: a frame of the IPsec state of the device is authenticated, decrypted,
    logged, encrypted again and sent on. This file has what kxfrm/cbc/kxfrm.c and
    kxfrm/gcm/kxfrm.c share; their ESP stages are in the next two files. The
    kernel's crypto API, its allocator and its state lookup are parameters. *)

From Stdlib Require Import ZArith Lia.
From stdpp Require Import base tactics numbers list gmap.
From S2P Require Import Prelude Heap Packet Veth VethFlow Kdrivers.
Import Veth.
Local Open Scope Z_scope.

Definition IPPROTO_ESP : Z := 50.

(** ** Leaving by [goto esp_end] *)

(** The frame goes on, as it is in the buffer then, or the function returns. *)
Inductive verdict := Send (buf : list Z) | Stop.

(** Code that may fault, or leave with a verdict. *)
Definition Esc (A : Type) : Type := outcome (verdict + A).

#[export] Instance esc_ret : MRet Esc := λ A a, Ret (inr a).
#[export] Instance esc_bind : MBind Esc := λ A B k m,
  match m with
  | Ret (inr a) => k a
  | Ret (inl v) => Ret (inl v)
  | Fault f => Fault f
  end.

Definition leave {A} (v : verdict) : Esc A := Ret (inl v).
Definition exec {A} (m : outcome A) : Esc A := match m with Ret a => Ret (inr a) | Fault f => Fault f end.
Definition stop_if (b : bool) : Esc unit := if b then leave Stop else mret tt.

(** [goto esp_end] with no error recorded: the frame is sent as it is. *)
Definition send_if (b : bool) (buf : list Z) : Esc unit := if b then leave (Send buf) else mret tt.

Definition verdict_of (m : Esc verdict) : outcome verdict :=
  match m with
  | Ret (inr v) => Ret v
  | Ret (inl v) => Ret v
  | Fault f => Fault f
  end.

Lemma exec_bind {A B} (m : outcome A) a (k : A -> Esc B) : m = Ret a → (exec m ≫= k) = k a.
Proof. by intros ->. Qed.

Lemma esc_ret_bind {A B} (a : A) (k : A -> Esc B) : (mret a ≫= k) = k a.
Proof. done. Qed.

Lemma esc_leave_bind {A B} v (k : A -> Esc B) : ((leave v : Esc A) ≫= k) = leave v.
Proof. done. Qed.

Lemma stop_if_false {B} (k : unit -> Esc B) : (stop_if false ≫= k) = k tt.
Proof. done. Qed.

Lemma send_if_false {B} buf (k : unit -> Esc B) : (send_if false buf ≫= k) = k tt.
Proof. done. Qed.

(** ** Shared parts *)

(** The keys of an IPsec state, [None] where it has no such algorithm. *)
Record xfrm_state := mkXfrm {
  aalg_key : option (list Z);
  ealg_key : option (list Z);
  aead_key : option (list Z);
}.

(** [u8 key[n] = {0}], then [memcpy] of the state's key if there is one. *)
Definition load_key (n : Z) (k : option (list Z)) : outcome (list Z) :=
  match k with
  | None => Ret (replicate (Z.to_nat n) 0)
  | Some k => rd_bytes k 0 n
  end.

(** [printk] with [%s]: every byte up to a zero is read. *)
Definition log_string (p : list Z) (o : Z) : outcome unit :=
  if (o <? 0) || (data_end p <? o) then Fault OutOfBounds
  else if bool_decide (0 ∈ drop (Z.to_nat o) p) then Ret tt else Fault OutOfBounds.

(** The value of [memcmp(...) == 0]. *)
Definition same_bytes (p : list Z) (o : Z) (q : list Z) (o' n : Z) : outcome bool :=
  a ← rd_bytes p o n;
  b ← rd_bytes q o' n;
  Ret (bool_decide (a = b)).

(** The log of a decapsulated packet at [o]: destination port, and the payload
    when the port is 9999. *)
Definition log_inner (p : list Z) (o hlen : Z) : outcome unit :=
  dest ← rd16 p (o + 22);
  if bswap16 dest =? 9999 then log_string p (o + 20 + hlen) else Ret tt.

Section shared.
(** The allocator: whether the [i]th of the three buffers is granted, and what a
    new buffer of a size holds. *)
Context (km_ok : nat -> bool) (junk : nat -> Z -> list Z).
(** [ip_fast_csum]. *)
Context (csum : list Z -> Z).

(** [kmalloc] takes a [size_t]: a negative size is too large to be granted. *)
Definition kmalloc (i : nat) (size : Z) : option (list Z) :=
  if size <? 0 then None else if km_ok i then Some (junk i size) else None.

(** [ih->check = 0; ip_send_check(ih)], the header at 14. *)
Definition ip_send_check (buf : list Z) : outcome (list Z) :=
  b0 ← rd8 buf 14;
  buf ← wr16 buf 24 0;
  h ← rd_bytes buf 14 (4 * Z.land b0 15);
  wr16 buf 24 (csum h).
End shared.

(** ** The driver *)

(** The rest of kxfrm/cbc/kxfrm.c, for any ESP stage. *)
Section driver.
Context (esp_frame : list Z -> Z -> xfrm_state -> outcome verdict).
(** [xfrm_state_lookup_byspi] for the SPI as it is passed, already swapped. *)
Context (lookup_byspi : Z -> option xfrm_state).
Context (mem_ok : nat -> bool) (fresh_data : nat -> list Z).
Context (lockup : Z) (pool_size : nat).

(** [htonl]. *)
Definition bswap32 (x : Z) : Z := bswap16 x * 65536 + bswap16 (x / 65536).

Definition kxfrm_setup_pool := dummveth_setup_pool mem_ok fresh_data pool_size.
Definition kxfrm_teardown_pool := dummveth_teardown_pool.
Definition kxfrm_tx_reserve_buffer := dummveth_get_tx_buffer.
Definition kxfrm_tx_release_buffer := dummveth_release_buffer.
Definition kxfrm_rx_prod_buf := dummveth_enqueue_buf.
Definition kxfrm_rx_cons_buf := dummveth_dequeue_buf.
Definition kxfrm_rx_ints := dummveth_rx_ints.
Definition kxfrm_napi_interrupt := dummveth_napi_interrupt.
Definition kxfrm_poll := dummveth_poll mem_ok.

(** The end of [kxfrm_hw_tx]. *)
Definition kxfrm_send := loop_back mem_ok true lockup.

(** [spi_vals] is the array of that name; [dev_net] of a device is never null. *)
Definition kxfrm_hw_tx (spi_vals : dev_id -> Z) (buf : list Z) (len : Z) (d : dev_id) : V unit :=
  let spi := spi_vals d in
  if len <? 14 + 20 then mret tt
  else
    protocol ← lift_outcome (rd8 buf 23);
    if protocol =? IPPROTO_ESP then
      match lookup_byspi (bswap32 spi) with
      | None => mret tt
      | Some x =>
        v ← lift_outcome (esp_frame buf len x);
        match v with
        | Stop => mret tt
        | Send buf => kxfrm_send buf len d
        end
      end
    else
      lift_outcome (log_ports buf);;
      kxfrm_send buf len d.

Definition kxfrm_xmit (spi_vals : dev_id -> Z) := xmit_with (kxfrm_hw_tx spi_vals).

(** "KXFRM" and the digit; the SPI of the device is set as well. *)
Definition kxfrm_open_spi (spi_vals : dev_id -> Z) (d : dev_id) : dev_id -> Z := λ d',
  if decide (d' = d) then if d then 33554432 else 16777216 else spi_vals d'.
Definition kxfrm_open := open_with [75; 88; 70; 82; 77].
Definition kxfrm_stop := stop_always.
Definition kxfrm_tx_timeout := dummveth_tx_timeout mem_ok fresh_data true pool_size.
Definition kxfrm_setup := dummveth_setup mem_ok fresh_data pool_size.
Definition kxfrm_init_module := dummveth_init_module.
Definition kxfrm_cleanup_module := dummveth_cleanup_module.
End driver.

(** ** Transmissions *)

Lemma padded_long b : 60 ≤ data_end b → padded b = b.
Proof.
  unfold data_end. intros H. unfold padded, ETH_ZLEN.
  by rewrite (proj2 (Z.ltb_ge (Z.of_nat (length b)) 60)) by lia.
Qed.

(** Sending another frame of the same length. *)
Lemma xmit_with_send hw mem_ok lockup x bs b d s :
  length b = length (padded bs) →
  (∀ s, hw (padded bs) (Z.of_nat (length (padded bs))) d s =
        loop_back mem_ok true lockup b (Z.of_nat (length (padded bs))) d s) →
  xmit_with hw x bs d s = dummveth_xmit mem_ok true lockup x b d s.
Proof.
  intros Hl H. pose proof (padded_end bs) as He. unfold data_end in He.
  assert (Eb : padded b = b) by (apply padded_long; unfold data_end; lia).
  transitivity ((take_skb x;; dev_upd d (with_skb (Some x));;
    loop_back mem_ok true lockup b (Z.of_nat (length (padded bs))) d;; mret 0) s).
  - unfold xmit_with. do 2 vbind. symmetry. do 2 vbind. unfold mbind, cm_bind. by rewrite H.
  - unfold dummveth_xmit, xmit_with. rewrite Eb, Hl. do 2 vbind. symmetry. do 2 vbind.
    unfold dummveth_hw_tx. by rewrite (proj2 (Z.ltb_ge (Z.of_nat (length (padded bs))) (14 + 20))) by lia.
Qed.

(** Computing the checksum of the IP header of a frame touches its two bytes only. *)
Lemma send_check_run csum buf :
  74 ≤ data_end buf →
  ∃ b, ip_send_check csum buf = Ret b ∧ length b = length buf ∧
    take 24 b = take 24 buf ∧ drop 26 b = drop 26 buf.
Proof.
  intros Hl. unfold ip_send_check. destruct (rd8_in buf 14) as (b0 & -> & _); [lia|].
  cbn [mbind outcome_bind]. rewrite wr16_in by lia. cbn [mbind outcome_bind].
  assert (0 ≤ Z.land b0 15 < 16) as H4.
  { change 15 with (Z.ones 4). rewrite Z.land_ones by lia. apply Z.mod_pos_bound. lia. }
  rewrite rd_bytes_in by (rewrite ?data_end_insert; lia). cbn [mbind outcome_bind].
  rewrite wr16_in by (rewrite ?data_end_insert; lia). eexists. split; [done|].
  rewrite !length_insert, !take_insert_ge, !drop_insert_lt by lia. done.
Qed.

(** An ESP frame of an IPsec state, by the verdict of the ESP stage. *)
Lemma xmit_esp_sent esp_frame lookup mem_ok lockup spi x buf d s st b :
  60 ≤ data_end buf → rd8 buf 23 = Ret IPPROTO_ESP → lookup (bswap32 (spi d)) = Some st →
  esp_frame buf (data_end buf) st = Ret (Send b) → length b = length buf →
  kxfrm_xmit esp_frame lookup mem_ok lockup spi x buf d s = dummveth_xmit mem_ok true lockup x b d s.
Proof.
  intros Hl Hp Hs He Hb. pose proof (padded_long buf Hl) as Epad. unfold data_end in *.
  apply xmit_with_send; rewrite Epad; [done|]. intros s'. unfold kxfrm_hw_tx.
  rewrite (proj2 (Z.ltb_ge _ (14 + 20))) by lia. rewrite (lift_ret _ _ _ _ Hp).
  cbn [Z.eqb IPPROTO_ESP Pos.eqb]. by rewrite Hs, (lift_ret _ _ _ _ He).
Qed.

Lemma xmit_esp_stopped esp_frame lookup mem_ok lockup spi x buf d s st :
  60 ≤ data_end buf → rd8 buf 23 = Ret IPPROTO_ESP → lookup (bswap32 (spi d)) = Some st →
  esp_frame buf (data_end buf) st = Ret Stop →
  kxfrm_xmit esp_frame lookup mem_ok lockup spi x buf d s =
    Ret (0, set_dev (set_skbs s (skbs s ∪ {[x]})) d (with_skb (Some x) (get_dev s d))).
Proof.
  intros Hl Hp Hs He. pose proof (padded_long buf Hl) as Epad. unfold data_end in *.
  apply xmit_with_stop. intros s'. rewrite Epad. unfold kxfrm_hw_tx.
  rewrite (proj2 (Z.ltb_ge _ (14 + 20))) by lia. rewrite (lift_ret _ _ _ _ Hp).
  cbn [Z.eqb IPPROTO_ESP Pos.eqb]. by rewrite Hs, (lift_ret _ _ _ _ He).
Qed.

(** ** A kernel to run the examples with *)

(** Every allocation is granted and zeroed; the ciphers are the identity. *)
Definition granted_all (i : nat) : bool := true.
Definition zero_mem (i : nat) (n : Z) : list Z := replicate (Z.to_nat n) 0.
Definition no_sum (h : list Z) : Z := 0.
Definition sample_state : xfrm_state :=
  mkXfrm (Some (replicate 32 1)) (Some (replicate 32 2)) (Some (replicate 36 3)).

Lemma zero_mem_length i n : 0 ≤ n → Z.of_nat (length (zero_mem i n)) = n.
Proof. intros. unfold zero_mem. rewrite length_replicate. lia. Qed.

(** A UDP packet of 30 bytes to port 53, and the trailer. *)
Definition sample_inner : list Z :=
  [69; 0; 0; 30; 0; 0; 0; 0; 64; 17; 0; 0; 10; 0; 0; 1; 10; 0; 0; 2;
   4; 0; 0; 53; 0; 10; 0; 0; 1; 2; 0; 4].
Definition sample_front : list Z := replicate 14 0 ++ [69] ++ replicate 8 0 ++ [50] ++ replicate 10 0.
