(* ===== verification/KxfrmCbc.v ===== *)
(** * kxfrm/cbc: the ESP stage with HMAC-SHA256 and AES-CBC

    Buffers are lists of bytes of the size they were asked for, so that an access
    outside one is a fault. *)

From Stdlib Require Import ZArith Lia.
From stdpp Require Import base tactics numbers list gmap.
From S2P Require Import Prelude Heap Packet Veth VethFlow VethOps Kdrivers Kxfrm.
Import Veth.
Local Open Scope Z_scope.

Module Cbc.
Section esp.
Context (km_ok : nat -> bool) (junk : nat -> Z -> list Z) (csum : list Z -> Z).
(** The hash API, by call: whether the transform and the descriptor are granted,
    what setting the key and hashing return; and HMAC-SHA256 itself. *)
Context (shash_alloc zalloc : nat -> bool) (shash_setkey shash_digest : nat -> Z).
Context (hmac : list Z -> list Z -> list Z).
(** The cipher API: whether the handle and the request are granted, what setting
    the key returns; and decryption and encryption of bytes under a key and an
    initialisation vector, with their error codes. *)
Context (skcipher_alloc req_alloc : bool) (skcipher_setkey : Z).
Context (decrypt encrypt : list Z -> list Z -> list Z -> Z * list Z).

(** The return code, and the digest when there is one. *)
Definition hmac_sha256 (call : nat) (key ikm : list Z) : Z * list Z :=
  if negb (shash_alloc call) then (-1, [])
  else if negb (shash_setkey call =? 0) then (shash_setkey call, [])
  else if negb (zalloc call) then (- ENOMEM, [])
  else (shash_digest call, if shash_digest call =? 0 then hmac key ikm else []).

(** The keys, the nonce and the three buffers. *)
Record work := mkWork {
  auth_key : list Z;
  key : list Z;
  nonce_org : list Z;
  buffer_src : list Z;
  buffer_dst : list Z;
  buffer_final : list Z;
}.

Definition set_src b w := mkWork (auth_key w) (key w) (nonce_org w) b (buffer_dst w) (buffer_final w).
Definition set_dst b w := mkWork (auth_key w) (key w) (nonce_org w) (buffer_src w) b (buffer_final w).
Definition set_final b w := mkWork (auth_key w) (key w) (nonce_org w) (buffer_src w) (buffer_dst w) b.

Definition payloadlen (len : Z) : Z := len - 34 - 8 - 16 - 16.

Definition esp_prepare (buf : list Z) (len : Z) (x : xfrm_state) : Esc work :=
  let esplen := len - 34 - 8 - 16 in
  let buffer_size := esplen * 8 in
  exec (rd_bytes buf 34 8);;
  auth_key ← exec (load_key 32 (aalg_key x));
  key ← exec (load_key 32 (ealg_key x));
  nonce ← exec (rd_bytes buf 42 16);
  match kmalloc km_ok junk 0 buffer_size with
  | None => leave Stop
  | Some src =>
    match kmalloc km_ok junk 1 buffer_size with
    | None => leave Stop
    | Some dst =>
      match kmalloc km_ok junk 2 buffer_size with
      | None => leave Stop
      | Some final => mret (mkWork auth_key key nonce src dst final)
      end
    end
  end.

(** A digest that does not match leaves with the error code of the hash, which
    is none. *)
Definition esp_auth (buf : list Z) (len : Z) (w : work) : Esc work :=
  ikm ← exec (rd_bytes buf 34 (8 + 16 + payloadlen len));
  let '(err, okm) := hmac_sha256 0 (auth_key w) ikm in
  stop_if (negb (err =? 0));;
  src ← exec (wr_bytes (buffer_src w) 0 okm);
  exec (rd_bytes buf (34 + 8 + 16 + payloadlen len) 4);;
  exec (rd_bytes src 0 4);;
  same ← exec (same_bytes buf (34 + 8 + 16 + payloadlen len) src 0 16);
  send_if (negb same) buf;;
  ct ← exec (rd_bytes buf (34 + 8 + 16) (payloadlen len));
  src ← exec (wr_bytes src 0 ct);
  mret (set_src src w).

Definition esp_decrypt (buf : list Z) (len : Z) (w : work) : Esc work :=
  send_if (negb skcipher_alloc) buf;;
  send_if (negb req_alloc) buf;;
  stop_if (negb (skcipher_setkey =? 0));;
  ct ← exec (rd_bytes (buffer_src w) 0 (payloadlen len));
  let '(err, pt) := decrypt (key w) (nonce_org w) ct in
  stop_if (negb (err =? 0));;
  dst ← exec (wr_bytes (buffer_dst w) 0 pt);
  mret (set_dst dst w).

(** The length of the packet with its padding and trailer, from the length in
    its header; the padding and the trailer are logged. *)
Definition esp_padded_len (dst : list Z) : outcome Z :=
  tot_len ← rd16 dst 2;
  let pkt_len := bswap16 tot_len in
  rd_bytes dst 12 8 ≫= λ _,
  let padtest := (pkt_len + 2) mod 16 in
  let padlen := if negb (padtest =? 0) then 16 - padtest else 0 in
  rd_bytes dst pkt_len padlen ≫= λ _,
  rd8 dst (pkt_len + padlen) ≫= λ _,
  rd8 dst (pkt_len + padlen + 1) ≫= λ _,
  Ret (pkt_len + padlen + 2).

Definition encrypt_back (pkt_len : Z) (w : work) : Esc work :=
  pt ← exec (rd_bytes (buffer_dst w) 0 pkt_len);
  let '(err, ct) := encrypt (key w) (nonce_org w) pt in
  stop_if (negb (err =? 0));;
  final ← exec (wr_bytes (buffer_final w) 0 ct);
  mret (set_final final w).

Definition esp_reencrypt (pkt_len : Z) (w : work) : Esc work :=
  protocol ← exec (rd8 (buffer_dst w) 9);
  if protocol =? IPPROTO_UDP then
    exec (log_inner (buffer_dst w) 0 8);; encrypt_back pkt_len w
  else if protocol =? IPPROTO_TCP then
    exec (log_inner (buffer_dst w) 0 20);; encrypt_back pkt_len w
  else mret w.

Definition esp_rebuild (buf : list Z) (len : Z) (w : work) : Esc verdict :=
  same ← exec (same_bytes (buffer_src w) 0 (buffer_final w) 0 16);
  send_if (negb same) buf;;
  h ← exec (rd_bytes buf 34 8);
  src ← exec (wr_bytes (buffer_src w) 0 h);
  src ← exec (wr_bytes src 8 (nonce_org w));
  ct ← exec (rd_bytes (buffer_final w) 0 (payloadlen len));
  src ← exec (wr_bytes src (8 + 16) ct);
  ikm ← exec (rd_bytes src 0 (8 + 16 + payloadlen len));
  let '(err, okm) := hmac_sha256 1 (auth_key w) ikm in
  stop_if (negb (err =? 0));;
  dst ← exec (wr_bytes (buffer_dst w) 0 okm);
  buf ← exec (wr_bytes buf (34 + 8 + 16) ct);
  tag ← exec (rd_bytes dst 0 16);
  buf ← exec (wr_bytes buf (34 + 8 + 16 + payloadlen len) tag);
  buf ← exec (ip_send_check csum buf);
  mret (Send buf).

(** The ESP branch of [kxfrm_hw_tx], for the state that was found. *)
Definition esp_frame (buf : list Z) (len : Z) (x : xfrm_state) : outcome verdict :=
  verdict_of
    (w ← esp_prepare buf len x;
     w ← esp_auth buf len w;
     w ← esp_decrypt buf len w;
     pkt_len ← exec (esp_padded_len (buffer_dst w));
     w ← esp_reencrypt pkt_len w;
     esp_rebuild buf len w).
End esp.
End Cbc.

Import Cbc.

(** ** When the kernel grants what is asked for *)


Section granted.
Context (km_ok : nat -> bool) (junk : nat -> Z -> list Z) (csum : list Z -> Z).
Context (shash_alloc zalloc : nat -> bool) (shash_setkey shash_digest : nat -> Z).
Context (hmac : list Z -> list Z -> list Z).
Context (skcipher_alloc req_alloc : bool) (skcipher_setkey : Z).
Context (decrypt encrypt : list Z -> list Z -> list Z -> Z * list Z).

(** Allocations succeed and have the size asked for; the hash API returns no
    error, and a digest has 32 bytes; the state has keys of 32 bytes. *)
Record hash_works : Prop := {
  hw_kmalloc i : km_ok i = true;
  hw_junk i n : 0 ≤ n → Z.of_nat (length (junk i n)) = n;
  hw_alloc i : shash_alloc i = true;
  hw_zalloc i : zalloc i = true;
  hw_setkey i : shash_setkey i = 0;
  hw_digest i : shash_digest i = 0;
  hw_hmac k m : length (hmac k m) = 32%nat;
}.

Definition has_keys (x : xfrm_state) (ak ek : list Z) : Prop :=
  aalg_key x = Some ak ∧ ealg_key x = Some ek ∧ length ak = 32%nat ∧ length ek = 32%nat.

Abbreviation prepare := (esp_prepare km_ok junk).
Abbreviation auth := (esp_auth shash_alloc zalloc shash_setkey shash_digest hmac).
Abbreviation frame_of := (esp_frame km_ok junk csum shash_alloc zalloc shash_setkey shash_digest hmac
  skcipher_alloc req_alloc skcipher_setkey decrypt encrypt).

Hypothesis Hash : hash_works.

Lemma hmac_run i k m : hmac_sha256 shash_alloc zalloc shash_setkey shash_digest hmac i k m = (0, hmac k m).
Proof. destruct Hash. unfold hmac_sha256. by rewrite hw_alloc0, hw_zalloc0, hw_setkey0, hw_digest0. Qed.

Lemma load_key_run k : length k = 32%nat → load_key 32 (Some k) = Ret k.
Proof.
  intros Hk. unfold load_key. rewrite <-(app_nil_r k) at 1. apply rd_bytes_start. lia.
Qed.

Lemma prepare_run buf x ak ek :
  has_keys x ak ek → 58 ≤ data_end buf →
  let size := (data_end buf - 34 - 8 - 16) * 8 in
  prepare buf (data_end buf) x =
  Ret (inr (mkWork ak ek (take 16 (drop 42 buf)) (junk 0 size) (junk 1 size) (junk 2 size))).
Proof.
  intros (Ea & Ee & La & Le) Hlen. destruct Hash. unfold esp_prepare.
  rewrite (exec_bind _ _ _ (rd_bytes_in buf 34 8 ltac:(lia) ltac:(lia) ltac:(lia))). cbv beta.
  rewrite Ea, Ee, (exec_bind _ _ _ (load_key_run _ La)), (exec_bind _ _ _ (load_key_run _ Le)). cbv beta.
  rewrite (exec_bind _ _ _ (rd_bytes_in buf 42 16 ltac:(lia) ltac:(lia) ltac:(lia))). cbv beta.
  unfold kmalloc. rewrite !hw_kmalloc0.
  by rewrite (proj2 (Z.ltb_ge ((data_end buf - 34 - 8 - 16) * 8) 0)) by lia.
Qed.

(** What the digest is over, and the tag it is compared with. *)
Lemma auth_run front m tag w len :
  length front = 34%nat → length tag = 16%nat → len = data_end (front ++ m ++ tag) → 62 ≤ len →
  data_end (buffer_src w) = (len - 34 - 8 - 16) * 8 →
  auth (front ++ m ++ tag) len w =
  if bool_decide (tag = take 16 (hmac (auth_key w) m)) then
    ct ← exec (rd_bytes (front ++ m ++ tag) (34 + 8 + 16) (payloadlen len));
    src ← exec (wr_bytes (hmac (auth_key w) m ++ drop 32 (buffer_src w)) 0 ct);
    mret (set_src src w)
  else leave (Send (front ++ m ++ tag)).
Proof.
  intros Lf Lt Hlen Hmin Hsrc. unfold esp_auth. pose proof (hw_hmac Hash (auth_key w) m) as Lh.
  assert (Hm : Z.of_nat (length m) = len - 50) by (rewrite Hlen; unfold data_end; rewrite !length_app; lia).
  rewrite (exec_bind _ m) by (apply rd_bytes_at; unfold payloadlen; lia). cbv beta.
  rewrite hmac_run. cbn [Z.eqb negb]. rewrite stop_if_false.
  rewrite (exec_bind _ (hmac (auth_key w) m ++ drop 32 (buffer_src w))) by
    (rewrite wr_bytes_start by lia; by rewrite Lh). cbv beta.
  assert (Hoff : 34 + 8 + 16 + payloadlen len = Z.of_nat (length (front ++ m)))
    by (rewrite length_app; unfold payloadlen; lia).
  rewrite Hoff, (app_assoc front m tag).
  rewrite (exec_bind _ (take 4 tag)).
  2: { rewrite <-(take_drop 4 tag) at 1. rewrite (rd_bytes_at (front ++ m) (take 4 tag) (drop 4 tag)); [done..|].
       rewrite length_take. lia. }
  cbv beta. rewrite (exec_bind _ (take 4 (hmac (auth_key w) m))).
  2: { apply rd_bytes_front. unfold data_end. lia. }
  cbv beta. unfold same_bytes.
  rewrite <-(app_nil_r tag) at 1. rewrite (rd_bytes_at (front ++ m) tag []) by (done || lia).
  rewrite (rd_bytes_front (hmac (auth_key w) m)) by (unfold data_end; lia).
  cbn [mbind outcome_bind].
  rewrite (exec_bind _ _ _ eq_refl). cbv beta. change (Z.to_nat 16) with 16%nat.
  case_bool_decide; cbn [negb]; [by rewrite send_if_false|done].
Qed.

(** A forged frame goes out: when the authentication tag of an ESP frame is
    not the digest of the frame under the key of the state, the frame is sent on
    as it came, because the code leaves without an error recorded. *)
Theorem esp_forged_forwarded buf x ak ek :
  has_keys x ak ek → 62 ≤ data_end buf →
  drop (length buf - 16) buf ≠ take 16 (hmac ak (take (length buf - 50) (drop 34 buf))) →
  frame_of buf (data_end buf) x = Ret (Send buf).
Proof.
  intros Hx Hlen Hne. unfold esp_frame. rewrite (prepare_run _ _ _ _ Hx) by lia. cbv zeta.
  set (w := mkWork _ _ _ _ _ _). change (Ret (inr w)) with (mret w : Esc work). rewrite esc_ret_bind.
  assert (Eb : buf = take 34 buf ++ take (length buf - 50) (drop 34 buf) ++ drop (length buf - 16) buf).
  { unfold data_end in Hlen. rewrite <-(take_drop 34 buf) at 1. f_equal.
    rewrite <-(take_drop (length buf - 50) (drop 34 buf)) at 1. rewrite drop_drop. do 2 f_equal. lia. }
  unfold data_end in Hlen. rewrite Eb at 1.
  rewrite auth_run.
  - rewrite bool_decide_eq_false_2 by done. rewrite <-Eb. done.
  - rewrite length_take. lia.
  - rewrite length_drop. lia.
  - by rewrite <-Eb.
  - unfold data_end. lia.
  - cbn [buffer_src w]. unfold data_end. rewrite (hw_junk Hash); unfold data_end; lia.
Qed.

(** An ESP frame of the minimal length of 60 bytes, or of 61, overruns the
    heap: the digest of 32 bytes is written to a buffer of 16 or 24 bytes, before
    anything is authenticated. *)
Theorem esp_short_frame_overruns buf x ak ek :
  has_keys x ak ek → 60 ≤ data_end buf < 62 →
  frame_of buf (data_end buf) x = Fault OutOfBounds.
Proof.
  intros Hx Hlen. unfold esp_frame. rewrite (prepare_run _ _ _ _ Hx) by lia. cbv zeta.
  set (w := mkWork _ _ _ _ _ _). change (Ret (inr w)) with (mret w : Esc work). rewrite esc_ret_bind.
  unfold esp_auth. erewrite exec_bind by (apply rd_bytes_in; unfold payloadlen; lia). cbv beta.
  rewrite hmac_run. cbn [Z.eqb negb]. rewrite stop_if_false.
  assert (E : wr_bytes (buffer_src w) 0 (hmac (auth_key w)
    (take (Z.to_nat (8 + 16 + payloadlen (data_end buf))) (drop (Z.to_nat 34) buf))) = Fault OutOfBounds).
  { unfold wr_bytes. rewrite decide_False; [done|]. rewrite (hw_hmac Hash). cbn [buffer_src w].
    unfold data_end at 1. rewrite (hw_junk Hash) by lia. lia. }
  by rewrite E.
Qed.

(** The padding to a multiple of 16 with the two bytes of the trailer. *)
Definition pad16 (n : Z) : Z := if (n + 2) mod 16 =? 0 then 0 else 16 - (n + 2) mod 16.

(** A decapsulated packet: an IPv4 packet of UDP or TCP, not to port 9999, with
    the padding and the trailer. *)
Record inner_ok (p : list Z) : Prop := {
  in_min : 32 ≤ data_end p;
  in_len : ∃ t, rd16 p 2 = Ret t ∧ 0 ≤ bswap16 t ∧ data_end p = bswap16 t + pad16 (bswap16 t) + 2;
  in_proto : ∃ b, rd8 p 9 = Ret b ∧ (b = IPPROTO_UDP ∨ b = IPPROTO_TCP);
  in_port : ∃ q, rd16 p 22 = Ret q ∧ bswap16 q ≠ 9999;
}.

Lemma padded_len_run p r : inner_ok p → esp_padded_len (p ++ r) = Ret (data_end p).
Proof.
  intros [Hmin (t & Ht & HT & Hend) _ _]. unfold esp_padded_len.
  rewrite rd16_app by lia. rewrite Ht. cbn [mbind outcome_bind].
  assert (He : data_end p ≤ data_end (p ++ r)) by (unfold data_end; rewrite length_app; lia).
  assert (Hp : 0 ≤ pad16 (bswap16 t)).
  { unfold pad16. pose proof (Z.mod_pos_bound (bswap16 t + 2) 16). destruct (_ =? 0); lia. }
  rewrite (rd_bytes_in (p ++ r) 12 8) by lia. cbn [mbind outcome_bind].
  replace (if negb ((bswap16 t + 2) mod 16 =? 0) then 16 - (bswap16 t + 2) mod 16 else 0)
    with (pad16 (bswap16 t)) by (unfold pad16; by destruct (_ =? 0)).
  rewrite (rd_bytes_in (p ++ r) (bswap16 t) (pad16 (bswap16 t))) by lia. cbn [mbind outcome_bind].
  destruct (rd8_in (p ++ r) (bswap16 t + pad16 (bswap16 t))) as (a & -> & _); [lia|].
  cbn [mbind outcome_bind].
  destruct (rd8_in (p ++ r) (bswap16 t + pad16 (bswap16 t) + 1)) as (b & -> & _); [lia|].
  cbn [mbind outcome_bind]. by rewrite Hend.
Qed.

Lemma log_inner_run p r o : inner_ok p → log_inner (p ++ r) 0 o = Ret tt.
Proof.
  intros [Hmin _ _ (q & Hq & Hp)]. unfold log_inner. rewrite rd16_app by lia.
  change (0 + 22) with 22. rewrite Hq. cbn [mbind outcome_bind].
  by rewrite (proj2 (Z.eqb_neq _ _) Hp).
Qed.

Lemma reencrypt_run p r c w :
  inner_ok p → buffer_dst w = p ++ r → encrypt (key w) (nonce_org w) p = (0, c) →
  Z.of_nat (length c) ≤ data_end (buffer_final w) →
  esp_reencrypt encrypt (data_end p) w = Ret (inr (set_final (c ++ drop (length c) (buffer_final w)) w)).
Proof.
  intros Hin Hdst Henc Hf. pose proof Hin as [Hmin _ (b & Hb & Hproto) _]. unfold esp_reencrypt.
  rewrite Hdst. rewrite (exec_bind _ b) by (rewrite rd8_app by lia; done). cbv beta.
  assert (E : encrypt_back encrypt (data_end p) w = Ret (inr (set_final (c ++ drop (length c) (buffer_final w)) w))).
  { unfold encrypt_back. rewrite Hdst, (exec_bind _ p) by by apply rd_bytes_start. cbv beta.
    rewrite Henc. cbn [Z.eqb negb]. rewrite stop_if_false.
    by rewrite (exec_bind _ _ _ (wr_bytes_start _ _ Hf)). }
  destruct Hproto as [-> | ->]; cbn [Z.eqb IPPROTO_UDP IPPROTO_TCP Pos.eqb];
    by rewrite (exec_bind _ _ _ (log_inner_run p r _ Hin)).
Qed.

(** Putting the frame together again from an encryption that came out the
    same. *)
Lemma rebuild_run front h v c tag w r1 r2 len :
  length front = 34%nat → length h = 8%nat → length v = 16%nat → length tag = 16%nat →
  16 ≤ Z.of_nat (length c) → len = data_end (front ++ h ++ v ++ c ++ tag) →
  buffer_src w = c ++ r1 → buffer_final w = c ++ r2 → nonce_org w = v →
  24 ≤ data_end r1 → 32 ≤ data_end (buffer_dst w) →
  tag = take 16 (hmac (auth_key w) (h ++ v ++ c)) →
  esp_rebuild csum shash_alloc zalloc shash_setkey shash_digest hmac (front ++ h ++ v ++ c ++ tag) len w =
  (buf ← exec (ip_send_check csum (front ++ h ++ v ++ c ++ tag)); mret (Send buf)).
Proof.
  intros Lf Lh Lv Lt Hc Hlen Hsrc Hfin Hn Hr1 Hdst Htag. unfold esp_rebuild. rewrite Hsrc, Hfin, Hn.
  unfold data_end in Hr1.
  assert (Hpl : payloadlen len = Z.of_nat (length c)).
  { rewrite Hlen. unfold payloadlen, data_end. rewrite !length_app. lia. }
  rewrite Hpl. set (buf := front ++ h ++ v ++ c ++ tag).
  rewrite (exec_bind _ true).
  2: { unfold same_bytes. rewrite !rd_bytes_front by (unfold data_end; lia). cbn [mbind outcome_bind].
       by rewrite bool_decide_eq_true_2. }
  cbv beta. cbn [negb]. rewrite send_if_false.
  rewrite (exec_bind _ h) by (apply rd_bytes_at; lia). cbv beta.
  set (s0 := c ++ r1).
  assert (Ls0 : length s0 = (length c + length r1)%nat) by (subst s0; apply length_app).
  rewrite (exec_bind _ (h ++ drop 8 s0)).
  2: { rewrite wr_bytes_start by (unfold data_end; lia). by rewrite Lh. }
  cbv beta. rewrite (exec_bind _ (h ++ v ++ drop 24 s0)).
  2: { rewrite <-(take_drop 16 (drop 8 s0)). rewrite (wr_bytes_at h (take 16 (drop 8 s0)) v).
       - by rewrite drop_drop. - lia. - rewrite length_take, length_drop. lia. }
  cbv beta. rewrite (exec_bind _ c) by by apply rd_bytes_start. cbv beta.
  rewrite (exec_bind _ (h ++ v ++ c ++ drop (24 + length c) s0)).
  2: { rewrite <-(take_drop (length c) (drop 24 s0)). rewrite app_assoc.
       rewrite (wr_bytes_at (h ++ v) (take (length c) (drop 24 s0)) c).
       - by rewrite drop_drop, <-app_assoc.
       - rewrite length_app. lia.
       - rewrite length_take, length_drop. lia. }
  cbv beta. rewrite (exec_bind _ (h ++ v ++ c)).
  2: { rewrite !app_assoc. rewrite <-(app_assoc h v c), (app_assoc h v c). apply rd_bytes_start.
       rewrite !length_app. lia. }
  cbv beta. rewrite hmac_run. cbn [Z.eqb negb]. rewrite stop_if_false.
  pose proof (hw_hmac Hash (auth_key w) (h ++ v ++ c)) as Ld.
  rewrite (exec_bind _ (hmac (auth_key w) (h ++ v ++ c) ++ drop 32 (buffer_dst w))).
  2: { rewrite wr_bytes_start by lia. by rewrite Ld. }
  cbv beta. rewrite (exec_bind _ buf).
  2: { subst buf. rewrite !(app_assoc front), !(app_assoc (front ++ h)). apply wr_bytes_at; [|done].
       rewrite !length_app. lia. }
  cbv beta. rewrite (exec_bind _ tag).
  2: { rewrite rd_bytes_front by (unfold data_end; lia). by rewrite Htag. }
  cbv beta. rewrite (exec_bind _ buf).
  2: { subst buf. rewrite !(app_assoc front), !(app_assoc (front ++ h)), !(app_assoc ((front ++ h) ++ v)).
       apply wr_bytes_end; [|done]. rewrite !length_app. lia. }
  done.
Qed.

(** C21. The ESP stage is transparent for the frames it is made for: when the
    ciphertext is the encryption of an inner packet of UDP or TCP and the tag
    its digest, the frame that goes out is the one that came in, with the
    checksum of its IP header computed afresh. *)
Theorem esp_frame_transparent front h v p c tag x ak ek :
  has_keys x ak ek → skcipher_alloc = true → req_alloc = true → skcipher_setkey = 0 →
  length front = 34%nat → length h = 8%nat → length v = 16%nat →
  inner_ok p → encrypt ek v p = (0, c) → decrypt ek v c = (0, p) → length c = length p →
  tag = take 16 (hmac ak (h ++ v ++ c)) →
  let buf := front ++ h ++ v ++ c ++ tag in
  frame_of buf (data_end buf) x = (b ← ip_send_check csum buf; Ret (Send b)).
Proof.
  intros Hx Hs Hr Hk Lf Lh Lv Hin Henc Hdec Lc Htag buf.
  pose proof (hw_hmac Hash ak (h ++ v ++ c)) as Ld. pose proof (in_min _ Hin) as Hmin. unfold data_end in Hmin.
  assert (Lt : length tag = 16%nat) by (rewrite Htag, length_take; lia).
  assert (Hlen : data_end buf = 74 + Z.of_nat (length c)).
  { subst buf. unfold data_end. rewrite !length_app. lia. }
  unfold esp_frame. rewrite (prepare_run _ _ _ _ Hx) by lia. cbv zeta.
  set (size := (data_end buf - 34 - 8 - 16) * 8).
  assert (Hv : take 16 (drop 42 buf) = v).
  { subst buf. rewrite (app_assoc front), drop_app_length' by (rewrite length_app; lia).
    by rewrite take_app_length'. }
  rewrite Hv. set (w := mkWork _ _ _ _ _ _). change (Ret (inr w)) with (mret w : Esc work).
  assert (Hj : ∀ i, Z.of_nat (length (junk i size)) = size) by (intros i; apply (hw_junk Hash); lia).
  rewrite esc_ret_bind.
  assert (Eb : buf = front ++ (h ++ v ++ c) ++ tag) by (subst buf; by rewrite <-!app_assoc).
  rewrite Eb at 1. rewrite auth_run; [|done|done|by rewrite <-Eb|lia|cbn [buffer_src w]; apply Hj].
  rewrite bool_decide_eq_true_2 by done. rewrite <-Eb.
  assert (Hpl : payloadlen (data_end buf) = Z.of_nat (length c)) by (unfold payloadlen; lia).
  rewrite Hpl. rewrite (exec_bind _ c).
  2: { subst buf. rewrite !(app_assoc front), !(app_assoc (front ++ h)). apply rd_bytes_at; [|done].
       rewrite !length_app. lia. }
  cbv beta. set (s0 := hmac _ _ ++ drop 32 (buffer_src w)).
  assert (Ls0 : Z.of_nat (length s0) = size).
  { subst s0. rewrite length_app, length_drop. cbn [buffer_src w auth_key]. pose proof (Hj 0%nat). lia. }
  rewrite (exec_bind _ (c ++ drop (length c) s0)) by (apply wr_bytes_start; unfold data_end; lia).
  cbv beta. rewrite esc_ret_bind. unfold esp_decrypt. rewrite Hs, Hr, Hk. cbn [negb Z.eqb].
  rewrite !send_if_false, stop_if_false, Hpl. cbn [set_src buffer_src].
  rewrite (exec_bind _ c) by by apply rd_bytes_start. cbv beta. cbn [set_src key nonce_org w].
  rewrite Hdec. cbn [negb Z.eqb]. rewrite stop_if_false. cbn [set_src buffer_dst].
  rewrite (exec_bind _ (p ++ drop (length p) (junk 1 size))).
  2: { apply wr_bytes_start. unfold data_end. rewrite Hj. lia. }
  cbv beta. rewrite esc_ret_bind. cbn [set_dst buffer_dst].
  rewrite (exec_bind _ _ _ (padded_len_run p (drop (length p) (junk 1 size)) Hin)). cbv beta.
  set (w2 := set_dst _ _).
  rewrite (reencrypt_run p (drop (length p) (junk 1 size)) c w2); [|done..|].
  2: { cbn [buffer_final w2 set_dst set_src w]. unfold data_end. rewrite Hj. lia. }
  set (w3 := set_final _ w2). change (Ret (inr w3)) with (mret w3 : Esc work). rewrite esc_ret_bind.
  rewrite (rebuild_run front h v c tag w3 (drop (length c) s0) (drop (length c) (junk 2 size))); try done.
  - destruct (ip_send_check csum (front ++ h ++ v ++ c ++ tag)) eqn:E; subst buf; by rewrite E.
  - lia.
  - unfold data_end. rewrite length_drop. lia.
  - cbn [buffer_dst w3 w2 set_final set_dst]. unfold data_end. rewrite length_app, length_drop.
    pose proof (Hj 1%nat). lia.
Qed.
End granted.

(** ** Examples *)

Definition sample_hmac (k m : list Z) : list Z := replicate 32 (foldr Z.add 0 (k ++ m) mod 256).
Definition ecb (k v m : list Z) : Z * list Z := (0, m).

Abbreviation sample_frame := (esp_frame granted_all zero_mem no_sum granted_all granted_all
  (λ _, 0) (λ _, 0) sample_hmac true true 0 ecb ecb).

Lemma sample_hash_works :
  hash_works granted_all zero_mem granted_all granted_all (λ _, 0) (λ _, 0) sample_hmac.
Proof. split; try done. apply zero_mem_length. Qed.

Lemma sample_keys : has_keys sample_state (replicate 32 1) (replicate 32 2).
Proof. done. Qed.

Lemma sample_inner_ok : inner_ok sample_inner.
Proof.
  split; [by unfold data_end; simpl| | |].
  - exists 7680. by split_and!.
  - exists 17. split; [done|by left].
  - exists 13568. by split.
Qed.

Lemma esp_forged_forwarded_witness :
  sample_frame (sample_front ++ replicate 40 9) 74 sample_state = Ret (Send (sample_front ++ replicate 40 9)).
Proof.
  apply (esp_forged_forwarded _ _ no_sum _ _ _ _ _ true true 0 ecb ecb sample_hash_works
    (sample_front ++ replicate 40 9) _ _ _ sample_keys); vm_compute; discriminate.
Defined.

Lemma esp_short_frame_overruns_witness :
  sample_frame (sample_front ++ replicate 26 9) 60 sample_state = Fault OutOfBounds.
Proof.
  apply (esp_short_frame_overruns _ _ no_sum _ _ _ _ _ true true 0 ecb ecb sample_hash_works
    (sample_front ++ replicate 26 9) _ _ _ sample_keys).
  vm_compute. split; [discriminate|reflexivity].
Defined.

Lemma esp_frame_transparent_witness :
  let buf := sample_front ++ replicate 8 1 ++ replicate 16 2 ++ sample_inner ++
    take 16 (sample_hmac (replicate 32 1) (replicate 8 1 ++ replicate 16 2 ++ sample_inner)) in
  sample_frame buf (data_end buf) sample_state = (b ← ip_send_check no_sum buf; Ret (Send b)).
Proof.
  apply (esp_frame_transparent _ _ no_sum _ _ _ _ _ true true 0 ecb ecb sample_hash_works
    sample_front (replicate 8 1) (replicate 16 2) sample_inner sample_inner _ _ _ _ sample_keys);
    try reflexivity. apply sample_inner_ok.
Defined.
