(* ===== verification/KxfrmGcm.v ===== *)
(** * kxfrm/gcm: the ESP stage with AES-GCM

    A well-formed frame is taken apart and put together again. One whose tag does not
    open it is stopped, unless the request cannot be allocated: then it is sent on
    unopened. The last theorems are about transmission with this stage in front. *)

From Stdlib Require Import ZArith Lia.
From stdpp Require Import base tactics numbers list gmap.
From S2P Require Import Prelude Heap Packet Veth VethFlow VethOps Kdrivers Kxfrm.
Import Veth.
Local Open Scope Z_scope.

Module Gcm.
Section esp.
Context (km_ok : nat -> bool) (junk : nat -> Z -> list Z) (csum : list Z -> Z).
(** The AEAD API: whether the handle and the request are granted, what setting
    the tag size and the key return; and decryption and encryption under a key,
    an initialisation vector and associated data, with their error codes. *)
Context (aead_alloc req_alloc : bool) (aead_setauthsize aead_setkey : Z).
Context (decrypt encrypt : list Z -> list Z -> list Z -> list Z -> Z * list Z).

Record work := mkWork {
  key : list Z;
  nonce_org : list Z;
  buffer_src : list Z;
  buffer_dst : list Z;
  buffer_final : list Z;
}.

Definition set_src b w := mkWork (key w) (nonce_org w) b (buffer_dst w) (buffer_final w).
Definition set_dst b w := mkWork (key w) (nonce_org w) (buffer_src w) b (buffer_final w).
Definition set_final b w := mkWork (key w) (nonce_org w) (buffer_src w) (buffer_dst w) b.

Definition payloadlen (len : Z) : Z := len - 34 - 8 - 8 - 16.

(** The initialisation vector handed to the cipher: the nonce without its salt. *)
Definition iv (w : work) : list Z := drop 4 (nonce_org w).

Definition esp_prepare (buf : list Z) (len : Z) (x : xfrm_state) : Esc work :=
  let esplen := len - 34 - 8 - 8 in
  let buffer_size := esplen * 8 in
  exec (rd_bytes buf 34 8);;
  key ← exec (load_key 36 (aead_key x));
  iv ← exec (rd_bytes buf 42 8);
  salt ← exec (rd_bytes key 32 4);
  match kmalloc km_ok junk 0 buffer_size with
  | None => leave Stop
  | Some src =>
    match kmalloc km_ok junk 1 buffer_size with
    | None => leave Stop
    | Some dst =>
      match kmalloc km_ok junk 2 buffer_size with
      | None => leave Stop
      | Some final => mret (mkWork key (salt ++ iv) src dst final)
      end
    end
  end.

(** Associated data with the vector zeroed, ciphertext and tag. *)
Definition esp_load (buf : list Z) (len : Z) (w : work) : Esc work :=
  exec (rd_bytes buf (34 + 8 + 8 + payloadlen len) 4);;
  assoc ← exec (rd_bytes buf 34 (8 + 8));
  src ← exec (wr_bytes (buffer_src w) 0 assoc);
  src ← exec (wr_bytes src 8 (replicate 8 0));
  ct ← exec (rd_bytes buf (34 + 8 + 8) (payloadlen len));
  src ← exec (wr_bytes src (8 + 8) ct);
  tag ← exec (rd_bytes buf (34 + 8 + 8 + payloadlen len) 16);
  src ← exec (wr_bytes src (8 + 8 + payloadlen len) tag);
  mret (set_src src w).

Definition esp_decrypt (buf : list Z) (len : Z) (w : work) : Esc work :=
  stop_if (negb aead_alloc);;
  stop_if (negb (aead_setauthsize =? 0));;
  stop_if (negb (aead_setkey =? 0));;
  send_if (negb req_alloc) buf;;
  ad ← exec (rd_bytes (buffer_src w) 0 (8 + 8));
  ct ← exec (rd_bytes (buffer_src w) (8 + 8) (payloadlen len + 16));
  let '(err, pt) := decrypt (key w) (iv w) ad ct in
  stop_if (negb (err =? 0));;
  dst ← exec (wr_bytes (buffer_dst w) (8 + 8) pt);
  mret (set_dst dst w).

(** The loop that logs the padding: both counters move on each round. *)
Fixpoint log_pad (n : nat) (k pkt_len : Z) (dst : list Z) : outcome Z :=
  match n with
  | O => Ret pkt_len
  | S n => rd8 dst (8 + 8 + pkt_len + k) ≫= λ _, log_pad n (k + 1) (pkt_len + 1) dst
  end.

(** The length that the log compares with the one of the frame. *)
Definition esp_padded_len (len : Z) (dst : list Z) : outcome Z :=
  tot_len ← rd16 dst (8 + 8 + 2);
  rd_bytes dst (8 + 8 + 12) 8 ≫= λ _,
  pad_len ← rd8 dst (8 + 8 + payloadlen len - 2);
  rd8 dst (8 + 8 + payloadlen len - 1) ≫= λ _,
  pkt_len ← log_pad (Z.to_nat pad_len) 0 (bswap16 tot_len) dst;
  Ret (pkt_len + 2).

Definition encrypt_back (len : Z) (w : work) : Esc work :=
  assoc ← exec (rd_bytes (buffer_src w) 0 (8 + 8));
  dst ← exec (wr_bytes (buffer_dst w) 0 assoc);
  ad ← exec (rd_bytes dst 0 (8 + 8));
  pt ← exec (rd_bytes dst (8 + 8) (payloadlen len));
  let '(err, ct) := encrypt (key w) (iv w) ad pt in
  stop_if (negb (err =? 0));;
  final ← exec (wr_bytes (buffer_final w) (8 + 8) ct);
  mret (set_final final (set_dst dst w)).

Definition esp_reencrypt (len : Z) (w : work) : Esc work :=
  protocol ← exec (rd8 (buffer_dst w) (8 + 8 + 9));
  if protocol =? IPPROTO_UDP then
    exec (log_inner (buffer_dst w) (8 + 8) 8);; encrypt_back len w
  else if protocol =? IPPROTO_TCP then
    exec (log_inner (buffer_dst w) (8 + 8) 20);; encrypt_back len w
  else mret w.

Definition esp_rebuild (buf : list Z) (len : Z) (w : work) : Esc verdict :=
  same ← exec (same_bytes (buffer_src w) (8 + 8) (buffer_final w) (8 + 8) 16);
  send_if (negb same) buf;;
  same ← exec (same_bytes (buffer_src w) (8 + 8 + payloadlen len)
                 (buffer_final w) (8 + 8 + payloadlen len) 16);
  send_if (negb same) buf;;
  ct ← exec (rd_bytes (buffer_final w) (8 + 8) (payloadlen len));
  buf ← exec (wr_bytes buf (34 + 8 + 8) ct);
  tag ← exec (rd_bytes (buffer_final w) (8 + 8 + payloadlen len) 16);
  buf ← exec (wr_bytes buf (34 + 8 + 8 + payloadlen len) tag);
  buf ← exec (ip_send_check csum buf);
  mret (Send buf).

Definition esp_frame (buf : list Z) (len : Z) (x : xfrm_state) : outcome verdict :=
  verdict_of
    (w ← esp_prepare buf len x;
     w ← esp_load buf len w;
     w ← esp_decrypt buf len w;
     _ ← exec (esp_padded_len len (buffer_dst w));
     w ← esp_reencrypt len w;
     esp_rebuild buf len w).
End esp.
End Gcm.

(** The driver functions, whose text is that of kxfrm/cbc/kxfrm.c. *)
Module GcmDriver.
Section driver.
Context (esp_frame : list Z -> Z -> xfrm_state -> outcome verdict).
Context (lookup_byspi : Z -> option xfrm_state).
Context (mem_ok : nat -> bool) (fresh_data : nat -> list Z).
Context (lockup : Z) (pool_size : nat).

Definition kxfrm_setup_pool := dummveth_setup_pool mem_ok fresh_data pool_size.
Definition kxfrm_teardown_pool := dummveth_teardown_pool.
Definition kxfrm_tx_reserve_buffer := dummveth_get_tx_buffer.
Definition kxfrm_tx_release_buffer := dummveth_release_buffer.
Definition kxfrm_rx_prod_buf := dummveth_enqueue_buf.
Definition kxfrm_rx_cons_buf := dummveth_dequeue_buf.
Definition kxfrm_rx_ints := dummveth_rx_ints.
Definition kxfrm_napi_interrupt := dummveth_napi_interrupt.
Definition kxfrm_poll := dummveth_poll mem_ok.
Definition kxfrm_send := loop_back mem_ok true lockup.
Definition kxfrm_open := open_with [75; 88; 70; 82; 77].
Definition kxfrm_stop := stop_always.
Definition kxfrm_tx_timeout := dummveth_tx_timeout mem_ok fresh_data true pool_size.
Definition kxfrm_setup := dummveth_setup mem_ok fresh_data pool_size.
Definition kxfrm_init_module := dummveth_init_module.
Definition kxfrm_cleanup_module := dummveth_cleanup_module.
End driver.
End GcmDriver.
Import Gcm.

(** ** When the kernel grants what is asked for *)

Section granted.
Context (km_ok : nat -> bool) (junk : nat -> Z -> list Z) (csum : list Z -> Z).
Context (aead_alloc req_alloc : bool) (aead_setauthsize aead_setkey : Z).
Context (decrypt encrypt : list Z -> list Z -> list Z -> list Z -> Z * list Z).

(** Allocations succeed and have the size asked for, and the cipher API returns
    no error before it is run. *)
Record aead_works : Prop := {
  aw_kmalloc i : km_ok i = true;
  aw_junk i n : 0 ≤ n → Z.of_nat (length (junk i n)) = n;
  aw_alloc : aead_alloc = true;
  aw_req : req_alloc = true;
  aw_authsize : aead_setauthsize = 0;
  aw_setkey : aead_setkey = 0;
}.

Abbreviation prepare := (esp_prepare km_ok junk).
Abbreviation frame_of := (esp_frame km_ok junk csum aead_alloc req_alloc aead_setauthsize aead_setkey
  decrypt encrypt).

(** The three buffers are granted. *)
Definition buffers_granted : bool := km_ok 0%nat && km_ok 1%nat && km_ok 2%nat.

Lemma works_granted : aead_works → buffers_granted = true.
Proof. intros Aead. unfold buffers_granted. by rewrite !(aw_kmalloc Aead). Qed.

(** The first steps, by what the allocator grants. *)
Lemma gcm_prepare_run buf x k :
  aead_key x = Some k → length k = 36%nat → 50 ≤ data_end buf →
  let size := (data_end buf - 34 - 8 - 8) * 8 in
  prepare buf (data_end buf) x =
  Ret (if buffers_granted
       then inr (mkWork k (drop 32 k ++ take 8 (drop 42 buf)) (junk 0 size) (junk 1 size) (junk 2 size))
       else inl Stop).
Proof.
  intros Ek Lk Hlen. unfold esp_prepare.
  rewrite (exec_bind _ _ _ (rd_bytes_in buf 34 8 ltac:(lia) ltac:(lia) ltac:(lia))). cbv beta.
  rewrite Ek. rewrite (exec_bind _ k).
  2: { unfold load_key. rewrite <-(app_nil_r k) at 1. apply rd_bytes_start. lia. }
  cbv beta. rewrite (exec_bind _ _ _ (rd_bytes_in buf 42 8 ltac:(lia) ltac:(lia) ltac:(lia))). cbv beta.
  rewrite (exec_bind _ (drop 32 k)).
  2: { rewrite <-(take_drop 32 k) at 1. apply rd_bytes_end; rewrite ?length_take, ?length_drop; lia. }
  cbv beta. unfold kmalloc, buffers_granted.
  rewrite (proj2 (Z.ltb_ge ((data_end buf - 34 - 8 - 8) * 8) 0)) by lia.
  by destruct (km_ok 0), (km_ok 1), (km_ok 2).
Qed.

(** The source buffer of a whole frame. *)
Lemma load_run front h v c tag w len :
  length front = 34%nat → length h = 8%nat → length v = 8%nat → length tag = 16%nat →
  len = data_end (front ++ h ++ v ++ c ++ tag) →
  data_end (buffer_src w) = (Z.of_nat (length c) + 16) * 8 →
  esp_load (front ++ h ++ v ++ c ++ tag) len w =
  Ret (inr (set_src (h ++ replicate 8 0 ++ c ++ tag ++ drop (32 + length c) (buffer_src w)) w)).
Proof.
  intros Lf Lh Lv Lt Hlen Hs. unfold data_end in Hs. unfold esp_load.
  assert (Hpl : payloadlen len = Z.of_nat (length c)).
  { rewrite Hlen. unfold payloadlen, data_end. rewrite !length_app. lia. }
  rewrite Hpl. set (s0 := buffer_src w) in *.
  assert (Hfour : 34 + 8 + 8 + Z.of_nat (length c) = Z.of_nat (length (front ++ h ++ v ++ c)))
    by (rewrite !length_app; lia).
  assert (Eb : front ++ h ++ v ++ c ++ tag = (front ++ h ++ v ++ c) ++ tag) by by rewrite <-!app_assoc.
  rewrite (exec_bind _ (take 4 tag)).
  2: { rewrite Eb, Hfour. rewrite <-(take_drop 4 tag) at 1. apply rd_bytes_at; [done|].
       rewrite length_take. lia. }
  cbv beta. rewrite (exec_bind _ (h ++ v)).
  2: { rewrite (app_assoc h v). apply rd_bytes_at; rewrite ?length_app; lia. }
  cbv beta. rewrite (exec_bind _ (h ++ v ++ drop 16 s0)).
  2: { rewrite wr_bytes_start by (unfold data_end; rewrite length_app; lia).
       rewrite length_app, Lh, Lv. by rewrite <-app_assoc. }
  cbv beta. rewrite (exec_bind _ (h ++ replicate 8 0 ++ drop 16 s0)).
  2: { apply wr_bytes_at; [lia|by rewrite length_replicate]. }
  cbv beta. rewrite (exec_bind _ c).
  2: { rewrite !(app_assoc front), !(app_assoc (front ++ h)). apply rd_bytes_at; [|done].
       rewrite !length_app. lia. }
  cbv beta. rewrite (exec_bind _ (h ++ replicate 8 0 ++ c ++ drop (16 + length c) s0)).
  2: { rewrite <-(take_drop (length c) (drop 16 s0)), drop_drop, !(app_assoc h).
       apply wr_bytes_at; [rewrite length_app, length_replicate; lia|].
       rewrite length_take, length_drop. lia. }
  cbv beta. rewrite (exec_bind _ tag).
  2: { rewrite Eb, Hfour. apply rd_bytes_end; lia. }
  cbv beta. erewrite exec_bind; [done|].
  rewrite <-(take_drop 16 (drop (16 + length c) s0)), drop_drop, !(app_assoc h), !(app_assoc (h ++ _)).
  replace (16 + length c + 16)%nat with (32 + length c)%nat by lia.
  rewrite <-!(app_assoc (h ++ replicate 8 0) c).
  rewrite <-!(app_assoc h). rewrite !(app_assoc h), !(app_assoc (h ++ replicate 8 0)).
  apply wr_bytes_at; [rewrite !length_app, length_replicate; lia|]. rewrite length_take, length_drop. lia.
Qed.

(** What the AEAD is given for a frame. *)
Abbreviation opened k v h c tag := (decrypt k v (h ++ replicate 8 0) (c ++ tag)).

(** The state after the frame is loaded. *)
Lemma frame_of_loaded front h v c tag x k :
  buffers_granted = true → (∀ i n, 0 ≤ n → Z.of_nat (length (junk i n)) = n) →
  aead_key x = Some k → length k = 36%nat →
  length front = 34%nat → length h = 8%nat → length v = 8%nat → length tag = 16%nat →
  let buf := front ++ h ++ v ++ c ++ tag in
  let size := (data_end buf - 34 - 8 - 8) * 8 in
  ∃ w r, buffer_src w = h ++ replicate 8 0 ++ c ++ tag ++ r ∧ key w = k ∧ iv w = v ∧
    buffer_dst w = junk 1 size ∧ buffer_final w = junk 2 size ∧
    frame_of buf (data_end buf) x = verdict_of
      (w ← esp_decrypt aead_alloc req_alloc aead_setauthsize aead_setkey decrypt buf (data_end buf) w;
       _ ← exec (esp_padded_len (data_end buf) (buffer_dst w));
       w ← esp_reencrypt encrypt (data_end buf) w;
       esp_rebuild csum buf (data_end buf) w).
Proof.
  intros Hg Hjunk Ek Lk Lf Lh Lv Lt buf size.
  assert (Hlen : data_end buf = 66 + Z.of_nat (length c)).
  { subst buf. unfold data_end. rewrite !length_app. lia. }
  unfold esp_frame. rewrite (gcm_prepare_run _ _ _ Ek Lk) by lia. cbv zeta. fold size. rewrite Hg.
  set (w := mkWork _ _ _ _ _). change (Ret (inr w)) with (mret w : Esc work). rewrite esc_ret_bind.
  subst buf. rewrite (load_run front h v c tag w); try done.
  2: { unfold data_end at 1. cbn [buffer_src w]. rewrite Hjunk; subst size; lia. }
  exists (set_src (h ++ replicate 8 0 ++ c ++ tag ++ drop (32 + length c) (buffer_src w)) w),
    (drop (32 + length c) (buffer_src w)). split; [done|]. split; [done|]. split.
  { unfold iv. cbn [set_src nonce_org w]. rewrite drop_app_length' by (rewrite length_drop; lia).
    rewrite (app_assoc front), drop_app_length' by (rewrite length_app; lia). by rewrite take_app_length'. }
  split; [done|]. split; done.
Qed.

(** What decryption does with a loaded frame, by what the crypto API grants. *)
Lemma decrypt_run buf h c tag r w len :
  length h = 8%nat → length tag = 16%nat → payloadlen len = Z.of_nat (length c) →
  buffer_src w = h ++ replicate 8 0 ++ c ++ tag ++ r →
  esp_decrypt aead_alloc req_alloc aead_setauthsize aead_setkey decrypt buf len w =
  (stop_if (negb (aead_alloc && (aead_setauthsize =? 0) && (aead_setkey =? 0)));;
  send_if (negb req_alloc) buf;;
  let '(err, pt) := opened (key w) (iv w) h c tag in
  stop_if (negb (err =? 0));;
  dst ← exec (wr_bytes (buffer_dst w) (8 + 8) pt);
  mret (set_dst dst w)).
Proof.
  intros Lh Lt Hpl Hs. unfold esp_decrypt.
  destruct aead_alloc, (aead_setauthsize =? 0), (aead_setkey =? 0), req_alloc; try done.
  cbn [negb andb]. do 4 (rewrite stop_if_false; cbv beta). rewrite !send_if_false, Hs, Hpl.
  rewrite (exec_bind _ (h ++ replicate 8 0)).
  2: { rewrite (app_assoc h). apply rd_bytes_start. rewrite length_app, length_replicate. lia. }
  cbv beta. rewrite (exec_bind _ (c ++ tag)); [done|].
  rewrite (app_assoc h), (app_assoc c). apply rd_bytes_at; rewrite ?length_app, ?length_replicate; lia.
Qed.

(** A forged frame, by what the kernel grants. *)
Lemma gcm_forged_run front h v c tag x k err p :
  (∀ i n, 0 ≤ n → Z.of_nat (length (junk i n)) = n) →
  aead_key x = Some k → length k = 36%nat →
  length front = 34%nat → length h = 8%nat → length v = 8%nat → length tag = 16%nat →
  opened k v h c tag = (err, p) → err ≠ 0 →
  let buf := front ++ h ++ v ++ c ++ tag in
  let ready := buffers_granted && aead_alloc && (aead_setauthsize =? 0) && (aead_setkey =? 0) in
  frame_of buf (data_end buf) x = Ret (if ready && negb req_alloc then Send buf else Stop).
Proof.
  intros Hjunk Ek Lk Lf Lh Lv Lt Hop He buf ready. subst ready.
  destruct buffers_granted eqn:Hg.
  2: { unfold esp_frame. rewrite (gcm_prepare_run _ _ _ Ek Lk); [by rewrite Hg|].
    subst buf. unfold data_end. rewrite !length_app. lia. }
  destruct (frame_of_loaded front h v c tag x k) as (w & r & Hs & Hk & Hv & _ & _ & E); try done.
  subst buf. rewrite E, (decrypt_run _ h c tag r); [|done..| |done].
  2: { unfold payloadlen, data_end. rewrite !length_app. lia. }
  rewrite Hk, Hv, Hop, (proj2 (Z.eqb_neq _ _) He). cbn [andb negb].
  by destruct aead_alloc, (aead_setauthsize =? 0), (aead_setkey =? 0), req_alloc.
Qed.

(** C32. With AES-GCM a frame whose tag does not open the ciphertext under the key of the
    state is stopped, whatever the kernel grants, with one exception: when everything
    is granted but the request of the decryption, the frame is sent on unopened. *)
Theorem gcm_forged_verdict front h v c tag x k err p :
  (∀ i n, 0 ≤ n → Z.of_nat (length (junk i n)) = n) →
  aead_key x = Some k → length k = 36%nat →
  length front = 34%nat → length h = 8%nat → length v = 8%nat → length tag = 16%nat →
  opened k v h c tag = (err, p) → err ≠ 0 →
  let buf := front ++ h ++ v ++ c ++ tag in
  let verdict := esp_frame km_ok junk csum aead_alloc req_alloc aead_setauthsize
    aead_setkey decrypt encrypt buf (data_end buf) x in
  (req_alloc = true → verdict = Ret Stop) ∧
  (req_alloc = false → verdict = Ret Stop ∨ verdict = Ret (Send buf)) ∧
  (verdict = Ret (Send buf) ↔
   (km_ok 0%nat = true ∧ km_ok 1%nat = true ∧ km_ok 2%nat = true) ∧ aead_alloc = true ∧
   aead_setauthsize = 0 ∧ aead_setkey = 0 ∧ req_alloc = false).
Proof.
  intros Hjunk Ek Lk Lf Lh Lv Lt Hop He buf verdict.
  assert (verdict = _) as -> by (by apply (gcm_forged_run front h v c tag x k err p)).
  unfold buffers_granted. fold buf.
  destruct (Z.eqb_spec aead_setauthsize 0), (Z.eqb_spec aead_setkey 0);
    destruct (km_ok 0), (km_ok 1), (km_ok 2), aead_alloc, req_alloc; cbn [andb negb];
    split_and!; first [done|by left|by right|naive_solver].
Qed.

Hypothesis Aead : aead_works.

(** An ESP frame of 60 to 65 bytes, too short for its own tag, makes the copy
    of the ciphertext one of a negative length: the driver faults before it has
    authenticated anything. *)
Theorem gcm_short_frame_faults buf x k :
  aead_key x = Some k → length k = 36%nat → 60 ≤ data_end buf < 66 →
  frame_of buf (data_end buf) x = Fault OutOfBounds.
Proof.
  intros Ek Lk Hlen. unfold esp_frame. rewrite (gcm_prepare_run _ _ _ Ek Lk) by lia. cbv zeta.
  rewrite (works_granted Aead).
  set (w := mkWork _ _ _ _ _). change (Ret (inr w)) with (mret w : Esc work). rewrite esc_ret_bind.
  unfold esp_load. unfold payloadlen at 1.
  rewrite (exec_bind _ _ _ (rd_bytes_in buf (34 + 8 + 8 + (data_end buf - 34 - 8 - 8 - 16)) 4
    ltac:(lia) ltac:(lia) ltac:(lia))). cbv beta.
  rewrite (exec_bind _ _ _ (rd_bytes_in buf 34 (8 + 8) ltac:(lia) ltac:(lia) ltac:(lia))). cbv beta.
  set (assoc := take _ _). assert (La : length assoc = 16%nat).
  { subst assoc. unfold data_end in Hlen. rewrite length_take, length_drop. lia. }
  assert (Ls : Z.of_nat (length (buffer_src w)) = (data_end buf - 34 - 8 - 8) * 8)
    by (apply (aw_junk Aead); lia).
  rewrite (exec_bind _ (assoc ++ drop 16 (buffer_src w))).
  2: { rewrite wr_bytes_start by (unfold data_end at 1; lia). by rewrite La. }
  cbv beta. erewrite exec_bind.
  2: { apply wr_bytes_in; [lia|]. unfold data_end at 1. rewrite length_app, length_drop, length_replicate. lia. }
  cbv beta.
  assert (E : rd_bytes buf (34 + 8 + 8) (payloadlen (data_end buf)) = Fault OutOfBounds).
  { unfold rd_bytes. rewrite decide_False; [done|]. unfold payloadlen. lia. }
  by rewrite E.
Qed.

(** A decapsulated packet: an IPv4 packet of UDP or TCP, not to port 9999, with
    the padding its trailer says. *)
Record inner_ok (p : list Z) : Prop := {
  in_min : 32 ≤ data_end p;
  in_len : ∃ t n, rd16 p 2 = Ret t ∧ 0 ≤ bswap16 t ∧ rd8 p (data_end p - 2) = Ret n ∧ 0 ≤ n ∧
    data_end p = bswap16 t + n + 2;
  in_proto : ∃ b, rd8 p 9 = Ret b ∧ (b = IPPROTO_UDP ∨ b = IPPROTO_TCP);
  in_port : ∃ q, rd16 p 22 = Ret q ∧ bswap16 q ≠ 9999;
}.

Lemma log_pad_run n : ∀ k t d,
  0 ≤ k → 0 ≤ t → 16 + t + k + 2 * Z.of_nat n ≤ data_end d →
  log_pad n k t d = Ret (t + Z.of_nat n).
Proof.
  induction n as [|n IH]; intros k t d Hk Ht Hd; [by rewrite Z.add_0_r|]. cbn [log_pad].
  destruct (rd8_in d (8 + 8 + t + k)) as (v & -> & _); [lia|]. cbn [mbind outcome_bind].
  rewrite IH by lia. f_equal. lia.
Qed.

Lemma gcm_padded_len_run a p r len :
  inner_ok p → length a = 16%nat → payloadlen len = data_end p → 3 * data_end p ≤ data_end (a ++ p ++ r) →
  ∃ n, esp_padded_len len (a ++ p ++ r) = Ret n.
Proof.
  intros [Hmin (t & n & Ht & HT & Hn & Hn0 & Hend) _ _] La Hpl Hroom. unfold esp_padded_len.
  rewrite Hpl. change (8 + 8 + 2) with (Z.of_nat 16 + 2). change (8 + 8 + 12) with (Z.of_nat 16 + 12).
  replace (8 + 8 + data_end p - 2) with (Z.of_nat 16 + (data_end p - 2)) by lia.
  rewrite <-La. rewrite rd16_mid by lia. rewrite Ht. cbn [mbind outcome_bind].
  rewrite rd_bytes_in by (rewrite ?La; lia). cbn [mbind outcome_bind].
  rewrite rd8_mid by lia. rewrite Hn. cbn [mbind outcome_bind].
  destruct (rd8_in (a ++ p ++ r) (8 + 8 + data_end p - 1)) as (b & -> & _); [lia|].
  cbn [mbind outcome_bind]. rewrite log_pad_run by lia. cbn [mbind outcome_bind]. eauto.
Qed.

Lemma gcm_log_inner_run a p r o : inner_ok p → length a = 16%nat → log_inner (a ++ p ++ r) (8 + 8) o = Ret tt.
Proof.
  intros [Hmin _ _ (q & Hq & Hp)] La. unfold log_inner. change (8 + 8 + 22) with (Z.of_nat 16 + 22).
  rewrite <-La, rd16_mid by lia. rewrite Hq. cbn [mbind outcome_bind].
  by rewrite (proj2 (Z.eqb_neq _ _) Hp).
Qed.

Lemma gcm_reencrypt_run a p r h c tag r1 w len :
  inner_ok p → length a = 16%nat → length h = 8%nat → payloadlen len = data_end p →
  buffer_dst w = a ++ p ++ r → buffer_src w = h ++ replicate 8 0 ++ r1 →
  encrypt (key w) (iv w) (h ++ replicate 8 0) p = (0, c ++ tag) →
  16 + Z.of_nat (length (c ++ tag)) ≤ data_end (buffer_final w) →
  ∃ w' b r2, esp_reencrypt encrypt len w = Ret (inr w') ∧ buffer_src w' = buffer_src w ∧
    buffer_final w' = b ++ (c ++ tag) ++ r2 ∧ length b = 16%nat.
Proof.
  intros Hin La Lh Hpl Hd Hs Henc Hf. pose proof Hin as [Hmin _ (pr & Hpr & Hproto) _].
  destruct (wr_bytes_into (buffer_final w) (8 + 8) (c ++ tag)) as (b & r2 & Hw & Lb & _); [lia..|].
  assert (E : ∃ w', encrypt_back encrypt len w = Ret (inr w') ∧ buffer_src w' = buffer_src w ∧
    buffer_final w' = b ++ (c ++ tag) ++ r2).
  { unfold encrypt_back. rewrite Hs, Hd, Hpl, (exec_bind _ (h ++ replicate 8 0)).
    2: { rewrite (app_assoc h). apply rd_bytes_start. rewrite length_app, length_replicate. lia. }
    cbv beta. rewrite (exec_bind _ ((h ++ replicate 8 0) ++ p ++ r)).
    2: { apply wr_bytes_prefix. rewrite length_app, length_replicate. lia. }
    cbv beta. rewrite (exec_bind _ (h ++ replicate 8 0)).
    2: { apply rd_bytes_start. rewrite length_app, length_replicate. lia. }
    cbv beta. rewrite (exec_bind _ p).
    2: { apply rd_bytes_at; [|done]. rewrite length_app, length_replicate. lia. }
    cbv beta. rewrite Henc. cbn [Z.eqb negb]. rewrite stop_if_false, (exec_bind _ _ _ Hw).
    eexists. split; [done|]. done. }
  destruct E as (w' & E & Hs' & Hf'). exists w', b, r2.
  assert (E2 : esp_reencrypt encrypt len w = encrypt_back encrypt len w).
  { unfold esp_reencrypt. rewrite Hd, (exec_bind _ pr).
    2: { change (8 + 8 + 9) with (Z.of_nat 16 + 9). rewrite <-La, rd8_mid by lia. done. }
    cbv beta. destruct Hproto as [-> | ->]; cbn [Z.eqb IPPROTO_UDP IPPROTO_TCP Pos.eqb];
      by rewrite (exec_bind _ _ _ (gcm_log_inner_run a p r _ Hin La)). }
  rewrite E2. split_and!; [done..|lia].
Qed.

Lemma gcm_rebuild_run front h v c tag b r1 r2 w len :
  length front = 34%nat → length h = 8%nat → length v = 8%nat → length tag = 16%nat →
  16 ≤ Z.of_nat (length c) → payloadlen len = Z.of_nat (length c) → length b = 16%nat →
  buffer_src w = h ++ replicate 8 0 ++ c ++ tag ++ r1 → buffer_final w = b ++ (c ++ tag) ++ r2 →
  esp_rebuild csum (front ++ h ++ v ++ c ++ tag) len w =
  (buf ← exec (ip_send_check csum (front ++ h ++ v ++ c ++ tag)); mret (Send buf)).
Proof.
  intros Lf Lh Lv Lt Hc Hpl Lb Hs Hf. unfold esp_rebuild. rewrite Hs, Hf, Hpl.
  set (a := h ++ replicate 8 0). assert (La : length a = 16%nat)
    by (subst a; rewrite length_app, length_replicate; lia).
  rewrite (app_assoc h (replicate 8 0)). fold a. rewrite <-(app_assoc c tag r2).
  assert (Hmid : ∀ (u : list Z) q, length u = 16%nat → rd_bytes (u ++ c ++ q) (8 + 8) 16 = Ret (take 16 c)).
  { intros u q Lu. rewrite <-(take_drop 16 c) at 1. rewrite <-app_assoc. apply rd_bytes_at; [lia|].
    rewrite length_take. lia. }
  assert (Htag : ∀ (u : list Z) q, length u = 16%nat →
    rd_bytes (u ++ c ++ tag ++ q) (8 + 8 + Z.of_nat (length c)) 16 = Ret tag).
  { intros u q Lu. rewrite (app_assoc u). apply rd_bytes_at; rewrite ?length_app; lia. }
  assert (Hct : rd_bytes (b ++ c ++ tag ++ r2) (8 + 8) (Z.of_nat (length c)) = Ret c)
    by (apply rd_bytes_at; lia).
  rewrite (exec_bind _ true).
  2: { unfold same_bytes. rewrite !Hmid by done. cbn [mbind outcome_bind]. by rewrite bool_decide_eq_true_2. }
  cbv beta. cbn [negb]. rewrite send_if_false. rewrite (exec_bind _ true).
  2: { unfold same_bytes. rewrite !Htag by done. cbn [mbind outcome_bind]. by rewrite bool_decide_eq_true_2. }
  cbv beta. cbn [negb]. rewrite send_if_false, (exec_bind _ _ _ Hct). cbv beta.
  rewrite (exec_bind _ (front ++ h ++ v ++ c ++ tag)).
  2: { rewrite !(app_assoc front), !(app_assoc (front ++ h)). apply wr_bytes_at; [|done].
       rewrite !length_app. lia. }
  cbv beta. rewrite (exec_bind _ _ _ (Htag b r2 Lb)). cbv beta.
  rewrite (exec_bind _ (front ++ h ++ v ++ c ++ tag)); [done|].
  rewrite !(app_assoc front), !(app_assoc (front ++ h)), !(app_assoc ((front ++ h) ++ v)).
  apply wr_bytes_end; [|done]. rewrite !length_app. lia.
Qed.

(** A whole frame of an inner packet. *)
Lemma gcm_frame_run front h v p c tag x k b :
  aead_key x = Some k → length k = 36%nat →
  length front = 34%nat → length h = 8%nat → length v = 8%nat → length tag = 16%nat →
  inner_ok p → length c = length p → opened k v h c tag = (0, p) →
  encrypt k v (h ++ replicate 8 0) p = (0, c ++ tag) →
  let buf := front ++ h ++ v ++ c ++ tag in
  ip_send_check csum buf = Ret b → frame_of buf (data_end buf) x = Ret (Send b).
Proof.
  intros Ek Lk Lf Lh Lv Lt Hin Lc Hdec Henc buf Hb. pose proof (in_min _ Hin) as Hmin. unfold data_end in Hmin.
  destruct (frame_of_loaded front h v c tag x k) as (w & r & Hs & Hk & Hv & Hd & Hf & E);
    [by apply works_granted|apply (aw_junk Aead)|done..|].
  subst buf. rewrite E. clear E. set (buf := front ++ h ++ v ++ c ++ tag) in *.
  assert (Hlen : data_end buf = 66 + Z.of_nat (length c)).
  { subst buf. unfold data_end. rewrite !length_app. lia. }
  set (size := (data_end buf - 34 - 8 - 8) * 8) in *.
  assert (Hj : ∀ i, data_end (junk i size) = size) by (intros i; apply (aw_junk Aead); lia).
  assert (Hpl : payloadlen (data_end buf) = Z.of_nat (length c)) by (unfold payloadlen; lia).
  rewrite (decrypt_run _ h c tag r) by done. rewrite Hk, Hv, Hdec.
  rewrite (aw_alloc Aead), (aw_req Aead), (aw_authsize Aead), (aw_setkey Aead). cbn [negb andb Z.eqb].
  rewrite stop_if_false, send_if_false, stop_if_false, Hd.
  destruct (wr_bytes_into (junk 1 size) (8 + 8) p) as (a & r0 & Hw & La & He); [lia|rewrite Hj; lia|].
  rewrite (exec_bind _ _ _ Hw). cbv beta. rewrite esc_ret_bind. cbn [set_dst buffer_dst].
  destruct (gcm_padded_len_run a p r0 (data_end buf)) as [n Hn]; [done|lia|unfold data_end at 2; lia| |].
  { rewrite He, Hj. unfold data_end at 1. lia. }
  rewrite (exec_bind _ _ _ Hn). cbv beta.
  destruct (gcm_reencrypt_run a p r0 h c tag (c ++ tag ++ r) (set_dst (a ++ p ++ r0) w) (data_end buf))
    as (w' & b' & r2 & E & Hs' & Hf' & Lb); try done.
  - lia.
  - unfold data_end at 2. lia.
  - cbn [set_dst key]. unfold iv. cbn [set_dst nonce_org]. fold (iv w). by rewrite Hk, Hv.
  - cbn [set_dst buffer_final]. rewrite Hf, Hj, length_app. lia.
  - rewrite E. change (Ret (inr w')) with (mret w' : Esc work). rewrite esc_ret_bind. subst buf.
    rewrite (gcm_rebuild_run front h v c tag b' r r2 w'); try done; [|lia|by rewrite Hs'].
    by rewrite Hb.
Qed.

Lemma gcm_buf_long front h v p c tag :
  length front = 34%nat → length h = 8%nat → length v = 8%nat → length tag = 16%nat →
  inner_ok p → length c = length p → 98 ≤ data_end (front ++ h ++ v ++ c ++ tag).
Proof.
  intros Lf Lh Lv Lt Hin Lc. pose proof (in_min _ Hin) as Hmin. unfold data_end in *.
  rewrite !length_app. lia.
Qed.

(** C25. The GCM stage is transparent as well: a frame whose ciphertext and tag
    are the encryption of an inner packet of UDP or TCP goes out as it came in,
    with the checksum of its IP header computed afresh. *)
Theorem gcm_frame_transparent front h v p c tag x k :
  aead_key x = Some k → length k = 36%nat →
  length front = 34%nat → length h = 8%nat → length v = 8%nat → length tag = 16%nat →
  inner_ok p → length c = length p → opened k v h c tag = (0, p) →
  encrypt k v (h ++ replicate 8 0) p = (0, c ++ tag) →
  let buf := front ++ h ++ v ++ c ++ tag in
  frame_of buf (data_end buf) x = (b ← ip_send_check csum buf; Ret (Send b)).
Proof.
  intros Ek Lk Lf Lh Lv Lt Hin Lc Hdec Henc buf.
  pose proof (gcm_buf_long front h v p c tag Lf Lh Lv Lt Hin Lc) as Hlong.
  destruct (send_check_run csum buf) as (b & Hb & _); [subst buf; lia|].
  rewrite Hb. by apply (gcm_frame_run front h v p c tag x k).
Qed.

End granted.

(** ** Examples *)

(** The tag is sixteen times the sum of what is authenticated. *)
Definition sample_tag (k v ad p : list Z) : list Z := replicate 16 (foldr Z.add 0 (k ++ v ++ ad ++ p) mod 256).
Definition seal (k v ad p : list Z) : Z * list Z := (0, p ++ sample_tag k v ad p).
Definition unseal (k v ad c : list Z) : Z * list Z :=
  let p := take (length c - 16) c in
  if bool_decide (drop (length c - 16) c = sample_tag k v ad p) then (0, p) else (-74, []).

Abbreviation sample_frame := (esp_frame granted_all zero_mem no_sum true true 0 0 unseal seal).

Lemma sample_aead_works : aead_works granted_all zero_mem true true 0 0.
Proof. split; try done. apply zero_mem_length. Qed.

Lemma sample_inner_gcm : inner_ok sample_inner.
Proof.
  split; [by unfold data_end; simpl| | |].
  - exists 7680, 0. by split_and!.
  - exists 17. split; [done|by left].
  - exists 13568. by split.
Qed.

Lemma gcm_short_frame_faults_witness :
  sample_frame (sample_front ++ replicate 26 9) 60 sample_state = Fault OutOfBounds.
Proof.
  apply (gcm_short_frame_faults _ _ no_sum _ _ _ _ unseal seal sample_aead_works
    (sample_front ++ replicate 26 9) _ (replicate 36 3)); try reflexivity.
  vm_compute. split; [discriminate|reflexivity].
Defined.

Abbreviation forged_frame :=
  (sample_front ++ replicate 8 1 ++ replicate 8 2 ++ sample_inner ++ replicate 16 5).

Lemma gcm_forged_verdict_witness :
  sample_frame forged_frame (data_end forged_frame) sample_state = Ret Stop ∧
  esp_frame granted_all zero_mem no_sum true false 0 0 unseal seal forged_frame
    (data_end forged_frame) sample_state = Ret (Send forged_frame).
Proof.
  split.
  - apply (gcm_forged_verdict granted_all zero_mem no_sum true true 0 0 unseal seal sample_front
      (replicate 8 1) (replicate 8 2) sample_inner (replicate 16 5) sample_state (replicate 36 3) (-74) []);
      (done || apply zero_mem_length).
  - apply (gcm_forged_verdict granted_all zero_mem no_sum true false 0 0 unseal seal sample_front
      (replicate 8 1) (replicate 8 2) sample_inner (replicate 16 5) sample_state (replicate 36 3) (-74) []);
      (done || apply zero_mem_length).
Defined.

Lemma gcm_frame_transparent_witness :
  let tag := sample_tag (replicate 36 3) (replicate 8 2) (replicate 8 1 ++ replicate 8 0) sample_inner in
  let buf := sample_front ++ replicate 8 1 ++ replicate 8 2 ++ sample_inner ++ tag in
  sample_frame buf (data_end buf) sample_state = (b ← ip_send_check no_sum buf; Ret (Send b)).
Proof.
  apply (gcm_frame_transparent _ _ no_sum _ _ _ _ unseal seal sample_aead_works sample_front
    (replicate 8 1) (replicate 8 2) sample_inner sample_inner _ _ (replicate 36 3)); try reflexivity.
  apply sample_inner_gcm.
Defined.

