(* ===== verification/TenK.v ===== *)
(** * The ten-thousand-connections server and client ([var-ten-k])

    [tenk.c] serves the same load in three ways. [run_select] and [run_poll]
    keep the accepted descriptors in a table they search in order, [run_epoll]
    in an open-addressed table ([epoll_add_idx], [epoll_get_idx]) whose slot
    number is also the number of the connection's buffer. Each pass of a
    server's loop is a function of what the system calls of the pass answered,
    which are data of the model ([select_round], [poll_round], [epoll_event]);
    the loop runs a list of passes. [run_client_thread] is the writing side.

    The file shows that the table search ends and finds what was inserted, that
    a read loop ends and stays in its buffer as long as the peer has not closed
    the connection, what each server does with a new connection and with a
    ready one, and which connections the client threads write to. *)

From stdpp Require Import base tactics numbers list gmap fin_sets.
From S2P Require Import Prelude.

Local Open Scope Z_scope.

Definition MAXCLIENT : Z := 10000.
Definition CLIENTS_PER_THREAD : Z := 100.
Definition THREAD_ITER : Z := 100.
Definition MAXBUFFLEN : Z := 65536.

(** ** The slot table of the epoll server *)

(** The search loop both functions share: from [idx] to the next slot, around
    the end of the table, until [test] holds or the loop is back at [start]. *)
Fixpoint probe (test : Z -> bool) (fuel : nat) (start idx : Z) (client_fds : list Z)
    : outcome Z :=
  match fuel with
  | O => Fault OutOfFuel
  | S fuel =>
    v ← aread client_fds idx;
    if test v then Ret idx
    else
      let idx := idx + 1 in
      let idx := if idx =? MAXCLIENT then 0 else idx in
      if idx =? start then Ret (-1) else probe test fuel start idx client_fds
  end.

(** The slot taken, or -1 when there is none. *)
Definition epoll_add_idx (client_fds : list Z) (fd : Z) : outcome (Z * list Z) :=
  let idx := Z.rem fd MAXCLIENT in
  idx ← probe (fun v => v =? 0) (Z.to_nat MAXCLIENT) idx idx client_fds;
  if idx <? 0 then Ret (idx, client_fds)
  else client_fds ← awrite client_fds idx fd; Ret (idx, client_fds).

Definition epoll_get_idx (client_fds : list Z) (fd : Z) : outcome Z :=
  let idx := Z.rem fd MAXCLIENT in
  probe (fun v => v =? fd) (Z.to_nat MAXCLIENT) idx idx client_fds.

(** The table of a server that has no connection yet. *)
Definition no_clients : list Z := replicate (Z.to_nat MAXCLIENT) 0.

(** One [epoll_add_idx] per accepted descriptor, and the slots they return. *)
Fixpoint add_all (client_fds : list Z) (fds : list Z) : outcome (list Z * list Z) :=
  match fds with
  | [] => Ret ([], client_fds)
  | fd :: fds =>
    '(i, client_fds) ← epoll_add_idx client_fds fd;
    '(idxs, client_fds) ← add_all client_fds fds;
    Ret (i :: idxs, client_fds)
  end.

(** ** Reading a connection *)

(** What [read] answers: the bytes it stored, none at the end of the stream, or
    -1 with an [errno]. *)
Inductive read_result :=
  | Bytes (bs : list Z)
  | Eagain
  | Eother.

(** [read(fd, buf + valread, MAXBUFFLEN - valread)] on a buffer. *)
Definition store_at (buf : list Z) (valread : Z) (bs : list Z) : outcome (list Z) :=
  if decide (Z.of_nat (length bs) ≤ MAXBUFFLEN - valread ∧
             valread + Z.of_nat (length bs) ≤ Z.of_nat (length buf)) then
    Ret (take (Z.to_nat valread) buf ++ bs ++
         drop (Z.to_nat valread + length bs) buf)
  else Fault OutOfBounds.

(** [while(valread < MAXBUFFLEN)]: the [k]-th call, for [n] bytes, answers
    [rd k n]. The result is the new [keep], the number of bytes read and the
    buffer. *)
Fixpoint read_loop (rd : nat -> Z -> read_result) (fuel k : nat) (keep valread : Z)
    (buf : list Z) : outcome (Z * Z * list Z) :=
  match fuel with
  | O => Fault OutOfFuel
  | S fuel =>
    if valread <? MAXBUFFLEN then
      match rd k (MAXBUFFLEN - valread) with
      | Eother => Ret (0, valread, buf)
      | Eagain => Ret (keep, valread, buf)
      | Bytes bs =>
        buf ← store_at buf valread bs;
        read_loop rd fuel (S k) keep (valread + Z.of_nat (length bs)) buf
      end
    else Ret (keep, valread, buf)
  end.

(** Passes enough for a loop in which every call but the last brings a byte. *)
Definition read_fuel : nat := S (Z.to_nat MAXBUFFLEN).

(** ** What the three servers share *)

(** The variables of a server's loop; [client_fds] is the descriptor of each
    slot ([pollfds[i + 1].fd] in [run_poll]), 0 for a slot that is free. *)
Record server := mkServer {
  client_fds : list Z;
  connections : Z;
  connections_printed : Z;
  keep : Z;
  client_buff : list (list Z);
}.

(** The server before its first pass. *)
Definition start_server (bufs : list (list Z)) : server :=
  mkServer no_clients 0 0 1 bufs.

(** The answers of [accept] and of the two [fcntl] calls that follow it. *)
Record accept_answer := mkAccept {
  accepted : Z;
  got_flags : Z;
  set_flags : Z;
}.

Definition make_socket_non_blocking (a : accept_answer) : Z :=
  if got_flags a =? -1 then -1
  else if set_flags a =? -1 then -2
  else 0.

(** The [for] loop that looks for a free slot: the table with the descriptor in
    it, nothing when [added] stays 0. *)
Fixpoint take_slot (tbl : list Z) (fd : Z) : option (list Z) :=
  match tbl with
  | [] => None
  | v :: tbl => if v =? 0 then Some (fd :: tbl) else cons v <$> take_slot tbl fd
  end.

(** The body of the [do ... while(0)] block, entered with a pending connection. *)
Definition accept_client (a : accept_answer) (s : server) : server :=
  if accepted a <? 0 then s
  else if make_socket_non_blocking a <? 0 then s
  else match take_slot (client_fds s) (accepted a) with
       | None => s
       | Some tbl =>
         mkServer tbl (connections s + 1) (connections_printed s) (keep s) (client_buff s)
       end.

(** [connections_printed = 1] once the last connection is there. *)
Definition note_reached (s : server) : server :=
  if connections_printed s =? 0
  then mkServer (client_fds s) (connections s) 1 (keep s) (client_buff s) else s.

(** Reading descriptor [fd] into buffer [i]; [reads fd] are the answers of its
    [read] calls. *)
Definition read_client (reads : Z -> nat -> Z -> read_result) (fuel : nat) (i fd keep : Z)
    (bufs : list (list Z)) : outcome (Z * list (list Z)) :=
  buf ← aread bufs i;
  '(keep, _, buf) ← read_loop (reads fd) fuel 0 keep 0 buf;
  bufs ← awrite bufs i buf;
  Ret (keep, bufs).

(** The loop over the slots from [i] on; [ready i fd] is the test of the slot. *)
Fixpoint serve_slots (ready : Z -> Z -> outcome bool)
    (reads : Z -> nat -> Z -> read_result) (fuel : nat) (fds : list Z) (i event keep : Z)
    (bufs : list (list Z)) : outcome (Z * list (list Z)) :=
  match fds with
  | [] => Ret (keep, bufs)
  | client_fd :: fds =>
    if event =? 0 then Ret (keep, bufs)
    else if client_fd =? 0 then
      serve_slots ready reads fuel fds (i + 1) event keep bufs
    else
      b ← ready i client_fd;
      if (b : bool) then
        '(keep, bufs) ← read_client reads fuel i client_fd keep bufs;
        serve_slots ready reads fuel fds (i + 1) (event - 1) keep bufs
      else serve_slots ready reads fuel fds (i + 1) event keep bufs
  end.

Definition serve (ready : Z -> Z -> outcome bool) (reads : Z -> nat -> Z -> read_result)
    (fuel : nat) (event : Z) (s : server) : outcome server :=
  '(k, bufs) ← serve_slots ready reads fuel (client_fds s) 0 event (keep s) (client_buff s);
  Ret (mkServer (client_fds s) (connections s) (connections_printed s) k bufs).

(** ** [run_select] *)

Definition FD_SETSIZE : Z := 1024.

(** An [fd_set] is an array of [FD_SETSIZE] bits: the macros index it with the
    descriptor, whatever its value. *)
Definition FD_SET (fd : Z) (set : gset Z) : outcome (gset Z) :=
  if decide (0 ≤ fd < FD_SETSIZE) then Ret ({[fd]} ∪ set) else Fault OutOfBounds.

Definition FD_ISSET (fd : Z) (set : gset Z) : outcome bool :=
  if decide (0 ≤ fd < FD_SETSIZE) then Ret (bool_decide (fd ∈ set)) else Fault OutOfBounds.

(** The loop that fills [readfds]. *)
Fixpoint watch_clients (fds : list Z) (set : gset Z) : outcome (gset Z) :=
  match fds with
  | [] => Ret set
  | client_fd :: fds =>
    set ← (if 0 <? client_fd then FD_SET client_fd set else Ret set);
    watch_clients fds set
  end.

(** [select] leaves the ready ones of the watched descriptors and returns their
    number; on an error it returns -1 and leaves the set as it is. *)
Inductive select_answer :=
  | SelReady (ready : gset Z)
  | SelEintr
  | SelError.

Record select_round := mkSelect {
  sel_answer : select_answer;
  sel_accept : accept_answer;
  sel_reads : Z -> nat -> Z -> read_result;
}.

(** One pass of the loop; the flag says whether it ended in [break]. *)
Definition select_pass (fuel : nat) (fd : Z) (r : select_round) (s : server)
    : outcome (bool * server) :=
  readfds ← FD_SET fd ∅;
  readfds ← watch_clients (client_fds s) readfds;
  match sel_answer r with
  | SelError => Ret (true, s)
  | ans =>
    let readfds := match ans with SelReady rdy => readfds ∩ rdy | _ => readfds end in
    let event := match ans with SelReady _ => Z.of_nat (size readfds) | _ => -1 end in
    pending ← FD_ISSET fd readfds;
    let event := if (pending : bool) then event - 1 else event in
    let s := if pending then accept_client (sel_accept r) s else s in
    if negb (connections s =? MAXCLIENT) then Ret (false, s)
    else
      s ← serve (fun _ client_fd => FD_ISSET client_fd readfds) (sel_reads r) fuel event
            (note_reached s);
      Ret (false, s)
  end.

(** The loop over the passes given: the returned value, or none when the server
    is still in its loop after them. *)
Fixpoint run_passes {R} (pass : R -> server -> outcome (bool * server)) (rs : list R)
    (s : server) : outcome (option Z * server) :=
  match rs with
  | [] => Ret (if keep s =? 0 then Some 0 else None, s)
  | r :: rs =>
    if keep s =? 0 then Ret (Some 0, s)
    else
      '(stop, s) ← pass r s;
      if (stop : bool) then Ret (Some 0, s) else run_passes pass rs s
  end.

Definition run_select (fuel : nat) (fd : Z) (rounds : list select_round)
    (bufs : list (list Z)) : outcome (option Z * server) :=
  run_passes (select_pass fuel fd) rounds (start_server bufs).

(** ** [run_poll] *)

Definition POLLIN : Z := 1.

(** What [poll] returned and the [revents] of the listening entry and of the
    entries of the slots. *)
Record poll_round := mkPoll {
  poll_ret : Z;
  listen_revents : Z;
  slot_revents : list Z;
  poll_accept : accept_answer;
  poll_reads : Z -> nat -> Z -> read_result;
}.

Definition pollin (revents : Z) : bool := negb (Z.land revents POLLIN =? 0).

Definition poll_pass (fuel : nat) (r : poll_round) (s : server) : outcome (bool * server) :=
  let pending := pollin (listen_revents r) in
  let event := if pending then poll_ret r - 1 else poll_ret r in
  let s := if pending then accept_client (poll_accept r) s else s in
  if negb (connections s =? MAXCLIENT) then Ret (false, s)
  else
    s ← serve (fun i _ => v ← aread (slot_revents r) i; Ret (pollin v)) (poll_reads r) fuel
          event (note_reached s);
    Ret (false, s).

Definition run_poll (fuel : nat) (rounds : list poll_round) (bufs : list (list Z))
    : outcome (option Z * server) :=
  run_passes (poll_pass fuel) rounds (start_server bufs).

(** ** [run_epoll] *)

Definition EPOLLIN : Z := 1.
Definition EPOLLERR : Z := 8.
Definition EPOLLHUP : Z := 16.

(** An entry [epoll_wait] filled, with the answers of the calls it leads to. *)
Record epoll_event := mkEvent {
  ev_fd : Z;
  ev_events : Z;
  ev_accept : accept_answer;
  ev_ctl : Z;
  ev_reads : nat -> Z -> read_result;
}.

Definition flagged (events flag : Z) : bool := negb (Z.land events flag =? 0).

Definition epoll_accept (e : epoll_event) (s : server) : outcome server :=
  if accepted (ev_accept e) <? 0 then Ret s
  else if make_socket_non_blocking (ev_accept e) <? 0 then Ret s
  else if ev_ctl e <? 0 then Ret s
  else
    '(idx, tbl) ← epoll_add_idx (client_fds s) (accepted (ev_accept e));
    if idx <? 0 then Ret s
    else Ret (mkServer tbl (connections s + 1) (connections_printed s) (keep s)
                (client_buff s)).

Definition epoll_read (fuel : nat) (e : epoll_event) (s : server) : outcome server :=
  if negb (connections s =? MAXCLIENT) then Ret s
  else
    let s := note_reached s in
    idx ← epoll_get_idx (client_fds s) (ev_fd e);
    if idx <? 0 then Ret s
    else
      '(k, bufs) ← read_client (fun _ => ev_reads e) fuel idx (ev_fd e) (keep s)
                     (client_buff s);
      Ret (mkServer (client_fds s) (connections s) (connections_printed s) k bufs).

Definition epoll_step (fuel : nat) (fd : Z) (e : epoll_event) (s : server) : outcome server :=
  if flagged (ev_events e) EPOLLHUP || flagged (ev_events e) EPOLLERR ||
     negb (flagged (ev_events e) EPOLLIN) then Ret s
  else if ev_fd e =? fd then epoll_accept e s
  else epoll_read fuel e s.

Fixpoint epoll_events (fuel : nat) (fd : Z) (evs : list epoll_event) (s : server)
    : outcome server :=
  match evs with
  | [] => Ret s
  | e :: evs => s ← epoll_step fuel fd e s; epoll_events fuel fd evs s
  end.

(** [created] and [added] are what [epoll_create1] and the [epoll_ctl] of the
    listening socket return; every pass is the events of one [epoll_wait]. *)
Definition run_epoll (fuel : nat) (fd created added : Z) (rounds : list (list epoll_event))
    (bufs : list (list Z)) : outcome (option Z * server) :=
  if created =? -1 then Ret (Some (-1), start_server bufs)
  else if added <? 0 then Ret (Some (-1), start_server bufs)
  else run_passes (fun evs s => s ← epoll_events fuel fd evs s; Ret (false, s)) rounds
         (start_server bufs).

(** ** The client threads *)

(** The [for] loop of one round: the connections [write] is called for. *)
Fixpoint write_all (wfds : list Z) (i : Z) (n : nat) : outcome (list Z) :=
  match n with
  | O => Ret []
  | S n =>
    fd ← aread wfds i;
    rest ← write_all wfds (i + 1) n;
    Ret (fd :: rest)
  end.

(** [while(count < THREAD_ITER)]: [rnd] are the answers of [getrandom], a
    negative one repeats the round. *)
Fixpoint write_rounds (rnd : list Z) (wfds : list Z) (fdstart fdend count : Z)
    : outcome (list Z) :=
  if count <? THREAD_ITER then
    match rnd with
    | [] => Fault OutOfFuel
    | r :: rnd =>
      if r <? 0 then write_rounds rnd wfds fdstart fdend count
      else
        ws ← write_all wfds fdstart (Z.to_nat (fdend - fdstart));
        rest ← write_rounds rnd wfds fdstart fdend (count + 1);
        Ret (ws ++ rest)
    end
  else Ret [].

(** The descriptors thread [tid] calls [write] for, in order, and [wdones]
    after it. *)
Definition run_client_thread (rnd wfds : list Z) (tid : Z) (wdones : list Z)
    : outcome (list Z * list Z) :=
  let fdstart := tid * CLIENTS_PER_THREAD in
  let fdend := tid + CLIENTS_PER_THREAD in
  ws ← write_rounds rnd wfds fdstart fdend 0;
  wdones ← awrite wdones tid 1;
  Ret (ws, wdones).

(** ** The slot table *)

#[global] Opaque MAXCLIENT MAXBUFFLEN.

Lemma MAXCLIENT_pos : 0 < MAXCLIENT.
Proof. done. Qed.

Lemma MAXBUFFLEN_pos : 0 < MAXBUFFLEN.
Proof. done. Qed.

(** A table of the size the servers declare. *)
Definition table (tbl : list Z) : Prop := Z.of_nat (length tbl) = MAXCLIENT.

(** The slot looked at after [j] steps from [start]. *)
Definition nth_slot (start : Z) (j : nat) : Z := (start + Z.of_nat j) mod MAXCLIENT.

Lemma nth_slot_bound start j : 0 ≤ nth_slot start j < MAXCLIENT.
Proof. apply Z.mod_pos_bound, MAXCLIENT_pos. Qed.

Lemma nth_slot_next start j :
  (if nth_slot start j + 1 =? MAXCLIENT then 0 else nth_slot start j + 1) =
  nth_slot start (S j).
Proof.
  pose proof (nth_slot_bound start j) as Hb. pose proof MAXCLIENT_pos.
  unfold nth_slot in *.
  replace (start + Z.of_nat (S j)) with (start + Z.of_nat j + 1) by lia.
  rewrite <-(Zplus_mod_idemp_l (start + Z.of_nat j) 1).
  case_match eqn:E; rewrite ?Z.eqb_eq, ?Z.eqb_neq in E.
  - by rewrite E, Z.mod_same by lia.
  - symmetry. apply Z.mod_small. lia.
Qed.

(** The search is back at its start after a whole turn, and not before. *)
Lemma nth_slot_back start j :
  0 ≤ start < MAXCLIENT → 0 < Z.of_nat j ≤ MAXCLIENT →
  nth_slot start j = start ↔ Z.of_nat j = MAXCLIENT.
Proof.
  intros Hs Hj. unfold nth_slot.
  destruct (decide (start + Z.of_nat j < MAXCLIENT)).
  - rewrite Z.mod_small by lia. lia.
  - replace (start + Z.of_nat j) with (start + Z.of_nat j - MAXCLIENT + 1 * MAXCLIENT) by lia.
    rewrite Z.mod_add, Z.mod_small by lia. lia.
Qed.

Lemma table_slot tbl i : table tbl → 0 ≤ i < MAXCLIENT → ∃ v, tbl !! Z.to_nat i = Some v.
Proof. intros Ht Hi. apply lookup_lt_is_Some. unfold table in Ht. lia. Qed.

(** Every slot is one of those of the turn. *)
Lemma nth_slot_surj start i :
  0 ≤ start < MAXCLIENT → 0 ≤ i < MAXCLIENT →
  ∃ j, (Z.of_nat j < MAXCLIENT) ∧ nth_slot start j = i.
Proof.
  intros Hs Hi. unfold nth_slot. destruct (decide (start ≤ i)).
  - exists (Z.to_nat (i - start)). split; [lia|]. rewrite Z.mod_small; lia.
  - exists (Z.to_nat (i - start + MAXCLIENT)). split; [lia|].
    replace (start + _) with (i + 1 * MAXCLIENT) by lia.
    rewrite Z.mod_add, Z.mod_small; lia.
Qed.

(** What the search does from its [j]-th slot on. *)
Definition search_result (test : Z -> bool) (tbl : list Z) (start : Z) (j : nat) (i : Z) :=
  (i = -1 ∧ ∀ k v, (j ≤ k)%nat → Z.of_nat k < MAXCLIENT →
     tbl !! Z.to_nat (nth_slot start k) = Some v → test v = false) ∨
  (∃ k v, (j ≤ k)%nat ∧ Z.of_nat k < MAXCLIENT ∧ i = nth_slot start k ∧
     tbl !! Z.to_nat i = Some v ∧ test v = true ∧
     ∀ k' v', (j ≤ k' < k)%nat → tbl !! Z.to_nat (nth_slot start k') = Some v' →
       test v' = false).

Lemma probe_from test tbl start fuel j :
  table tbl → 0 ≤ start < MAXCLIENT → Z.of_nat j + Z.of_nat fuel = MAXCLIENT →
  (0 < fuel)%nat →
  ∃ i, probe test fuel start (nth_slot start j) tbl = Ret i ∧
       search_result test tbl start j i.
Proof.
  intros Ht Hs. revert j. induction fuel as [|fuel IH]; intros j Hj Hf; [lia|].
  pose proof (nth_slot_bound start j) as Hb. destruct (table_slot tbl _ Ht Hb) as [v Hv].
  cbn [probe]. rewrite (aread_Some _ _ _ (proj1 Hb) Hv). cbn [mbind outcome_bind].
  destruct (test v) eqn:Ev.
  { eexists. split; [done|]. right. exists j, v. split_and!; [lia|lia|done|done|done|].
    intros; lia. }
  rewrite nth_slot_next. case_match eqn:E; rewrite ?Z.eqb_eq, ?Z.eqb_neq in E.
  - eexists. split; [done|]. left. split; [done|]. intros k w Hk Hk' Hw.
    apply nth_slot_back in E; [|lia..]. assert (k = j) as -> by lia. by simplify_eq.
  - rewrite nth_slot_back in E by lia.
    destruct (IH (S j)) as (i & Hi & Hr); [lia..|]. exists i. split; [done|].
    destruct Hr as [[-> Hr]|(k & w & Hk & Hk' & -> & Hw & Hwt & Hr)].
    + left. split; [done|]. intros k w Hk Hk' Hw.
      destruct (decide (k = j)) as [->|]; [by simplify_eq|]. eapply Hr; [|done..]. lia.
    + right. exists k, w. split_and!; [lia|done..|]. intros k' w' Hk'' Hw'.
      destruct (decide (k' = j)) as [->|]; [by simplify_eq|]. eapply Hr; [|done]. lia.
Qed.

Lemma start_bound fd : 0 ≤ fd → 0 ≤ Z.rem fd MAXCLIENT < MAXCLIENT.
Proof. intros H. apply Z.rem_bound_pos; [done|]. apply MAXCLIENT_pos. Qed.

Lemma probe_run test tbl fd :
  table tbl → 0 ≤ fd →
  ∃ i, probe test (Z.to_nat MAXCLIENT) (Z.rem fd MAXCLIENT) (Z.rem fd MAXCLIENT) tbl = Ret i ∧
       search_result test tbl (Z.rem fd MAXCLIENT) 0 i.
Proof.
  intros Ht Hfd. pose proof (start_bound fd Hfd) as Hs. pose proof MAXCLIENT_pos.
  destruct (probe_from test tbl (Z.rem fd MAXCLIENT) (Z.to_nat MAXCLIENT) 0)
    as (i & Hi & Hr); [done|lia..|].
  exists i. split; [|done]. rewrite <-Hi. f_equal. unfold nth_slot.
  rewrite Z.add_0_r. by rewrite Z.mod_small.
Qed.

Lemma epoll_add_idx_run tbl fd :
  table tbl → 0 ≤ fd →
  ∃ i, search_result (fun v => v =? 0) tbl (Z.rem fd MAXCLIENT) 0 i ∧
       epoll_add_idx tbl fd = Ret (i, if i <? 0 then tbl else <[Z.to_nat i := fd]> tbl).
Proof.
  intros Ht Hfd. destruct (probe_run (fun v => v =? 0) tbl fd Ht Hfd) as (i & Hi & Hr).
  exists i. split; [done|]. unfold epoll_add_idx. rewrite Hi. cbn [mbind outcome_bind].
  destruct (Z.ltb_spec i 0); [done|].
  destruct Hr as [[-> _]|(k & v & _ & _ & _ & Hv & _)]; [lia|].
  by rewrite (awrite_Some _ _ _ _ H Hv).
Qed.

(** The two ends of an insertion. *)
Lemma epoll_add_idx_cases tbl fd :
  table tbl → 0 ≤ fd →
  (∃ i, epoll_add_idx tbl fd = Ret (i, <[Z.to_nat i := fd]> tbl) ∧
     0 ≤ i < MAXCLIENT ∧ tbl !! Z.to_nat i = Some 0) ∨
  (epoll_add_idx tbl fd = Ret (-1, tbl) ∧ 0 ∉ tbl).
Proof.
  intros Ht Hfd. destruct (epoll_add_idx_run tbl fd Ht Hfd) as (i & Hr & ->).
  destruct Hr as [[-> Hr]|(k & v & _ & _ & Hi & Hv & Hz & _)].
  - right. split; [done|]. intros [j Hj]%list_elem_of_lookup.
    pose proof (lookup_lt_Some _ _ _ Hj) as Hlt. unfold table in Ht.
    destruct (nth_slot_surj (Z.rem fd MAXCLIENT) (Z.of_nat j)) as (k & Hk & Hkj);
      [by apply start_bound|lia|].
    specialize (Hr k 0 ltac:(lia) Hk). rewrite Hkj, Nat2Z.id in Hr. by specialize (Hr Hj).
  - apply Z.eqb_eq in Hz as ->. left. exists i.
    pose proof (nth_slot_bound (Z.rem fd MAXCLIENT) k) as Hb. rewrite <-Hi in Hb.
    split_and!; try done; [|lia..]. by rewrite (proj2 (Z.ltb_ge i 0)) by lia.
Qed.

(** A descriptor that is in one slot only is found there. *)
Lemma epoll_get_idx_at tbl fd i :
  table tbl → 0 ≤ fd → tbl !! i = Some fd → (∀ j, tbl !! j = Some fd → j = i) →
  epoll_get_idx tbl fd = Ret (Z.of_nat i).
Proof.
  intros Ht Hfd Hi Hu. pose proof (lookup_lt_Some _ _ _ Hi) as Hlt. unfold table in Ht.
  destruct (probe_run (fun v => v =? fd) tbl fd Ht Hfd) as (r & Hr & Hs).
  unfold epoll_get_idx. rewrite Hr. f_equal.
  destruct Hs as [[-> Hs]|(k & v & _ & _ & Hk & Hv & Hz & _)].
  - destruct (nth_slot_surj (Z.rem fd MAXCLIENT) (Z.of_nat i)) as (k & Hk & Hki);
      [by apply start_bound|lia|].
    specialize (Hs k fd ltac:(lia) Hk). rewrite Hki, Nat2Z.id, Z.eqb_refl in Hs.
    by specialize (Hs Hi).
  - apply Z.eqb_eq in Hz as ->. apply Hu in Hv.
    pose proof (nth_slot_bound (Z.rem fd MAXCLIENT) k). lia.
Qed.

Lemma epoll_get_idx_absent tbl fd :
  table tbl → 0 ≤ fd → fd ∉ tbl → epoll_get_idx tbl fd = Ret (-1).
Proof.
  intros Ht Hfd Hn. destruct (probe_run (fun v => v =? fd) tbl fd Ht Hfd) as (r & Hr & Hs).
  unfold epoll_get_idx. rewrite Hr.
  destruct Hs as [[-> Hs]|(k & v & _ & _ & _ & Hv & Hz & _)]; [done|].
  apply Z.eqb_eq in Hz as ->. by apply list_elem_of_lookup_2 in Hv.
Qed.

(** Slots still free. *)
Fixpoint frees (tbl : list Z) : nat :=
  match tbl with
  | [] => 0%nat
  | v :: tbl => ((if (v =? 0)%Z then 1 else 0) + frees tbl)%nat
  end.

Lemma frees_insert tbl i fd :
  tbl !! i = Some 0 → fd ≠ 0 → frees tbl = S (frees (<[i := fd]> tbl)).
Proof.
  revert i. induction tbl as [|v tbl IH]; intros [|i] Hi Hfd; simplify_eq/=.
  - by rewrite (proj2 (Z.eqb_neq fd 0)).
  - rewrite (IH i) by done. lia.
Qed.

Lemma frees_0 tbl : 0 ∉ tbl → frees tbl = 0%nat.
Proof.
  induction tbl as [|v tbl IH]; [done|]. intros [Hv Ht]%not_elem_of_cons. simpl.
  rewrite (proj2 (Z.eqb_neq v 0)) by done. by apply IH.
Qed.

Lemma frees_0_inv tbl : frees tbl = 0%nat → 0 ∉ tbl.
Proof.
  induction tbl as [|v tbl IH]; [set_solver|]. simpl. intros H.
  apply not_elem_of_cons. destruct (Z.eqb_spec v 0); [done|]. split; [done|]. by apply IH.
Qed.

Lemma table_insert tbl i v : table tbl → table (<[i := v]> tbl).
Proof. unfold table. by rewrite length_insert. Qed.

Lemma no_clients_table : table no_clients.
Proof. unfold table, no_clients. rewrite length_replicate. pose proof MAXCLIENT_pos. lia. Qed.

Lemma no_clients_free : Z.of_nat (frees no_clients) = MAXCLIENT.
Proof.
  pose proof MAXCLIENT_pos. unfold no_clients.
  assert (∀ n, frees (replicate n 0) = n) as -> by (induction n; simpl; lia). lia.
Qed.

Lemma no_clients_elem v : v ∈ no_clients → v = 0.
Proof. by intros [-> _]%elem_of_replicate. Qed.

#[global] Opaque no_clients.

(** No descriptor is in two slots. *)
Definition once (tbl : list Z) : Prop :=
  ∀ i j v, v ≠ 0 → tbl !! i = Some v → tbl !! j = Some v → i = j.

Lemma once_insert tbl i fd : once tbl → fd ∉ tbl → once (<[i := fd]> tbl).
Proof.
  intros Ho Hn j k v Hv Hj Hk.
  apply list_lookup_insert_Some in Hj as [(-> & -> & ?)|[Hij Hj]];
    apply list_lookup_insert_Some in Hk as [(-> & ? & ?)|[Hik Hk]]; subst; try done.
  - by apply list_elem_of_lookup_2 in Hk.
  - by apply list_elem_of_lookup_2 in Hj.
  - by eapply Ho.
Qed.

Lemma add_all_run fds tbl :
  table tbl → once tbl → NoDup fds → Forall (fun fd => 0 < fd) fds →
  (∀ fd, fd ∈ fds → fd ∉ tbl) → (length fds ≤ frees tbl)%nat →
  ∃ idxs tbl', add_all tbl fds = Ret (idxs, tbl') ∧ table tbl' ∧ once tbl' ∧
    (∀ i v, v ≠ 0 → tbl !! i = Some v → tbl' !! i = Some v) ∧
    Forall2 (fun fd i => 0 ≤ i < MAXCLIENT ∧ tbl' !! Z.to_nat i = Some fd) fds idxs ∧
    (∀ v, v ∈ tbl' → v ∈ tbl ∨ v ∈ fds).
Proof.
  revert tbl. induction fds as [|fd fds IH]; intros tbl Ht Ho Hnd Hpos Hnew Hfree.
  { exists [], tbl. split_and!; eauto. }
  apply NoDup_cons in Hnd as [Hfd Hnd]. apply Forall_cons in Hpos as [Hfd0 Hpos].
  destruct (epoll_add_idx_cases tbl fd Ht ltac:(lia)) as [(i & Hi & Hib & Hz)|[_ Hz]];
    [|apply frees_0 in Hz; simpl in Hfree; lia].
  assert (fd ∉ tbl) as Hnfd by (apply Hnew, list_elem_of_here).
  destruct (IH (<[Z.to_nat i := fd]> tbl)) as (idxs & tbl' & Hrun & Ht' & Ho' & Hkeep & Hat & Hin).
  - by apply table_insert.
  - by apply once_insert.
  - done.
  - done.
  - intros fd' Hfd' [j Hj]%list_elem_of_lookup.
    apply list_lookup_insert_Some in Hj as [(_ & -> & _)|[_ Hj]]; [done|].
    eapply Hnew; [by apply list_elem_of_further|]. by eapply list_elem_of_lookup_2.
  - rewrite (frees_insert tbl (Z.to_nat i) fd Hz) in Hfree by lia. simpl in Hfree. lia.
  - pose proof (lookup_lt_Some _ _ _ Hz) as Hlt.
    exists (i :: idxs), tbl'. cbn [add_all]. rewrite Hi. cbn [mbind outcome_bind].
    rewrite Hrun. split_and!; try done.
    + intros j v Hv Hj. apply Hkeep; [done|]. rewrite list_lookup_insert_ne; [done|].
      intros <-. congruence.
    + constructor; [|done]. split; [done|]. apply Hkeep; [lia|].
      by apply list_lookup_insert_eq.
    + intros v Hv. destruct (Hin v Hv) as [[j Hj]%list_elem_of_lookup|]; [|set_solver].
      apply list_lookup_insert_Some in Hj as [(_ & -> & _)|[_ Hj]]; [set_solver|].
      left. by eapply list_elem_of_lookup_2.
Qed.

(** A search ends within one turn of the table, whatever the table and the
    descriptor: it takes the first free slot from the descriptor's home slot on
    and stores the descriptor there, and it returns -1 without a change exactly
    when no slot is free. *)
Theorem epoll_add_idx_ends tbl fd :
  table tbl → 0 ≤ fd →
  (∃ k, Z.of_nat k < MAXCLIENT ∧
     let i := nth_slot (Z.rem fd MAXCLIENT) k in
     epoll_add_idx tbl fd = Ret (i, <[Z.to_nat i := fd]> tbl) ∧
     tbl !! Z.to_nat i = Some 0 ∧
     ∀ k', (k' < k)%nat → tbl !! Z.to_nat (nth_slot (Z.rem fd MAXCLIENT) k') ≠ Some 0) ∨
  (epoll_add_idx tbl fd = Ret (-1, tbl) ∧ 0 ∉ tbl).
Proof.
  intros Ht Hfd.
  destruct (epoll_add_idx_cases tbl fd Ht Hfd) as [(i & Hi & Hb & Hz)|?]; [left|by right].
  destruct (epoll_add_idx_run tbl fd Ht Hfd) as (i' & Hr & Hrun).
  rewrite Hi in Hrun. simplify_eq.
  destruct Hr as [[-> _]|(k & v & _ & Hk & -> & Hv & Hv0 & Hr)]; [lia|].
  exists k. split; [done|]. cbv zeta. split_and!; [done..|]. intros k' Hk' Hz'.
  by specialize (Hr k' 0 ltac:(lia) Hz').
Qed.

Lemma epoll_add_idx_ends_witness :
  (∃ k, Z.of_nat k < MAXCLIENT ∧
     let i := nth_slot (Z.rem 10007 MAXCLIENT) k in
     epoll_add_idx (<[7%nat := 7]> no_clients) 10007 =
       Ret (i, <[Z.to_nat i := 10007]> (<[7%nat := 7]> no_clients)) ∧
     (<[7%nat := 7]> no_clients) !! Z.to_nat i = Some 0 ∧
     ∀ k', (k' < k)%nat →
       (<[7%nat := 7]> no_clients) !! Z.to_nat (nth_slot (Z.rem 10007 MAXCLIENT) k')
         ≠ Some 0) ∨
  (epoll_add_idx (<[7%nat := 7]> no_clients) 10007 = Ret (-1, <[7%nat := 7]> no_clients) ∧
   0 ∉ <[7%nat := 7]> no_clients).
Proof.
  apply (epoll_add_idx_ends (<[7%nat := 7]> no_clients) 10007).
  - apply table_insert, no_clients_table.
  - lia.
Defined.

(** C26. Every connection of a server has a slot of its own, and its descriptor leads
    to it: after the descriptors [fds] were inserted into the empty table, in
    any number up to its size, the slots they got are distinct, and looking one
    of the descriptors up gives its slot; another descriptor gives -1. *)
Theorem epoll_slots_found fds :
  NoDup fds → Forall (fun fd => 0 < fd) fds → Z.of_nat (length fds) ≤ MAXCLIENT →
  ∃ idxs tbl, add_all no_clients fds = Ret (idxs, tbl) ∧
    NoDup idxs ∧ Forall (fun i => 0 ≤ i < MAXCLIENT) idxs ∧
    Forall2 (fun fd i => epoll_get_idx tbl fd = Ret i) fds idxs ∧
    (∀ fd, 0 < fd → fd ∉ fds → epoll_get_idx tbl fd = Ret (-1)).
Proof.
  intros Hnd Hpos Hlen.
  assert (length fds ≤ frees no_clients)%nat as Hfree
    by (pose proof no_clients_free; lia).
  destruct (add_all_run fds no_clients) as (idxs & tbl & Hrun & Ht & Ho & _ & Hat & Hin);
    [apply no_clients_table| |done|done| |exact Hfree|]; clear Hfree.
  { intros i j v Hv Hi%list_elem_of_lookup_2%no_clients_elem. done. }
  { intros fd Hfd ->%no_clients_elem. rewrite Forall_forall in Hpos.
    by specialize (Hpos _ Hfd). }
  exists idxs, tbl. split_and!; [done| | | |].
  - apply NoDup_alt. intros k k' i Hk Hk'.
    destruct (Forall2_lookup_r _ _ _ _ _ Hat Hk) as (fd & Hfd & _ & H1).
    destruct (Forall2_lookup_r _ _ _ _ _ Hat Hk') as (fd' & Hfd' & _ & H2).
    rewrite H1 in H2. simplify_eq. by eapply NoDup_lookup.
  - eapply Forall2_Forall_r; [exact Hat|]. apply Forall_true. by intros ? ? [].
  - apply Forall2_same_length_lookup_2; [by eapply Forall2_length|].
    intros k fd i Hfd Hi. destruct (Forall2_lookup_lr _ _ _ _ _ _ Hat Hfd Hi) as [Hb Hl].
    rewrite Forall_lookup in Hpos. specialize (Hpos _ _ Hfd). simpl in Hpos.
    rewrite (epoll_get_idx_at tbl fd (Z.to_nat i)); [f_equal; lia|done|lia|done|].
    intros j Hj. eapply Ho; [|done..]. lia.
  - intros fd Hfd Hn. apply epoll_get_idx_absent; [done|lia|]. intros Hc.
    destruct (Hin _ Hc) as [->%no_clients_elem|]; [lia|done].
Qed.

Lemma epoll_slots_found_witness :
  ∃ idxs tbl, add_all no_clients [5; 10005; 6] = Ret (idxs, tbl) ∧
    NoDup idxs ∧ Forall (fun i => 0 ≤ i < MAXCLIENT) idxs ∧
    Forall2 (fun fd i => epoll_get_idx tbl fd = Ret i) [5; 10005; 6] idxs ∧
    (∀ fd, 0 < fd → fd ∉ [5; 10005; 6] → epoll_get_idx tbl fd = Ret (-1)).
Proof.
  apply (epoll_slots_found [5; 10005; 6]).
  - apply NoDup_ListNoDup. repeat constructor; simpl; lia.
  - repeat constructor; lia.
  - by vm_compute.
Defined.

(** ** The read loop *)

(** [read] stores at most the bytes it is asked for. *)
Definition read_works (rd : nat -> Z -> read_result) : Prop :=
  ∀ k n bs, 0 < n → rd k n = Bytes bs → Z.of_nat (length bs) ≤ n.

(** The peer keeps its side open: no answer is the end of the stream. *)
Definition peer_open (rd : nat -> Z -> read_result) : Prop :=
  ∀ k n, 0 < n → rd k n ≠ Bytes [].

(** The bytes the calls bring, from the [k]-th on with [valread] in the buffer. *)
Fixpoint bytes_read (rd : nat -> Z -> read_result) (fuel k : nat) (valread : Z) : list Z :=
  match fuel with
  | O => []
  | S fuel =>
    if valread <? MAXBUFFLEN then
      match rd k (MAXBUFFLEN - valread) with
      | Bytes bs => bs ++ bytes_read rd fuel (S k) (valread + Z.of_nat (length bs))
      | _ => []
      end
    else []
  end.

(** What a buffer holds after a connection was read into it. *)
Definition received (rd : nat -> Z -> read_result) (buf : list Z) : list Z :=
  let got := bytes_read rd read_fuel 0 0 in got ++ drop (length got) buf.

Lemma store_at_app pre rest bs :
  Z.of_nat (length (pre ++ rest)) = MAXBUFFLEN → (length bs ≤ length rest)%nat →
  store_at (pre ++ rest) (Z.of_nat (length pre)) bs =
    Ret ((pre ++ bs) ++ drop (length bs) rest).
Proof.
  intros Hl Hb. rewrite length_app in Hl. unfold store_at. rewrite length_app.
  rewrite decide_True by lia. rewrite Nat2Z.id, take_app_length, <-app_assoc.
  by rewrite <-drop_drop, drop_app_length.
Qed.

Lemma read_loop_from rd fuel k keep pre rest :
  read_works rd → peer_open rd → Z.of_nat (length (pre ++ rest)) = MAXBUFFLEN →
  (length rest < fuel)%nat →
  let got := bytes_read rd fuel k (Z.of_nat (length pre)) in
  ∃ keep', (keep' = keep ∨ keep' = 0) ∧ (length got ≤ length rest)%nat ∧
    read_loop rd fuel k keep (Z.of_nat (length pre)) (pre ++ rest) =
      Ret (keep', Z.of_nat (length (pre ++ got)), (pre ++ got) ++ drop (length got) rest).
Proof.
  intros Hw Ho. revert k pre rest.
  induction fuel as [|fuel IH]; intros k pre rest Hl Hf; [lia|]. cbn [read_loop bytes_read].
  destruct (Z.ltb_spec (Z.of_nat (length pre)) MAXBUFFLEN) as [Hlt|Hge].
  2: { exists keep. rewrite app_nil_r. split_and!; [by left|simpl; lia|done]. }
  pose proof (Ho k (MAXBUFFLEN - Z.of_nat (length pre)) ltac:(lia)) as Hne.
  destruct (rd k (MAXBUFFLEN - Z.of_nat (length pre))) as [bs| |] eqn:Erd.
  - apply Hw in Erd; [|lia]. rewrite length_app in Hl. assert (bs ≠ []) by congruence.
    assert (0 < length bs)%nat by (destruct bs; simpl; [done|lia]).
    rewrite store_at_app by (rewrite ?length_app; lia). cbn [mbind outcome_bind].
    rewrite <-Nat2Z.inj_add, <-length_app.
    destruct (IH (S k) (pre ++ bs) (drop (length bs) rest)) as (k' & Hk' & Hg & Hrun);
      [rewrite !length_app, length_drop; lia|rewrite length_drop; lia|].
    rewrite length_drop in Hg. exists k'. split_and!; [done|rewrite length_app; lia|].
    rewrite Hrun. by rewrite !app_assoc, drop_drop, (length_app bs).
  - exists keep. rewrite app_nil_r. split_and!; [by left|simpl; lia|done].
  - exists 0. rewrite app_nil_r. split_and!; [by right|simpl; lia|done].
Qed.

(** C29. Reading a connection whose peer is there ends within [MAXBUFFLEN] calls that
    bring data, and what it brought is a prefix of the buffer of at most
    [MAXBUFFLEN] bytes, with the rest of the buffer as it was. *)
Theorem read_loop_ends rd keep buf :
  read_works rd → peer_open rd → Z.of_nat (length buf) = MAXBUFFLEN →
  let got := bytes_read rd read_fuel 0 0 in
  Z.of_nat (length got) ≤ MAXBUFFLEN ∧
  ∃ keep', (keep' = keep ∨ keep' = 0) ∧
    read_loop rd read_fuel 0 keep 0 buf = Ret (keep', Z.of_nat (length got), received rd buf).
Proof.
  intros Hw Ho Hl.
  destruct (read_loop_from rd read_fuel 0 keep [] buf Hw Ho Hl) as (k' & Hk & Hg & Hrun);
    [unfold read_fuel; lia|].
  cbn [length app] in Hg, Hrun. change (Z.of_nat 0) with 0 in *. intros got. subst got.
  split; [lia|]. by exists k'.
Qed.

(** A peer that sent three bytes and has nothing more to say for now. *)
Definition sample_peer (k : nat) (n : Z) : read_result :=
  match k with O => Bytes (take (Z.to_nat n) [104; 105; 10]) | S _ => Eagain end.

Lemma sample_peer_works : read_works sample_peer.
Proof.
  intros [|k] n bs Hn E; [|done]. injection E as <-. rewrite length_take. lia.
Qed.

Lemma sample_peer_open : peer_open sample_peer.
Proof.
  intros [|k] n Hn E; [|done]. injection E as E%(f_equal length).
  rewrite length_take in E. simpl in E. lia.
Qed.

Definition blank : list Z := replicate (Z.to_nat MAXBUFFLEN) 0.

Lemma length_blank : Z.of_nat (length blank) = MAXBUFFLEN.
Proof. unfold blank. rewrite length_replicate. pose proof MAXBUFFLEN_pos. lia. Qed.

#[global] Opaque blank.

Lemma read_loop_ends_witness :
  let got := bytes_read sample_peer read_fuel 0 0 in
  Z.of_nat (length got) ≤ MAXBUFFLEN ∧
  ∃ keep', (keep' = 1 ∨ keep' = 0) ∧
    read_loop sample_peer read_fuel 0 1 0 blank =
      Ret (keep', Z.of_nat (length got), received sample_peer blank).
Proof.
  apply (read_loop_ends sample_peer 1 blank).
  - exact sample_peer_works.
  - exact sample_peer_open.
  - exact length_blank.
Defined.

(** A call that brings nothing leaves the loop where it is. *)
Lemma store_at_nil buf v :
  0 ≤ v < MAXBUFFLEN → Z.of_nat (length buf) = MAXBUFFLEN → store_at buf v [] = Ret buf.
Proof.
  intros Hv Hl. unfold store_at. cbn [length]. rewrite decide_True by lia.
  by rewrite Nat.add_0_r, app_nil_l, take_drop.
Qed.

(** Once a peer has closed its connection with less than a buffer sent, [read]
    returns 0 from then on; the loop has no exit for that answer, and the
    server, which has only one thread, never leaves it. *)
Theorem read_loop_spins rd k keep valread buf :
  (∀ j n, (k ≤ j)%nat → rd j n = Bytes []) →
  0 ≤ valread < MAXBUFFLEN → Z.of_nat (length buf) = MAXBUFFLEN →
  ∀ fuel, read_loop rd fuel k keep valread buf = Fault OutOfFuel.
Proof.
  intros Hrd Hv Hl fuel. revert k Hrd.
  induction fuel as [|fuel IH]; intros k Hrd; [done|]. cbn [read_loop].
  rewrite (proj2 (Z.ltb_lt _ _)) by lia. rewrite Hrd by lia. rewrite store_at_nil by done.
  cbn [mbind outcome_bind length]. rewrite Z.add_0_r. apply IH. intros. apply Hrd. lia.
Qed.

Lemma read_loop_spins_witness :
  read_loop (fun _ _ => Bytes []) read_fuel 0 1 100 blank = Fault OutOfFuel.
Proof.
  apply (read_loop_spins (fun _ _ => Bytes []) 0 1 100 blank).
  - done.
  - by vm_compute.
  - exact length_blank.
Defined.
