(* ===== verification/TenKServe.v ===== *)
(** * The ten-thousand-connections program: the servers and the client threads

    The theorems on whole passes of the three servers of [TenK]: the invariant
    every pass keeps and when a pass returns, what a pass does with the connections that are ready, why
    the [select] server cannot get to serving its load, and what the client
    threads write. *)

From stdpp Require Import base tactics numbers list gmap fin_sets.
From S2P Require Import Prelude TenK.

Local Open Scope Z_scope.

(** ** The variables of a server *)

(** What the loops rely on: the table has its size and no descriptor twice,
    [connections] counts the slots in use, every slot has a buffer of
    [MAXBUFFLEN] bytes, [keep] is a flag. *)
Record server_ok (s : server) : Prop := {
  ok_table : table (client_fds s);
  ok_once : once (client_fds s);
  ok_fds : Forall (fun fd => 0 ≤ fd) (client_fds s);
  ok_count : connections s + Z.of_nat (frees (client_fds s)) = MAXCLIENT;
  ok_buffs : Z.of_nat (length (client_buff s)) = MAXCLIENT;
  ok_buff : Forall (fun b => Z.of_nat (length b) = MAXBUFFLEN) (client_buff s);
  ok_keep : keep s = 0 ∨ keep s = 1;
}.

(** [accept] never returns a descriptor that is open, and the standard streams
    are open. *)
Definition fresh_fd (s : server) (a : accept_answer) : Prop :=
  0 ≤ accepted a → 0 < accepted a ∧ accepted a ∉ client_fds s.

Lemma store_at_length buf v bs buf' :
  0 ≤ v → store_at buf v bs = Ret buf' → length buf' = length buf.
Proof.
  unfold store_at. intros Hv. case_decide as H; [|done]. intros [= <-].
  rewrite !length_app, length_take, length_drop. lia.
Qed.

Lemma read_loop_type rd fuel k keep v buf keep' v' buf' :
  0 ≤ v → read_loop rd fuel k keep v buf = Ret (keep', v', buf') →
  length buf' = length buf ∧ (keep' = keep ∨ keep' = 0).
Proof.
  revert k v buf. induction fuel as [|fuel IH]; intros k v buf Hv; [done|]. simpl.
  destruct (v <? MAXBUFFLEN); [|intros; simplify_eq; auto].
  destruct (rd k _) as [bs| |]; [|intros; simplify_eq; auto..].
  destruct (store_at buf v bs) as [b|] eqn:E; [|done]. cbn [mbind outcome_bind].
  intros H. apply IH in H as [H ?]; [|lia]. split; [|done]. rewrite H.
  by eapply store_at_length.
Qed.

(** The part of the invariant the reads touch. *)
Definition buffs_ok (bufs : list (list Z)) : Prop :=
  Z.of_nat (length bufs) = MAXCLIENT ∧
  Forall (fun b => Z.of_nat (length b) = MAXBUFFLEN) bufs.

Lemma read_client_type reads fuel i fd k bufs k' bufs' :
  read_client reads fuel i fd k bufs = Ret (k', bufs') → buffs_ok bufs →
  buffs_ok bufs' ∧ (k' = k ∨ k' = 0).
Proof.
  unfold read_client, awrite. intros H [Hl Hb].
  destruct (aread bufs i) as [buf|] eqn:Er; [|done]. cbn [mbind outcome_bind] in H.
  destruct (read_loop _ _ _ _ _ _) as [[[k1 v1] buf1]|] eqn:El; [|done].
  cbn [mbind outcome_bind] in H. simplify_eq.
  apply read_loop_type in El as [El ?]; [|lia]. split; [|done].
  unfold aread in Er. destruct (i <? 0); [done|].
  destruct (bufs !! Z.to_nat i) as [b|] eqn:E; simplify_eq/=.
  split; [by rewrite length_insert|]. apply Forall_insert; [done|]. rewrite El.
  exact (Forall_lookup_1 _ _ _ _ Hb E).
Qed.

Lemma serve_slots_type ready reads fuel fds i event k bufs k' bufs' :
  serve_slots ready reads fuel fds i event k bufs = Ret (k', bufs') → buffs_ok bufs →
  buffs_ok bufs' ∧ (k' = k ∨ k' = 0).
Proof.
  revert i event k bufs. induction fds as [|fd fds IH]; intros i event k bufs H Hb; simpl in H.
  { simplify_eq. auto. }
  destruct (event =? 0); [by simplify_eq; auto|].
  destruct (fd =? 0); [by eapply IH|].
  destruct (ready i fd) as [[]|]; [|by eapply IH|done]. cbn [mbind outcome_bind] in H.
  destruct (read_client _ _ _ _ _ _) as [[k1 bufs1]|] eqn:Er; [|done].
  apply read_client_type in Er as [Hb1 Hk1]; [|done].
  apply IH in H as [? ?]; [|done]. split; [done|]. intuition congruence.
Qed.

Lemma serve_ok ready reads fuel event s s' :
  serve ready reads fuel event s = Ret s' → server_ok s → server_ok s'.
Proof.
  unfold serve. intros H []. 
  destruct (serve_slots _ _ _ _ _ _ _ _) as [[k bufs]|] eqn:E; simplify_eq/=.
  apply serve_slots_type in E as [[? ?] Hk]; [|done].
  constructor; try done. simpl. intuition congruence.
Qed.

Lemma take_slot_spec tbl fd tbl' :
  take_slot tbl fd = Some tbl' →
  ∃ i, tbl !! i = Some 0 ∧ tbl' = <[i := fd]> tbl.
Proof.
  revert tbl'. induction tbl as [|v tbl IH]; intros tbl' H; simpl in H; [done|].
  destruct (Z.eqb_spec v 0) as [->|Hv]; simplify_eq; [by exists 0%nat|].
  apply fmap_Some in H as (t & H & ->). apply IH in H as (i & Hi & ->). by exists (S i).
Qed.

Lemma take_slot_None tbl fd : take_slot tbl fd = None ↔ frees tbl = 0%nat.
Proof.
  induction tbl as [|v tbl IH]; [done|]. simpl.
  destruct (Z.eqb_spec v 0); simpl; [split; intros; (done || lia)|].
  rewrite <-IH. by destruct (take_slot tbl fd).
Qed.

(** A new connection in a free slot. *)
Lemma server_ok_add s i fd :
  server_ok s → 0 < fd → fd ∉ client_fds s → client_fds s !! i = Some 0 →
  server_ok (mkServer (<[i := fd]> (client_fds s)) (connections s + 1)
               (connections_printed s) (keep s) (client_buff s)).
Proof.
  intros [] Hfd Hn Hi. pose proof (frees_insert _ _ fd Hi ltac:(lia)).
  constructor; simpl; try done.
  - by apply table_insert.
  - by apply once_insert.
  - apply Forall_insert; [done|lia].
  - lia.
Qed.

Lemma accept_client_ok a s : server_ok s → fresh_fd s a → server_ok (accept_client a s).
Proof.
  intros Hs Hf. unfold accept_client. destruct (Z.ltb_spec (accepted a) 0); [done|].
  destruct (_ <? 0); [done|].
  destruct (take_slot (client_fds s) (accepted a)) as [tbl|] eqn:E; [|done].
  apply take_slot_spec in E as (i & Hi & ->). destruct (Hf H). by apply server_ok_add.
Qed.

Lemma note_reached_ok s : server_ok s → server_ok (note_reached s).
Proof. intros []. unfold note_reached. by case_match. Qed.

Lemma select_pass_ok fuel fd r s b s' :
  select_pass fuel fd r s = Ret (b, s') → fresh_fd s (sel_accept r) →
  server_ok s → server_ok s'.
Proof.
  unfold select_pass. intros H Hf Hs.
  destruct (FD_SET fd ∅) as [set|]; [|done]. cbn [mbind outcome_bind] in H.
  destruct (watch_clients (client_fds s) set) as [set'|]; [|done].
  cbn [mbind outcome_bind] in H. destruct (sel_answer r); [| |by simplify_eq].
  all: destruct (FD_ISSET _ _) as [p|]; [|done]; cbn [mbind outcome_bind] in H.
  all: set (s1 := if p then _ else s) in *.
  all: assert (server_ok s1) by (subst s1; destruct p; [by apply accept_client_ok|done]).
  all: destruct (negb _); [by simplify_eq|].
  all: destruct (serve _ _ _ _ _) as [s2|] eqn:E; simplify_eq/=.
  all: apply serve_ok in E; [done|by apply note_reached_ok].
Qed.

Lemma poll_pass_ok fuel r s b s' :
  poll_pass fuel r s = Ret (b, s') → fresh_fd s (poll_accept r) →
  server_ok s → server_ok s'.
Proof.
  unfold poll_pass. intros H Hf Hs. set (p := pollin _) in *.
  set (s1 := if p then accept_client _ s else s) in *.
  assert (server_ok s1) by (subst s1; destruct p; [by apply accept_client_ok|done]).
  destruct (negb _); [by simplify_eq|].
  destruct (serve _ _ _ _ _) as [s2|] eqn:E; simplify_eq/=.
  apply serve_ok in E; [done|by apply note_reached_ok].
Qed.

Lemma epoll_step_ok fuel fd e s s' :
  epoll_step fuel fd e s = Ret s' → fresh_fd s (ev_accept e) →
  server_ok s → server_ok s'.
Proof.
  unfold epoll_step, epoll_accept, epoll_read. intros H Hf Hs.
  destruct (_ || _); [by simplify_eq|]. destruct (ev_fd e =? fd).
  - destruct (Z.ltb_spec (accepted (ev_accept e)) 0); [by simplify_eq|].
    destruct (_ <? 0); [by simplify_eq|]. destruct (ev_ctl e <? 0); [by simplify_eq|].
    destruct (epoll_add_idx_cases (client_fds s) (accepted (ev_accept e)))
      as [(i & Hi & Hb & Hz)|[Hi _]]; [apply Hs|done| |].
    + rewrite Hi in H. cbn [mbind outcome_bind] in H.
      rewrite (proj2 (Z.ltb_ge i 0)) in H by lia. simplify_eq.
      destruct (Hf H0). by apply server_ok_add.
    + rewrite Hi in H. by simplify_eq/=.
  - destruct (negb _); [by simplify_eq|]. apply note_reached_ok in Hs.
    destruct (epoll_get_idx _ _) as [idx|]; [|done]. cbn [mbind outcome_bind] in H.
    destruct (idx <? 0); [by simplify_eq|].
    destruct (read_client _ _ _ _ _ _) as [[k bufs]|] eqn:E; simplify_eq/=.
    destruct Hs. apply read_client_type in E as [[? ?] Hk]; [|done].
    constructor; try done. simpl. intuition congruence.
Qed.

Lemma start_server_ok bufs : buffs_ok bufs → server_ok (start_server bufs).
Proof.
  intros [? ?]. constructor; simpl; [| | | |done..|].
  - apply no_clients_table.
  - intros i j v Hv ->%list_elem_of_lookup_2%no_clients_elem. done.
  - apply Forall_forall. by intros v ->%no_clients_elem.
  - by rewrite no_clients_free.
  - by right.
Qed.

(** ** Serving the connections that are ready *)

(** The buffers after a pass that reads every slot whose flag is set. *)
Fixpoint served (reads : Z -> nat -> Z -> read_result) (fds : list Z) (flags : list bool)
    (bufs : list (list Z)) : list (list Z) :=
  match fds, flags, bufs with
  | fd :: fds, r :: flags, b :: bufs =>
    (if r && negb (fd =? 0) then received (reads fd) b else b) :: served reads fds flags bufs
  | _, _, _ => bufs
  end.

(** The number of slots a pass has to read. *)
Fixpoint due (fds : list Z) (flags : list bool) : nat :=
  match fds, flags with
  | fd :: fds, r :: flags => ((if r && negb (fd =? 0)%Z then 1 else 0) + due fds flags)%nat
  | _, _ => 0%nat
  end.

Lemma served_none reads fds flags bufs : due fds flags = 0%nat → served reads fds flags bufs = bufs.
Proof.
  revert flags bufs. induction fds as [|fd fds IH]; intros [|r flags] [|b bufs]; try done.
  simpl. intros H. destruct (_ && _); [lia|]. f_equal. apply IH. lia.
Qed.

Lemma served_lookup reads fds flags bufs i fd r b :
  fds !! i = Some fd → flags !! i = Some r → bufs !! i = Some b →
  served reads fds flags bufs !! i =
    Some (if r && negb (fd =? 0) then received (reads fd) b else b).
Proof.
  revert flags bufs i.
  induction fds as [|fd' fds IH]; intros [|r' flags] [|b' bufs] [|i] H1 H2 H3; simplify_eq/=;
    [done|]. by apply IH.
Qed.

Lemma read_client_run reads i fd k pre b bufs :
  read_works (reads fd) → peer_open (reads fd) → Z.of_nat (length b) = MAXBUFFLEN →
  i = Z.of_nat (length pre) →
  ∃ k', read_client reads read_fuel i fd k (pre ++ b :: bufs) =
          Ret (k', (pre ++ [received (reads fd) b]) ++ bufs).
Proof.
  intros Hw Ho Hb ->. unfold read_client.
  assert ((pre ++ b :: bufs) !! Z.to_nat (Z.of_nat (length pre)) = Some b) as Hl
    by by rewrite Nat2Z.id, list_lookup_middle.
  rewrite (aread_Some _ _ _ (Nat2Z.is_nonneg _) Hl). cbn [mbind outcome_bind].
  destruct (read_loop_from (reads fd) read_fuel 0 k [] b Hw Ho Hb) as (k' & _ & _ & Hrun).
  { unfold read_fuel. lia. }
  cbn [app length] in Hrun. change (Z.of_nat 0) with 0 in Hrun. rewrite Hrun.
  cbn [mbind outcome_bind]. rewrite (awrite_Some _ _ _ _ (Nat2Z.is_nonneg _) Hl).
  exists k'. cbn [mbind outcome_bind]. rewrite Nat2Z.id, insert_app_r_alt by lia.
  by rewrite Nat.sub_diag, <-app_assoc.
Qed.

(** The loop over the slots reads them all: it stops early only when every
    descriptor the call reported was seen. *)
Lemma serve_slots_run ready reads fds flags pre bufs i event k :
  length flags = length fds → length bufs = length fds → i = Z.of_nat (length pre) →
  (∀ j fd r, fds !! j = Some fd → flags !! j = Some r → fd ≠ 0 →
     ready (i + Z.of_nat j) fd = Ret r) →
  (∀ fd, fd ∈ fds → read_works (reads fd) ∧ peer_open (reads fd)) →
  Forall (fun b => Z.of_nat (length b) = MAXBUFFLEN) bufs →
  Z.of_nat (due fds flags) ≤ event →
  ∃ k', serve_slots ready reads read_fuel fds i event k (pre ++ bufs) =
          Ret (k', pre ++ served reads fds flags bufs).
Proof.
  revert flags pre bufs i event k.
  induction fds as [|fd fds IH];
    intros [|r flags] pre [|b bufs] i event k Hf Hl Hi Hready Hreads Hb Hdue;
    try done; [by exists k|]. simpl in Hf, Hl, Hdue. cbn [serve_slots].
  apply Forall_cons in Hb as [Hb Hbs].
  destruct (Z.eqb_spec event 0) as [->|He].
  { exists k. rewrite served_none; [done|]. simpl. lia. }
  assert (∀ j fd' r', fds !! j = Some fd' → flags !! j = Some r' → fd' ≠ 0 →
    ready (i + 1 + Z.of_nat j) fd' = Ret r') as Hready'.
  { intros j fd' r' H1 H2 H3. rewrite <-(Hready (S j) fd' r' H1 H2 H3). f_equal. lia. }
  assert (∀ fd', fd' ∈ fds → read_works (reads fd') ∧ peer_open (reads fd')) as Hreads'
    by (intros; apply Hreads; by apply list_elem_of_further).
  assert (∀ c, i + 1 = Z.of_nat (length (pre ++ [c : list Z]))) as Hi'
    by (intros; rewrite length_app; simpl; lia).
  assert (∀ (c : list Z) l, pre ++ c :: l = (pre ++ [c]) ++ l) as Hcons
    by (intros; by rewrite <-app_assoc).
  cbn [served]. destruct (Z.eqb_spec fd 0) as [->|Hfd].
  { cbn [negb] in *. rewrite andb_false_r in *.
    rewrite (Hcons b bufs), (Hcons b (served _ _ _ _)). apply IH; (done || lia). }
  pose proof (Hready 0%nat fd r eq_refl eq_refl Hfd) as E. rewrite Z.add_0_r in E.
  rewrite E. cbn [mbind outcome_bind]. cbn [negb] in *. rewrite andb_true_r in *.
  destruct r.
  - destruct (Hreads fd (list_elem_of_here _ _)) as [Hw Ho].
    destruct (read_client_run reads i fd k pre b bufs Hw Ho Hb Hi) as (k1 & ->).
    cbn [mbind outcome_bind]. rewrite (Hcons _ (served _ _ _ _)). apply IH; (done || lia).
  - rewrite (Hcons b bufs), (Hcons b (served _ _ _ _)). apply IH; (done || lia).
Qed.

(** Whatever the call reported, the loop returns when no peer has closed its side. *)
Lemma read_client_returns reads i fd k bufs :
  read_works (reads fd) → peer_open (reads fd) → buffs_ok bufs → 0 ≤ i < MAXCLIENT →
  ∃ k' bufs', read_client reads read_fuel i fd k bufs = Ret (k', bufs').
Proof.
  intros Hw Ho [Hl Hb] Hi. destruct (lookup_lt_is_Some_2 bufs (Z.to_nat i)) as [b Hbi]; [lia|].
  rewrite <-(take_drop_middle _ _ _ Hbi).
  destruct (read_client_run reads i fd k (take (Z.to_nat i) bufs) b (drop (S (Z.to_nat i)) bufs) Hw Ho)
    as [k' ->]; [exact (Forall_lookup_1 _ _ _ _ Hb Hbi)|rewrite length_take; lia|]. eauto.
Qed.

Lemma serve_slots_returns ready reads fds i event k bufs :
  0 ≤ i → i + Z.of_nat (length fds) ≤ MAXCLIENT → buffs_ok bufs →
  (∀ j fd, 0 ≤ j < MAXCLIENT → ∃ r, ready j fd = Ret r) →
  (∀ fd, fd ∈ fds → read_works (reads fd) ∧ peer_open (reads fd)) →
  ∃ k' bufs', serve_slots ready reads read_fuel fds i event k bufs = Ret (k', bufs').
Proof.
  revert i event k bufs. induction fds as [|fd fds IH]; intros i event k bufs Hi Hl Hb Hr Hreads;
    cbn [serve_slots]; [eauto|]. cbn [length] in Hl.
  assert (∀ fd', fd' ∈ fds → read_works (reads fd') ∧ peer_open (reads fd')) as Hreads'
    by (intros; apply Hreads; by apply list_elem_of_further).
  destruct (event =? 0); [eauto|]. destruct (fd =? 0); [apply IH; (done || lia)|].
  destruct (Hr i fd) as [[] ->]; [lia|..]; cbn [mbind outcome_bind]; [|apply IH; (done || lia)].
  destruct (Hreads fd (list_elem_of_here _ _)) as [Hw Ho].
  destruct (read_client_returns reads i fd k bufs Hw Ho Hb) as (k1 & bufs1 & E); [lia|].
  rewrite E. cbn [mbind outcome_bind]. apply read_client_type in E as [Hb1 _]; [|done].
  apply IH; (done || lia).
Qed.

(** [poll] returns the number of entries whose [revents] it set. *)
Definition poll_counts (r : poll_round) : Prop :=
  poll_ret r + Z.of_nat (frees (listen_revents r :: slot_revents r)) =
  1 + Z.of_nat (length (slot_revents r)).

Lemma pollin_0 : pollin 0 = false.
Proof. done. Qed.

Lemma due_frees fds revents :
  (due fds (pollin <$> revents) + frees revents ≤ length revents)%nat.
Proof.
  revert fds. induction revents as [|v revents IH]; intros [|fd fds]; try (simpl; lia).
  - specialize (IH []). cbn [due frees length] in *. case_match; lia.
  - specialize (IH fds). rewrite fmap_cons. cbn [due frees length].
    destruct (Z.eqb_spec v 0) as [->|]; [rewrite pollin_0|]; case_match; lia.
Qed.

(** A full server does not take another connection. *)
Lemma accept_client_full a s :
  server_ok s → connections s = MAXCLIENT → accept_client a s = s.
Proof.
  intros [] Hc. unfold accept_client. destruct (_ <? 0); [done|]. destruct (_ <? 0); [done|].
  rewrite (proj2 (take_slot_None _ _)); [done|]. lia.
Qed.

Lemma note_reached_fields s :
  client_fds (note_reached s) = client_fds s ∧ connections (note_reached s) = connections s ∧
  client_buff (note_reached s) = client_buff s.
Proof. unfold note_reached. by destruct (_ =? 0). Qed.

(** C27. With all its connections there and no peer that has closed its side, a pass
    of the [poll] server reads exactly the connections [poll] reported readable, each
    into the buffer of its slot, leaves the other buffers and the table alone, and
    returns. *)
Theorem poll_serves_ready r s :
  server_ok s → connections s = MAXCLIENT →
  Z.of_nat (length (slot_revents r)) = MAXCLIENT → poll_counts r →
  (∀ fd, fd ∈ client_fds s → read_works (poll_reads r fd) ∧ peer_open (poll_reads r fd)) →
  ∃ s', poll_pass read_fuel r s = Ret (false, s') ∧
    client_fds s' = client_fds s ∧ connections s' = MAXCLIENT ∧
    ∀ i fd v b, client_fds s !! i = Some fd → slot_revents r !! i = Some v →
      client_buff s !! i = Some b →
      client_buff s' !! i = Some (if pollin v then received (poll_reads r fd) b else b).
Proof.
  intros Hs Hc Hl Hcount Hreads. unfold poll_pass. rewrite accept_client_full by done.
  set (p := pollin (listen_revents r)). replace (if p then s else s) with s by by destruct p.
  rewrite Hc, Z.eqb_refl. cbn [negb]. unfold serve.
  destruct (note_reached_fields s) as (-> & -> & ->).
  pose proof (due_frees (client_fds s) (slot_revents r)) as Hdue.
  destruct Hs as [Ht _ _ Hk Hbs Hb _]. unfold table in Ht.
  destruct (serve_slots_run (fun i _ => v ← aread (slot_revents r) i; Ret (pollin v))
    (poll_reads r) (client_fds s) (pollin <$> slot_revents r) [] (client_buff s) 0
    (if p then poll_ret r - 1 else poll_ret r) (keep (note_reached s))) as (k' & Hrun).
  - rewrite length_fmap. lia.
  - lia.
  - done.
  - intros j fd b _ Hj _. apply list_lookup_fmap_Some in Hj as (v & -> & Hv).
    rewrite (aread_Some _ _ v); [done|lia|]. by rewrite Z.add_0_l, Nat2Z.id.
  - done.
  - done.
  - unfold poll_counts in Hcount. cbn [frees] in Hcount. subst p.
    destruct (Z.eqb_spec (listen_revents r) 0) as [->|]; [rewrite pollin_0; lia|].
    destruct (pollin (listen_revents r)); lia.
  - rewrite !app_nil_l in Hrun. rewrite Hrun. eexists. split; [done|]. split_and!; [done..|].
    intros i fd v b Hfd Hv Hbi. cbn [client_buff].
    rewrite (served_lookup _ _ _ _ _ fd (pollin v) b);
      [|done|by rewrite list_lookup_fmap, Hv|done].
    destruct (Z.eqb_spec fd 0) as [->|]; [|by rewrite andb_true_r].
    assert (0 ∉ client_fds s) as []; [|by eapply list_elem_of_lookup_2].
    apply frees_0_inv. lia.
Qed.

(** A server with every slot taken, and an answer that reports its first slot
    readable. *)
Definition full_server : server :=
  mkServer (seqZ 4 MAXCLIENT) MAXCLIENT 1 1 (replicate (Z.to_nat MAXCLIENT) blank).

Lemma blank_buffs_ok : buffs_ok (replicate (Z.to_nat MAXCLIENT) blank).
Proof.
  split.
  - rewrite length_replicate. pose proof MAXCLIENT_pos. lia.
  - apply Forall_replicate, length_blank.
Qed.

Lemma full_server_ok : server_ok full_server.
Proof.
  pose proof MAXCLIENT_pos. destruct blank_buffs_ok as [? ?].
  assert (∀ v, v ∈ seqZ 4 MAXCLIENT → 0 < v) as Hpos by (intros v Hv%elem_of_seqZ; lia).
  constructor; cbn [client_fds connections client_buff keep full_server]; [| | | |done..|by right].
  - unfold table. rewrite length_seqZ. lia.
  - intros i j v _. apply NoDup_lookup, NoDup_seqZ.
  - apply Forall_forall. intros v Hv%Hpos. lia.
  - rewrite frees_0; [lia|]. by intros Hv%Hpos.
Qed.

Definition sample_poll : poll_round :=
  mkPoll 1 0 (1 :: replicate (Z.to_nat (MAXCLIENT - 1)) 0) (mkAccept (-1) 0 0)
    (fun _ => sample_peer).

Lemma sample_poll_counts :
  Z.of_nat (length (slot_revents sample_poll)) = MAXCLIENT ∧ poll_counts sample_poll.
Proof.
  pose proof MAXCLIENT_pos. unfold poll_counts, sample_poll.
  cbn [slot_revents poll_ret listen_revents frees length].
  assert (∀ n, frees (replicate n 0) = n) as -> by (induction n; simpl; lia).
  rewrite length_replicate. split; simpl; lia.
Qed.

#[global] Opaque full_server sample_poll.

Lemma poll_serves_ready_witness :
  ∃ s', poll_pass read_fuel sample_poll full_server = Ret (false, s') ∧
    client_fds s' = client_fds full_server ∧ connections s' = MAXCLIENT ∧
    ∀ i fd v b, client_fds full_server !! i = Some fd →
      slot_revents sample_poll !! i = Some v → client_buff full_server !! i = Some b →
      client_buff s' !! i =
        Some (if pollin v then received (poll_reads sample_poll fd) b else b).
Proof.
  apply (poll_serves_ready sample_poll full_server).
  - exact full_server_ok.
  - exact (eq_refl MAXCLIENT).
  - exact (proj1 sample_poll_counts).
  - exact (proj2 sample_poll_counts).
  - intros fd _. exact (conj sample_peer_works sample_peer_open).
Defined.

(** ** The [select] server *)

Lemma MAXCLIENT_val : MAXCLIENT = 10000.
Proof. exact eq_refl. Qed.

Lemma watch_clients_run fds set :
  watch_clients fds set = Fault OutOfBounds ∨
  (∃ set', watch_clients fds set = Ret set') ∧ Forall (fun fd => fd < FD_SETSIZE) fds.
Proof.
  revert set. induction fds as [|fd fds IH]; intros set; simpl; [right; eauto|].
  unfold FD_SET. destruct (Z.ltb_spec 0 fd) as [Hfd|Hfd].
  - case_decide; [|by left]. cbn [mbind outcome_bind].
    destruct (IH ({[fd]} ∪ set)) as [?|[? ?]]; [by left|right]. split; [done|].
    constructor; [lia|done].
  - cbn [mbind outcome_bind]. destruct (IH set) as [?|[? ?]]; [by left|right].
    split; [done|]. constructor; [unfold FD_SETSIZE; lia|done].
Qed.

(** Descriptors that fit an [fd_set] leave most of the table free. *)
Lemma few_watched tbl :
  once tbl → Forall (fun fd => 0 ≤ fd < FD_SETSIZE) tbl →
  Z.of_nat (length tbl) ≤ Z.of_nat (frees tbl) + FD_SETSIZE.
Proof.
  intros Ho Hb.
  assert (∃ l, NoDup l ∧ l ⊆ tbl ∧ (length tbl = frees tbl + length l)%nat)
    as (l & Hnd & Hsub & ->).
  { clear Hb. induction tbl as [|v tbl IH]; [by exists []; split_and!; [constructor|..]|].
    destruct IH as (l & Hnd & Hsub & Hl).
    { intros i j w Hw Hi Hj. by specialize (Ho (S i) (S j) w Hw Hi Hj) as [= ->]. }
    simpl. destruct (Z.eqb_spec v 0) as [->|Hv]; [exists l|exists (v :: l)].
    - split_and!; [done|set_solver|lia].
    - split_and!; [constructor; [|done]|set_solver|simpl; lia].
      intros [j Hj]%Hsub%list_elem_of_lookup.
      by specialize (Ho 0%nat (S j) v Hv eq_refl Hj). }
  assert (length l ≤ length (seqZ 0 FD_SETSIZE))%nat as Hlen.
  { apply submseteq_length, NoDup_submseteq; [done|]. intros v Hv%Hsub.
    rewrite Forall_forall in Hb. specialize (Hb v Hv). apply elem_of_seqZ. lia. }
  rewrite length_seqZ in Hlen. unfold FD_SETSIZE in *. lia.
Qed.

Lemma accept_client_fields a s :
  connections (accept_client a s) ≤ connections s + 1 ∧
  client_buff (accept_client a s) = client_buff s ∧
  ∀ v, v ∈ client_fds (accept_client a s) → v ∈ client_fds s ∨ (v = accepted a ∧ 0 ≤ v).
Proof.
  unfold accept_client. destruct (Z.ltb_spec (accepted a) 0); [split_and!; eauto; lia|].
  destruct (_ <? 0); [split_and!; eauto; lia|].
  destruct (take_slot _ _) as [tbl|] eqn:E; [|split_and!; eauto; lia].
  apply take_slot_spec in E as (i & _ & ->). split_and!; [simpl; lia|done|].
  intros v [j Hj]%list_elem_of_lookup. cbn [client_fds] in Hj.
  apply list_lookup_insert_Some in Hj as [(_ & <- & _)|[_ Hj]]; [right; split; [done|lia]|].
  left. by eapply list_elem_of_lookup_2.
Qed.

Lemma watch_clients_fits fds set :
  Forall (fun fd => fd < FD_SETSIZE) fds → ∃ set', watch_clients fds set = Ret set'.
Proof.
  intros H. revert set. induction H as [|fd fds Hfd _ IH]; intros set; cbn [watch_clients]; [eauto|].
  destruct (Z.ltb_spec 0 fd); [|apply IH]. unfold FD_SET. rewrite decide_True by lia. apply IH.
Qed.

(** The descriptors a pass of the [select] server puts into its [fd_set] fit it. *)
Definition watchable (fd : Z) (s : server) : Prop :=
  0 ≤ fd < FD_SETSIZE ∧ Forall (fun v => v < FD_SETSIZE) (client_fds s).

(** A pass of the [select] server overruns its [fd_set], or it leaves every buffer
    alone. *)
Lemma select_pass_unserved fuel fd r s :
  server_ok s → fresh_fd s (sel_accept r) →
  select_pass fuel fd r s = Fault OutOfBounds ∧ ~ watchable fd s ∨
  watchable fd s ∧ ∃ b s', select_pass fuel fd r s = Ret (b, s') ∧ client_buff s' = client_buff s ∧
    ∀ v, v ∈ client_fds s' →
      v ∈ client_fds s ∨ (v = accepted (sel_accept r) ∧ 0 ≤ v).
Proof.
  intros Hs Hf. unfold select_pass.
  destruct (decide (0 ≤ fd < FD_SETSIZE)) as [Hfd|Hfd].
  2: { left. unfold FD_SET. rewrite decide_False by done. split; [done|]. by intros [? _]. }
  assert (FD_SET fd ∅ = Ret ({[fd]} ∪ ∅)) as ->
    by (unfold FD_SET; by rewrite decide_True).
  cbn [mbind outcome_bind].
  destruct (watch_clients_run (client_fds s) ({[fd]} ∪ ∅)) as [E|[[set ->] Hlt]].
  { left. rewrite E. split; [done|]. intros [_ Hlt]. by apply (watch_clients_fits _ ({[fd]} ∪ ∅)) in Hlt as [? Hlt];
      rewrite E in Hlt. }
  right. split; [done|]. cbn [mbind outcome_bind].
  assert (connections s + 1 < MAXCLIENT) as Hfew.
  { destruct Hs as [Ht Ho Hfds Hk _ _ _]. unfold table in Ht.
    pose proof (few_watched _ Ho) as H. rewrite Forall_and in H.
    specialize (H (conj Hfds Hlt)). rewrite MAXCLIENT_val in *. unfold FD_SETSIZE in *. lia. }
  assert (∀ set', FD_ISSET fd set' = Ret (bool_decide (fd ∈ set'))) as Hisset
    by (intros; unfold FD_ISSET; by rewrite decide_True).
  destruct (accept_client_fields (sel_accept r) s) as (Hle & Hbuf & Hin).
  destruct (sel_answer r) as [rdy| |]; [| |by exists true, s; eauto].
  all: rewrite Hisset; cbn [mbind outcome_bind]; destruct (bool_decide _).
  all: rewrite (proj2 (Z.eqb_neq _ _)) by lia; cbn [negb]; eexists _, _.
  all: split_and!; [done..|by eauto].
Qed.

(** The descriptors the passes accept. *)
Definition accepts (rs : list select_round) : list Z :=
  filter (fun fd => 0 ≤ fd) ((fun r => accepted (sel_accept r)) <$> rs).

Lemma accepts_cons r rs fd : fd ∈ accepts rs → fd ∈ accepts (r :: rs).
Proof.
  unfold accepts. rewrite !list_elem_of_filter, fmap_cons. intros [? ?]. split; [done|].
  by apply list_elem_of_further.
Qed.

Lemma accepts_head r rs :
  0 ≤ accepted (sel_accept r) → accepts (r :: rs) = accepted (sel_accept r) :: accepts rs.
Proof. intros. unfold accepts. rewrite fmap_cons. by rewrite filter_cons_True. Qed.

Lemma accepts_tail_NoDup r rs : NoDup (accepts (r :: rs)) → NoDup (accepts rs).
Proof.
  unfold accepts. rewrite fmap_cons, filter_cons. case_decide; [|done].
  by intros [_ ?]%NoDup_cons.
Qed.

Lemma run_select_unserved fuel fd rs s :
  server_ok s → NoDup (accepts rs) →
  (∀ v, v ∈ accepts rs → 0 < v ∧ v ∉ client_fds s) →
  run_passes (select_pass fuel fd) rs s = Fault OutOfBounds ∨
  ∃ o s', run_passes (select_pass fuel fd) rs s = Ret (o, s') ∧
    client_buff s' = client_buff s.
Proof.
  revert s. induction rs as [|r rs IH]; intros s Hs Hnd Hnew; cbn [run_passes]; [by eauto|].
  destruct (keep s =? 0); [by eauto|].
  assert (fresh_fd s (sel_accept r)) as Hf.
  { intros H. apply Hnew. rewrite accepts_head by done. apply list_elem_of_here. }
  destruct (select_pass_unserved fuel fd r s Hs Hf) as [[-> _]|(_ & b & s1 & E & Hb & Hin)]; [by left|].
  rewrite E. cbn [mbind outcome_bind]. destruct b; [by eauto|]. rewrite <-Hb. apply IH.
  - by eapply select_pass_ok.
  - by eapply accepts_tail_NoDup.
  - intros v Hv. pose proof (Hnew v (accepts_cons _ _ _ Hv)) as [H1 H2]. split; [done|].
    intros [?|[-> Hp]]%Hin; [done|]. rewrite accepts_head in Hnd by done.
    by apply NoDup_cons in Hnd as [? _].
Qed.

(** The [select] server never serves its load: it reads no client before
    [MAXCLIENT] connections are there, and long before that one of their
    descriptors is past the end of the [fd_set] it is put in. Over every
    sequence of passes, with every answer of the system calls, the run either
    overruns the set or has not stored a byte of any client. *)
Theorem select_never_serves fuel fd rs bufs :
  buffs_ok bufs → NoDup (accepts rs) → Forall (fun v => 0 < v) (accepts rs) →
  run_select fuel fd rs bufs = Fault OutOfBounds ∨
  ∃ o s, run_select fuel fd rs bufs = Ret (o, s) ∧ client_buff s = bufs.
Proof.
  intros Hb Hnd Hpos. unfold run_select.
  apply (run_select_unserved fuel fd rs (start_server bufs)); [by apply start_server_ok|done|].
  intros v Hv. rewrite Forall_forall in Hpos. specialize (Hpos v Hv). split; [done|].
  intros ->%no_clients_elem. lia.
Qed.

(** Three passes: two connections and a third descriptor an [fd_set] cannot
    hold. *)
Definition sample_rounds : list select_round :=
  (fun a => mkSelect (SelReady {[3]}) (mkAccept a 0 0) (fun _ => sample_peer)) <$>
    [4; 5; 1024; -1].

Lemma select_never_serves_witness :
  run_select read_fuel 3 sample_rounds (replicate (Z.to_nat MAXCLIENT) blank)
    = Fault OutOfBounds ∨
  ∃ o s, run_select read_fuel 3 sample_rounds (replicate (Z.to_nat MAXCLIENT) blank)
           = Ret (o, s) ∧ client_buff s = replicate (Z.to_nat MAXCLIENT) blank.
Proof.
  apply (select_never_serves read_fuel 3 sample_rounds).
  - exact blank_buffs_ok.
  - apply NoDup_ListNoDup. repeat constructor; simpl; lia.
  - repeat constructor; lia.
Defined.

(** ** The invariant of the three servers *)

Lemma poll_pass_returns r s :
  server_ok s → fresh_fd s (poll_accept r) → Z.of_nat (length (slot_revents r)) = MAXCLIENT →
  (∀ fd, read_works (poll_reads r fd) ∧ peer_open (poll_reads r fd)) →
  ∃ s', poll_pass read_fuel r s = Ret (false, s') ∧ server_ok s'.
Proof.
  intros Hs Hf Hl Hreads. destruct (poll_pass read_fuel r s) as [[b s']|f] eqn:E.
  - pose proof (poll_pass_ok _ _ _ _ _ E Hf Hs). unfold poll_pass in E.
    destruct (negb _) in E; [simplify_eq; eauto|].
    destruct (serve _ _ _ _ _) in E; simplify_eq/=; eauto.
  - exfalso. unfold poll_pass in E. set (s1 := if pollin _ then accept_client _ s else s) in *.
    assert (server_ok s1) as [Ht _ _ _ ? ? _] by (subst s1; destruct (pollin _); [by apply accept_client_ok|done]).
    destruct (negb _); [done|]. unfold serve in E. destruct (note_reached_fields s1) as (E1 & E2 & E3).
    rewrite E1, E3 in E. unfold table in Ht.
    edestruct (serve_slots_returns (fun i _ => v ← aread (slot_revents r) i; Ret (pollin v))
      (poll_reads r) (client_fds s1) 0) as (k' & bufs' & Hrun); [done|lia|done| |done|by rewrite Hrun in E].
    intros j fd Hj. destruct (lookup_lt_is_Some_2 (slot_revents r) (Z.to_nat j)) as [v Hv]; [lia|].
    exists (pollin v). by rewrite (aread_Some _ _ v (proj1 Hj) Hv).
Qed.

Lemma epoll_step_returns fd e s :
  server_ok s → fresh_fd s (ev_accept e) → 0 ≤ ev_fd e →
  read_works (ev_reads e) → peer_open (ev_reads e) →
  ∃ s', epoll_step read_fuel fd e s = Ret s' ∧ server_ok s'.
Proof.
  intros Hs Hf He Hw Ho. destruct (epoll_step read_fuel fd e s) as [s'|f] eqn:E.
  { exists s'. split; [done|]. by eapply epoll_step_ok. }
  exfalso. unfold epoll_step, epoll_accept, epoll_read in E. destruct (_ || _); [done|].
  destruct (ev_fd e =? fd).
  - destruct (Z.ltb_spec (accepted (ev_accept e)) 0); [done|]. destruct (_ <? 0); [done|].
    destruct (ev_ctl e <? 0); [done|].
    destruct (epoll_add_idx_cases (client_fds s) (accepted (ev_accept e)))
      as [(i & Hi & _)|[Hi _]]; [apply Hs|done|..]; rewrite Hi in E; cbn [mbind outcome_bind] in E;
      by destruct (_ <? 0) in E.
  - destruct (negb _) eqn:Hc; [done|]. apply negb_false_iff, Z.eqb_eq in Hc.
    apply note_reached_ok in Hs as [Ht H1 _ Hk ? ? _].
    destruct (note_reached_fields s) as (E1 & E2 & E3). rewrite E1, E2 in *.
    destruct (decide (ev_fd e ∈ client_fds s)) as [[i Hi]%list_elem_of_lookup|Hn].
    + assert (ev_fd e ≠ 0) as Hz.
      { intros Hz. rewrite Hz in Hi. apply list_elem_of_lookup_2, frees_0_inv in Hi; [done|]. lia. }
      rewrite (epoll_get_idx_at _ _ i) in E by (done || intros j Hj; by eapply H1).
      cbn [mbind outcome_bind] in E. rewrite (proj2 (Z.ltb_ge _ _)) in E by lia.
      pose proof (lookup_lt_Some _ _ _ Hi) as Hlt. unfold table in Ht.
      edestruct (read_client_returns (fun _ => ev_reads e) (Z.of_nat i) (ev_fd e)) as (k' & bufs' & Hrun);
        [done|done|done|lia|by rewrite Hrun in E].
    + by rewrite epoll_get_idx_absent in E.
Qed.

(** C28. The three servers keep their variables well formed. The initial ones are. When
    [accept] returns descriptors that are not open already: a pass of [run_select] leaves
    them well formed if the listening descriptor and those of the clients are below
    [FD_SETSIZE], and overruns its [fd_set] otherwise; a pass of [run_poll] and an event of
    [run_epoll] return and leave them well formed if no peer has closed its side, and
    whatever they return is well formed if one has. *)
Theorem servers_well_formed :
  (∀ bufs, buffs_ok bufs → server_ok (start_server bufs)) ∧
  (∀ fuel fd r s, server_ok s → fresh_fd s (sel_accept r) →
     select_pass fuel fd r s = Fault OutOfBounds ∧ ~ watchable fd s ∨
     watchable fd s ∧ ∃ b s', select_pass fuel fd r s = Ret (b, s') ∧ server_ok s') ∧
  (∀ r s, server_ok s → fresh_fd s (poll_accept r) →
     ((∀ fd, read_works (poll_reads r fd) ∧ peer_open (poll_reads r fd)) →
      Z.of_nat (length (slot_revents r)) = MAXCLIENT →
      ∃ s', poll_pass read_fuel r s = Ret (false, s') ∧ server_ok s') ∧
     ∀ fuel b s', poll_pass fuel r s = Ret (b, s') → server_ok s') ∧
  (∀ fd e s, server_ok s → fresh_fd s (ev_accept e) →
     (read_works (ev_reads e) → peer_open (ev_reads e) → 0 ≤ ev_fd e →
      ∃ s', epoll_step read_fuel fd e s = Ret s' ∧ server_ok s') ∧
     ∀ fuel s', epoll_step fuel fd e s = Ret s' → server_ok s').
Proof.
  split_and!; [exact start_server_ok| | |].
  - intros fuel fd r s Hs Hf.
    destruct (select_pass_unserved fuel fd r s Hs Hf) as [?|(? & b & s' & E & _)]; [by left|right].
    split; [done|]. exists b, s'. split; [done|]. by eapply select_pass_ok.
  - intros r s Hs Hf. split; [intros Hr Hl; by apply poll_pass_returns|].
    intros fuel b s' E. by eapply poll_pass_ok.
  - intros fd e s Hs Hf. split; [intros Hw Ho He; by apply epoll_step_returns|].
    intros fuel s' E. by eapply epoll_step_ok.
Qed.

(** The first pass of the [select] server, a pass of the full [poll] server, and an event
    of its first client for the [epoll] server. *)
Lemma servers_well_formed_witness :
  (∃ b s', select_pass 0 3 (mkSelect (SelReady {[3]}) (mkAccept 4 0 0) (fun _ => sample_peer))
      (start_server (replicate (Z.to_nat MAXCLIENT) blank)) = Ret (b, s') ∧ server_ok s') ∧
  (∃ s', poll_pass read_fuel sample_poll full_server = Ret (false, s') ∧ server_ok s') ∧
  (∃ s', epoll_step read_fuel 3 (mkEvent 4 1 (mkAccept (-1) 0 0) 0 sample_peer) full_server = Ret s' ∧
     server_ok s').
Proof.
  destruct servers_well_formed as (H0 & H1 & H2 & H3). split; [|split].
  - destruct (H1 0%nat 3 (mkSelect (SelReady {[3]}) (mkAccept 4 0 0) (fun _ => sample_peer))
      (start_server (replicate (Z.to_nat MAXCLIENT) blank)) (H0 _ blank_buffs_ok)) as [[_ H]|[_ H]].
    + intros _. split; [done|]. intros Hx%no_clients_elem. done.
    + exfalso. apply H. split; [done|]. apply Forall_forall. by intros v ->%no_clients_elem.
    + exact H.
  - apply (H2 sample_poll full_server full_server_ok).
    + intros Hx. exfalso. by apply Hx.
    + intros fd. exact (conj sample_peer_works sample_peer_open).
    + exact (proj1 sample_poll_counts).
  - apply (H3 3 (mkEvent 4 1 (mkAccept (-1) 0 0) 0 sample_peer) full_server full_server_ok).
    + intros Hx. exfalso. by apply Hx.
    + exact sample_peer_works.
    + exact sample_peer_open.
    + done.
Defined.

(** ** The client threads *)

Lemma write_all_run wfds i n :
  0 ≤ i → (Z.to_nat i + n ≤ length wfds)%nat →
  write_all wfds i n = Ret (take n (drop (Z.to_nat i) wfds)).
Proof.
  revert i. induction n as [|n IH]; intros i Hi Hn; [done|]. cbn [write_all].
  destruct (lookup_lt_is_Some_2 wfds (Z.to_nat i)) as [fd Hfd]; [lia|].
  rewrite (aread_Some _ _ _ Hi Hfd), IH by lia. cbn [mbind outcome_bind].
  rewrite (drop_S _ _ _ Hfd). by replace (Z.to_nat (i + 1)) with (S (Z.to_nat i)) by lia.
Qed.

(** Answers of [getrandom] that let a round go on. *)
Definition usable (rnd : list Z) : nat := length (filter (fun r => 0 ≤ r) rnd).

Lemma write_rounds_run rnd wfds a b count ws n :
  write_all wfds a (Z.to_nat (b - a)) = Ret ws →
  THREAD_ITER - count = Z.of_nat n → (n ≤ usable rnd)%nat →
  write_rounds rnd wfds a b count = Ret (mjoin (replicate n ws)).
Proof.
  intros Hw. revert count n. induction rnd as [|r rnd IH]; intros count n Hc Hn;
    destruct n as [|n]; cbn [write_rounds].
  1, 3: by rewrite (proj2 (Z.ltb_ge _ _)) by lia.
  { unfold usable in Hn. simpl in Hn. lia. }
  rewrite (proj2 (Z.ltb_lt _ _)) by lia. unfold usable in *. rewrite filter_cons in Hn.
  destruct (Z.ltb_spec r 0); case_decide; try lia; [by apply IH|].
  rewrite Hw. cbn [mbind outcome_bind]. rewrite (IH (count + 1) n); [done|lia|].
  simpl in Hn. lia.
Qed.

(** What a client thread writes. The end of its range of connections is
    [tid + CLIENTS_PER_THREAD], not [fdstart + CLIENTS_PER_THREAD]: thread 0
    writes [THREAD_ITER] times to its hundred connections, thread 1 to a single
    one, and every other thread writes nothing and reports that it is done. *)
Theorem client_thread_writes rnd wfds tid wdones :
  Z.of_nat (length wfds) = MAXCLIENT →
  Z.of_nat (length wdones) = MAXCLIENT / CLIENTS_PER_THREAD →
  0 ≤ tid < MAXCLIENT / CLIENTS_PER_THREAD → THREAD_ITER ≤ Z.of_nat (usable rnd) →
  run_client_thread rnd wfds tid wdones =
    Ret (mjoin (replicate (Z.to_nat THREAD_ITER)
           (take (Z.to_nat (100 - 99 * tid)) (drop (Z.to_nat (100 * tid)) wfds))),
         <[Z.to_nat tid := 1]> wdones) ∧
  (2 ≤ tid → run_client_thread rnd wfds tid wdones = Ret ([], <[Z.to_nat tid := 1]> wdones)).
Proof.
  rewrite MAXCLIENT_val. unfold CLIENTS_PER_THREAD. change (10000 / 100) with 100.
  intros Hl Hd Ht Hr.
  assert (run_client_thread rnd wfds tid wdones =
    Ret (mjoin (replicate (Z.to_nat THREAD_ITER)
           (take (Z.to_nat (100 - 99 * tid)) (drop (Z.to_nat (100 * tid)) wfds))),
         <[Z.to_nat tid := 1]> wdones)) as Hrun.
  { unfold run_client_thread, CLIENTS_PER_THREAD.
    rewrite (write_rounds_run _ _ _ _ _
      (take (Z.to_nat (100 - 99 * tid)) (drop (Z.to_nat (100 * tid)) wfds))
      (Z.to_nat THREAD_ITER)); [|rewrite write_all_run by lia|unfold THREAD_ITER in *; lia..].
    - destruct (lookup_lt_is_Some_2 wdones (Z.to_nat tid)) as [d Hdd]; [lia|].
      cbn [mbind outcome_bind]. by rewrite (awrite_Some _ _ _ _ (proj1 Ht) Hdd).
    - do 3 f_equal; lia. }
  split; [done|]. intros H2. rewrite Hrun. do 2 f_equal.
  replace (Z.to_nat (100 - 99 * tid)) with 0%nat by lia. rewrite take_0.
  generalize (Z.to_nat THREAD_ITER). intros n. by induction n.
Qed.

Lemma client_thread_writes_witness :
  run_client_thread (replicate 100 65536) (seqZ 4 MAXCLIENT) 7 (replicate 100 0) =
    Ret (mjoin (replicate (Z.to_nat THREAD_ITER)
           (take (Z.to_nat (100 - 99 * 7)) (drop (Z.to_nat (100 * 7)) (seqZ 4 MAXCLIENT)))),
         <[Z.to_nat 7 := 1]> (replicate 100 0)) ∧
  (2 ≤ 7 → run_client_thread (replicate 100 65536) (seqZ 4 MAXCLIENT) 7 (replicate 100 0) =
    Ret ([], <[Z.to_nat 7 := 1]> (replicate 100 0))).
Proof.
  apply (client_thread_writes (replicate 100 65536) (seqZ 4 MAXCLIENT) 7 (replicate 100 0)).
  - rewrite length_seqZ. pose proof MAXCLIENT_pos. lia.
  - by vm_compute.
  - rewrite MAXCLIENT_val. by vm_compute.
  - by vm_compute.
Defined.
