(* ===== verification/RcuMap.v ===== *)
(** * The hash map with lock-free readers ([ksync-rcu-cmap])

    [rcucmap.c] keeps its entries in circular doubly linked lists, one per
    bucket. A pointer to a list entry is a [link]: the head of a bucket, the
    entry inside a node, the poison value of an unlinked entry or null. The
    list functions of the kernel are written out with their stores in order.
    A writer holds the lock of the bucket, so that one call of [update_ccmap]
    or [remove_ccmap] is one function here; what it unlinked and handed to
    [call_rcu] is part of its result. Readers and grace periods, which do not
    take the lock, are the subject of the file [RcuReader].

    [map_rep m M] relates the buckets to the finite map they stand for; the
    theorems are the refinement of the finite map by each operation, without a
    fault, and that deleting the map frees every node exactly once. *)

From stdpp Require Import base tactics numbers list gmap fin_sets.
From S2P Require Import Prelude Heap.

Local Open Scope Z_scope.

Inductive link :=
  | LHead (i : nat)
  | LNode (x : loc)
  | LPoison
  | LNull.

#[export] Instance link_eq_dec : EqDecision link.
Proof. solve_decision. Defined.

(** [struct node]: its key, its value and the [next] and [prev] of its entry. *)
Record node := mkNode {
  key : Z;
  value : Z;
  nnext : link;
  nprev : link;
}.

(** [struct cc_map]: the list heads of the buckets and the allocated nodes. *)
Record cc_map := mkMap {
  count : Z;
  buckets : list (link * link);
  nodes : gmap loc node;
}.

Definition _hashfunc (key bcount : Z) : outcome Z :=
  let hash := u32 (Z.lxor (Z.shiftr key 16) key * 73244475) in
  let hash := u32 (Z.lxor (Z.shiftr hash 16) hash * 73244475) in
  let hash := Z.lxor (Z.shiftr hash 16) hash in
  umod hash bcount.

(** [kzalloc] of the buckets and [INIT_LIST_HEAD] of each. *)
Definition make_ccmap (bcount : nat) : cc_map :=
  mkMap (Z.of_nat bcount) ((fun i => (LHead i, LHead i)) <$> seq 0 bcount) ∅.

(** ** Reading and writing list entries *)

Definition get_entry (l : link) (m : cc_map) : outcome (link * link) :=
  match l with
  | LHead i => or_fault OutOfBounds (buckets m !! i)
  | LNode x => n ← or_fault Dangling (nodes m !! x); Ret (nnext n, nprev n)
  | LPoison | LNull => Fault NullDeref
  end.

Definition set_entry (l : link) (e : link * link) (m : cc_map) : outcome cc_map :=
  match l with
  | LHead i =>
    _ ← or_fault OutOfBounds (buckets m !! i);
    Ret (mkMap (count m) (<[i := e]> (buckets m)) (nodes m))
  | LNode x =>
    n ← or_fault Dangling (nodes m !! x);
    Ret (mkMap (count m) (buckets m)
           (<[x := mkNode (key n) (value n) (fst e) (snd e)]> (nodes m)))
  | LPoison | LNull => Fault NullDeref
  end.

Definition set_next (l nx : link) (m : cc_map) : outcome cc_map :=
  e ← get_entry l m; set_entry l (nx, snd e) m.

Definition set_prev (l pv : link) (m : cc_map) : outcome cc_map :=
  e ← get_entry l m; set_entry l (fst e, pv) m.

(** [list_add_rcu(new, head)] *)
Definition list_add_rcu (new head : link) (m : cc_map) : outcome cc_map :=
  e ← get_entry head m;
  m ← set_next new (fst e) m;
  m ← set_prev new head m;
  m ← set_next head new m;
  set_prev (fst e) new m.

(** [list_del_rcu(entry)]: the entry keeps its [next]. *)
Definition list_del_rcu (entry : link) (m : cc_map) : outcome cc_map :=
  e ← get_entry entry m;
  m ← set_prev (fst e) (snd e) m;
  m ← set_next (snd e) (fst e) m;
  set_prev entry LPoison m.

(** [list_replace_rcu(old, new)] *)
Definition list_replace_rcu (old new : link) (m : cc_map) : outcome cc_map :=
  e ← get_entry old m;
  m ← set_next new (fst e) m;
  m ← set_prev new (snd e) m;
  m ← set_next (snd e) new m;
  m ← set_prev (fst e) new m;
  set_prev old LPoison m.

(** ** The operations *)

(** [list_for_each_entry] up to the first node with the key. *)
Fixpoint find_entry (fuel : nat) (m : cc_map) (head : link) (k : Z) (l : link)
    : outcome (option loc) :=
  match fuel with
  | O => Fault OutOfFuel
  | S fuel =>
    if decide (l = head) then Ret None
    else match l with
         | LNode x =>
           n ← or_fault Dangling (nodes m !! x);
           if key n =? k then Ret (Some x) else find_entry fuel m head k (nnext n)
         | _ => Fault Dangling
         end
  end.

(** The number of nodes bounds the length of any list. *)
Definition find_node (m : cc_map) (head : link) (k : Z) : outcome (option loc) :=
  e ← get_entry head m; find_entry (S (size (nodes m))) m head k (fst e).

(** [kzalloc] of a node. *)
Definition new_node (m : cc_map) : loc * cc_map :=
  let x := hfresh (nodes m) in
  (x, mkMap (count m) (buckets m) (<[x := mkNode 0 0 LNull LNull]> (nodes m))).

(** Assignments to the other fields of a node. *)
Definition set_node (x : loc) (f : node -> node) (m : cc_map) : outcome cc_map :=
  n ← or_fault Dangling (nodes m !! x);
  Ret (mkMap (count m) (buckets m) (<[x := f n]> (nodes m))).

(** The result, the node given to [call_rcu] and the map; [mem] says whether
    [kzalloc] succeeds. *)
Definition update_ccmap (mem : bool) (m : cc_map) (k v : Z)
    : outcome (Z * option loc * cc_map) :=
  idx ← _hashfunc (u32 k) (count m);
  let head := LHead (Z.to_nat idx) in
  old ← find_node m head k;
  if mem then
    let '(x, m) := new_node m in
    match old with
    | None =>
      m ← set_node x (fun n => mkNode k v (nnext n) (nprev n)) m;
      m ← list_add_rcu (LNode x) head m;
      Ret (idx, None, m)
    | Some old =>
      n ← or_fault Dangling (nodes m !! old);
      m ← set_node x (fun _ => n) m;
      m ← set_node x (fun n => mkNode (key n) v (nnext n) (nprev n)) m;
      m ← list_replace_rcu (LNode old) (LNode x) m;
      Ret (idx, Some old, m)
    end
  else Ret (-1, None, m).

Definition remove_ccmap (m : cc_map) (k : Z) : outcome (Z * option loc * cc_map) :=
  idx ← _hashfunc (u32 k) (count m);
  let head := LHead (Z.to_nat idx) in
  found ← find_node m head k;
  match found with
  | None => Ret (-1, None, m)
  | Some x => m ← list_del_rcu (LNode x) m; Ret (idx, Some x, m)
  end.

Definition get_ccmap_rcu (m : cc_map) (k : Z) : outcome (option loc) :=
  idx ← _hashfunc (u32 k) (count m);
  find_node m (LHead (Z.to_nat idx)) k.

(** The callback of [call_rcu]. *)
Definition _ccmap_cb (m : cc_map) (x : loc) : outcome cc_map :=
  h ← hfree (nodes m) (Some x); Ret (mkMap (count m) (buckets m) h).

(** [list_for_each_entry_safe]: the next node is read before [list_del] and
    [kfree]. *)
Definition list_del (entry : link) (m : cc_map) : outcome cc_map :=
  e ← get_entry entry m;
  m ← set_prev (fst e) (snd e) m;
  m ← set_next (snd e) (fst e) m;
  m ← set_next entry LPoison m;
  set_prev entry LPoison m.

Fixpoint delete_bucket (fuel : nat) (head l : link) (m : cc_map) : outcome cc_map :=
  match fuel with
  | O => Fault OutOfFuel
  | S fuel =>
    if decide (l = head) then Ret m
    else match l with
         | LNode x =>
           e ← get_entry l m;
           m ← list_del l m;
           m ← _ccmap_cb m x;
           delete_bucket fuel head (fst e) m
         | _ => Fault Dangling
         end
  end.

Fixpoint delete_buckets (is_ : list nat) (m : cc_map) : outcome cc_map :=
  match is_ with
  | [] => Ret m
  | i :: is_ =>
    e ← get_entry (LHead i) m;
    m ← delete_bucket (S (size (nodes m))) (LHead i) (fst e) m;
    delete_buckets is_ m
  end.

(** [delete_ccmap]: what is left of the nodes when the buckets and the map are
    freed after the loop. *)
Definition delete_ccmap (m : cc_map) : outcome (gmap loc node) :=
  m ← delete_buckets (seq 0 (Z.to_nat (count m))) m;
  Ret (nodes m).

(** ** Lists in memory *)

Abbreviation cell := (loc * (Z * Z))%type.

Definition first_link (e : link) (l : list cell) : link :=
  match l with [] => e | (x, _) :: _ => LNode x end.

Fixpoint last_link (pv : link) (l : list cell) : link :=
  match l with [] => pv | (x, _) :: l => last_link (LNode x) l end.

(** The nodes of [l] are linked in order, between [pv] and [e]. *)
Fixpoint seg (h : gmap loc node) (e pv : link) (l : list cell) : Prop :=
  match l with
  | [] => True
  | (x, (k, v)) :: l => h !! x = Some (mkNode k v (first_link e l) pv) ∧ seg h e (LNode x) l
  end.

(** Bucket [i] is the circular list of the cells [l]. *)
Definition bucket (m : cc_map) (i : nat) (l : list cell) : Prop :=
  buckets m !! i = Some (first_link (LHead i) l, last_link (LHead i) l) ∧
  seg (nodes m) (LHead i) (LHead i) l.

Lemma first_link_app e l1 l2 : first_link e (l1 ++ l2) = first_link (first_link e l2) l1.
Proof. by destruct l1 as [|[]]. Qed.

Lemma last_link_app pv l1 l2 : last_link pv (l1 ++ l2) = last_link (last_link pv l1) l2.
Proof. revert pv. induction l1 as [|[]]; simpl; auto. Qed.

Lemma seg_app h e pv l1 l2 :
  seg h e pv (l1 ++ l2) ↔ seg h (first_link e l2) pv l1 ∧ seg h e (last_link pv l1) l2.
Proof.
  revert pv. induction l1 as [|[x [k v]] l1 IH]; intros pv; simpl; [tauto|].
  rewrite IH, first_link_app. tauto.
Qed.

Lemma seg_frame h h' e pv l :
  (∀ x, x ∈ l.*1 → h' !! x = h !! x) → seg h e pv l → seg h' e pv l.
Proof.
  revert pv. induction l as [|[x [k v]] l IH]; intros pv Hf; [done|]. simpl.
  intros [Hx Hs]. split.
  - rewrite Hf; [done|]. apply list_elem_of_here.
  - apply IH; [|done]. intros y Hy. apply Hf. by apply list_elem_of_further.
Qed.

Lemma seg_lookup h e pv l x k v :
  seg h e pv l → (x, (k, v)) ∈ l → ∃ nx px, h !! x = Some (mkNode k v nx px).
Proof.
  revert pv. induction l as [|[y [k' v']] l IH]; intros pv Hs Hin; [set_solver|].
  destruct Hs as [Hy Hs]. apply elem_of_cons in Hin as [?|Hin]; [simplify_eq; eauto|].
  by eapply IH.
Qed.

Lemma seg_dom h e pv l x : seg h e pv l → x ∈ l.*1 → is_Some (h !! x).
Proof.
  intros Hs ([y [k v]] & -> & Hin)%list_elem_of_fmap.
  destruct (seg_lookup _ _ _ _ _ _ _ Hs Hin) as (nx & px & E). simpl. rewrite E. eauto.
Qed.

Lemma seg_fresh h e pv l : seg h e pv l → hfresh h ∉ l.*1.
Proof. intros Hs Hc. destruct (seg_dom _ _ _ _ _ Hs Hc) as [n Hn]. by rewrite hfresh_spec in Hn. Qed.

Lemma last_link_snoc pv l y c : last_link pv (l ++ [(y, c)]) = LNode y.
Proof. by rewrite last_link_app. Qed.

(** What a store to one entry changes: nothing of the nodes off [l], nothing of
    the keys and values, nothing of the other heads. *)
Definition touches (i : nat) (l : list loc) (m m' : cc_map) : Prop :=
  count m' = count m ∧ length (buckets m') = length (buckets m) ∧
  (∀ j, j ≠ i → buckets m' !! j = buckets m !! j) ∧
  (∀ y, y ∉ l → nodes m' !! y = nodes m !! y) ∧
  dom (nodes m') = dom (nodes m).

Lemma touches_refl i l m : touches i l m m.
Proof. by split_and!. Qed.

Lemma touches_trans i l m1 m2 m3 : touches i l m1 m2 → touches i l m2 m3 → touches i l m1 m3.
Proof.
  intros (H1 & H2 & H3 & H4 & H5) (G1 & G2 & G3 & G4 & G5). split_and!; try congruence.
  - intros j Hj. by rewrite G3, H3.
  - intros y Hy. by rewrite G4, H4.
Qed.

Lemma touches_mono i l l' m m' : l ⊆ l' → touches i l m m' → touches i l' m m'.
Proof. intros Hl (H1 & H2 & H3 & H4 & H5). split_and!; try done. auto. Qed.

Lemma touches_insert i x m n n' :
  nodes m !! x = Some n → touches i [x] m (mkMap (count m) (buckets m) (<[x := n']> (nodes m))).
Proof.
  intros Hx. split_and!; try done; cbn [nodes].
  - intros y Hy. rewrite lookup_insert_ne; [done|]. set_solver.
  - apply elem_of_dom_2 in Hx. rewrite dom_insert_L. set_solver.
Qed.

Lemma touches_head i l m a :
  touches i l m (mkMap (count m) (<[i := a]> (buckets m)) (nodes m)).
Proof.
  split_and!; try done; cbn [buckets].
  - by rewrite length_insert.
  - intros j Hj. by rewrite list_lookup_insert_ne.
Qed.

(** The store of a list function to the [next] of the entry before a position. *)
Lemma set_next_pre m i e l b e' :
  buckets m !! i = Some (first_link e l, b) → seg (nodes m) e (LHead i) l → NoDup l.*1 →
  ∃ m', set_next (last_link (LHead i) l) e' m = Ret m' ∧
    buckets m' !! i = Some (first_link e' l, b) ∧ seg (nodes m') e' (LHead i) l ∧
    touches i (l.*1) m m'.
Proof.
  intros Hh Hs Hnd. destruct l as [|[y [k v]] l _] using rev_ind.
  - simpl in *. unfold set_next, set_entry, get_entry. rewrite Hh. cbn.
    eexists. split; [done|]. cbn [buckets nodes].
    pose proof (lookup_lt_Some _ _ _ Hh). rewrite list_lookup_insert_eq by done.
    split_and!; try done. apply touches_head.
  - rewrite last_link_snoc. apply seg_app in Hs as [Hs [Hy _]].
    rewrite fmap_app in Hnd. apply NoDup_app in Hnd as (Hnd & Hny & _).
    unfold set_next, set_entry, get_entry. rewrite Hy. cbn.
    eexists. split; [done|]. cbn [buckets nodes].
    rewrite !first_link_app in *. split_and!; try done.
    + apply seg_app. split.
      * eapply seg_frame; [|exact Hs]. intros x Hx. rewrite lookup_insert_ne; [done|].
        intros <-. eapply Hny; [exact Hx|]. simpl. set_solver.
      * simpl. by rewrite lookup_insert_eq.
    + eapply touches_mono; [|by eapply touches_insert]. rewrite fmap_app. set_solver.
Qed.

(** The store to the [prev] of the entry after a position. *)
Lemma set_prev_suf m i pv l a pv' :
  buckets m !! i = Some (a, last_link pv l) → seg (nodes m) (LHead i) pv l → NoDup l.*1 →
  ∃ m', set_prev (first_link (LHead i) l) pv' m = Ret m' ∧
    buckets m' !! i = Some (a, last_link pv' l) ∧ seg (nodes m') (LHead i) pv' l ∧
    touches i (l.*1) m m'.
Proof.
  intros Hh Hs Hnd. destruct l as [|[y [k v]] l].
  - simpl in *. unfold set_prev, set_entry, get_entry. rewrite Hh. cbn.
    eexists. split; [done|]. cbn [buckets nodes].
    pose proof (lookup_lt_Some _ _ _ Hh). rewrite list_lookup_insert_eq by done.
    split_and!; try done. apply touches_head.
  - destruct Hs as [Hy Hs]. apply NoDup_cons in Hnd as [Hny Hnd]. cbn [first_link].
    unfold set_prev, set_entry, get_entry. rewrite Hy. cbn.
    eexists. split; [done|]. cbn [buckets nodes]. split_and!; try done.
    + by rewrite lookup_insert_eq.
    + eapply seg_frame; [|exact Hs]. intros x Hx. rewrite lookup_insert_ne; [done|].
      by intros <-.
    + eapply touches_mono; [|by eapply touches_insert]. simpl. set_solver.
Qed.

(** Stores to an entry off the lists. *)
Lemma set_next_off m i x n nx :
  nodes m !! x = Some n →
  ∃ m', set_next (LNode x) nx m = Ret m' ∧ buckets m' = buckets m ∧
    nodes m' = <[x := mkNode (key n) (value n) nx (nprev n)]> (nodes m) ∧ touches i [x] m m'.
Proof.
  intros Hx. unfold set_next, set_entry, get_entry. rewrite Hx. cbn.
  eexists. split_and!; try done. by eapply touches_insert.
Qed.

Lemma set_prev_off m i x n pv :
  nodes m !! x = Some n →
  ∃ m', set_prev (LNode x) pv m = Ret m' ∧ buckets m' = buckets m ∧
    nodes m' = <[x := mkNode (key n) (value n) (nnext n) pv]> (nodes m) ∧ touches i [x] m m'.
Proof.
  intros Hx. unfold set_prev, set_entry, get_entry. rewrite Hx. cbn.
  eexists. split_and!; try done. by eapply touches_insert.
Qed.

Lemma touches_seg i lt m m' e pv l :
  touches i lt m m' → (∀ x, x ∈ l.*1 → x ∉ lt) → seg (nodes m) e pv l → seg (nodes m') e pv l.
Proof. intros (_ & _ & _ & Hn & _) Hd. apply seg_frame. auto. Qed.

Lemma touches_node i lt m m' x : touches i lt m m' → x ∉ lt → nodes m' !! x = nodes m !! x.
Proof. intros (_ & _ & _ & Hn & _). auto. Qed.

Lemma get_entry_node m x n : nodes m !! x = Some n → get_entry (LNode x) m = Ret (nnext n, nprev n).
Proof. intros H. simpl. by rewrite H. Qed.

Lemma get_entry_head m i e : buckets m !! i = Some e → get_entry (LHead i) m = Ret e.
Proof. intros H. simpl. by rewrite H. Qed.

Ltac cm_step H := rewrite H; cbn [mbind outcome_bind fst snd nnext nprev].

Lemma list_add_run m i l x n :
  bucket m i l → NoDup l.*1 → x ∉ l.*1 → nodes m !! x = Some n →
  ∃ m', list_add_rcu (LNode x) (LHead i) m = Ret m' ∧
    bucket m' i ((x, (key n, value n)) :: l) ∧ touches i (x :: l.*1) m m'.
Proof.
  intros [Hh Hs] Hnd Hx Hn. unfold list_add_rcu. cm_step (get_entry_head _ _ _ Hh).
  destruct (set_next_off m i x n (first_link (LHead i) l) Hn) as (m1 & E1 & B1 & N1 & T1).
  cm_step E1.
  destruct (set_prev_off m1 i x (mkNode (key n) (value n) (first_link (LHead i) l) (nprev n))
    (LHead i)) as (m2 & E2 & B2 & N2 & T2); [by rewrite N1, lookup_insert_eq|].
  cm_step E2.
  destruct (set_next_pre m2 i (first_link (LHead i) l) [] (last_link (LHead i) l) (LNode x))
    as (m3 & E3 & B3 & _ & T3); [by rewrite B2, B1|done|constructor|].
  simpl in E3. cm_step E3.
  assert (touches i [x] m m2) as T by (by eapply touches_trans).
  destruct (set_prev_suf m3 i (LHead i) l (LNode x) (LNode x)) as (m4 & E4 & B4 & S4 & T4);
    [done| |done|].
  { eapply touches_seg; [exact T3|set_solver|]. eapply touches_seg; [exact T|set_solver|done]. }
  exists m4. split; [done|]. split; [split; [done|]|].
  - split; [|done]. rewrite (touches_node _ _ _ _ _ T4 Hx).
    rewrite (touches_node _ _ _ _ x T3) by set_solver. rewrite N2. by rewrite lookup_insert_eq.
  - eapply touches_trans; [|eapply touches_mono; [|exact T4]; set_solver].
    eapply touches_trans; eapply touches_mono; [|exact T| |exact T3]; set_solver.
Qed.

(** A node in the middle of a bucket and the entries around it. *)
Lemma bucket_split m i l1 x k v l2 :
  bucket m i (l1 ++ (x, (k, v)) :: l2) →
  buckets m !! i =
    Some (first_link (LNode x) l1, last_link (LNode x) l2) ∧
  seg (nodes m) (LNode x) (LHead i) l1 ∧
  nodes m !! x = Some (mkNode k v (first_link (LHead i) l2) (last_link (LHead i) l1)) ∧
  seg (nodes m) (LHead i) (LNode x) l2.
Proof.
  intros [Hh Hs]. apply seg_app in Hs as [H1 [Hx H2]].
  rewrite first_link_app, last_link_app in Hh. by split_and!.
Qed.

Lemma bucket_join m i l1 l2 :
  buckets m !! i = Some (first_link (first_link (LHead i) l2) l1,
    last_link (last_link (LHead i) l1) l2) →
  seg (nodes m) (first_link (LHead i) l2) (LHead i) l1 →
  seg (nodes m) (LHead i) (last_link (LHead i) l1) l2 →
  bucket m i (l1 ++ l2).
Proof.
  intros Hh H1 H2. split; [by rewrite first_link_app, last_link_app|]. by apply seg_app.
Qed.

Lemma split_NoDup (l1 : list cell) x kv l2 :
  NoDup (l1 ++ (x, kv) :: l2).*1 →
  NoDup l1.*1 ∧ NoDup l2.*1 ∧ x ∉ (l1.*1) ∧ x ∉ (l2.*1) ∧ (∀ y, y ∈ (l1.*1) → y ∉ (l2.*1)).
Proof.
  rewrite fmap_app, fmap_cons. intros (H1 & H2 & H3)%NoDup_app.
  apply NoDup_cons in H3 as [H3 H4]. simpl in *. set_solver.
Qed.

Lemma split_fst (l1 : list cell) x kv l2 :
  (l1 ++ (x, kv) :: l2).*1 = l1.*1 ++ x :: l2.*1.
Proof. by rewrite fmap_app, fmap_cons. Qed.

Lemma list_del_run m i l1 x k v l2 :
  bucket m i (l1 ++ (x, (k, v)) :: l2) → NoDup (l1 ++ (x, (k, v)) :: l2).*1 →
  ∃ m', list_del_rcu (LNode x) m = Ret m' ∧ bucket m' i (l1 ++ l2) ∧
    nodes m' !! x = Some (mkNode k v (first_link (LHead i) l2) LPoison) ∧
    touches i ((l1 ++ (x, (k, v)) :: l2).*1) m m'.
Proof.
  intros (Hh & S1 & Hx & S2)%bucket_split (N1 & N2 & X1 & X2 & D)%split_NoDup.
  unfold list_del_rcu. cm_step (get_entry_node _ _ _ Hx).
  destruct (set_prev_suf m i (LNode x) l2 _ (last_link (LHead i) l1) Hh S2 N2)
    as (m1 & E1 & B1 & S1' & T1). cm_step E1.
  destruct (set_next_pre m1 i (LNode x) l1 _ (first_link (LHead i) l2) B1)
    as (m2 & E2 & B2 & S2' & T2); [by eapply touches_seg|done|]. cm_step E2.
  assert (nodes m2 !! x = Some (mkNode k v (first_link (LHead i) l2) (last_link (LHead i) l1)))
    as Hx2.
  { by rewrite (touches_node _ _ _ _ _ T2 X1), (touches_node _ _ _ _ _ T1 X2). }
  destruct (set_prev_off m2 i x _ LPoison Hx2) as (m3 & E3 & B3 & N3 & T3).
  exists m3. rewrite split_fst. split_and!; [done| | |].
  - apply bucket_join; [by rewrite B3| |].
    + eapply touches_seg; [exact T3|set_solver|done].
    + eapply touches_seg; [exact T3|set_solver|].
      eapply touches_seg; [exact T2|set_solver|done].
  - by rewrite N3, lookup_insert_eq.
  - eapply touches_trans; [|eapply touches_mono; [|exact T3]; set_solver].
    eapply touches_trans; eapply touches_mono; [|exact T1| |exact T2]; set_solver.
Qed.

Lemma list_replace_run m i l1 x k v l2 y n :
  bucket m i (l1 ++ (x, (k, v)) :: l2) → NoDup (l1 ++ (x, (k, v)) :: l2).*1 →
  y ∉ (l1 ++ (x, (k, v)) :: l2).*1 → nodes m !! y = Some n →
  ∃ m', list_replace_rcu (LNode x) (LNode y) m = Ret m' ∧
    bucket m' i (l1 ++ (y, (key n, value n)) :: l2) ∧
    nodes m' !! x = Some (mkNode k v (first_link (LHead i) l2) LPoison) ∧
    touches i (y :: (l1 ++ (x, (k, v)) :: l2).*1) m m'.
Proof.
  rewrite split_fst. intros (Hh & S1 & Hx & S2)%bucket_split.
  rewrite <-(split_fst l1 x (k, v) l2). intros (N1 & N2 & X1 & X2 & D)%split_NoDup.
  rewrite split_fst. intros Hy Hn. unfold list_replace_rcu. cm_step (get_entry_node _ _ _ Hx).
  destruct (set_next_off m i y n (first_link (LHead i) l2) Hn) as (m1 & E1 & B1 & Ny1 & T1).
  cm_step E1.
  destruct (set_prev_off m1 i y (mkNode (key n) (value n) (first_link (LHead i) l2) (nprev n))
    (last_link (LHead i) l1)) as (m2 & E2 & B2 & Ny2 & T2); [by rewrite Ny1, lookup_insert_eq|].
  cm_step E2. assert (touches i [y] m m2) as T by (by eapply touches_trans).
  destruct (set_next_pre m2 i (LNode x) l1 (last_link (LNode x) l2) (LNode y))
    as (m3 & E3 & B3 & S3 & T3); [by rewrite B2, B1| |done|].
  { eapply touches_seg; [exact T|set_solver|done]. }
  cm_step E3.
  destruct (set_prev_suf m3 i (LNode x) l2 _ (LNode y) B3) as (m4 & E4 & B4 & S4 & T4);
    [|done|].
  { eapply touches_seg; [exact T3|set_solver|]. eapply touches_seg; [exact T|set_solver|done]. }
  cm_step E4.
  assert (nodes m4 !! x = Some (mkNode k v (first_link (LHead i) l2) (last_link (LHead i) l1)))
    as Hx4.
  { rewrite (touches_node _ _ _ _ _ T4 X2), (touches_node _ _ _ _ _ T3 X1).
    by rewrite (touches_node _ _ _ _ x T) by set_solver. }
  destruct (set_prev_off m4 i x _ LPoison Hx4) as (m5 & E5 & B5 & N5 & T5).
  exists m5. split_and!; [done| | |].
  - apply bucket_join; [by rewrite B5| |split].
    + eapply touches_seg; [exact T5|set_solver|].
      eapply touches_seg; [exact T4|set_solver|done].
    + rewrite (touches_node _ _ _ _ y T5) by set_solver.
      rewrite (touches_node _ _ _ _ y T4) by set_solver.
      rewrite (touches_node _ _ _ _ y T3), Ny2 by set_solver. by rewrite lookup_insert_eq.
    + eapply touches_seg; [exact T5|set_solver|done].
  - by rewrite N5, lookup_insert_eq.
  - eapply touches_trans; [|eapply touches_mono; [|exact T5]; set_solver].
    eapply touches_trans; [|eapply touches_mono; [|exact T4]; set_solver].
    eapply touches_trans; eapply touches_mono; [|exact T| |exact T3]; set_solver.
Qed.

(** ** The map the buckets stand for *)

Definition hash32 (key : Z) : Z :=
  let hash := u32 (Z.lxor (Z.shiftr key 16) key * 73244475) in
  let hash := u32 (Z.lxor (Z.shiftr hash 16) hash * 73244475) in
  Z.lxor (Z.shiftr hash 16) hash.

(** The bucket of a key among [n]. *)
Definition bucket_of (n : nat) (k : Z) : nat := Z.to_nat (hash32 (u32 k) mod Z.of_nat n).

Lemma hashfunc_run n k :
  (0 < n)%nat → _hashfunc (u32 k) (Z.of_nat n) = Ret (Z.of_nat (bucket_of n k)).
Proof.
  intros Hn. change (umod (hash32 (u32 k)) (Z.of_nat n) = Ret (Z.of_nat (bucket_of n k))).
  rewrite umod_pos by lia. unfold bucket_of. rewrite Z2Nat.id; [done|].
  apply Z.mod_pos_bound. lia.
Qed.

Lemma bucket_of_lt n k : (0 < n)%nat → (bucket_of n k < n)%nat.
Proof.
  intros Hn. unfold bucket_of.
  pose proof (Z.mod_pos_bound (hash32 (u32 k)) (Z.of_nat n) ltac:(lia)). lia.
Qed.

Definition keys (l : list cell) : list Z := (fun c => fst (snd c)) <$> l.

Lemma keys_cons x k v l : keys ((x, (k, v)) :: l) = k :: keys l.
Proof. done. Qed.

Lemma keys_app l1 l2 : keys (l1 ++ l2) = keys l1 ++ keys l2.
Proof. apply fmap_app. Qed.

#[global] Arguments keys : simpl never.

(** The first cell with a key. *)
Fixpoint assoc (k : Z) (l : list cell) : option (loc * Z) :=
  match l with
  | [] => None
  | (x, (k', v)) :: l => if k' =? k then Some (x, v) else assoc k l
  end.

Lemma assoc_Some k l x v :
  assoc k l = Some (x, v) → ∃ l1 l2, l = l1 ++ (x, (k, v)) :: l2 ∧ k ∉ keys l1.
Proof.
  induction l as [|[y [k' w]] l IH]; simpl; [done|]. destruct (Z.eqb_spec k' k) as [->|Hne].
  - intros [= -> ->]. exists [], l. split; [done|]. apply not_elem_of_nil.
  - intros (l1 & l2 & -> & Hl1)%IH. exists ((y, (k', w)) :: l1), l2. split; [done|].
    rewrite keys_cons, not_elem_of_cons. auto.
Qed.

Lemma assoc_None k l : assoc k l = None ↔ k ∉ keys l.
Proof.
  induction l as [|[y [k' w]] l IH]; simpl; [split; [intros _; apply not_elem_of_nil|done]|].
  rewrite keys_cons, not_elem_of_cons.
  destruct (Z.eqb_spec k' k) as [->|]; [split; [done|tauto]|]. rewrite IH.
  split; [|tauto]. intros. split; [congruence|done].
Qed.

Lemma assoc_app k l1 l2 : k ∉ keys l1 → assoc k (l1 ++ l2) = assoc k l2.
Proof.
  induction l1 as [|[y [k' w]] l1 IH]; [done|]. rewrite keys_cons.
  intros [H1 H2]%not_elem_of_cons. simpl in *. rewrite (proj2 (Z.eqb_neq k' k)) by congruence.
  by apply IH.
Qed.

(** Cells with another key do not matter for a lookup. *)
Lemma assoc_skip k l1 x k' v l2 : k' ≠ k → assoc k (l1 ++ (x, (k', v)) :: l2) = assoc k (l1 ++ l2).
Proof.
  intros Hk. induction l1 as [|[y [k1 w]] l1 IH]; simpl.
  - by rewrite (proj2 (Z.eqb_neq k' k)).
  - by rewrite IH.
Qed.

Lemma seg_length h e pv l : seg h e pv l → NoDup l.*1 → (length l ≤ size h)%nat.
Proof.
  intros Hs Hnd. rewrite <-(length_fmap fst), <-size_dom.
  rewrite <-(size_list_to_set (C:=gset loc) (l.*1)) by done.
  apply subseteq_size. intros x Hx%elem_of_list_to_set. apply elem_of_dom.
  by eapply seg_dom.
Qed.

Lemma find_entry_run m i l k fuel pv :
  seg (nodes m) (LHead i) pv l → (length l < fuel)%nat →
  find_entry fuel m (LHead i) k (first_link (LHead i) l) = Ret (fst <$> assoc k l).
Proof.
  revert fuel pv. induction l as [|[x [k' v]] l IH]; intros [|fuel] pv Hs Hf; simpl in Hf;
    try lia; cbn [find_entry first_link].
  - by rewrite decide_True.
  - destruct Hs as [Hx Hs]. rewrite decide_False by done. rewrite Hx.
    cbn [or_fault mbind outcome_bind key assoc]. destruct (k' =? k); [done|].
    eapply IH; [done|lia].
Qed.

Lemma find_node_run m i l k :
  bucket m i l → NoDup l.*1 → find_node m (LHead i) k = Ret (fst <$> assoc k l).
Proof.
  intros [Hh Hs] Hnd. unfold find_node. cm_step (get_entry_head _ _ _ Hh).
  eapply find_entry_run; [done|]. pose proof (seg_length _ _ _ _ Hs Hnd). lia.
Qed.

(** The buckets [Ls] in memory. *)
Record rep (m : cc_map) (Ls : list (list cell)) : Prop := {
  rep_pos : (0 < length Ls)%nat;
  rep_count : count m = Z.of_nat (length Ls);
  rep_len : length (buckets m) = length Ls;
  rep_bucket i l : Ls !! i = Some l → bucket m i l;
  rep_nd i l : Ls !! i = Some l → NoDup l.*1;
  rep_disj i j li lj x : Ls !! i = Some li → Ls !! j = Some lj →
    x ∈ li.*1 → x ∈ lj.*1 → i = j;
  rep_keys i l : Ls !! i = Some l → NoDup (keys l);
  rep_hash i l k : Ls !! i = Some l → k ∈ keys l → bucket_of (length Ls) k = i;
}.

(** The finite map of the cells: a key is looked up in its bucket. *)
Definition contents (Ls : list (list cell)) (M : gmap Z Z) : Prop :=
  ∀ k, M !! k = snd <$> assoc k (Ls !!! bucket_of (length Ls) k).

Definition map_rep (m : cc_map) (M : gmap Z Z) : Prop := ∃ Ls, rep m Ls ∧ contents Ls M.

(** The nodes on the lists. *)
Definition live (Ls : list (list cell)) (x : loc) : Prop := ∃ l, l ∈ Ls ∧ x ∈ l.*1.

Lemma rep_own m Ls k :
  rep m Ls → Ls !! bucket_of (length Ls) k = Some (Ls !!! bucket_of (length Ls) k).
Proof.
  intros Hr. apply list_lookup_lookup_total_lt, bucket_of_lt. by eapply rep_pos.
Qed.

Lemma live_alloc m Ls x : rep m Ls → live Ls x → is_Some (nodes m !! x).
Proof.
  intros Hr (l & [i Hi]%list_elem_of_lookup & Hx).
  destruct (rep_bucket _ _ Hr _ _ Hi) as [_ Hs]. by eapply seg_dom.
Qed.

(** Changing one bucket. *)
Lemma rep_insert m m' Ls i l l' (xs : list loc) :
  rep m Ls → Ls !! i = Some l → bucket m' i l' →
  count m' = count m → length (buckets m') = length (buckets m) →
  (∀ j, j ≠ i → buckets m' !! j = buckets m !! j) →
  (∀ y, y ∉ xs → nodes m' !! y = nodes m !! y) →
  (∀ y, y ∈ xs → live Ls y → y ∈ l.*1) →
  NoDup l'.*1 → (∀ y, y ∈ l'.*1 → y ∈ xs) → NoDup (keys l') →
  (∀ k, k ∈ keys l' → bucket_of (length Ls) k = i) →
  rep m' (<[i := l']> Ls).
Proof.
  intros [] Hi Hb Hc Hlen Hhd Hfr Hown Hnd Hin Hks Hhash.
  pose proof (lookup_lt_Some _ _ _ Hi).
  assert (∀ j lj y, j ≠ i → Ls !! j = Some lj → y ∈ lj.*1 → y ∉ xs) as Hoff.
  { intros j lj y Hj Hlj Hy Hxs. apply Hj. symmetry. eapply rep_disj0; [done..| |done].
    apply Hown; [done|]. exists lj. split; [by eapply list_elem_of_lookup_2|done]. }
  constructor; rewrite ?length_insert; try congruence; try done.
  - intros j lj [(<- & <- & _)|[Hj Hlj]]%list_lookup_insert_Some; [done|].
    destruct (rep_bucket0 _ _ Hlj) as [H1 H2]. split; [by rewrite Hhd|].
    eapply seg_frame; [|exact H2]. intros y Hy. apply Hfr. by eapply Hoff.
  - intros j lj [(<- & <- & _)|[Hj Hlj]]%list_lookup_insert_Some; eauto.
  - intros j j' lj lj' y [(<- & <- & _)|[Hj Hlj]]%list_lookup_insert_Some
      [(<- & <- & _)|[Hj' Hlj']]%list_lookup_insert_Some Hy Hy'; [done| | |by eauto].
    + exfalso. eapply (Hoff j'); eauto.
    + exfalso. eapply (Hoff j); eauto.
  - intros j lj [(<- & <- & _)|[Hj Hlj]]%list_lookup_insert_Some; eauto.
  - intros j lj k [(<- & <- & _)|[Hj Hlj]]%list_lookup_insert_Some; eauto.
Qed.

(** ... and what it does to the map. *)
Lemma contents_insert m Ls M k l' o :
  rep m Ls → contents Ls M →
  (∀ k', k' ≠ k → assoc k' l' = assoc k' (Ls !!! bucket_of (length Ls) k)) →
  snd <$> assoc k l' = o →
  contents (<[bucket_of (length Ls) k := l']> Ls) (partial_alter (fun _ => o) k M).
Proof.
  intros Hr HM Hne Hk k'. pose proof (bucket_of_lt (length Ls) k (rep_pos _ _ Hr)).
  rewrite length_insert. destruct (decide (k' = k)) as [->|Hk'].
  - by rewrite lookup_partial_alter_eq, list_lookup_total_insert_eq.
  - rewrite lookup_partial_alter_ne by done. rewrite HM.
    destruct (decide (bucket_of (length Ls) k' = bucket_of (length Ls) k)) as [E|E].
    + rewrite E, list_lookup_total_insert_eq by done. by rewrite Hne.
    + by rewrite list_lookup_total_insert_ne.
Qed.

(** What an operation leaves alone. *)
Definition frames (x : loc) (l : list cell) (m m' : cc_map) : Prop :=
  (∀ y, y ≠ x → y ∉ l.*1 → nodes m' !! y = nodes m !! y) ∧
  dom (nodes m') = {[x]} ∪ dom (nodes m).

Lemma set_node_run m x n f :
  nodes m !! x = Some n →
  set_node x f m = Ret (mkMap (count m) (buckets m) (<[x := f n]> (nodes m))).
Proof. intros H. unfold set_node. by rewrite H. Qed.

Lemma fresh_not_live m Ls y : rep m Ls → live Ls y → y ≠ hfresh (nodes m).
Proof. intros Hr [n Hy]%(live_alloc _ _ _ Hr) ->. by rewrite hfresh_spec in Hy. Qed.

Lemma own_live m Ls k y :
  rep m Ls → y ∈ (Ls !!! bucket_of (length Ls) k).*1 → live Ls y.
Proof.
  intros Hr Hy. exists (Ls !!! bucket_of (length Ls) k). split; [|done].
  eapply list_elem_of_lookup_2. by eapply rep_own.
Qed.

(** Allocating a node changes no list. *)
Lemma bucket_alloc m i l n :
  bucket m i l → bucket (mkMap (count m) (buckets m) (<[hfresh (nodes m) := n]> (nodes m))) i l.
Proof.
  intros [H1 H2]. split; [done|]. eapply seg_frame; [|exact H2]. intros y Hy.
  apply lookup_insert_ne. intros <-. by apply seg_fresh in H2.
Qed.

(** A key of its own: its cell is put at the front of its bucket. *)
Lemma update_new m Ls k v :
  let i := bucket_of (length Ls) k in let l := Ls !!! i in let x := hfresh (nodes m) in
  rep m Ls → assoc k l = None →
  ∃ m', update_ccmap true m k v = Ret (Z.of_nat i, None, m') ∧
    rep m' (<[i := (x, (k, v)) :: l]> Ls) ∧ frames x l m m'.
Proof.
  intros i l x Hr Ha. pose proof (rep_own _ _ k Hr) as Hi. fold i l in Hi.
  pose proof (rep_bucket _ _ Hr _ _ Hi) as Hb. pose proof (rep_nd _ _ Hr _ _ Hi) as Hnd.
  assert (nodes m !! x = None) as Hx by apply hfresh_spec.
  assert (∀ y, live Ls y → y ≠ x) as Hxl by (intros y; by apply fresh_not_live).
  assert (x ∉ l.*1) as Hxn by (by intros ?%(own_live _ _ _ _ Hr)%Hxl).
  set (m1 := mkMap (count m) (buckets m) (<[x := mkNode k v LNull LNull]> (nodes m))).
  destruct (list_add_run m1 i l x (mkNode k v LNull LNull)) as (m2 & E & Hb2 & T);
    [by apply bucket_alloc|done|done|by apply lookup_insert_eq|].
  assert (dom (nodes m1) = {[x]} ∪ dom (nodes m)) as Hdom by apply dom_insert_L.
  destruct T as (T1 & T2 & T3 & T4 & T5). exists m2. split_and!.
  - unfold update_ccmap. rewrite (rep_count _ _ Hr), hashfunc_run by apply Hr.
    cbn [mbind outcome_bind]. fold i. rewrite Nat2Z.id, (find_node_run _ _ l) by done.
    rewrite Ha. cbn [mbind outcome_bind fmap option_fmap option_map new_node].
    erewrite set_node_run; [|apply lookup_insert_eq]. cbn [mbind outcome_bind nodes count buckets].
    rewrite insert_insert_eq. cbn [nnext nprev]. fold x m1. by rewrite E.
  - eapply (rep_insert m m2 Ls i l _ (x :: l.*1)); try done.
    + intros y Hy. rewrite T4 by done. apply lookup_insert_ne. intros <-.
      apply Hy, list_elem_of_here.
    + intros y [->|Hy]%elem_of_cons Hl; [by destruct (Hxl _ Hl)|done].
    + by constructor.
    + rewrite keys_cons. constructor; [by apply assoc_None|]. by eapply rep_keys.
    + intros k' [->|Hk']%elem_of_cons; [done|]. by eapply rep_hash.
  - split.
    + intros y Hy Hyl. rewrite T4 by (by apply not_elem_of_cons). by apply lookup_insert_ne.
    + by rewrite T5.
Qed.

(** A key that is there: a new node takes the place of its node, which keeps its
    [next]. *)
Lemma update_old m Ls k v old v0 :
  let i := bucket_of (length Ls) k in let l := Ls !!! i in let x := hfresh (nodes m) in
  rep m Ls → assoc k l = Some (old, v0) →
  ∃ l1 l2 m', l = l1 ++ (old, (k, v0)) :: l2 ∧ k ∉ keys l1 ∧
    update_ccmap true m k v = Ret (Z.of_nat i, Some old, m') ∧
    rep m' (<[i := l1 ++ (x, (k, v)) :: l2]> Ls) ∧
    nodes m' !! old = Some (mkNode k v0 (first_link (LHead i) l2) LPoison) ∧
    frames x l m m'.
Proof.
  intros i l x Hr Ha. pose proof (rep_own _ _ k Hr) as Hi. fold i l in Hi.
  pose proof (rep_bucket _ _ Hr _ _ Hi) as Hb. pose proof (rep_nd _ _ Hr _ _ Hi) as Hnd.
  pose proof (rep_keys _ _ Hr _ _ Hi) as Hks.
  pose proof (rep_hash _ _ Hr i l) as Hhash.
  assert (nodes m !! x = None) as Hx by apply hfresh_spec.
  assert (∀ y, live Ls y → y ≠ x) as Hxl by (intros y; by apply fresh_not_live).
  assert (x ∉ l.*1) as Hxn by (by intros ?%(own_live _ _ _ _ Hr)%Hxl).
  destruct (assoc_Some _ _ _ _ Ha) as (l1 & l2 & El & Hl1).
  destruct (bucket_split m i l1 old k v0 l2) as (_ & _ & Hold & _); [by rewrite <-El|].
  set (n := mkNode k v (first_link (LHead i) l2) (last_link (LHead i) l1)).
  set (m1 := mkMap (count m) (buckets m) (<[x := n]> (nodes m))).
  destruct (list_replace_run m1 i l1 old k v0 l2 x n) as (m2 & E & Hb2 & Ho2 & T);
    [rewrite <-El; by apply bucket_alloc|by rewrite <-El..|by apply lookup_insert_eq|].
  rewrite <-El in T. destruct T as (T1 & T2 & T3 & T4 & T5).
  exists l1, l2, m2. split_and!; [done|done| | |done|].
  - unfold update_ccmap. rewrite (rep_count _ _ Hr), hashfunc_run by apply Hr.
    cbn [mbind outcome_bind]. fold i. rewrite Nat2Z.id, (find_node_run _ _ l) by done.
    rewrite Ha. cbn [mbind outcome_bind fmap option_fmap option_map new_node fst nodes]. fold x.
    rewrite lookup_insert_ne, Hold by congruence. cbn [or_fault mbind outcome_bind].
    erewrite set_node_run; [|apply lookup_insert_eq]. cbn [mbind outcome_bind nodes count buckets].
    erewrite set_node_run; [|apply lookup_insert_eq]. cbn [mbind outcome_bind nodes count buckets].
    rewrite !insert_insert_eq. cbn [nnext nprev key]. fold n m1. by rewrite E.
  - eapply (rep_insert m m2 Ls i l _ (x :: l.*1)); try done.
    + intros y Hy. rewrite T4 by done. apply lookup_insert_ne. intros <-.
      apply Hy, list_elem_of_here.
    + intros y [->|Hy]%elem_of_cons Hl; [by destruct (Hxl _ Hl)|done].
    + rewrite El in Hxn, Hnd. clear -Hxn Hnd.
      rewrite !fmap_app, !fmap_cons in *. cbn [fst] in *. rewrite !NoDup_app, !NoDup_cons in *.
      set_solver.
    + rewrite El. clear. rewrite !fmap_app, !fmap_cons. set_solver.
    + rewrite El in Hks. by rewrite !keys_app, !keys_cons in *.
    + intros k' Hk'. apply Hhash; [done|]. rewrite El. by rewrite !keys_app, !keys_cons in *.
  - split.
    + intros y Hy Hyl. rewrite T4 by (by apply not_elem_of_cons). by apply lookup_insert_ne.
    + rewrite T5. apply dom_insert_L.
Qed.

Lemma remove_miss m Ls k :
  rep m Ls → assoc k (Ls !!! bucket_of (length Ls) k) = None →
  remove_ccmap m k = Ret (-1, None, m).
Proof.
  intros Hr Ha. pose proof (rep_own _ _ k Hr) as Hi. unfold remove_ccmap.
  rewrite (rep_count _ _ Hr), hashfunc_run by apply Hr. cbn [mbind outcome_bind].
  rewrite Nat2Z.id, (find_node_run _ _ (Ls !!! bucket_of (length Ls) k)) by (by eapply Hr).
  by rewrite Ha.
Qed.

Lemma remove_hit m Ls k x v :
  let i := bucket_of (length Ls) k in let l := Ls !!! i in
  rep m Ls → assoc k l = Some (x, v) →
  ∃ l1 l2 m', l = l1 ++ (x, (k, v)) :: l2 ∧ k ∉ keys l1 ∧ k ∉ keys l2 ∧
    remove_ccmap m k = Ret (Z.of_nat i, Some x, m') ∧
    rep m' (<[i := l1 ++ l2]> Ls) ∧
    nodes m' !! x = Some (mkNode k v (first_link (LHead i) l2) LPoison) ∧
    frames x l m m'.
Proof.
  intros i l Hr Ha. pose proof (rep_own _ _ k Hr) as Hi. fold i l in Hi.
  pose proof (rep_bucket _ _ Hr _ _ Hi) as Hb. pose proof (rep_nd _ _ Hr _ _ Hi) as Hnd.
  pose proof (rep_keys _ _ Hr _ _ Hi) as Hks.
  pose proof (rep_hash _ _ Hr i l) as Hhash.
  destruct (assoc_Some _ _ _ _ Ha) as (l1 & l2 & El & Hl1).
  destruct (list_del_run m i l1 x k v l2) as (m2 & E & Hb2 & Hx2 & T); [by rewrite <-El..|].
  rewrite <-El in T. destruct T as (T1 & T2 & T3 & T4 & T5).
  assert (k ∉ keys l2) as Hl2.
  { rewrite El, keys_app, keys_cons in Hks. apply NoDup_app in Hks as (_ & _ & Hks).
    by apply NoDup_cons in Hks as [? _]. }
  exists l1, l2, m2. split_and!; [done..| | |done|].
  - unfold remove_ccmap. rewrite (rep_count _ _ Hr), hashfunc_run by apply Hr.
    cbn [mbind outcome_bind]. fold i. rewrite Nat2Z.id, (find_node_run _ _ l) by done.
    rewrite Ha. cbn [mbind outcome_bind fmap option_fmap option_map fst]. by rewrite E.
  - eapply (rep_insert m m2 Ls i l _ (l.*1)); try done.
    + rewrite El in Hnd. clear -Hnd.
      rewrite !fmap_app, !fmap_cons in *. cbn [fst] in *. rewrite !NoDup_app, !NoDup_cons in *.
      set_solver.
    + rewrite El. clear. rewrite !fmap_app, !fmap_cons. set_solver.
    + rewrite El in Hks. clear -Hks. rewrite !keys_app, !keys_cons in *.
      rewrite !NoDup_app, !NoDup_cons in *. set_solver.
    + intros k' Hk'. apply Hhash; [done|]. rewrite El. clear -Hk'.
      rewrite !keys_app, !keys_cons in *. set_solver.
  - split.
    + intros y _ Hy. by apply T4.
    + rewrite T5. apply elem_of_dom_2 in Hx2. rewrite T5 in Hx2. clear -Hx2. set_solver.
Qed.

Lemma get_run m Ls k :
  rep m Ls → get_ccmap_rcu m k = Ret (fst <$> assoc k (Ls !!! bucket_of (length Ls) k)).
Proof.
  intros Hr. pose proof (rep_own _ _ k Hr) as Hi. unfold get_ccmap_rcu.
  rewrite (rep_count _ _ Hr), hashfunc_run by apply Hr. cbn [mbind outcome_bind].
  rewrite Nat2Z.id. apply find_node_run; by eapply Hr.
Qed.

(** The map of a live node. *)
Lemma assoc_node m Ls k x v :
  rep m Ls → assoc k (Ls !!! bucket_of (length Ls) k) = Some (x, v) →
  ∃ n, nodes m !! x = Some n ∧ key n = k ∧ value n = v.
Proof.
  intros Hr (l1 & l2 & El & _)%assoc_Some. pose proof (rep_own _ _ k Hr) as Hi.
  pose proof (rep_bucket _ _ Hr _ _ Hi) as Hb. rewrite El in Hb.
  apply bucket_split in Hb as (_ & _ & Hx & _). eexists. by split_and!.
Qed.

Lemma make_ccmap_rep n : (0 < n)%nat → rep (make_ccmap n) (replicate n []).
Proof.
  intros Hn. constructor; rewrite ?length_replicate; try done.
  - unfold make_ccmap. cbn [buckets]. by rewrite length_fmap, length_seq.
  - intros i l [-> Hi]%lookup_replicate. split; [|done]. unfold make_ccmap. cbn [buckets].
    rewrite list_lookup_fmap, lookup_seq_lt by done. done.
  - intros i l [-> _]%lookup_replicate. constructor.
  - intros i j li lj x [-> _]%lookup_replicate _ Hx. by apply elem_of_nil in Hx.
  - intros i l [-> _]%lookup_replicate. constructor.
  - intros i l k [-> _]%lookup_replicate Hk. by apply elem_of_nil in Hk.
Qed.

Lemma make_ccmap_contents n : (0 < n)%nat → contents (replicate n []) ∅.
Proof.
  intros Hn k. rewrite length_replicate, lookup_empty.
  by rewrite lookup_total_replicate_2 by (by apply bucket_of_lt).
Qed.

(** ** What each operation does to the map *)

Lemma update_refines m Ls M k v :
  rep m Ls → contents Ls M →
  ∃ old m', update_ccmap true m k v = Ret (Z.of_nat (bucket_of (length Ls) k), old, m') ∧
    (is_Some old ↔ is_Some (M !! k)) ∧ map_rep m' (<[k := v]> M).
Proof.
  intros Hr HM. rewrite (HM k).
  destruct (assoc k (Ls !!! bucket_of (length Ls) k)) as [[old v0]|] eqn:Ha.
  - destruct (update_old m Ls k v old v0 Hr Ha) as (l1 & l2 & m' & El & Hl1 & E & Hr' & _).
    exists (Some old), m'. split_and!; [done|split; eauto|]. eexists. split; [exact Hr'|].
    apply (contents_insert m); [done|done| |].
    + intros k' Hk'. rewrite El. by rewrite !(assoc_skip k' l1 _ k) by (by apply not_eq_sym).
    + rewrite assoc_app by done. cbn [assoc]. by rewrite Z.eqb_refl.
  - destruct (update_new m Ls k v Hr Ha) as (m' & E & Hr' & _).
    exists None, m'. split_and!; [done|by split; intros []|]. eexists. split; [exact Hr'|].
    apply (contents_insert m); [done|done| |].
    + intros k' Hk'. cbn [assoc]. by rewrite (proj2 (Z.eqb_neq k k')) by (by apply not_eq_sym).
    + cbn [assoc]. by rewrite Z.eqb_refl.
Qed.

Lemma update_no_memory m Ls k v :
  rep m Ls → update_ccmap false m k v = Ret (-1, None, m).
Proof.
  intros Hr. unfold update_ccmap. rewrite (rep_count _ _ Hr), hashfunc_run by apply Hr.
  cbn [mbind outcome_bind]. rewrite Nat2Z.id. pose proof (rep_own _ _ k Hr) as Hi.
  by rewrite (find_node_run _ _ (Ls !!! bucket_of (length Ls) k)) by (by eapply Hr).
Qed.

Lemma remove_refines m Ls M k :
  rep m Ls → contents Ls M →
  ∃ i x m', remove_ccmap m k = Ret (i, x, m') ∧ (i = -1 ↔ M !! k = None) ∧
    (is_Some x ↔ is_Some (M !! k)) ∧ map_rep m' (delete k M).
Proof.
  intros Hr HM. pose proof (HM k) as Hk.
  destruct (assoc k (Ls !!! bucket_of (length Ls) k)) as [[x v]|] eqn:Ha; simpl in Hk.
  - destruct (remove_hit m Ls k x v Hr Ha) as (l1 & l2 & m' & El & Hl1 & Hl2 & E & Hr' & _).
    exists (Z.of_nat (bucket_of (length Ls) k)), (Some x), m'. rewrite Hk.
    split_and!; [done|split; [lia|done]|split; eauto|]. eexists. split; [exact Hr'|].
    apply (contents_insert m); [done|done| |].
    + intros k' Hk'. rewrite El. by rewrite (assoc_skip k' l1 _ k) by (by apply not_eq_sym).
    + rewrite assoc_app by done. by rewrite (proj2 (assoc_None _ _) Hl2).
  - exists (-1), None, m. rewrite Hk.
    split_and!; [by apply (remove_miss m Ls)|done|by split; intros []|].
    rewrite delete_id by done. by exists Ls.
Qed.

Lemma get_refines m Ls M k :
  rep m Ls → contents Ls M →
  ∃ x, get_ccmap_rcu m k = Ret x ∧ (x ≫= fun x => value <$> nodes m !! x) = M !! k.
Proof.
  intros Hr HM. exists (fst <$> assoc k (Ls !!! bucket_of (length Ls) k)).
  split; [by apply get_run|]. rewrite (HM k). destruct (assoc k _) as [[x v]|] eqn:Ha; [|done].
  simpl. destruct (assoc_node _ _ _ _ _ Hr Ha) as (n & -> & _ & <-). done.
Qed.

(** C24. The map of [rcucmap.c] is a finite map: the empty one at first, and every
    operation answers as the operation of the finite map does and leaves its
    result behind. An update returns the bucket of the key and hands the node
    it replaced to [call_rcu], a failed allocation changes nothing, a removal
    of a key that is not there returns -1, and a lookup gives the node with the
    value. No access of any of them faults. *)
Theorem ccmap_refines :
  (∀ n, (0 < n)%nat → map_rep (make_ccmap n) ∅) ∧
  ∀ m M k, map_rep m M →
    (∀ v, ∃ i old m', update_ccmap true m k v = Ret (i, old, m') ∧ 0 ≤ i < count m ∧
       (is_Some old ↔ is_Some (M !! k)) ∧ map_rep m' (<[k := v]> M)) ∧
    (∀ v, update_ccmap false m k v = Ret (-1, None, m)) ∧
    (∃ i x m', remove_ccmap m k = Ret (i, x, m') ∧ (i = -1 ↔ M !! k = None) ∧
       (is_Some x ↔ is_Some (M !! k)) ∧ map_rep m' (delete k M)) ∧
    (∃ x, get_ccmap_rcu m k = Ret x ∧
       (x ≫= fun x => value <$> nodes m !! x) = M !! k).
Proof.
  split; [intros n Hn; exists (replicate n []); split;
    [by apply make_ccmap_rep|by apply make_ccmap_contents]|].
  intros m M k (Ls & Hr & HM). pose proof (bucket_of_lt (length Ls) k (rep_pos _ _ Hr)) as Hlt.
  rewrite (rep_count _ _ Hr). split_and!.
  - intros v. destruct (update_refines m Ls M k v Hr HM) as (old & m' & E & Ho & HM').
    exists (Z.of_nat (bucket_of (length Ls) k)), old, m'. split_and!; [done|lia|lia|done|done].
  - intros v. by eapply update_no_memory.
  - by eapply remove_refines.
  - by eapply get_refines.
Qed.

(** ** Deleting the map *)

(** Unlinking and freeing the first node of a bucket. *)
Lemma delete_first m i x k v l :
  bucket m i ((x, (k, v)) :: l) → NoDup (((x, (k, v)) :: l).*1) →
  ∃ m1 m2, list_del (LNode x) m = Ret m1 ∧ _ccmap_cb m1 x = Ret m2 ∧
    bucket m2 i l ∧ nodes m2 !! x = None ∧
    (∀ y, y ≠ x → y ∉ l.*1 → nodes m2 !! y = nodes m !! y) ∧
    (∀ j, j ≠ i → buckets m2 !! j = buckets m !! j) ∧ count m2 = count m.
Proof.
  intros [Hh [Hx Hs]] [Hxl Hnd]%NoDup_cons. cbn [first_link last_link] in *.
  unfold list_del. cm_step (get_entry_node _ _ _ Hx).
  destruct (set_prev_suf m i (LNode x) l _ (LHead i) Hh Hs Hnd) as (m1 & E1 & B1 & S1 & T1).
  cm_step E1.
  destruct (set_next_pre m1 i (LNode x) [] _ (first_link (LHead i) l) B1 I)
    as (m2 & E2 & B2 & _ & T2); [constructor|]. simpl in E2. cm_step E2.
  assert (nodes m2 !! x = Some (mkNode k v (first_link (LHead i) l) (LHead i))) as Hx2.
  { rewrite (touches_node _ _ _ _ x T2) by apply not_elem_of_nil.
    by rewrite (touches_node _ _ _ _ x T1). }
  destruct (set_next_off m2 i x _ LPoison Hx2) as (m3 & E3 & B3 & N3 & T3). cm_step E3.
  destruct (set_prev_off m3 i x (mkNode k v LPoison (LHead i)) LPoison)
    as (m4 & E4 & B4 & N4 & T4); [by rewrite N3, lookup_insert_eq|].
  exists m4, (mkMap (count m4) (buckets m4) (delete x (nodes m4))).
  assert (∀ y, y ≠ x → y ∉ l.*1 → nodes m4 !! y = nodes m !! y) as Hfr.
  { intros y Hy Hyl. rewrite (touches_node _ _ _ _ y T4), (touches_node _ _ _ _ y T3)
      by (by apply not_elem_of_cons; split; [|apply not_elem_of_nil]).
    rewrite (touches_node _ _ _ _ y T2) by apply not_elem_of_nil.
    by apply (touches_node _ _ _ _ y T1). }
  split_and!; [done| | | | | |].
  - unfold _ccmap_cb. erewrite hfree_Some; [done|]. by rewrite N4, lookup_insert_eq.
  - split; cbn [buckets nodes]; [by rewrite B4, B3|].
    eapply seg_frame; [|exact S1]. intros y Hy.
    assert (y ≠ x) by (by intros ->). rewrite lookup_delete_ne by done.
    rewrite N4, N3, !lookup_insert_ne by done.
    by apply (touches_node _ _ _ _ y T2), not_elem_of_nil.
  - apply lookup_delete_eq.
  - intros y Hy Hyl. cbn [nodes]. rewrite lookup_delete_ne by done. by apply Hfr.
  - intros j Hj. cbn [buckets]. rewrite B4, B3. destruct T1 as (_ & _ & T1 & _).
    destruct T2 as (_ & _ & T2 & _). by rewrite T2, T1.
  - cbn [count]. destruct T1 as (C1 & _), T2 as (C2 & _), T3 as (C3 & _), T4 as (C4 & _).
    by rewrite C4, C3, C2.
Qed.

Lemma delete_bucket_run fuel m i l :
  bucket m i l → NoDup (l.*1) → (length l < fuel)%nat →
  ∃ m', delete_bucket fuel (LHead i) (first_link (LHead i) l) m = Ret m' ∧
    (∀ y, nodes m' !! y = if decide (y ∈ l.*1) then None else nodes m !! y) ∧
    (∀ j, j ≠ i → buckets m' !! j = buckets m !! j) ∧ count m' = count m.
Proof.
  revert m fuel. induction l as [|[x [k v]] l IH]; intros m [|fuel] Hb Hnd Hf;
    simpl in Hf; try lia; cbn [delete_bucket first_link].
  - rewrite decide_True by done. exists m. split_and!; try done.
  - rewrite decide_False by done. pose proof Hb as [_ [Hx _]].
    destruct (delete_first m i x k v l Hb Hnd) as (m1 & m2 & E1 & E2 & Hb2 & Hx2 & H1 & H2 & H3).
    cm_step (get_entry_node _ _ _ Hx). cm_step E1. cm_step E2.
    apply NoDup_cons in Hnd as [Hxl Hnd].
    destruct (IH m2 fuel Hb2 Hnd) as (m' & -> & G1 & G2 & G3); [lia|].
    exists m'. split_and!; [done| |intros j Hj; by rewrite G2, H2|by rewrite G3].
    intros y. rewrite G1. cbn [fmap list_fmap fst]. destruct (decide (y = x)) as [->|Hy].
    + rewrite (decide_True (P:=x ∈ x :: _)) by apply list_elem_of_here.
      by rewrite decide_False.
    + case_decide as Hyl.
      * by rewrite decide_True by (by apply list_elem_of_further).
      * rewrite decide_False by (by apply not_elem_of_cons). by apply H1.
Qed.

Lemma delete_buckets_run m Ls n i :
  (i + n = length Ls)%nat →
  (∀ j l, (i ≤ j)%nat → Ls !! j = Some l → bucket m j l) →
  (∀ j l, Ls !! j = Some l → NoDup (l.*1)) →
  (∀ j j' l l' x, Ls !! j = Some l → Ls !! j' = Some l' → x ∈ l.*1 → x ∈ l'.*1 → j = j') →
  ∃ m', delete_buckets (seq i n) m = Ret m' ∧
    ∀ y, ((∃ j l, (i ≤ j)%nat ∧ Ls !! j = Some l ∧ y ∈ l.*1) → nodes m' !! y = None) ∧
         ((∀ j l, (i ≤ j)%nat → Ls !! j = Some l → y ∉ l.*1) → nodes m' !! y = nodes m !! y).
Proof.
  revert m i. induction n as [|n IH]; intros m i Hi Hb Hnd Hdisj; cbn [seq delete_buckets].
  - exists m. split; [done|]. intros y. split; [|done]. intros (j & l & Hj & Hl & _).
    apply lookup_lt_Some in Hl. lia.
  - destruct (lookup_lt_is_Some_2 Ls i) as [l Hl]; [lia|].
    pose proof (Hb i l (le_n _) Hl) as Hbi. pose proof Hbi as [Hh Hs].
    pose proof (Hnd _ _ Hl) as Hndl. cm_step (get_entry_head _ _ _ Hh).
    destruct (delete_bucket_run (S (size (nodes m))) m i l Hbi Hndl) as (m1 & -> & G1 & G2 & _).
    { pose proof (seg_length _ _ _ _ Hs Hndl). lia. }
    cbn [mbind outcome_bind]. destruct (IH m1 (S i)) as (m' & -> & HG); [lia| |done|done|].
    { intros j l' Hj Hl'. destruct (Hb j l' ltac:(lia) Hl') as [B S'].
      split; [by rewrite G2 by lia|]. eapply seg_frame; [|exact S']. intros y Hy. rewrite G1.
      rewrite decide_False; [done|]. intros Hyl.
      pose proof (Hdisj _ _ _ _ _ Hl Hl' Hyl Hy). lia. }
    exists m'. split; [done|]. intros y. destruct (HG y) as [HG1 HG2]. split.
    + intros (j & l' & Hj & Hl' & Hy). destruct (decide (j = i)) as [->|].
      * simplify_eq. rewrite HG2, G1; [by rewrite decide_True|].
        intros j l' Hj' Hl' Hy'. pose proof (Hdisj _ _ _ _ _ Hl Hl' Hy Hy'). lia.
      * apply HG1. exists j, l'. split_and!; [lia|done..].
    + intros Hoff. rewrite HG2, G1; [|intros; eapply Hoff; [|done]; lia].
      rewrite decide_False; [done|]. by eapply Hoff.
Qed.

(** [delete_ccmap] unlinks and frees every node of the map, each exactly once,
    and touches no other: what is left are the nodes still waiting for their
    callback. *)
Theorem delete_ccmap_frees m Ls :
  rep m Ls →
  ∃ h, delete_ccmap m = Ret h ∧
    ∀ y, (live Ls y → h !! y = None) ∧ (¬ live Ls y → h !! y = nodes m !! y).
Proof.
  intros Hr. unfold delete_ccmap. rewrite (rep_count _ _ Hr), Nat2Z.id.
  destruct (delete_buckets_run m Ls (length Ls) 0) as (m' & -> & H).
  - done.
  - intros. by eapply rep_bucket.
  - by eapply rep_nd.
  - by eapply rep_disj.
  - exists (nodes m'). split; [done|]. intros y. destruct (H y) as [H1 H2]. split.
    + intros (l & [j Hj]%list_elem_of_lookup & Hy). apply H1. exists j, l.
      split_and!; [lia|done..].
    + intros Hn. apply H2. intros j l _ Hl Hy. apply Hn. exists l.
      split; [by eapply list_elem_of_lookup_2|done].
Qed.
