(* ===== verification/RcuReader.v ===== *)
(** * Readers and grace periods of the hash map ([ksync-rcu-cmap])

    A transition system of the two threads of [rcucmap.c]. The writer runs a
    list of updates and removals on the map of [RcuMap] and hands what it
    unlinked to [call_rcu]. The reader looks keys up without a lock, one load
    per step, between [rcu_read_lock] and [rcu_read_unlock]. A call of the
    writer is one step: the only store of it that a reader can see is the one
    that publishes or unlinks a node, the others go to a node no list holds or
    to [prev] fields, which readers do not follow. [call_rcu] promises that the
    callback runs after every read-side section that is open at the call has
    ended: such callbacks are [held] until the reader's section ends, and then
    [ready] to run at any time and in any order.

    The theorems hold in every reachable state: no step faults, so no reader
    touches a freed node and no node is freed twice; a lookup answers with what
    the map held at some moment of its section; every allocated node is on a
    list or waits for its callback. *)

From stdpp Require Import base tactics numbers list gmap fin_sets.
From S2P Require Import Prelude Heap RcuMap.

Local Open Scope Z_scope.

(** The calls of the writer; [mem] is the answer of [kzalloc]. *)
Inductive wop :=
  | Update (k v : Z) (mem : bool)
  | Remove (k : Z).

(** Where the reader is: outside of a section; at the start of
    [get_ccmap_rcu(cmap, k)]; at an entry of the list; at the read of
    [n->value]; at the end of the section with a value or with a null node. *)
Inductive reader :=
  | RIdle
  | RLocked (k : Z)
  | RWalk (k : Z) (l : link)
  | RFound (k : Z) (x : loc)
  | RDone (k : Z) (res : option Z).

(** The next load of the reader. *)
Definition reader_step (m : cc_map) (r : reader) : outcome reader :=
  match r with
  | RLocked k =>
    idx ← _hashfunc (u32 k) (count m);
    e ← get_entry (LHead (Z.to_nat idx)) m;
    Ret (RWalk k (fst e))
  | RWalk k l =>
    idx ← _hashfunc (u32 k) (count m);
    if decide (l = LHead (Z.to_nat idx)) then Ret (RDone k None)
    else match l with
         | LNode x =>
           n ← or_fault Dangling (nodes m !! x);
           if key n =? k then Ret (RFound k x) else Ret (RWalk k (nnext n))
         | _ => Fault Dangling
         end
  | RFound k x => n ← or_fault Dangling (nodes m !! x); Ret (RDone k (Some (value n)))
  | RIdle | RDone _ _ => Ret r
  end.

(** The state: the map, the calls still to make, a node unlinked but not yet
    given to [call_rcu], the reader, the callbacks that wait for its section and
    those that do not. [now] is the finite map the calls so far stand for and
    [past] the finite maps since the section began; both are history variables
    no step depends on. *)
Record rcu_state := mkRcu {
  smap : cc_map;
  wops : list wop;
  wcall : option loc;
  rd : reader;
  held : list loc;
  ready : list loc;
  now : gmap Z Z;
  past : list (gmap Z Z);
}.

Definition in_section (r : reader) : bool :=
  match r with RIdle => false | _ => true end.

(** The map after a call. *)
Definition apply_wop (o : wop) (M : gmap Z Z) : gmap Z Z :=
  match o with
  | Update k v mem => if mem then <[k := v]> M else M
  | Remove k => delete k M
  end.

Definition run_wop (o : wop) (m : cc_map) : outcome (Z * option loc * cc_map) :=
  match o with
  | Update k v mem => update_ccmap mem m k v
  | Remove k => remove_ccmap m k
  end.

(** A call of the writer up to its [spin_unlock]. *)
Definition do_write (o : wop) (ops : list wop) (s : rcu_state) : outcome rcu_state :=
  '(_, old, m) ← run_wop o (smap s);
  let M := apply_wop o (now s) in
  Ret (mkRcu m ops old (rd s) (held s) (ready s) M (M :: past s)).

(** [call_rcu] of the node it unlinked. *)
Definition do_call (x : loc) (s : rcu_state) : rcu_state :=
  if in_section (rd s)
  then mkRcu (smap s) (wops s) None (rd s) (x :: held s) (ready s) (now s) (past s)
  else mkRcu (smap s) (wops s) None (rd s) (held s) (x :: ready s) (now s) (past s).

(** A callback; [rest] are the other ones that are ready. *)
Definition do_free (x : loc) (rest : list loc) (s : rcu_state) : outcome rcu_state :=
  m ← _ccmap_cb (smap s) x;
  Ret (mkRcu m (wops s) (wcall s) (rd s) (held s) rest (now s) (past s)).

Definition do_lock (k : Z) (s : rcu_state) : rcu_state :=
  mkRcu (smap s) (wops s) (wcall s) (RLocked k) (held s) (ready s) (now s) [now s].

Definition do_read (s : rcu_state) : outcome rcu_state :=
  r ← reader_step (smap s) (rd s);
  Ret (mkRcu (smap s) (wops s) (wcall s) r (held s) (ready s) (now s) (past s)).

Definition do_unlock (s : rcu_state) : rcu_state :=
  mkRcu (smap s) (wops s) (wcall s) RIdle [] (held s ++ ready s) (now s) (past s).

Inductive rcu_step (s : rcu_state) : outcome rcu_state -> Prop :=
  | s_write o ops : wops s = o :: ops → wcall s = None → rcu_step s (do_write o ops s)
  | s_call x : wcall s = Some x → rcu_step s (Ret (do_call x s))
  | s_free l1 x l2 : ready s = l1 ++ x :: l2 → rcu_step s (do_free x (l1 ++ l2) s)
  | s_lock k : rd s = RIdle → rcu_step s (Ret (do_lock k s))
  | s_read : in_section (rd s) = true → rcu_step s (do_read s)
  | s_unlock k res : rd s = RDone k res → rcu_step s (Ret (do_unlock s)).

Definition rcu_init (n : nat) (ops : list wop) : rcu_state :=
  mkRcu (make_ccmap n) ops None RIdle [] [] ∅ [].

Inductive rcu_reachable (n : nat) (ops : list wop) : rcu_state -> Prop :=
  | reach_init : rcu_reachable n ops (rcu_init n ops)
  | reach_step s s' :
      rcu_reachable n ops s → rcu_step s (Ret s') → rcu_reachable n ops s'.

(** The calls of [task_writer]: the first updates, [OP_COUNT / 2 - 1] rounds of
    updates, the removals. *)
Definition OP_COUNT : nat := 10.

Definition task_writer : list wop :=
  ((fun i => Update (Z.of_nat i) (Z.of_nat i) true) <$> seq 0 OP_COUNT) ++
  mjoin ((fun step => (fun i => Update (Z.of_nat i) (Z.of_nat (i * step)) true) <$>
            seq 0 OP_COUNT) <$> seq 1 (OP_COUNT / 2 - 1)) ++
  ((fun i => Remove (Z.of_nat i)) <$> seq 0 OP_COUNT).

(** ** Nodes a reader can get to *)

(** A node with key [k] lies ahead of [l]. *)
Inductive ahead (h : gmap loc node) (k : Z) : link -> Prop :=
  | ahead_here x n : h !! x = Some n → key n = k → ahead h k (LNode x)
  | ahead_next x n : h !! x = Some n → key n ≠ k → ahead h k (nnext n) → ahead h k (LNode x).

Lemma seg_ahead h k e pv l : seg h e pv l → k ∈ keys l → ahead h k (first_link e l).
Proof.
  revert pv. induction l as [|[x [k' v]] l IH]; intros pv Hs Hk; [by apply elem_of_nil in Hk|].
  destruct Hs as [Hx Hs]. rewrite keys_cons in Hk. destruct (decide (k' = k)) as [->|Hne].
  - by eapply ahead_here.
  - apply elem_of_cons in Hk as [?|Hk]; [congruence|].
    eapply ahead_next; [exact Hx|done|]. by eapply IH.
Qed.

(** The node that follows a node of a bucket. *)
Lemma seg_next h e pv l1 x k v l2 n :
  seg h e pv (l1 ++ (x, (k, v)) :: l2) → h !! x = Some n →
  key n = k ∧ value n = v ∧ nnext n = first_link e l2.
Proof. intros [_ [Hx _]]%seg_app Hn. by simplify_eq. Qed.

(** What a call of the writer does to the memory: [old] leaves the lists, [new]
    enters them, the keys and the values stay, and a [next] that changes went
    to [old] and goes past it. *)
Record relinked (m : cc_map) (Ls : list (list cell)) (m' : cc_map) (Ls' : list (list cell))
    (old new : option loc) : Prop := {
  re_rep : rep m' Ls';
  re_len : length Ls' = length Ls;
  re_old y : old = Some y → live Ls y;
  re_new y : new = Some y → nodes m !! y = None;
  re_live y : live Ls' y ↔ (live Ls y ∧ old ≠ Some y) ∨ new = Some y;
  re_dom y : is_Some (nodes m' !! y) ↔ is_Some (nodes m !! y) ∨ new = Some y;
  re_keep y n : nodes m !! y = Some n →
    ∃ n', nodes m' !! y = Some n' ∧ key n' = key n ∧ value n' = value n ∧
      (¬ live Ls y ∨ old = Some y → nnext n' = nnext n) ∧
      (nnext n' = nnext n ∨
       ∃ o no, old = Some o ∧ nnext n = LNode o ∧ nodes m' !! o = Some no ∧
         (new = None ∧ nnext n' = nnext no ∨
          ∃ x nx, new = Some x ∧ nnext n' = LNode x ∧ nodes m' !! x = Some nx ∧
            key nx = key no ∧ nnext nx = nnext no));
}.

(** No call takes a key away from a reader that is on its way to it, but its
    removal. *)
Lemma relinked_ahead m Ls m' Ls' old new k l :
  relinked m Ls m' Ls' old new →
  (new = None → ∀ o no, old = Some o → nodes m' !! o = Some no → key no ≠ k) →
  ahead (nodes m) k l → ahead (nodes m') k l.
Proof.
  intros Hre Hrm. induction 1 as [x n Hx Hk|x n Hx Hk _ IH];
    destruct (re_keep _ _ _ _ _ _ Hre x n Hx) as (n' & Hx' & Hk' & _ & _ & Hnext).
  - eapply ahead_here; [exact Hx'|congruence].
  - eapply ahead_next; [exact Hx'|congruence|].
    destruct Hnext as [->|(o & no & Ho & En & Hno & Hcase)]; [done|]. rewrite En in IH.
    destruct Hcase as [[Hnew ->]|(y & ny & Hnew & -> & Hny & Hkey & Hnn)].
    + inversion IH; simplify_eq; [|done]. by destruct (Hrm eq_refl o no).
    + inversion IH; simplify_eq.
      * by eapply ahead_here.
      * eapply ahead_next; [exact Hny|congruence|congruence].
Qed.

Lemma live_insert Ls i l' y :
  (i < length Ls)%nat →
  live (<[i := l']> Ls) y ↔ y ∈ l'.*1 ∨ ∃ j lj, j ≠ i ∧ Ls !! j = Some lj ∧ y ∈ lj.*1.
Proof.
  intros Hi. split.
  - intros (l & [j Hj]%list_elem_of_lookup & Hy).
    apply list_lookup_insert_Some in Hj as [(_ & <- & _)|[Hne Hj]]; [by left|]. right. eauto.
  - intros [Hy|(j & lj & Hj & Hlj & Hy)]; [exists l'|exists lj]; (split; [|done]).
    + apply (list_elem_of_lookup_2 _ i). by apply list_lookup_insert_eq.
    + apply (list_elem_of_lookup_2 _ j). by rewrite list_lookup_insert_ne.
Qed.

Lemma live_elim Ls i l y :
  Ls !! i = Some l → live Ls y ↔ y ∈ l.*1 ∨ ∃ j lj, j ≠ i ∧ Ls !! j = Some lj ∧ y ∈ lj.*1.
Proof.
  intros Hi. rewrite <-(live_insert Ls i l) by (by eapply lookup_lt_Some).
  by rewrite list_insert_id.
Qed.

Lemma cell_split (l : list cell) y :
  y ∈ l.*1 → ∃ la k v lb, l = la ++ (y, (k, v)) :: lb.
Proof.
  intros ([z [k v]] & Ez & (la & lb & El)%list_elem_of_split)%list_elem_of_fmap.
  simpl in Ez. subst z. by exists la, k, v, lb.
Qed.

Lemma elem_fst_app (l1 : list cell) x kv l2 y :
  y ∈ (l1 ++ (x, kv) :: l2).*1 ↔ y ∈ l1.*1 ∨ y = x ∨ y ∈ l2.*1.
Proof. rewrite split_fst, elem_of_app, elem_of_cons. done. Qed.

(** Enough for a change of one bucket. *)
Lemma relinked_intro m Ls m' i l l' old new :
  rep m Ls → Ls !! i = Some l → rep m' (<[i := l']> Ls) →
  (∀ y, new ≠ Some y → y ∉ l.*1 → nodes m' !! y = nodes m !! y) →
  (∀ y, new = Some y → nodes m !! y = None ∧ is_Some (nodes m' !! y)) →
  (∀ y, old = Some y → y ∈ l.*1) →
  (∀ y, y ∈ l'.*1 ↔ (y ∈ l.*1 ∧ old ≠ Some y) ∨ new = Some y) →
  (∀ y n, y ∈ l.*1 → nodes m !! y = Some n →
    ∃ n', nodes m' !! y = Some n' ∧ key n' = key n ∧ value n' = value n ∧
      (old = Some y → nnext n' = nnext n) ∧
      (nnext n' = nnext n ∨
       ∃ o no, old = Some o ∧ nnext n = LNode o ∧ nodes m' !! o = Some no ∧
         (new = None ∧ nnext n' = nnext no ∨
          ∃ x nx, new = Some x ∧ nnext n' = LNode x ∧ nodes m' !! x = Some nx ∧
            key nx = key no ∧ nnext nx = nnext no))) →
  relinked m Ls m' (<[i := l']> Ls) old new.
Proof.
  intros Hr Hi Hr' Hfr Hnew Hold Hcells Hkeep.
  pose proof (lookup_lt_Some _ _ _ Hi) as Hlt.
  assert (∀ y, y ∈ l.*1 → live Ls y) as Hin by (intros; rewrite live_elim by done; by left).
  constructor.
  - done.
  - by rewrite length_insert.
  - auto.
  - intros y Hy. by apply Hnew.
  - intros y. rewrite live_insert, (live_elim _ _ _ _ Hi), Hcells by done. split; [|tauto].
    intros [[]|(j & lj & Hj & Hlj & Hy)]; [left; tauto|tauto|]. left. split; [right; eauto|].
    intros Ho%Hold. apply Hj. by eapply (rep_disj _ _ Hr).
  - intros y. destruct (decide (new = Some y)) as [Hn|Hn].
    + destruct (Hnew _ Hn) as [-> ?]. split; [by right|done].
    + destruct (decide (y ∈ l.*1)) as [Hy|Hy]; [|rewrite Hfr by done; tauto].
      destruct (live_alloc _ _ _ Hr (Hin _ Hy)) as [n E]. rewrite E.
      destruct (Hkeep _ _ Hy E) as (n' & -> & _). split; eauto.
  - intros y n Hy. destruct (decide (y ∈ l.*1)) as [Hyl|Hyl].
    + destruct (Hkeep _ _ Hyl Hy) as (n' & H1 & H2 & H3 & H4 & H5). exists n'.
      split_and!; [done..| |done]. intros [Hl|]; [|by apply H4]. by destruct Hl; apply Hin.
    + exists n. rewrite Hfr; [|intros Hc; destruct (Hnew _ Hc); congruence|done].
      split_and!; auto.
Qed.

Lemma relinked_new m Ls k v :
  let i := bucket_of (length Ls) k in let x := hfresh (nodes m) in
  rep m Ls → assoc k (Ls !!! i) = None →
  ∃ j m', update_ccmap true m k v = Ret (j, None, m') ∧
    relinked m Ls m' (<[i := (x, (k, v)) :: Ls !!! i]> Ls) None (Some x).
Proof.
  intros i x Hr Ha. pose proof (rep_own _ _ k Hr) as Hi. fold i in Hi.
  destruct (update_new m Ls k v Hr Ha) as (m' & E & Hr' & [Hfr Hdom]).
  fold i x in E, Hr', Hfr, Hdom. eexists _, m'. split; [exact E|].
  eapply relinked_intro; try done.
  - intros y Hy Hyl. apply Hfr; [congruence|done].
  - intros y [= <-]. split; [apply hfresh_spec|]. apply elem_of_dom. rewrite Hdom.
    apply elem_of_union_l. by apply elem_of_singleton.
  - intros y. rewrite fmap_cons, elem_of_cons. cbn [fst].
    split; [intros [->|]; [by right|by left]|intros [[? _]|[= <-]]; auto].
  - intros y n Hy Hn. destruct (cell_split _ _ Hy) as (la & k' & v' & lb & El).
    destruct (rep_bucket _ _ Hr _ _ Hi) as [_ Hs]. rewrite El in Hs.
    destruct (seg_next _ _ _ _ _ _ _ _ _ Hs Hn) as (K1 & V1 & N1).
    destruct (rep_bucket _ _ Hr' i ((x, (k, v)) :: Ls !!! i)) as [_ [_ Hs']].
    { apply list_lookup_insert_eq. by eapply lookup_lt_Some. }
    rewrite El in Hs'.
    destruct (seg_lookup _ _ _ _ y k' v' Hs') as (nx & px & Hn');
      [apply elem_of_app; right; apply list_elem_of_here|].
    destruct (seg_next _ _ _ _ _ _ _ _ _ Hs' Hn') as (K2 & V2 & N2).
    eexists. split_and!; [exact Hn'|congruence..|]. left. congruence.
Qed.

(** The nodes around a cell that is replaced by [mid]. *)
Lemma around_cell h h' e pv l1 o kv l2 mid y n :
  seg h e pv (l1 ++ (o, kv) :: l2) → seg h' e pv (l1 ++ mid ++ l2) →
  y ∈ l1.*1 ∨ y ∈ l2.*1 → h !! y = Some n →
  ∃ n', h' !! y = Some n' ∧ key n' = key n ∧ value n' = value n ∧
    (nnext n' = nnext n ∨ (nnext n = LNode o ∧ nnext n' = first_link e (mid ++ l2))).
Proof.
  intros Hs Hs' Hy Hn.
  assert (∃ la k v lb lb', l1 ++ (o, kv) :: l2 = la ++ (y, (k, v)) :: lb ∧
    (∃ la', l1 ++ mid ++ l2 = la' ++ (y, (k, v)) :: lb') ∧
    (first_link e lb' = first_link e lb ∨
     first_link e lb = LNode o ∧ first_link e lb' = first_link e (mid ++ l2)))
    as (la & k & v & lb & lb' & E & [la' E'] & Hl).
  { destruct Hy as [Hy|Hy]; apply cell_split in Hy as (la & k & v & lb & ->).
    - exists la, k, v, (lb ++ (o, kv) :: l2), (lb ++ mid ++ l2).
      split; [by rewrite <-app_assoc|]. split; [exists la; by rewrite <-app_assoc|].
      destruct lb as [|[z c] lb]; [by right|by left].
    - exists (l1 ++ (o, kv) :: la), k, v, lb, lb. split; [by rewrite <-app_assoc|].
      split; [exists (l1 ++ mid ++ la); by rewrite <-!app_assoc|by left]. }
  rewrite E in Hs. rewrite E' in Hs'.
  destruct (seg_next _ _ _ _ _ _ _ _ _ Hs Hn) as (K1 & V1 & N1).
  destruct (seg_lookup _ _ _ _ y k v Hs') as (nx & px & Hn');
    [apply elem_of_app; right; apply list_elem_of_here|].
  destruct (seg_next _ _ _ _ _ _ _ _ _ Hs' Hn') as (K2 & V2 & N2).
  eexists. split_and!; [exact Hn'|congruence..|]. rewrite N1, N2. done.
Qed.

Lemma relinked_old m Ls k v old v0 l1 l2 m' :
  let i := bucket_of (length Ls) k in let x := hfresh (nodes m) in
  rep m Ls → Ls !!! i = l1 ++ (old, (k, v0)) :: l2 →
  rep m' (<[i := l1 ++ (x, (k, v)) :: l2]> Ls) →
  nodes m' !! old = Some (mkNode k v0 (first_link (LHead i) l2) LPoison) →
  frames x (Ls !!! i) m m' →
  relinked m Ls m' (<[i := l1 ++ (x, (k, v)) :: l2]> Ls) (Some old) (Some x).
Proof.
  intros i x Hr El Hr' Ho [Hfr Hdom]. pose proof (rep_own _ _ k Hr) as Hi. fold i in Hi.
  destruct (rep_bucket _ _ Hr _ _ Hi) as [_ Hs]. rewrite El in Hs.
  destruct (rep_bucket _ _ Hr' i (l1 ++ (x, (k, v)) :: l2)) as [_ Hs'].
  { apply list_lookup_insert_eq. by eapply lookup_lt_Some. }
  pose proof (rep_nd _ _ Hr _ _ Hi) as Hnd. rewrite El in Hnd.
  apply split_NoDup in Hnd as (_ & _ & Ho1 & Ho2 & _).
  assert (nodes m !! x = None) as Hx by apply hfresh_spec.
  eapply relinked_intro; try done.
  - intros y Hy Hyl. apply Hfr; [congruence|done].
  - intros y [= <-]. split; [done|]. apply elem_of_dom. rewrite Hdom.
    apply elem_of_union_l. by apply elem_of_singleton.
  - intros y [= <-]. rewrite El, elem_fst_app. auto.
  - intros y. rewrite El, !elem_fst_app. split.
    + intros [Hy|[->|Hy]]; [left|by right|left]; (split; [tauto|]); by intros [= <-].
    + intros [[[Hy|[->|Hy]] Hne]|[= <-]]; auto. done.
  - intros y n Hy Hn. rewrite El, elem_fst_app in Hy.
    destruct (decide (y = old)) as [->|Hne].
    + destruct (seg_next _ _ _ _ _ _ _ _ _ Hs Hn) as (K & V & N).
      eexists. split_and!; [exact Ho|done..|]. by left.
    + assert (y ∈ l1.*1 ∨ y ∈ l2.*1) as Hy' by tauto.
      destruct (around_cell _ _ _ _ _ _ _ _ [(x, (k, v))] _ _ Hs Hs' Hy' Hn)
        as (n' & Hn' & K & V & N). exists n'. split_and!; [done..|congruence|].
      destruct N as [|[N1 N2]]; [by left|]. right. eexists old, _. split_and!; [done..|].
      right. destruct (seg_lookup _ _ _ _ x k v Hs') as (nx & px & Hnx);
        [apply elem_of_app; right; apply list_elem_of_here|].
      destruct (seg_next _ _ _ _ _ _ _ _ _ Hs' Hnx) as (_ & _ & N3).
      eexists x, _. by split_and!.
Qed.

Lemma relinked_del m Ls k v old l1 l2 m' :
  let i := bucket_of (length Ls) k in
  rep m Ls → Ls !!! i = l1 ++ (old, (k, v)) :: l2 →
  rep m' (<[i := l1 ++ l2]> Ls) →
  nodes m' !! old = Some (mkNode k v (first_link (LHead i) l2) LPoison) →
  frames old (Ls !!! i) m m' →
  relinked m Ls m' (<[i := l1 ++ l2]> Ls) (Some old) None.
Proof.
  intros i Hr El Hr' Ho [Hfr Hdom]. pose proof (rep_own _ _ k Hr) as Hi. fold i in Hi.
  destruct (rep_bucket _ _ Hr _ _ Hi) as [_ Hs]. rewrite El in Hs.
  destruct (rep_bucket _ _ Hr' i (l1 ++ l2)) as [_ Hs'].
  { apply list_lookup_insert_eq. by eapply lookup_lt_Some. }
  pose proof (rep_nd _ _ Hr _ _ Hi) as Hnd. rewrite El in Hnd.
  apply split_NoDup in Hnd as (_ & _ & Ho1 & Ho2 & _).
  assert (old ∈ (Ls !!! i).*1) as Hin by (rewrite El, elem_fst_app; auto).
  eapply relinked_intro; try done.
  - intros y _ Hyl. apply Hfr; [by intros ->|done].
  - by intros y [= <-].
  - intros y. rewrite El, elem_fst_app, fmap_app, elem_of_app. split.
    + intros [Hy|Hy]; left; (split; [tauto|]); by intros [= <-].
    + intros [[[Hy|[->|Hy]] Hne]|[=]]; auto. done.
  - intros y n Hy Hn. rewrite El, elem_fst_app in Hy.
    destruct (decide (y = old)) as [->|Hne].
    + destruct (seg_next _ _ _ _ _ _ _ _ _ Hs Hn) as (K & V & N).
      eexists. split_and!; [exact Ho|done..|]. by left.
    + assert (y ∈ l1.*1 ∨ y ∈ l2.*1) as Hy' by tauto.
      destruct (around_cell _ _ _ _ _ _ _ _ [] _ _ Hs Hs' Hy' Hn)
        as (n' & Hn' & K & V & N). exists n'. split_and!; [done..|congruence|].
      destruct N as [|[N1 N2]]; [by left|]. right. eexists old, _. split_and!; [done..|].
      by left.
Qed.

Lemma relinked_refl m Ls : rep m Ls → relinked m Ls m Ls None None.
Proof.
  intros Hr. constructor; try done.
  - intros y. split; [by left|]. intros [[]|]; done.
  - intros y. split; [by left|]. by intros [|].
  - intros y n Hy. exists n. split_and!; auto.
Qed.

(** Every call of the writer, with what it does to the finite map. *)
Lemma run_wop_relinked o m Ls M :
  rep m Ls → contents Ls M →
  ∃ j old m' Ls' new, run_wop o m = Ret (j, old, m') ∧
    relinked m Ls m' Ls' old new ∧ contents Ls' (apply_wop o M) ∧
    (new = None → ∀ y n, old = Some y → nodes m' !! y = Some n →
       apply_wop o M !! key n = None).
Proof.
  intros Hr HM. destruct o as [k v [|]|k]; cbn [run_wop apply_wop].
  - destruct (assoc k (Ls !!! bucket_of (length Ls) k)) as [[old v0]|] eqn:Ha.
    + destruct (update_old m Ls k v old v0 Hr Ha)
        as (l1 & l2 & m' & El & Hl1 & E & Hr' & Ho & Hfr).
      eexists _, _, m', _, _. split_and!; [exact E|by eapply relinked_old| |done].
      apply (contents_insert m); [done|done| |].
      * intros k' Hk'. rewrite El. by rewrite !(assoc_skip k' l1 _ k) by (by apply not_eq_sym).
      * rewrite assoc_app by done. cbn [assoc]. by rewrite Z.eqb_refl.
    + destruct (relinked_new m Ls k v Hr Ha) as (j & m' & E & Hre).
      eexists _, _, m', _, _. split_and!; [exact E|exact Hre| |done].
      apply (contents_insert m); [done|done| |].
      * intros k' Hk'. cbn [assoc]. by rewrite (proj2 (Z.eqb_neq k k')) by (by apply not_eq_sym).
      * cbn [assoc]. by rewrite Z.eqb_refl.
  - eexists _, _, m, Ls, _. split_and!; [by eapply update_no_memory|by apply relinked_refl|done|].
    by intros _ y n [=].
  - destruct (assoc k (Ls !!! bucket_of (length Ls) k)) as [[x v]|] eqn:Ha.
    + destruct (remove_hit m Ls k x v Hr Ha)
        as (l1 & l2 & m' & El & Hl1 & Hl2 & E & Hr' & Hx & Hfr).
      eexists _, _, m', _, _. split_and!; [exact E|by eapply relinked_del| |].
      * apply (contents_insert m); [done|done| |].
        -- intros k' Hk'. rewrite El.
           by rewrite (assoc_skip k' l1 _ k) by (by apply not_eq_sym).
        -- rewrite assoc_app by done. by rewrite (proj2 (assoc_None _ _) Hl2).
      * intros _ y n [= <-] Hn. rewrite Hx in Hn. simplify_eq. apply lookup_delete_eq.
    + pose proof (HM k) as Hk. rewrite Ha in Hk. rewrite delete_id by done.
      eexists _, _, m, Ls, _. split_and!; [by eapply remove_miss|by apply relinked_refl|done|].
      by intros _ y n [=].
Qed.

(** ** The invariant *)

(** Nodes that left the lists and are not freed yet. *)
Definition waiting (s : rcu_state) : list loc := option_list (wcall s) ++ held s ++ ready s.

Section reader.
Context (m : cc_map) (Ls : list (list cell)) (D : list loc) (past : list (gmap Z Z)).

(** [D] are the nodes unlinked since the section began: a reader stays on these
    and on the lists. *)
Definition visible (x : loc) : Prop := live Ls x ∨ x ∈ D.

(** [l] is a place on the way through bucket [i]. *)
Definition link_ok (i : nat) (l : link) : Prop :=
  l = LHead i ∨
  ∃ x n, l = LNode x ∧ visible x ∧ nodes m !! x = Some n ∧
    bucket_of (length Ls) (key n) = i.

(** What the section has seen of a key. *)
Definition seen (k : Z) (res : option Z) : Prop := ∃ M, M ∈ past ∧ M !! k = res.

Definition position_ok (r : reader) : Prop :=
  match r with
  | RIdle | RLocked _ => True
  | RWalk k l =>
    link_ok (bucket_of (length Ls) k) l ∧
    ((∀ M, M ∈ past → is_Some (M !! k)) → ahead (nodes m) k l)
  | RFound k x => ∃ n, visible x ∧ nodes m !! x = Some n ∧ key n = k
  | RDone k res => seen k res
  end.

Record section_ok (r : reader) : Prop := {
  sec_next x : x ∈ D →
    ∃ n, nodes m !! x = Some n ∧ link_ok (bucket_of (length Ls) (key n)) (nnext n);
  sec_value x n : visible x → nodes m !! x = Some n → seen (key n) (Some (value n));
  sec_pos : position_ok r;
}.
End reader.

Record rcu_inv (s : rcu_state) (Ls : list (list cell)) (D : list loc) : Prop := {
  inv_rep : rep (smap s) Ls;
  inv_now : contents Ls (now s);
  inv_dom x : is_Some (nodes (smap s) !! x) ↔ live Ls x ∨ x ∈ waiting s;
  inv_nd : NoDup (waiting s);
  inv_off x : x ∈ waiting s → ¬ live Ls x;
  inv_D x : x ∈ D → x ∈ option_list (wcall s) ++ held s;
  inv_sec : in_section (rd s) = true →
    now s ∈ past s ∧ section_ok (smap s) Ls D (past s) (rd s);
}.

(** A node of the lists. *)
Lemma live_node m Ls x :
  rep m Ls → live Ls x →
  ∃ n, nodes m !! x = Some n ∧ link_ok m Ls [] (bucket_of (length Ls) (key n)) (nnext n) ∧
    assoc (key n) (Ls !!! bucket_of (length Ls) (key n)) = Some (x, value n).
Proof.
  intros Hr (l & [i Hi]%list_elem_of_lookup & (la & k & v & lb & ->)%cell_split).
  pose proof (rep_bucket _ _ Hr _ _ Hi) as Hb.
  pose proof (bucket_split _ _ _ _ _ _ _ Hb) as (_ & _ & Hx & Hs).
  assert (bucket_of (length Ls) k = i) as Hk.
  { eapply (rep_hash _ _ Hr); [exact Hi|]. rewrite keys_app, keys_cons.
    apply elem_of_app. right. apply list_elem_of_here. }
  eexists. split; [exact Hx|]. cbn [key value nnext]. rewrite Hk. split.
  - destruct lb as [|[y [k' v']] lb]; [by left|]. right. destruct Hs as [Hy _].
    eexists y, _. split_and!; [done| |exact Hy|].
    + left. exists (la ++ (x, (k, v)) :: (y, (k', v')) :: lb).
      split; [by eapply list_elem_of_lookup_2|]. rewrite split_fst, fmap_cons.
      apply elem_of_app. right. apply list_elem_of_further, list_elem_of_here.
    + eapply (rep_hash _ _ Hr); [exact Hi|]. rewrite keys_app, !keys_cons.
      apply elem_of_app. right. apply list_elem_of_further, list_elem_of_here.
  - rewrite (list_lookup_total_correct _ _ _ Hi). pose proof (rep_keys _ _ Hr _ _ Hi) as Hnd.
    rewrite keys_app, keys_cons in Hnd. apply NoDup_app in Hnd as (_ & Hnd & _).
    rewrite assoc_app; [cbn [assoc]; by rewrite Z.eqb_refl|].
    intros Hc. eapply Hnd; [exact Hc|]. apply list_elem_of_here.
Qed.

Lemma link_ok_mono m Ls D D' i l : D ⊆ D' → link_ok m Ls D i l → link_ok m Ls D' i l.
Proof.
  intros HD [->|(x & n & -> & Hv & Hx & Hk)]; [by left|]. right. exists x, n.
  split_and!; [done| |done..]. destruct Hv; [by left|right; auto].
Qed.

Lemma visible_node m Ls D past r x :
  rep m Ls → section_ok m Ls D past r → visible Ls D x →
  ∃ n, nodes m !! x = Some n ∧ link_ok m Ls D (bucket_of (length Ls) (key n)) (nnext n).
Proof.
  intros Hr Hsec [Hl|Hd]; [|by eapply sec_next].
  destruct (live_node _ _ _ Hr Hl) as (n & Hn & Hk & _). exists n. split; [done|].
  eapply link_ok_mono; [|exact Hk]. intros y Hy. by apply elem_of_nil in Hy.
Qed.

(** *** The reader's loads *)

Lemma reader_step_ok m Ls D past M r :
  rep m Ls → contents Ls M → M ∈ past → section_ok m Ls D past r →
  ∃ r', reader_step m r = Ret r' ∧ section_ok m Ls D past r' ∧
    (in_section r = true → in_section r' = true).
Proof.
  intros Hr HM Hpast Hsec. pose proof Hsec as [Hnext Hval Hpos].
  destruct r as [|k|k l|k x|k res]; cbn [reader_step position_ok] in *; [by eauto| | | |by eauto].
  - rewrite (rep_count _ _ Hr), hashfunc_run by apply Hr. cbn [mbind outcome_bind].
    rewrite Nat2Z.id. pose proof (rep_own _ _ k Hr) as Hi.
    destruct (rep_bucket _ _ Hr _ _ Hi) as [Hh Hs].
    rewrite (get_entry_head _ _ _ Hh). cbn [mbind outcome_bind fst].
    eexists. split_and!; [done| |done]. constructor; [done|done|]. split.
    + destruct (Ls !!! bucket_of (length Ls) k) as [|[x [k' v]] l] eqn:El; [by left|]. right.
      destruct Hs as [Hx _]. eexists x, _. split_and!; [done| |exact Hx|].
      * left. eapply own_live; [done|]. rewrite El. apply list_elem_of_here.
      * eapply (rep_hash _ _ Hr); [exact Hi|]. rewrite keys_cons. apply list_elem_of_here.
    + intros Hall. eapply seg_ahead; [exact Hs|]. destruct (Hall M Hpast) as [v Hv].
      rewrite HM in Hv. destruct (decide (k ∈ keys (Ls !!! bucket_of (length Ls) k)))
        as [|Hn%assoc_None]; [done|]. by rewrite Hn in Hv.
  - destruct Hpos as [Hlink Hahead].
    rewrite (rep_count _ _ Hr), hashfunc_run by apply Hr. cbn [mbind outcome_bind].
    rewrite Nat2Z.id. destruct Hlink as [->|(x & n & -> & Hv & Hx & Hb)].
    + rewrite decide_True by done. eexists. split_and!; [done| |done].
      constructor; [done|done|]. simpl.
      destruct (decide (Forall (fun M => is_Some (M !! k)) past)) as [Hall|Hall].
      * rewrite Forall_forall in Hall. specialize (Hahead Hall). inversion Hahead.
      * apply not_Forall_Exists, Exists_exists in Hall as (M' & HM' & Hn); [|apply _].
        exists M'. split; [done|]. by apply eq_None_not_Some.
    + rewrite decide_False by done. rewrite Hx. cbn [or_fault mbind outcome_bind].
      destruct (Z.eqb_spec (key n) k) as [Hk|Hk].
      * eexists. split_and!; [done| |done]. constructor; [done|done|]. by exists n.
      * eexists. split_and!; [done| |done]. constructor; [done|done|].
        destruct (visible_node _ _ _ _ _ _ Hr Hsec Hv) as (n' & Hx' & Hl'). simplify_eq.
        split; [by rewrite Hb in Hl'|]. intros Hall. specialize (Hahead Hall).
        inversion Hahead; by simplify_eq.
  - destruct Hpos as (n & Hv & Hx & <-). rewrite Hx. cbn [or_fault mbind outcome_bind].
    eexists. split_and!; [done| |done]. constructor; [done|done|]. by apply (Hval x).
Qed.

(** *** The writer's calls *)

Section relink.
Context (m m' : cc_map) (Ls Ls' : list (list cell)) (old new : option loc) (D : list loc).
Context (Hre : relinked m Ls m' Ls' old new).
Context (Hoff : ∀ x, x ∈ D → ¬ live Ls x).

Lemma visible_relinked x :
  visible Ls' (D ++ option_list old) x ↔ visible Ls D x ∨ new = Some x.
Proof.
  unfold visible. rewrite (re_live _ _ _ _ _ _ Hre), elem_of_app. split.
  - intros [[[? _]|?]|[?|Ho]]; auto. left. left. apply (re_old _ _ _ _ _ _ Hre).
    destruct old; [|by apply elem_of_nil in Ho]. by apply list_elem_of_singleton in Ho as ->.
  - intros [[Hl|Hd]|Hn]; auto. destruct (decide (old = Some x)) as [->|]; [|auto].
    right. right. apply list_elem_of_here.
Qed.

Lemma link_ok_relinked i l :
  link_ok m Ls D i l → link_ok m' Ls' (D ++ option_list old) i l.
Proof.
  intros [->|(x & n & -> & Hv & Hx & Hk)]; [by left|]. right.
  destruct (re_keep _ _ _ _ _ _ Hre x n Hx) as (n' & Hx' & Hk' & _).
  exists x, n'. split_and!; [done|apply visible_relinked; by left|done|].
  by rewrite (re_len _ _ _ _ _ _ Hre), Hk'.
Qed.

Lemma section_relinked past M' r :
  rep m Ls → contents Ls' M' →
  (new = None → ∀ y n, old = Some y → nodes m' !! y = Some n → M' !! key n = None) →
  section_ok m Ls D past r → section_ok m' Ls' (D ++ option_list old) (M' :: past) r.
Proof.
  intros Hr HM' Hrm Hsec. pose proof Hsec as [Hnext Hval Hpos].
  assert (∀ k res, seen past k res → seen (M' :: past) k res) as Hseen.
  { intros k res (N & HN & E). exists N. split; [by apply list_elem_of_further|done]. }
  constructor.
  - intros x Hx. assert (visible Ls D x) as Hv.
    { apply elem_of_app in Hx as [|Hx]; [by right|]. left. apply (re_old _ _ _ _ _ _ Hre).
      destruct old; [|by apply elem_of_nil in Hx]. by apply list_elem_of_singleton in Hx as ->. }
    destruct (visible_node _ _ _ _ _ _ Hr Hsec Hv) as (n & Hn & Hl).
    destruct (re_keep _ _ _ _ _ _ Hre x n Hn) as (n' & Hn' & Hk & _ & Hnn & _).
    exists n'. split; [done|]. rewrite (re_len _ _ _ _ _ _ Hre), Hk, Hnn.
    + by apply link_ok_relinked.
    + apply elem_of_app in Hx as [Hx|Hx]; [left; auto|right].
      destruct old; [|by apply elem_of_nil in Hx]. by apply list_elem_of_singleton in Hx as ->.
  - intros x n Hv Hn. apply visible_relinked in Hv as [Hv|Hnew].
    + destruct (visible_node _ _ _ _ _ _ Hr Hsec Hv) as (n0 & Hn0 & _).
      destruct (re_keep _ _ _ _ _ _ Hre x n0 Hn0) as (n' & Hn' & Hk & Hvv & _). simplify_eq.
      rewrite Hk, Hvv. apply Hseen. by eapply Hval.
    + assert (live Ls' x) as Hl by (apply (re_live _ _ _ _ _ _ Hre); by right).
      destruct (live_node _ _ _ (re_rep _ _ _ _ _ _ Hre) Hl) as (n' & Hn' & _ & Ha).
      simplify_eq. exists M'. split; [apply list_elem_of_here|]. by rewrite HM', Ha.
  - destruct r as [|k|k l|k x|k res]; cbn [position_ok] in *; [done|done| | |auto].
    + destruct Hpos as [Hl Ha]. rewrite (re_len _ _ _ _ _ _ Hre).
      split; [by apply link_ok_relinked|]. intros Hall.
      eapply relinked_ahead; [exact Hre| |apply Ha].
      * intros Hnone o no Ho Hno <-. destruct (Hall M' (list_elem_of_here _ _)) as [v Hv].
        by rewrite (Hrm Hnone o no Ho Hno) in Hv.
      * intros N HN. apply Hall. by apply list_elem_of_further.
    + destruct Hpos as (n & Hv & Hx & Hk).
      destruct (re_keep _ _ _ _ _ _ Hre x n Hx) as (n' & Hx' & Hk' & _).
      exists n'. split_and!; [apply visible_relinked; by left|done|congruence].
Qed.
End relink.

Lemma elem_waiting (old : option loc) l x :
  x ∈ option_list old ++ l ↔ old = Some x ∨ x ∈ l.
Proof.
  rewrite elem_of_app. destruct old as [y|]; simpl.
  - rewrite list_elem_of_singleton. split; intros [?|?]; try (by right); left; congruence.
  - split; [intros [Hx|]; [by apply elem_of_nil in Hx|by right]|].
    intros [?|]; [done|by right].
Qed.

Lemma write_inv s Ls D o ops :
  rcu_inv s Ls D → wops s = o :: ops → wcall s = None →
  ∃ j old m' Ls' D', run_wop o (smap s) = Ret (j, old, m') ∧
    rcu_inv (mkRcu m' ops old (rd s) (held s) (ready s) (apply_wop o (now s))
               (apply_wop o (now s) :: past s)) Ls' D'.
Proof.
  intros [Hr HM Hdom Hnd Hoff HD Hsec] _ Hw.
  destruct (run_wop_relinked o _ _ _ Hr HM) as (j & old & m' & Ls' & new & E & Hre & HM' & Hrm).
  exists j, old, m', Ls', (D ++ option_list old). split; [done|].
  unfold waiting in *. rewrite Hw in *. cbn [option_list] in *. rewrite app_nil_l in *.
  assert (∀ x, old = Some x → x ∉ held s ++ ready s) as Hfresh.
  { intros x Hx Hc. eapply Hoff; [exact Hc|]. by eapply re_old. }
  constructor; cbn [smap wops wcall rd held ready now past].
  - by eapply re_rep.
  - done.
  - intros x. rewrite (re_dom _ _ _ _ _ _ Hre), Hdom, (re_live _ _ _ _ _ _ Hre).
    unfold waiting; cbn [smap wops wcall rd held ready now past]. rewrite elem_waiting.
    destruct (decide (old = Some x)) as [Ho|Ho]; [|tauto].
    pose proof (re_old _ _ _ _ _ _ Hre _ Ho). tauto.
  - destruct old as [x|]; [|done]. simpl. constructor; [by apply Hfresh|done].
  - intros x. unfold waiting; cbn [smap wops wcall rd held ready now past].
    rewrite elem_waiting. rewrite (re_live _ _ _ _ _ _ Hre).
    intros Hx [[Hl Hne]|Hnew]; [destruct Hx as [|Hx]; [done|by eapply Hoff]|].
    apply (re_new _ _ _ _ _ _ Hre) in Hnew.
    assert (is_Some (nodes (smap s) !! x)) as [n Hn]; [|congruence].
    apply Hdom. destruct Hx as [Hx|]; [left; by eapply re_old|by right].
  - intros x. rewrite !elem_of_app. intros [Hx|]; [|by left]. right. by apply HD in Hx.
  - intros Hin. destruct (Hsec Hin) as [Hpast Hok]. split; [apply list_elem_of_here|].
    eapply section_relinked; try done. intros x Hx. apply Hoff.
    apply elem_of_app. left. by apply HD in Hx.
Qed.

(** *** Callbacks *)

Lemma rep_delete m Ls x :
  rep m Ls → ¬ live Ls x → rep (mkMap (count m) (buckets m) (delete x (nodes m))) Ls.
Proof.
  intros Hr Hx. constructor; try apply Hr. intros i l Hi.
  destruct (rep_bucket _ _ Hr _ _ Hi) as [H1 H2]. split; [done|]. eapply seg_frame; [|exact H2].
  intros y Hy. apply lookup_delete_ne. intros <-. apply Hx. exists l.
  split; [by eapply list_elem_of_lookup_2|done].
Qed.

Section free.
Context (m : cc_map) (Ls : list (list cell)) (D : list loc) (past : list (gmap Z Z)) (x : loc).
Context (Hr : rep m Ls) (Hx : ¬ visible Ls D x).

Abbreviation freed := (mkMap (count m) (buckets m) (delete x (nodes m))).

Lemma freed_node y : visible Ls D y → nodes freed !! y = nodes m !! y.
Proof. intros Hy. apply lookup_delete_ne. by intros <-. Qed.

Lemma link_ok_free i l : link_ok m Ls D i l → link_ok freed Ls D i l.
Proof.
  intros [->|(y & n & -> & Hv & Hy & Hk)]; [by left|]. right. exists y, n.
  split_and!; [done..|by rewrite freed_node|done].
Qed.

(** A reader's way does not lead over a node that may be freed. *)
Lemma ahead_free r k i l :
  section_ok m Ls D past r → link_ok m Ls D i l → ahead (nodes m) k l → ahead (nodes freed) k l.
Proof.
  intros Hsec Hl Ha. revert i Hl. induction Ha as [y n Hy Hk|y n Hy Hk _ IH]; intros i Hl.
  - destruct Hl as [[=]|(y' & n' & [= <-] & Hv & _)]. eapply ahead_here; [|exact Hk].
    by rewrite freed_node.
  - destruct Hl as [[=]|(y' & n' & [= <-] & Hv & _)]. eapply ahead_next; [|exact Hk|].
    + by rewrite freed_node.
    + destruct (visible_node _ _ _ _ _ _ Hr Hsec Hv) as (n2 & Hn2 & Hl2). simplify_eq.
      by eapply IH.
Qed.

Lemma section_free r : section_ok m Ls D past r → section_ok freed Ls D past r.
Proof.
  intros Hsec. pose proof Hsec as [Hnext Hval Hpos]. constructor.
  - intros y Hy. destruct (Hnext y Hy) as (n & Hn & Hl). exists n.
    rewrite freed_node by (by right). split; [done|]. by apply link_ok_free.
  - intros y n Hv Hn. rewrite freed_node in Hn by done. by eapply Hval.
  - destruct r as [|k|k l|k y|k res]; cbn [position_ok] in *; try done.
    + destruct Hpos as [Hl Ha]. split; [by apply link_ok_free|]. intros Hall.
      eapply ahead_free; eauto.
    + destruct Hpos as (n & Hv & Hy & Hk). exists n. by rewrite freed_node.
Qed.
End free.

Lemma free_inv s Ls D l1 x l2 :
  rcu_inv s Ls D → ready s = l1 ++ x :: l2 →
  ∃ m', _ccmap_cb (smap s) x = Ret m' ∧
    rcu_inv (mkRcu m' (wops s) (wcall s) (rd s) (held s) (l1 ++ l2) (now s) (past s)) Ls D.
Proof.
  intros [Hr HM Hdom Hnd Hoff HD Hsec] Hx. unfold waiting in *. rewrite Hx in *.
  assert (option_list (wcall s) ++ held s ++ l1 ++ x :: l2 ≡ₚ
    x :: option_list (wcall s) ++ held s ++ l1 ++ l2) as HP by solve_Permutation.
  rewrite HP in Hnd. apply NoDup_cons in Hnd as [Hxn Hnd].
  assert (∀ y, y ∈ option_list (wcall s) ++ held s ++ l1 ++ x :: l2 ↔
    y = x ∨ y ∈ option_list (wcall s) ++ held s ++ l1 ++ l2) as Hin
    by (intros y; by rewrite HP, elem_of_cons).
  assert (¬ live Ls x) as Hxl by (apply Hoff, Hin; by left).
  assert (¬ visible Ls D x) as Hxv.
  { intros [|Hd]; [done|]. apply Hxn. apply HD in Hd. rewrite app_assoc.
    apply elem_of_app. by left. }
  destruct (proj2 (Hdom x)) as [n Hn]; [right; apply Hin; by left|].
  eexists. split; [unfold _ccmap_cb; by rewrite (hfree_Some _ _ _ Hn)|].
  constructor; unfold waiting; cbn [smap wops wcall rd held ready now past].
  - by apply rep_delete.
  - done.
  - intros y. cbn [nodes]. destruct (decide (y = x)) as [->|Hne].
    + rewrite lookup_delete_eq. split; [by intros []|]. by intros [|].
    + rewrite lookup_delete_ne, Hdom, Hin by done. tauto.
  - done.
  - intros y Hy. apply Hoff, Hin. by right.
  - done.
  - intros Hs. destruct (Hsec Hs) as [? ?]. split; [done|]. by apply section_free.
Qed.

(** *** Sections *)

Lemma lock_inv s Ls D k :
  rcu_inv s Ls D → rd s = RIdle →
  rcu_inv (mkRcu (smap s) (wops s) (wcall s) (RLocked k) (held s) (ready s) (now s) [now s])
    Ls [].
Proof.
  intros [Hr HM Hdom Hnd Hoff HD Hsec] Hi.
  constructor; cbn [smap wops wcall rd held ready now past]; try done.
  - intros x Hx. by apply elem_of_nil in Hx.
  - intros _. split; [apply list_elem_of_here|]. constructor; [|intros x n [Hl|Hl] Hn|done].
    + intros x Hx. by apply elem_of_nil in Hx.
    + destruct (live_node _ _ _ Hr Hl) as (n' & Hn' & _ & Ha). simplify_eq.
      exists (now s). split; [apply list_elem_of_here|]. by rewrite HM, Ha.
    + by apply elem_of_nil in Hl.
Qed.

Lemma unlock_inv s Ls D :
  rcu_inv s Ls D →
  rcu_inv (mkRcu (smap s) (wops s) (wcall s) RIdle [] (held s ++ ready s) (now s) (past s))
    Ls [].
Proof.
  intros [Hr HM Hdom Hnd Hoff HD Hsec].
  constructor; cbn [smap wops wcall rd held ready now past]; try done.
  intros x Hx. by apply elem_of_nil in Hx.
Qed.

Lemma call_inv s Ls D x :
  rcu_inv s Ls D → wcall s = Some x →
  ∃ D', rcu_inv (if in_section (rd s)
    then mkRcu (smap s) (wops s) None (rd s) (x :: held s) (ready s) (now s) (past s)
    else mkRcu (smap s) (wops s) None (rd s) (held s) (x :: ready s) (now s) (past s)) Ls D'.
Proof.
  intros [Hr HM Hdom Hnd Hoff HD Hsec] Hw. unfold waiting in *. rewrite Hw in *.
  destruct (in_section (rd s)) eqn:Hi.
  - exists D. constructor; unfold waiting; cbn [smap wops wcall rd held ready now past]; try done. by rewrite Hi.
  - exists []. assert (held s ++ x :: ready s ≡ₚ x :: held s ++ ready s) as HP
      by solve_Permutation.
    constructor; unfold waiting; cbn [smap wops wcall rd held ready now past]; try done.
    + intros y. rewrite Hdom. simpl. by rewrite HP.
    + simpl. by rewrite HP.
    + intros y. simpl. rewrite HP. apply Hoff.
    + intros y Hy. by apply elem_of_nil in Hy.
    + by rewrite Hi.
Qed.

(** *** Every step *)

Lemma step_inv s Ls D o :
  rcu_inv s Ls D → rcu_step s o → ∃ s' Ls' D', o = Ret s' ∧ rcu_inv s' Ls' D'.
Proof.
  intros Hinv Hstep.
  destruct Hstep as [o ops Ho Hw|x Hw|l1 x l2 Hx|k Hi|Hi|k res Hd].
  - destruct (write_inv _ _ _ _ _ Hinv Ho Hw) as (j & old & m' & Ls' & D' & E & H).
    unfold do_write. rewrite E. eexists _, Ls', D'. by split.
  - destruct (call_inv _ _ _ _ Hinv Hw) as (D' & H). eexists _, Ls, D'. by split.
  - destruct (free_inv _ _ _ _ _ _ Hinv Hx) as (m' & E & H).
    unfold do_free. rewrite E. eexists _, Ls, D. by split.
  - eexists _, Ls, []. split; [done|]. by eapply lock_inv.
  - destruct Hinv as [Hr HM Hdom Hnd Hoff HD Hsec]. destruct (Hsec Hi) as [Hp Hok].
    destruct (reader_step_ok _ _ _ _ _ _ Hr HM Hp Hok) as (r' & E & Hok' & Hin).
    unfold do_read. rewrite E. eexists _, Ls, D. split; [done|]. constructor; cbn; (done || auto).
  - eexists _, Ls, []. split; [done|]. by eapply unlock_inv.
Qed.

Lemma init_inv n ops : (0 < n)%nat → rcu_inv (rcu_init n ops) (replicate n []) [].
Proof.
  intros Hn. assert (∀ x, ¬ live (replicate n []) x) as Hl.
  { intros x (l & [-> _]%elem_of_replicate & Hx). by apply elem_of_nil in Hx. }
  constructor; cbn; try done.
  - by apply make_ccmap_rep.
  - by apply make_ccmap_contents.
  - intros x. rewrite lookup_empty. split; [by intros []|].
    intros [?|Hx]; [by destruct (Hl x)|by apply elem_of_nil in Hx].
  - constructor.
Qed.

Lemma reachable_inv n ops s :
  (0 < n)%nat → rcu_reachable n ops s → ∃ Ls D, rcu_inv s Ls D.
Proof.
  intros Hn. induction 1 as [|s s' _ (Ls & D & Hinv) Hstep]; [eauto using init_inv|].
  destruct (step_inv _ _ _ _ Hinv Hstep) as (s2 & Ls' & D' & [= <-] & H). eauto.
Qed.

(** ** Theorems *)

(** C4. In every interleaving of the writer, the reader and the callbacks, for any
    calls of the writer and any keys looked up, no step faults: no load of a
    reader and no access of the writer goes to a freed node, and no callback
    frees a node twice. *)
Theorem rcu_no_use_after_free n ops s o :
  (0 < n)%nat → rcu_reachable n ops s → rcu_step s o → ∃ s', o = Ret s'.
Proof.
  intros Hn (Ls & D & Hinv)%reachable_inv Hstep; [|done].
  destruct (step_inv _ _ _ _ Hinv Hstep) as (s' & _ & _ & -> & _). eauto.
Qed.

(** C5. A lookup is linearizable: its answer, a value or that the key is not there,
    is what the map held at some moment between the start of the section and
    its end. In particular a key that is never removed is never missed, though
    its node may be replaced under the reader. *)
Theorem rcu_lookup_linearizable n ops s k res :
  (0 < n)%nat → rcu_reachable n ops s → rd s = RDone k res →
  ∃ M, M ∈ past s ∧ M !! k = res.
Proof.
  intros Hn (Ls & D & Hinv)%reachable_inv Hrd; [|done].
  destruct (inv_sec _ _ _ Hinv) as [_ Hok]; [by rewrite Hrd|].
  apply sec_pos in Hok. by rewrite Hrd in Hok.
Qed.

(** C31. The buckets hold the map of the calls made so far, and the memory is exact:
    the allocated nodes are those on the lists and those that wait for their
    callback, which are off the lists and in one place each. *)
Theorem rcu_memory_exact n ops s :
  (0 < n)%nat → rcu_reachable n ops s →
  ∃ Ls, rep (smap s) Ls ∧ contents Ls (now s) ∧ NoDup (waiting s) ∧
    ∀ x, (is_Some (nodes (smap s) !! x) ↔ live Ls x ∨ x ∈ waiting s) ∧
         (x ∈ waiting s → ¬ live Ls x).
Proof.
  intros Hn (Ls & D & [])%reachable_inv; [|done]. exists Ls. split_and!; auto.
Qed.

(** A run in which the reader ends up on a node the writer has unlinked: the
    section begins, a key is inserted, found and removed, the node is handed to
    [call_rcu], and the reader reads its value. *)
Definition ret_or {A} (d : A) (o : outcome A) : A := match o with Ret a => a | Fault _ => d end.

Definition t0 : rcu_state := rcu_init 2 [Update 1 7 true; Remove 1].
Definition t1 : rcu_state := do_lock 1 t0.
Definition t2 : rcu_state := ret_or t1 (do_write (Update 1 7 true) [Remove 1] t1).
Definition t3 : rcu_state := ret_or t2 (do_read t2).
Definition t4 : rcu_state := ret_or t3 (do_read t3).
Definition t5 : rcu_state := ret_or t4 (do_write (Remove 1) [] t4).
Definition t6 : rcu_state := do_call 1%positive t5.
Definition t7 : rcu_state := ret_or t6 (do_read t6).

Lemma reach_ret n ops s d o :
  rcu_reachable n ops s → rcu_step s o → (if o is Ret _ then True else False) →
  rcu_reachable n ops (ret_or d o).
Proof. destruct o; [|done]. intros H1 H2 _. by eapply reach_step. Qed.

Lemma t6_reachable : rcu_reachable 2 [Update 1 7 true; Remove 1] t6.
Proof.
  assert (rcu_reachable 2 [Update 1 7 true; Remove 1] t1) as H1.
  { eapply reach_step; [apply reach_init|]. by apply (s_lock t0 1). }
  assert (rcu_reachable 2 [Update 1 7 true; Remove 1] t2) as H2.
  { apply (reach_ret _ _ t1); [done|by apply s_write|by vm_compute]. }
  assert (rcu_reachable 2 [Update 1 7 true; Remove 1] t3) as H3.
  { apply (reach_ret _ _ t2); [done|by apply s_read; vm_compute|by vm_compute]. }
  assert (rcu_reachable 2 [Update 1 7 true; Remove 1] t4) as H4.
  { apply (reach_ret _ _ t3); [done|by apply s_read; vm_compute|by vm_compute]. }
  assert (rcu_reachable 2 [Update 1 7 true; Remove 1] t5) as H5.
  { apply (reach_ret _ _ t4); [done|by apply s_write; vm_compute|by vm_compute]. }
  eapply reach_step; [exact H5|]. apply (s_call t5). by vm_compute.
Qed.

Lemma t7_reachable : rcu_reachable 2 [Update 1 7 true; Remove 1] t7.
Proof.
  apply (reach_ret _ _ t6); [exact t6_reachable|by apply s_read; vm_compute|by vm_compute].
Qed.

Lemma rcu_no_use_after_free_witness : ∃ s', do_read t6 = Ret s'.
Proof.
  apply (rcu_no_use_after_free 2 [Update 1 7 true; Remove 1] t6 (do_read t6)).
  - lia.
  - exact t6_reachable.
  - apply s_read. vm_compute. reflexivity.
Defined.

Lemma rcu_lookup_linearizable_witness :
  rd t7 = RDone 1 (Some 7) ∧ ∃ M, M ∈ past t7 ∧ M !! 1 = Some 7.
Proof.
  split; [vm_compute; reflexivity|].
  apply (rcu_lookup_linearizable 2 [Update 1 7 true; Remove 1] t7 1 (Some 7)).
  - lia.
  - exact t7_reachable.
  - vm_compute. reflexivity.
Defined.

Lemma rcu_memory_exact_witness :
  ∃ Ls, rep (smap t7) Ls ∧ contents Ls (now t7) ∧ NoDup (waiting t7) ∧
    ∀ x, (is_Some (nodes (smap t7) !! x) ↔ live Ls x ∨ x ∈ waiting t7) ∧
         (x ∈ waiting t7 → ¬ live Ls x).
Proof.
  apply (rcu_memory_exact 2 [Update 1 7 true; Remove 1] t7).
  - lia.
  - exact t7_reachable.
Defined.
