(* ===== verification/RcuList.v ===== *)
(** * The list of books ([ksync-rcu])

    [list_rcu.c] keeps its books on one list, with the list functions of
    [RcuMap]: a book is a node whose key is the id and whose value is [borrow]
    (name and author are only printed and left out), and the list is bucket 0.
    [borrow_book] and [return_book] look the book up under [rcu_read_lock] only
    and take the lock for the replacement alone, so that each is two functions
    here, [find_for] and [replace_book]; [is_borrowed_book] reads the field
    after [rcu_read_unlock], so that its two halves are apart as well.

    On its own every function does what its name says; the last theorems are
    about two threads that call them at the same time. *)

From stdpp Require Import base tactics numbers list gmap fin_sets.
From S2P Require Import Prelude Heap RcuMap.

Local Open Scope Z_scope.

Definition books : link := LHead 0.

(** [LIST_HEAD(books)] *)
Definition no_books : cc_map := make_ccmap 1.

Definition add_book (mem : bool) (m : cc_map) (id : Z) : outcome cc_map :=
  if mem then
    let '(b, m) := new_node m in
    m ← set_node b (fun n => mkNode id (value n) (nnext n) (nprev n)) m;
    m ← set_node b (fun n => mkNode (key n) 0 (nnext n) (nprev n)) m;
    list_add_rcu (LNode b) books m
  else Ret m.

(** The loop of [borrow_book] ([out = false]) and [return_book] ([out = true]):
    the book to replace, or none for a return of -1. *)
Definition find_for (out : bool) (m : cc_map) (id : Z) : outcome (option loc) :=
  found ← find_node m books id;
  match found with
  | None => Ret None
  | Some b =>
    n ← or_fault Dangling (nodes m !! b);
    if Bool.eqb (negb (value n =? 0)) out then Ret (Some b) else Ret None
  end.

(** From [kzalloc] to [spin_unlock]: the new book, if there was memory. *)
Definition replace_book (mem : bool) (borrow : Z) (m : cc_map) (old : loc)
    : outcome (option loc * cc_map) :=
  if mem then
    let '(b, m) := new_node m in
    n ← or_fault Dangling (nodes m !! old);
    m ← set_node b (fun _ => n) m;
    m ← set_node b (fun n => mkNode (key n) borrow (nnext n) (nprev n)) m;
    m ← list_replace_rcu (LNode old) (LNode b) m;
    Ret (Some b, m)
  else Ret (None, m).

(** What follows [rcu_read_unlock]: with [async] the book is handed to
    [call_rcu], else it is freed after [synchronize_rcu]. *)
Definition reclaim (async : bool) (m : cc_map) (old : loc) : outcome (option loc * cc_map) :=
  if async then Ret (Some old, m) else m ← _ccmap_cb m old; Ret (None, m).

(** The result, the book given to [call_rcu] and the list. *)
Definition change_book (out : bool) (to : Z) (async mem : bool) (m : cc_map) (id : Z)
    : outcome (Z * option loc * cc_map) :=
  old ← find_for out m id;
  match old with
  | None => Ret (-1, None, m)
  | Some old =>
    '(b, m) ← replace_book mem to m old;
    match b with
    | None => Ret (-1, None, m)
    | Some _ => '(p, m) ← reclaim async m old; Ret (0, p, m)
    end
  end.

Definition borrow_book := change_book false 1.
Definition return_book := change_book true 0.

(** The node found before [rcu_read_unlock], and the read after it. *)
Definition borrowed_find (m : cc_map) (id : Z) : outcome (option loc) :=
  find_node m books id.

Definition borrowed_read (m : cc_map) (b : option loc) : outcome Z :=
  match b with
  | Some b => n ← or_fault Dangling (nodes m !! b); Ret (value n)
  | None => Ret (-1)
  end.

Definition is_borrowed_book (m : cc_map) (id : Z) : outcome Z :=
  b ← borrowed_find m id; borrowed_read m b.

Definition delete_book (async : bool) (m : cc_map) (id : Z) : outcome (option loc * cc_map) :=
  found ← find_node m books id;
  match found with
  | None => Ret (None, m)
  | Some b => m ← list_del_rcu (LNode b) m; reclaim async m b
  end.

(** ** One caller at a time *)

(** The list holds the books of [l], each once. *)
Definition shelf (m : cc_map) (l : list cell) : Prop := bucket m 0 l ∧ NoDup (l.*1).

Lemma no_books_shelf : shelf no_books [].
Proof. split; [done|constructor]. Qed.

Lemma add_book_run m l id :
  shelf m l →
  ∃ m', add_book true m id = Ret m' ∧ shelf m' ((hfresh (nodes m), (id, 0)) :: l).
Proof.
  intros [Hb Hnd]. set (x := hfresh (nodes m)).
  assert (x ∉ l.*1) as Hx by (eapply seg_fresh, Hb).
  set (m1 := mkMap (count m) (buckets m) (<[x := mkNode id 0 LNull LNull]> (nodes m))).
  destruct (list_add_run m1 0 l x (mkNode id 0 LNull LNull)) as (m2 & E & Hb2 & _);
    [by apply bucket_alloc|done|done|by apply lookup_insert_eq|].
  exists m2. split; [|split; [done|by constructor]].
  unfold add_book. cbn [new_node]. fold x.
  erewrite set_node_run; [|apply lookup_insert_eq]. cbn [mbind outcome_bind nodes count buckets].
  erewrite set_node_run; [|apply lookup_insert_eq]. cbn [mbind outcome_bind nodes count buckets].
  rewrite !insert_insert_eq. cbn [nnext nprev key value]. fold m1. exact E.
Qed.

Lemma find_for_run m l id out :
  shelf m l →
  find_for out m id =
    Ret (match assoc id l with
         | Some (x, v) => if Bool.eqb (negb (v =? 0)) out then Some x else None
         | None => None
         end).
Proof.
  intros [Hb Hnd]. unfold find_for, books. rewrite (find_node_run _ _ l) by done.
  cbn [mbind outcome_bind]. destruct (assoc id l) as [[x v]|] eqn:Ha; [|done].
  cbn [fmap option_fmap option_map fst].
  destruct (assoc_Some _ _ _ _ Ha) as (l1 & l2 & -> & _).
  apply bucket_split in Hb as (_ & _ & Hx & _). rewrite Hx.
  cbn [or_fault mbind outcome_bind value]. by destruct (Bool.eqb _ _).
Qed.

Lemma replace_book_run m l1 x k v l2 to :
  shelf m (l1 ++ (x, (k, v)) :: l2) →
  let y := hfresh (nodes m) in
  ∃ m', replace_book true to m x = Ret (Some y, m') ∧ shelf m' (l1 ++ (y, (k, to)) :: l2) ∧
    nodes m' !! x = Some (mkNode k v (first_link (LHead 0) l2) LPoison) ∧ y ≠ x.
Proof.
  intros [Hb Hnd] y. pose proof (bucket_split _ _ _ _ _ _ _ Hb) as (_ & _ & Hx & _).
  assert (y ∉ (l1 ++ (x, (k, v)) :: l2).*1) as Hy by (eapply seg_fresh, Hb).
  assert (y ≠ x) as Hyx.
  { intros ->. apply Hy. rewrite split_fst. apply elem_of_app. right. apply list_elem_of_here. }
  set (n := mkNode k to (first_link (LHead 0) l2) (last_link (LHead 0) l1)).
  set (m1 := mkMap (count m) (buckets m) (<[y := n]> (nodes m))).
  destruct (list_replace_run m1 0 l1 x k v l2 y n) as (m2 & E & Hb2 & Hx2 & _);
    [by apply bucket_alloc|done|done|by apply lookup_insert_eq|].
  exists m2. split_and!; [|split; [done|]|done|done].
  - unfold replace_book. cbn [new_node]. fold y. cbn [nodes].
    rewrite lookup_insert_ne, Hx by done. cbn [or_fault mbind outcome_bind].
    erewrite set_node_run; [|apply lookup_insert_eq]. cbn [mbind outcome_bind nodes count buckets].
    erewrite set_node_run; [|apply lookup_insert_eq]. cbn [mbind outcome_bind nodes count buckets].
    rewrite !insert_insert_eq. cbn [nnext nprev key value]. fold n m1. by rewrite E.
  - rewrite split_fst in *. clear -Hy Hnd. rewrite !NoDup_app, !NoDup_cons in *. set_solver.
Qed.

(** Freeing a book that is off the shelf. *)
Lemma reclaim_run m l x n async :
  nodes m !! x = Some n → shelf m l → x ∉ l.*1 →
  ∃ p m', reclaim async m x = Ret (p, m') ∧ shelf m' l ∧
    nodes m' = if async then nodes m else delete x (nodes m).
Proof.
  intros Hn [[Hh Hs] Hnd] Hx. destruct async; cbn [reclaim]; [eexists _, m; by split_and!|].
  unfold _ccmap_cb. rewrite (hfree_Some _ _ _ Hn). cbn [mbind outcome_bind].
  eexists _, _. split_and!; [done| |done]. split; [|done]. split; [done|].
  eapply seg_frame; [|exact Hs]. intros y Hy. apply lookup_delete_ne. by intros <-.
Qed.

(** The books as the callers see them: ids with their [borrow], in order. *)
Definition entries (l : list cell) : list (Z * Z) := snd <$> l.

Fixpoint status (id : Z) (l : list (Z * Z)) : option Z :=
  match l with
  | [] => None
  | (k, v) :: l => if k =? id then Some v else status id l
  end.

(** The list with the first book of an id changed or, for none, taken out. *)
Fixpoint on_first (id : Z) (v : option Z) (l : list (Z * Z)) : list (Z * Z) :=
  match l with
  | [] => []
  | (k, w) :: l =>
    if k =? id then match v with Some v => (k, v) :: l | None => l end
    else (k, w) :: on_first id v l
  end.

Lemma status_assoc id l : status id (entries l) = snd <$> assoc id l.
Proof. induction l as [|[x [k v]] l IH]; [done|]. simpl. by destruct (k =? id). Qed.

Lemma on_first_split id v l1 x w l2 :
  id ∉ keys l1 →
  on_first id v (entries (l1 ++ (x, (id, w)) :: l2)) =
    entries l1 ++ match v with Some v => [(id, v)] | None => [] end ++ entries l2.
Proof.
  induction l1 as [|[y [k u]] l1 IH]; intros Hk.
  - simpl. rewrite Z.eqb_refl. by destruct v.
  - rewrite keys_cons, not_elem_of_cons in Hk. destruct Hk as [Hk Hl1]. simpl.
    rewrite (proj2 (Z.eqb_neq k id)) by congruence. f_equal. by apply IH.
Qed.

Lemma entries_app l1 l2 : entries (l1 ++ l2) = entries l1 ++ entries l2.
Proof. apply fmap_app. Qed.

Lemma change_book_run m l id out to async :
  shelf m l →
  match status id (entries l) with
  | Some v =>
    if Bool.eqb (negb (v =? 0)) out then
      ∃ p m' l', change_book out to async true m id = Ret (0, p, m') ∧ shelf m' l' ∧
        entries l' = on_first id (Some to) (entries l)
    else change_book out to async true m id = Ret (-1, None, m)
  | None => change_book out to async true m id = Ret (-1, None, m)
  end.
Proof.
  intros Hs. rewrite status_assoc. unfold change_book. rewrite (find_for_run _ l) by done.
  cbn [mbind outcome_bind]. destruct (assoc id l) as [[x v]|] eqn:Ha; [|done].
  cbn [fmap option_fmap option_map snd]. destruct (Bool.eqb _ out); [|done].
  destruct (assoc_Some _ _ _ _ Ha) as (l1 & l2 & -> & Hl1).
  destruct (replace_book_run m l1 x id v l2 to Hs) as (m1 & -> & Hs1 & Hx1 & Hne).
  cbn [mbind outcome_bind]. destruct Hs as [_ Hnd].
  apply split_NoDup in Hnd as (_ & _ & X1 & X2 & _).
  destruct (reclaim_run m1 _ x _ async Hx1 Hs1) as (p & m2 & -> & Hs2 & _).
  { rewrite split_fst, elem_of_app, elem_of_cons. intros [?|[?|?]]; congruence || done. }
  eexists p, m2, _. split_and!; [done|exact Hs2|]. rewrite on_first_split by done.
  by rewrite entries_app.
Qed.

Lemma delete_book_run m l id async :
  shelf m l →
  ∃ p m' l', delete_book async m id = Ret (p, m') ∧ shelf m' l' ∧
    entries l' = on_first id None (entries l).
Proof.
  intros [Hb Hnd]. unfold delete_book, books. rewrite (find_node_run _ _ l) by done.
  cbn [mbind outcome_bind].
  destruct (assoc id l) as [[x v]|] eqn:Ha; cbn [fmap option_fmap option_map fst].
  - destruct (assoc_Some _ _ _ _ Ha) as (l1 & l2 & -> & Hl1).
    destruct (list_del_run m 0 l1 x id v l2 Hb Hnd) as (m1 & E & Hb1 & Hx1 & _).
    rewrite E. cbn [mbind outcome_bind].
    apply split_NoDup in Hnd as (N1 & N2 & X1 & X2 & X3).
    destruct (reclaim_run m1 (l1 ++ l2) x _ async Hx1) as (p & m2 & -> & Hs2 & _);
      [|by rewrite fmap_app, elem_of_app; intros [|]|].
    { split; [done|]. rewrite fmap_app. apply NoDup_app. split_and!; auto. }
    eexists p, m2, _. split_and!; [done|exact Hs2|]. rewrite on_first_split by done.
    by rewrite entries_app.
  - exists None, m, l. split_and!; [done..|]. symmetry.
    apply assoc_None in Ha. revert Ha. clear. induction l as [|[y [k v]] l IH]; [done|].
    rewrite keys_cons, not_elem_of_cons. intros [Hk Hl]. simpl.
    rewrite (proj2 (Z.eqb_neq k id)) by congruence. f_equal. by apply IH.
Qed.

Lemma is_borrowed_run m l id :
  shelf m l → is_borrowed_book m id = Ret (default (-1) (status id (entries l))).
Proof.
  intros [Hb Hnd]. unfold is_borrowed_book, borrowed_find, books.
  rewrite (find_node_run _ _ l), status_assoc by done. cbn [mbind outcome_bind].
  destruct (assoc id l) as [[x v]|] eqn:Ha; [|done].
  destruct (assoc_Some _ _ _ _ Ha) as (l1 & l2 & -> & _).
  apply bucket_split in Hb as (_ & _ & Hx & _). cbn. by rewrite Hx.
Qed.

(** One caller at a time, the functions of [list_rcu.c] do to the list of books
    what they say: [add_book] puts a book that is not borrowed in front,
    [borrow_book] and [return_book] return 0 and set the field of the first book
    with the id exactly when it is there and not borrowed (borrowed), and
    otherwise return -1 and change nothing, [is_borrowed_book] returns the
    field or -1, [delete_book] takes the first book with the id out. All of
    them keep the list well formed, with [call_rcu] and with
    [synchronize_rcu]. *)
Theorem books_spec m l id async :
  shelf m l →
  (∃ m' l', add_book true m id = Ret m' ∧ shelf m' l' ∧ entries l' = (id, 0) :: entries l) ∧
  (∃ r p m' l', borrow_book async true m id = Ret (r, p, m') ∧ shelf m' l' ∧
     (r, entries l') = if decide (status id (entries l) = Some 0)
                       then (0, on_first id (Some 1) (entries l)) else (-1, entries l)) ∧
  (∃ r p m' l', return_book async true m id = Ret (r, p, m') ∧ shelf m' l' ∧
     (r, entries l') = match status id (entries l) with
                       | None | Some 0 => (-1, entries l)
                       | Some _ => (0, on_first id (Some 0) (entries l))
                       end) ∧
  is_borrowed_book m id = Ret (default (-1) (status id (entries l))) ∧
  (∃ p m' l', delete_book async m id = Ret (p, m') ∧ shelf m' l' ∧
     entries l' = on_first id None (entries l)).
Proof.
  intros Hs. split_and!.
  - destruct (add_book_run m l id Hs) as (m' & E & Hs'). eexists m', _. by split_and!.
  - pose proof (change_book_run m l id false 1 async Hs) as H.
    destruct (status id (entries l)) as [[|v|v]|]; simpl in H.
    + destruct H as (p & m' & l' & E & Hs' & He). exists 0, p, m', l'.
      rewrite decide_True by done. by rewrite He.
    + exists (-1), None, m, l. by split_and!.
    + exists (-1), None, m, l. by split_and!.
    + exists (-1), None, m, l. by split_and!.
  - pose proof (change_book_run m l id true 0 async Hs) as H.
    destruct (status id (entries l)) as [v|]; [|exists (-1), None, m, l; by split_and!].
    destruct v as [|v|v]; simpl in H; [exists (-1), None, m, l; by split_and!|..].
    all: destruct H as (p & m' & l' & E & Hs' & He); exists 0, p, m', l'; by rewrite He.
  - by apply is_borrowed_run.
  - by apply delete_book_run.
Qed.

(** A list with two books, the second one borrowed. *)
Definition two_books : cc_map :=
  mkMap 1 [(LNode 1, LNode 2)]
    (<[1%positive := mkNode 0 0 (LNode 2) (LHead 0)]>
      (<[2%positive := mkNode 1 1 (LHead 0) (LNode 1)]> ∅)).

Definition two_cells : list cell := [(1%positive, (0, 0)); (2%positive, (1, 1))].

Lemma two_books_shelf : shelf two_books two_cells.
Proof. split; [by split_and!|]. apply (bool_decide_unpack _). by vm_compute. Qed.

Lemma books_spec_witness :
  shelf two_books two_cells ∧
  (∃ r p m' l', borrow_book false true two_books 0 = Ret (r, p, m') ∧ shelf m' l' ∧
     (r, entries l') = if decide (status 0 (entries two_cells) = Some 0)
                       then (0, on_first 0 (Some 1) (entries two_cells))
                       else (-1, entries two_cells)).
Proof.
  split; [exact two_books_shelf|].
  apply (books_spec two_books two_cells 0 false two_books_shelf).
Defined.

(** ** Two callers *)

Lemma replace_poisoned m old y n ny :
  nodes m !! old = Some n → nprev n = LPoison → nodes m !! y = Some ny →
  list_replace_rcu (LNode old) (LNode y) m = Fault NullDeref.
Proof.
  intros Ho Hp Hy. unfold list_replace_rcu. rewrite (get_entry_node _ _ _ Ho), Hp.
  cbn [mbind outcome_bind fst snd].
  destruct (set_next_off m 0 y ny (nnext n) Hy) as (m1 & E1 & _ & N1 & _). rewrite E1.
  cbn [mbind outcome_bind].
  edestruct (set_prev_off m1 0 y) as (m2 & E2 & _); [rewrite N1; apply lookup_insert_eq|].
  by rewrite E2.
Qed.

(** [borrow_book] looks for the book before it takes the lock. When two threads
    find the same book, the second one replaces a node that is off the list
    already and writes through its poisoned link. *)
Theorem borrow_race m l id old :
  shelf m l → find_for false m id = Ret (Some old) →
  ∃ m', replace_book true 1 m old = Ret (Some (hfresh (nodes m)), m') ∧
    replace_book true 1 m' old = Fault NullDeref.
Proof.
  intros Hs Hf. rewrite (find_for_run _ l) in Hf by done.
  destruct (assoc id l) as [[x v]|] eqn:Ha; [|done].
  destruct (Bool.eqb _ false); [|done]. simplify_eq.
  destruct (assoc_Some _ _ _ _ Ha) as (l1 & l2 & -> & Hl1).
  destruct (replace_book_run m l1 old id v l2 1 Hs) as (m1 & E & Hs1 & Hx1 & Hne).
  exists m1. split; [exact E|]. unfold replace_book. cbn [new_node nodes].
  assert (hfresh (nodes m1) ≠ old) as Hfr.
  { intros <-. by rewrite hfresh_spec in Hx1. }
  rewrite lookup_insert_ne, Hx1 by done. cbn [or_fault mbind outcome_bind].
  erewrite set_node_run; [|apply lookup_insert_eq]. cbn [mbind outcome_bind nodes count buckets].
  erewrite set_node_run; [|apply lookup_insert_eq]. cbn [mbind outcome_bind nodes count buckets].
  erewrite (replace_poisoned _ old);
    [done|cbn [nodes]; rewrite !lookup_insert_ne by done; exact Hx1|done|].
  apply lookup_insert_eq.
Qed.

Lemma borrow_race_witness :
  ∃ m', replace_book true 1 two_books 1%positive = Ret (Some (hfresh (nodes two_books)), m') ∧
    replace_book true 1 m' 1%positive = Fault NullDeref.
Proof.
  apply (borrow_race two_books two_cells 0 1%positive).
  - exact two_books_shelf.
  - vm_compute. reflexivity.
Defined.

(** C39. [is_borrowed_book] reads the book after its section: a [delete_book] with
    [synchronize_rcu] between the two halves has freed the node by then. *)
Theorem borrowed_read_after_free m l id x :
  shelf m l → borrowed_find m id = Ret (Some x) →
  ∃ p m', delete_book false m id = Ret (p, m') ∧ borrowed_read m' (Some x) = Fault Dangling.
Proof.
  intros [Hb Hnd] Hf. unfold borrowed_find, books in Hf. rewrite (find_node_run _ _ l) in Hf by done.
  destruct (assoc id l) as [[y v]|] eqn:Ha; simplify_eq/=.
  unfold delete_book, books. rewrite (find_node_run _ _ l), Ha by done. cbn [mbind outcome_bind].
  cbn [fmap option_fmap option_map fst].
  destruct (assoc_Some _ _ _ _ Ha) as (l1 & l2 & -> & Hl1).
  destruct (list_del_run m 0 l1 x id v l2 Hb Hnd) as (m1 & E & Hb1 & Hx1 & _). rewrite E.
  cbn [mbind outcome_bind]. apply split_NoDup in Hnd as (N1 & N2 & X1 & X2 & X3).
  destruct (reclaim_run m1 (l1 ++ l2) x _ false Hx1) as (p & m2 & -> & _ & Hn);
    [|by rewrite fmap_app, elem_of_app; intros [|]|].
  { split; [done|]. rewrite fmap_app. apply NoDup_app. split_and!; auto. }
  exists p, m2. split; [done|]. unfold borrowed_read. by rewrite Hn, lookup_delete_eq.
Qed.

Lemma borrowed_read_after_free_witness :
  ∃ p m', delete_book false two_books 1 = Ret (p, m') ∧
    borrowed_read m' (Some 2%positive) = Fault Dangling.
Proof.
  apply (borrowed_read_after_free two_books two_cells 1 2%positive).
  - exact two_books_shelf.
  - vm_compute. reflexivity.
Defined.
