(* ===== verification/CStr.v ===== *)
(** * C strings, and vectors that grow by [realloc] ([data-vector])

    The parts the small text tools share. A block of characters is a list of
    bytes; the string functions of the C library read a block from its start
    and fault when they pass its end. Memory maps locations to blocks, of
    characters, of integers or of pointers; the array of a vector is a block as
    its strings are. A [vec] is a pointer to an array: [VNone] is a pointer that was
    never assigned, a cell without a value is one nothing was stored to. The
    vectors of [data-vector] (also copied into [var-grep]) are a count, kept by
    the caller, and such a pointer; vectors of strings own one block per string
    and one for the array.

    The theorems: appending and erasing by index, on integers and on strings,
    do to the list of elements what they say, and the blocks in memory are
    then exactly those of the vector and the ones that were there besides. *)

From stdpp Require Import base tactics numbers list gmap fin_sets.
From S2P Require Import Prelude Heap.

Local Open Scope Z_scope.

(** ** Strings *)

(** A string in memory: its characters, then a zero. *)
Definition no_nul (s : list Z) : Prop := 0 ∉ s.

(** The string at the start of a block. *)
Fixpoint cstr (b : list Z) : outcome (list Z) :=
  match b with
  | [] => Fault OutOfBounds
  | c :: b => if c =? 0 then Ret [] else s ← cstr b; Ret (c :: s)
  end.

Definition strlen (b : list Z) : outcome Z := s ← cstr b; Ret (Z.of_nat (length s)).

(** [strsep(&p, d)] for a pointer to the block [b]: the token, and the block
    behind the delimiter or none when the token ended the string. *)
Fixpoint strsep (d : Z) (b : list Z) : outcome (list Z * option (list Z)) :=
  match b with
  | [] => Fault OutOfBounds
  | c :: b =>
    if c =? 0 then Ret ([], None)
    else if c =? d then Ret ([], Some b)
    else '(t, r) ← strsep d b; Ret (c :: t, r)
  end.

(** The tokens of [while((t = strsep(&p, d)) != NULL)]. *)
Fixpoint strsep_all (fuel : nat) (d : Z) (p : option (list Z)) : outcome (list (list Z)) :=
  match fuel, p with
  | _, None => Ret []
  | O, Some _ => Fault OutOfFuel
  | S fuel, Some b =>
    '(t, r) ← strsep d b;
    ts ← strsep_all fuel d r;
    Ret (t :: ts)
  end.

(** [strtok]: leading delimiters are skipped, no token is empty. *)
Fixpoint strtok_all (d : Z) (tok : list Z) (b : list Z) : outcome (list (list Z)) :=
  let ended := match tok with [] => [] | _ => [reverse tok] end in
  match b with
  | [] => Fault OutOfBounds
  | c :: b =>
    if c =? 0 then Ret ended
    else if c =? d then ts ← strtok_all d [] b; Ret (ended ++ ts)
    else strtok_all d (c :: tok) b
  end.

Fixpoint prefix_of (t s : list Z) : bool :=
  match t, s with
  | [], _ => true
  | c :: t, c' :: s => (c =? c') && prefix_of t s
  | _ :: _, [] => false
  end.

(** [strstr(s, t)]: the rest of [s] from the first place where [t] is. *)
Fixpoint strstr (s t : list Z) : option (list Z) :=
  if prefix_of t s then Some s
  else match s with [] => None | _ :: s => strstr s t end.

(** The pieces of a text between the delimiters. *)
Fixpoint split_on (d : Z) (s : list Z) : list (list Z) :=
  match s with
  | [] => [[]]
  | c :: s =>
    if c =? d then [] :: split_on d s
    else match split_on d s with
         | [] => [[c]]
         | l :: ls => (c :: l) :: ls
         end
  end.

Lemma cstr_run s b : no_nul s → cstr (s ++ 0 :: b) = Ret s.
Proof.
  unfold no_nul. induction s as [|c s IH]; intros Hs; [done|].
  apply not_elem_of_cons in Hs as [Hc Hs]. cbn [app cstr].
  rewrite (proj2 (Z.eqb_neq c 0)) by congruence. by rewrite IH.
Qed.

(** Without a zero byte the end of the block is passed. *)
Lemma cstr_overrun b : no_nul b → cstr b = Fault OutOfBounds.
Proof.
  unfold no_nul. induction b as [|c b IH]; intros Hb; [done|].
  apply not_elem_of_cons in Hb as [Hc Hb]. cbn [cstr].
  rewrite (proj2 (Z.eqb_neq c 0)) by congruence. by rewrite IH.
Qed.

Lemma split_on_not_nil d s : split_on d s ≠ [].
Proof. destruct s as [|c s]; [done|]. simpl. destruct (c =? d); [done|]. by case_match. Qed.

Lemma split_on_length d s : (length (split_on d s) ≤ S (length s))%nat.
Proof.
  induction s as [|c s IH]; [done|]. simpl. destruct (c =? d); simpl; [lia|].
  destruct (split_on d s); simpl in *; lia.
Qed.

Lemma strsep_run d s b :
  no_nul s →
  match split_on d s with
  | [] => False
  | [t] => strsep d (s ++ 0 :: b) = Ret (t, None)
  | t :: ts => ∃ s', strsep d (s ++ 0 :: b) = Ret (t, Some (s' ++ 0 :: b)) ∧
      split_on d s' = ts ∧ no_nul s' ∧ (length s' < length s)%nat
  end.
Proof.
  unfold no_nul. induction s as [|c s IH]; intros Hs; [done|].
  apply not_elem_of_cons in Hs as [Hc Hs]. specialize (IH Hs). cbn [app strsep split_on].
  rewrite (proj2 (Z.eqb_neq c 0)) by congruence. destruct (c =? d).
  - destruct (split_on d s) as [|t ts] eqn:E; [by apply split_on_not_nil in E|].
    exists s. split_and!; [done..|simpl; lia].
  - destruct (split_on d s) as [|t [|t' ts]]; [done| |].
    + by rewrite IH.
    + destruct IH as (s' & -> & Hs' & Hn & Hl). exists s'. split_and!; [done..|simpl; lia].
Qed.

(** The loop over [strsep] gives the pieces of the string. *)
Lemma strsep_all_run d s b fuel :
  no_nul s → (length s < fuel)%nat →
  strsep_all fuel d (Some (s ++ 0 :: b)) = Ret (split_on d s).
Proof.
  revert s. induction fuel as [|fuel IH]; intros s Hs Hf; [lia|]. cbn [strsep_all].
  pose proof (strsep_run d s b Hs) as H.
  destruct (split_on d s) as [|t [|t' ts]] eqn:E; [done| |].
  - rewrite H. cbn [mbind outcome_bind]. by destruct fuel.
  - destruct H as (s' & -> & Hs' & Hn & Hl). cbn [mbind outcome_bind].
    rewrite IH by (done || lia). by rewrite Hs'.
Qed.

Lemma strsep_overrun d s fuel :
  no_nul s → (length s < fuel)%nat → strsep_all fuel d (Some s) = Fault OutOfBounds.
Proof.
  revert s. induction fuel as [|fuel IH]; intros s Hs Hf; [lia|]. cbn [strsep_all].
  assert (strsep d s = Fault OutOfBounds ∨
    ∃ t s', strsep d s = Ret (t, Some s') ∧ no_nul s' ∧ (length s' < length s)%nat)
    as [->|(t & s' & -> & Hs' & Hl)]; [|done|].
  { clear -Hs. unfold no_nul in *. induction s as [|c s IH]; [by left|].
    apply not_elem_of_cons in Hs as [Hc Hs]. cbn [strsep].
    rewrite (proj2 (Z.eqb_neq c 0)) by congruence. destruct (c =? d).
    - right. exists [], s. split_and!; [done..|simpl; lia].
    - destruct (IH Hs) as [->|(t & s' & -> & Hs' & Hl)]; [by left|]. right.
      exists (c :: t), s'. split_and!; [done..|simpl; lia]. }
  cbn [mbind outcome_bind]. by rewrite IH by (done || lia).
Qed.

Lemma strtok_overrun d tok s : no_nul s → strtok_all d tok s = Fault OutOfBounds.
Proof.
  unfold no_nul. revert tok. induction s as [|c s IH]; intros tok Hs; [done|].
  apply not_elem_of_cons in Hs as [Hc Hs]. cbn [strtok_all].
  rewrite (proj2 (Z.eqb_neq c 0)) by congruence. destruct (c =? d); by rewrite IH.
Qed.

(** [strstr] finds the first occurrence. *)
Lemma prefix_of_spec t s : prefix_of t s = true ↔ ∃ s', s = t ++ s'.
Proof.
  revert s. induction t as [|c t IH]; intros s; simpl; [split; eauto|].
  destruct s as [|c' s]; [split; [done|by intros []]|].
  rewrite andb_true_iff, Z.eqb_eq, IH. split.
  - intros [-> [s' ->]]. by exists s'.
  - intros [s' [= -> ->]]. eauto.
Qed.

Lemma strstr_Some s t r :
  strstr s t = Some r → ∃ a s', s = a ++ r ∧ r = t ++ s' ∧
    ∀ a1 a2, a = a1 ++ a2 → a2 ≠ [] → prefix_of t (a2 ++ r) = false.
Proof.
  revert r. induction s as [|c s IH]; intros r; cbn [strstr];
    destruct (prefix_of t _) eqn:Ep; try done.
  1, 2: intros [= <-]; apply prefix_of_spec in Ep as [s' Es]; exists [], s';
    (split; [done|]); (split; [done|]); intros a1 a2 E Hne; symmetry in E;
    by apply app_nil in E as [_ ->].
  intros (a & s' & -> & -> & Ha)%IH. exists (c :: a), s'. split_and!; [done..|].
  intros [|x a1] a2 Ea Hne; simplify_eq/=; [done|]. by eapply Ha.
Qed.

Lemma strstr_None s t : strstr s t = None ↔ ∀ a b, s ≠ a ++ t ++ b.
Proof.
  induction s as [|c s IH]; cbn [strstr]; destruct (prefix_of t _) eqn:Ep.
  1, 3: apply prefix_of_spec in Ep as [s' Es]; split; [done|];
    intros H; by destruct (H [] s').
  - split; [|done]. intros _ [|] b H; [|done]. simpl in H.
    assert (prefix_of t [] = true) by (apply prefix_of_spec; eauto). congruence.
  - rewrite IH. split.
    + intros H [|x a] b E; simplify_eq/=; [|by eapply H].
      assert (prefix_of t (c :: s) = true) by (apply prefix_of_spec; eauto). congruence.
    + intros H a b ->. by apply (H (c :: a) b).
Qed.

(** ** Memory *)

Inductive block :=
  | Chars (b : list Z)
  | Ints (c : list (option Z))
  | Ptrs (c : list (option loc)).

Abbreviation memory := (gmap loc block).

(** [over P h F]: memory [h] is memory [F] and, beside it, blocks of which [P] holds. *)
Definition over (P : memory -> Prop) (h F : memory) : Prop :=
  ∃ m, P m ∧ m ##ₘ F ∧ h = m ∪ F.

Section over.
Implicit Types (P Q : memory -> Prop) (h G F : memory).

Lemma over_sub P h F : over P h F → F ⊆ h.
Proof. intros (m & _ & Hd & ->). by apply map_union_subseteq_r. Qed.

(** What is beside can be looked at in either order. *)
Lemma over_swap P Q h G F : over P h G → over Q G F → ∃ G', over Q h G' ∧ over P G' F.
Proof.
  intros (m & Hm & Hd & ->) (m' & Hm' & Hd' & ->).
  apply map_disjoint_union_r in Hd as [Hmm Hd]. exists (m ∪ F). split.
  - exists m'. split_and!; [done|by apply map_disjoint_union_r|].
    by rewrite !map_union_assoc, (map_union_comm m').
  - exists m. by split_and!.
Qed.

(** A block that is allocated or freed in [F]. *)
Lemma over_alloc P h F y b : over P h F → h !! y = None → over P (<[y := b]> h) (<[y := b]> F).
Proof.
  intros (m & Hm & Hd & ->) [Hy HF]%lookup_union_None. exists m. split_and!; [done| |].
  - by apply map_disjoint_insert_r.
  - by apply insert_union_r.
Qed.

Lemma over_free P h F y b :
  over P h F → F !! y = Some b →
  hfree h (Some y) = Ret (delete y h) ∧ over P (delete y h) (delete y F).
Proof.
  intros Ho HF. split; [eapply hfree_Some, lookup_weaken; [exact HF|by eapply over_sub]|].
  destruct Ho as (m & Hm & Hd & ->). exists m. split_and!; [done| |].
  - by apply map_disjoint_delete_r.
  - rewrite delete_union, (delete_id m); [done|]. by eapply map_disjoint_Some_r.
Qed.

Lemma over_none P h F y : over P h F → h !! y = None → F !! y = None.
Proof. intros Ho Hy. eapply lookup_weaken_None; [exact Hy|by eapply over_sub]. Qed.

Lemma over_empty h F : over (fun m => m = ∅) h F ↔ h = F.
Proof.
  split.
  - intros (m & -> & _ & ->). by rewrite map_empty_union.
  - intros ->. exists ∅. split_and!; [done|apply map_disjoint_empty_l|by rewrite map_empty_union].
Qed.
End over.

(** The bytes of a block of characters, and the string it starts with. *)
Definition chars_at (h : memory) (x : loc) : outcome (list Z) :=
  b ← hread h (Some x); match b with Chars l => Ret l | _ => Fault Dangling end.

Definition string_at (h : memory) (x : loc) : outcome (list Z) := b ← chars_at h x; cstr b.

(** [malloc], [memset] and [strcpy] of a string. *)
Definition new_string (h : memory) (s : list Z) : loc * memory :=
  let x := hfresh h in (x, <[x := Chars (s ++ [0])]> h).

(** ** Arrays *)

(** The types of the elements: arrays of them are blocks. *)
Class Cell (A : Type) := {
  in_block : list (option A) -> block;
  of_block : block -> option (list (option A));
  of_in c : of_block (in_block c) = Some c;
}.

#[export] Instance int_cell : Cell Z := {
  in_block := Ints;
  of_block b := match b with Ints c => Some c | _ => None end;
  of_in c := eq_refl;
}.

#[export] Instance ptr_cell : Cell loc := {
  in_block := Ptrs;
  of_block b := match b with Ptrs c => Some c | _ => None end;
  of_in c := eq_refl;
}.

Inductive vec (A : Type) :=
  | VNone
  | VAt (a : loc).
Arguments VNone {A}.
Arguments VAt {A} a.

Section vec.
Context {A : Type} `{!Cell A}.
Implicit Types (h F G : memory) (v : vec A) (l : list A) (x : A) (c : list (option A)).

(** The array a pointer points to. *)
Definition cells h v : outcome (loc * list (option A)) :=
  match v with
  | VNone => Fault Uninit
  | VAt a => b ← hread h (Some a); c ← or_fault Dangling (of_block b); Ret (a, c)
  end.

Definition vmalloc (n : Z) h : memory * vec A :=
  let a := hfresh h in (<[a := in_block (replicate (Z.to_nat n) None)]> h, VAt a).

(** The old block is gone, the new one may be elsewhere. *)
Definition vrealloc h v (n : Z) : outcome (memory * vec A) :=
  '(a, c) ← cells h v;
  h ← hfree h (Some a);
  let a := hfresh h in
  Ret (<[a := in_block (take (Z.to_nat n) c ++ replicate (Z.to_nat n - length c) None)]> h, VAt a).

Definition vget h v (i : Z) : outcome A :=
  '(_, c) ← cells h v; o ← aread c i; or_fault Uninit o.

Definition vset h v (i : Z) x : outcome memory :=
  '(a, c) ← cells h v; c ← awrite c i (Some x); Ret (<[a := in_block c]> h).

(** [free] of the array: the pointer keeps its value, but not its block. *)
Definition vfree h v : outcome memory :=
  match v with VNone => Fault Uninit | VAt a => hfree h (Some a) end.

(** The array of a vector, and that of a vector with the elements [l]: none when there
    are no elements. *)
Definition arr v c (m : memory) : Prop := ∃ a, v = VAt a ∧ m = {[a := in_block c]}.

Definition elems v l (m : memory) : Prop :=
  match l with [] => m = ∅ | _ => arr v (Some <$> l) m end.

(** What can be read of an array. *)
Definition reads h v c : Prop := ∃ a, v = VAt a ∧ h !! a = Some (in_block c).

Lemma arr_over v c h F :
  over (arr v c) h F ↔ ∃ a, v = VAt a ∧ F !! a = None ∧ h = <[a := in_block c]> F.
Proof.
  split.
  - intros (m & (a & -> & ->) & Hd%map_disjoint_singleton_l & ->). exists a. split_and!; [done..|].
    by rewrite insert_union_singleton_l.
  - intros (a & -> & HF & ->). exists {[a := in_block c]}. split_and!; [by exists a| |].
    + by apply map_disjoint_singleton_l.
    + by rewrite insert_union_singleton_l.
Qed.

Lemma elems_cons v l h F : l ≠ [] → over (elems v l) h F = over (arr v (Some <$> l)) h F.
Proof. by destruct l. Qed.

Lemma elems_nil v h F : over (elems v []) h F ↔ h = F.
Proof. apply over_empty. Qed.

Lemma reads_over v c h F : over (arr v c) h F → reads h v c.
Proof. intros (a & -> & _ & ->)%arr_over. exists a. by rewrite lookup_insert_eq. Qed.

Lemma reads_weaken v c h h' : reads h v c → h ⊆ h' → reads h' v c.
Proof. intros (a & -> & Ha) Hs. exists a. split; [done|]. by eapply lookup_weaken. Qed.

Lemma cells_reads h v c : reads h v c → ∃ a, v = VAt a ∧ cells h v = Ret (a, c).
Proof.
  intros (a & -> & Ha). exists a. split; [done|]. unfold cells. rewrite (hread_Some _ _ _ Ha).
  cbn [mbind outcome_bind]. by rewrite of_in.
Qed.

Lemma vget_mid h v pre x post i :
  reads h v (pre ++ Some x :: post) → i = Z.of_nat (length pre) → vget h v i = Ret x.
Proof.
  intros (a & _ & E)%cells_reads ->. unfold vget. rewrite E. cbn [mbind outcome_bind].
  rewrite (aread_Some _ _ (Some x)); [done|lia|]. by rewrite Nat2Z.id, list_lookup_middle.
Qed.

Lemma vget_at h v l rest i x :
  reads h v ((Some <$> l) ++ rest) → l !! i = Some x → vget h v (Z.of_nat i) = Ret x.
Proof.
  intros Hr (la & lb & -> & Hi)%list_elem_of_split_length.
  rewrite fmap_app, fmap_cons, <-app_assoc in Hr. eapply vget_mid; [exact Hr|].
  rewrite length_fmap. lia.
Qed.

Lemma vset_mid h F v pre o x post i :
  over (arr v (pre ++ o :: post)) h F → i = Z.of_nat (length pre) →
  ∃ h', vset h v i x = Ret h' ∧ over (arr v (pre ++ Some x :: post)) h' F.
Proof.
  intros Ho ->. destruct (cells_reads _ _ _ (reads_over _ _ _ _ Ho)) as (a & -> & E).
  unfold vset. rewrite E. cbn [mbind outcome_bind].
  rewrite (awrite_Some _ _ o); [|lia|by rewrite Nat2Z.id, list_lookup_middle].
  cbn [mbind outcome_bind]. rewrite Nat2Z.id, insert_app_r_alt, Nat.sub_diag by lia.
  eexists. split; [done|]. apply arr_over in Ho as (? & [= <-] & HF & ->). apply arr_over.
  exists a. split_and!; [done..|]. by rewrite insert_insert_eq.
Qed.

Lemma vset_past h F v c x i :
  over (arr v c) h F → i = Z.of_nat (length c) → vset h v i x = Fault OutOfBounds.
Proof.
  intros Ho ->. destruct (cells_reads _ _ _ (reads_over _ _ _ _ Ho)) as (a & -> & E).
  unfold vset. rewrite E. cbn [mbind outcome_bind]. by rewrite awrite_past by lia.
Qed.

Lemma vmalloc_run n h :
  ∃ h' v, vmalloc n h = (h', v) ∧ over (arr v (replicate (Z.to_nat n) None)) h' h.
Proof.
  eexists _, _. split; [done|]. apply arr_over. eexists. split; [done|]. split; [|done].
  apply hfresh_spec.
Qed.

Lemma vfree_run h F v c : over (arr v c) h F → vfree h v = Ret F.
Proof.
  intros (a & -> & HF & ->)%arr_over. unfold vfree.
  rewrite (hfree_Some _ _ (in_block c)) by by rewrite lookup_insert_eq.
  by rewrite delete_insert_id.
Qed.

Lemma vrealloc_run h F v c n :
  over (arr v c) h F →
  ∃ h' v', vrealloc h v n = Ret (h', v') ∧
    over (arr v' (take (Z.to_nat n) c ++ replicate (Z.to_nat n - length c) None)) h' F.
Proof.
  intros Ho. destruct (cells_reads _ _ _ (reads_over _ _ _ _ Ho)) as (a & -> & E).
  unfold vrealloc. rewrite E. cbn [mbind outcome_bind]. pose proof (vfree_run _ _ _ _ Ho) as Ef.
  cbn [vfree] in Ef. rewrite Ef. cbn [mbind outcome_bind].
  eexists _, _. split; [done|]. apply arr_over. eexists. split; [done|]. split; [|done].
  apply hfresh_spec.
Qed.

(** The common start of the two [PushBack] functions: room for one more. *)
Definition grow h (count : Z) v : outcome (memory * vec A) :=
  if count =? 0 then Ret (vmalloc (count + 1) h) else vrealloc h v (count + 1).

Lemma grow_run h F v l :
  over (elems v l) h F →
  ∃ h' v', grow h (Z.of_nat (length l)) v = Ret (h', v') ∧
    over (arr v' ((Some <$> l) ++ [None])) h' F.
Proof.
  intros Ho. unfold grow. destruct l as [|x l].
  { apply elems_nil in Ho as ->. destruct (vmalloc_run 1 F) as (h' & v' & E & Hv).
    exists h', v'. split; [by rewrite <-E|done]. }
  rewrite (proj2 (Z.eqb_neq _ _)) by (simpl; lia). rewrite elems_cons in Ho by done.
  destruct (vrealloc_run _ _ _ _ (Z.of_nat (length (x :: l)) + 1) Ho) as (h' & v' & E & Hv).
  exists h', v'. split; [done|]. rewrite length_fmap, take_ge in Hv by (rewrite length_fmap; lia).
  by replace (_ - _)%nat with 1%nat in Hv by (simpl length; lia).
Qed.

(** The last place of an array given back. *)
Lemma vrealloc_cut h F v l o n :
  over (arr v ((Some <$> l) ++ [o])) h F → Z.of_nat (length l) = n → l ≠ [] →
  ∃ h' v', vrealloc h v n = Ret (h', v') ∧ over (elems v' l) h' F.
Proof.
  intros Ho <- Hl. destruct (vrealloc_run _ _ _ _ (Z.of_nat (length l)) Ho) as (h' & v' & E & Hv).
  exists h', v'. split; [done|]. rewrite elems_cons by done.
  rewrite Nat2Z.id, length_app, length_fmap, take_app_le, take_ge in Hv by (rewrite length_fmap; lia).
  replace (_ - _)%nat with 0%nat in Hv by (simpl; lia). by rewrite app_nil_r in Hv.
Qed.
End vec.

Definition VECTOR_PushBackInt (h : memory) (count : Z) (v : vec Z) (new_el : Z)
    : outcome (memory * vec Z) :=
  '(h, vec_tmp) ← grow h count v;
  h ← vset h vec_tmp count new_el;
  Ret (h, vec_tmp).

(** [for(i = 0; i < count; i++)] of [VECTOR_EraseInt], from [i] on. *)
Fixpoint shift_ints (n : nat) (i index : Z) (h : memory) (v : vec Z) : outcome memory :=
  match n with
  | O => Ret h
  | S n =>
    if i <=? index then shift_ints n (i + 1) index h v
    else x ← vget h v i; h ← vset h v (i - 1) x; shift_ints n (i + 1) index h v
  end.

Definition VECTOR_EraseInt (h : memory) (count : Z) (v : vec Z) (index : Z)
    : outcome (Z * memory * vec Z) :=
  if count - 1 <? 0 then Ret (-1, h, v)
  else if (count <=? index) || (index <? 0) then Ret (-2, h, v)
  else
    h ← shift_ints (Z.to_nat count) 0 index h v;
    if count - 1 =? 0 then h ← vfree h v; Ret (1, h, v)
    else '(h, v) ← vrealloc h v (count - 1); Ret (0, h, v).

(** [new_el] is the string the pointer points to. *)
Definition VECTOR_PushBackString (h : memory) (rowc : Z) (v : vec loc) (new_el : list Z)
    : outcome (memory * vec loc) :=
  '(h, vec_tmp) ← grow h rowc v;
  let '(x, h) := new_string h new_el in
  h ← vset h vec_tmp rowc x;
  Ret (h, vec_tmp).

Fixpoint erase_strings (n : nat) (i rowc index : Z) (h : memory) (v : vec loc) : outcome memory :=
  match n with
  | O => Ret h
  | S n =>
    if i <? index then erase_strings n (i + 1) rowc index h v
    else if i =? index then
      x ← vget h v i; h ← hfree h (Some x); erase_strings n (i + 1) rowc index h v
    else if negb (i =? rowc - 1) then
      x ← vget h v i; h ← vset h v (i - 1) x; erase_strings n (i + 1) rowc index h v
    else
      x ← vget h v i;
      s ← string_at h x;
      let '(new_last, h) := new_string h s in
      h ← hfree h (Some x);
      h ← vset h v (i - 1) new_last;
      erase_strings n (i + 1) rowc index h v
  end.

Definition VECTOR_EraseString (h : memory) (rowc : Z) (v : vec loc) (index : Z)
    : outcome (Z * memory * vec loc) :=
  if rowc - 1 <? 0 then Ret (-1, h, v)
  else if (rowc <=? index) || (index <? 0) then Ret (-2, h, v)
  else
    h ← erase_strings (Z.to_nat rowc) 0 rowc index h v;
    if rowc - 1 =? 0 then h ← vfree h v; Ret (1, h, v)
    else '(h, v) ← vrealloc h v (rowc - 1); Ret (0, h, v).

(** The loop that frees the strings of an array, from place [i] on. *)
Fixpoint free_strings (n : nat) (i : Z) (h : memory) (v : vec loc) : outcome memory :=
  match n with
  | O => Ret h
  | S n => x ← vget h v i; h ← hfree h (Some x); free_strings n (i + 1) h v
  end.

#[global] Arguments new_string : simpl never.

(** ** Vectors of integers *)

Lemma push_int_run h F v l x :
  over (elems v l) h F →
  ∃ h' v', VECTOR_PushBackInt h (Z.of_nat (length l)) v x = Ret (h', v') ∧
    over (elems v' (l ++ [x])) h' F.
Proof.
  intros Hv. unfold VECTOR_PushBackInt. destruct (grow_run _ _ _ _ Hv) as (h1 & v1 & -> & Hv1).
  cbn [mbind outcome_bind].
  destruct (vset_mid _ _ _ _ _ x _ (Z.of_nat (length l)) Hv1) as (h' & -> & Hv');
    [by rewrite length_fmap|].
  exists h', v1. split; [done|]. rewrite elems_cons by by destruct l. by rewrite fmap_app.
Qed.

Lemma shift_ints_skip n i index h v :
  i + Z.of_nat n ≤ index + 1 → shift_ints n i index h v = Ret h.
Proof.
  revert i. induction n as [|n IH]; intros i Hi; [done|]. cbn [shift_ints].
  rewrite (proj2 (Z.leb_le i index)) by lia. apply IH. lia.
Qed.

Lemma shift_ints_app n1 n2 i index h v :
  shift_ints (n1 + n2) i index h v =
    (h ← shift_ints n1 i index h v; shift_ints n2 (i + Z.of_nat n1) index h v).
Proof.
  revert i h. induction n1 as [|n1 IH]; intros i h; [by rewrite Z.add_0_r|].
  cbn [Nat.add shift_ints]. replace (i + Z.of_nat (S n1)) with (i + 1 + Z.of_nat n1) by lia.
  destruct (i <=? index); [by apply IH|].
  destruct (vget h v i) as [x|]; [|done]. cbn [mbind outcome_bind].
  destruct (vset h v (i - 1) x); [|done]. cbn [mbind outcome_bind]. apply IH.
Qed.

Lemma shift_ints_run lb pre o i index h F v :
  i = Z.of_nat (length pre) + 1 → index < i →
  over (arr v (pre ++ o :: (Some <$> lb))) h F →
  ∃ h' o', shift_ints (length lb) i index h v = Ret h' ∧
    over (arr v (pre ++ (Some <$> lb) ++ [o'])) h' F.
Proof.
  revert pre o i h. induction lb as [|x lb IH]; intros pre o i h Hi Hlt Hv; [by exists h, o|].
  cbn [length shift_ints]. rewrite fmap_cons in *. rewrite (proj2 (Z.leb_gt i index)) by lia.
  rewrite (vget_mid h v (pre ++ [o]) x (Some <$> lb)).
  2: { rewrite <-app_assoc. by eapply reads_over. }
  2: { rewrite length_app. simpl. lia. }
  cbn [mbind outcome_bind].
  destruct (vset_mid _ _ _ _ _ x _ (i - 1) Hv) as (h1 & -> & Hv1); [lia|]. cbn [mbind outcome_bind].
  destruct (IH (pre ++ [Some x]) (Some x) (i + 1) h1) as (h' & o' & E & Hv');
    [rewrite length_app; simpl; lia|lia|by rewrite <-app_assoc|].
  exists h', o'. split; [done|]. by rewrite <-app_assoc in Hv'.
Qed.

Lemma erase_int_run h F v la y lb :
  over (elems v (la ++ y :: lb)) h F →
  ∃ h' v', VECTOR_EraseInt h (Z.of_nat (length (la ++ y :: lb))) v (Z.of_nat (length la)) =
      Ret (if (length (la ++ y :: lb) =? 1)%nat then 1 else 0, h', v') ∧
    over (elems v' (la ++ lb)) h' F.
Proof.
  intros Hv. rewrite elems_cons in Hv by by destruct la. unfold VECTOR_EraseInt.
  rewrite length_app. cbn [length].
  rewrite (proj2 (Z.ltb_ge _ _)) by lia. rewrite (proj2 (Z.leb_gt _ _)) by lia.
  rewrite (proj2 (Z.ltb_ge _ 0)) by lia. cbn [orb]. rewrite Nat2Z.id.
  rewrite shift_ints_app, shift_ints_skip by lia. cbn [mbind outcome_bind].
  rewrite fmap_app, fmap_cons in Hv. cbn [shift_ints]. rewrite (proj2 (Z.leb_le _ _)) by lia.
  destruct (shift_ints_run lb (Some <$> la) (Some y) (0 + Z.of_nat (length la) + 1)
    (Z.of_nat (length la)) h F v) as (h1 & o & -> & Hv1); [rewrite length_fmap; lia|lia|done|].
  cbn [mbind outcome_bind]. rewrite app_assoc, <-fmap_app in Hv1.
  destruct (Nat.eqb_spec (length la + S (length lb)) 1) as [E|E].
  - rewrite (proj2 (Z.eqb_eq _ _)) by lia. rewrite (vfree_run _ _ _ _ Hv1).
    eexists _, _. split; [done|].
    assert (la ++ lb = []) as -> by (apply nil_length_inv; rewrite length_app; lia).
    by apply elems_nil.
  - rewrite (proj2 (Z.eqb_neq _ _)) by lia.
    destruct (vrealloc_cut _ _ _ _ _ (Z.of_nat (length la + S (length lb)) - 1) Hv1)
      as (h' & v' & -> & Hv').
    + rewrite length_app. lia.
    + intros Hn%(f_equal length). rewrite length_app in Hn. simpl in Hn. lia.
    + by exists h', v'.
Qed.

(** The two vector functions on integers: appending stores the element behind
    the others, erasing by an index inside takes that element out and returns 0,
    or 1 when it was the last one, and other indices return -1 or -2 and change
    nothing. The one block the vector has is its array, and it has none when it is
    empty. *)
Theorem vector_int_spec h F v l x index :
  over (elems v l) h F →
  (∃ h' v', VECTOR_PushBackInt h (Z.of_nat (length l)) v x = Ret (h', v') ∧
     over (elems v' (l ++ [x])) h' F) ∧
  (∃ r h' v', VECTOR_EraseInt h (Z.of_nat (length l)) v index = Ret (r, h', v') ∧
     if decide (0 ≤ index < Z.of_nat (length l)) then
       over (elems v' (delete (Z.to_nat index) l)) h' F ∧ r = (if (length l =? 1)%nat then 1 else 0)
     else h' = h ∧ v' = v ∧ r = (if (length l =? 0)%nat then -1 else -2)).
Proof.
  intros Hv. split; [by apply push_int_run|]. case_decide as Hi.
  - destruct (lookup_lt_is_Some_2 l (Z.to_nat index)) as [y Hy]; [lia|].
    apply list_elem_of_split_length in Hy as (la & lb & -> & Hla).
    replace index with (Z.of_nat (length la)) by lia. rewrite Nat2Z.id, delete_middle.
    destruct (erase_int_run h F v la y lb Hv) as (h' & v' & E & Hv'). eexists _, h', v'. by split_and!.
  - unfold VECTOR_EraseInt. destruct l as [|y l]; [by eexists _, h, v|].
    rewrite (proj2 (Z.ltb_ge _ _)) by (simpl; lia).
    assert ((Z.of_nat (length (y :: l)) <=? index) || (index <? 0) = true) as ->
      by (apply orb_true_iff; rewrite Z.leb_le, Z.ltb_lt; lia).
    by eexists _, h, v.
Qed.

(** ** Strings in memory *)

(** The strings [ss] at the locations [xs]. *)
Definition texts (h : memory) (xs : list loc) (ss : list (list Z)) : Prop :=
  Forall2 (fun x s => h !! x = Some (Chars (s ++ [0])) ∧ no_nul s) xs ss.

(** [xs] are the blocks of the strings [ss], and [F] all others there are. *)
Definition strings (h : memory) (xs : list loc) (ss : list (list Z)) (F : memory) : Prop :=
  NoDup xs ∧ texts h xs ss ∧ (∀ x, x ∉ xs → h !! x = F !! x) ∧ (∀ x, x ∈ xs → F !! x = None).

Lemma texts_impl h h' xs ss :
  (∀ x, x ∈ xs → h !! x = h' !! x) → texts h xs ss → texts h' xs ss.
Proof.
  intros Hh H. induction H as [|x s xs ss [Hx Hs] _ IH]; [constructor|]. constructor.
  - rewrite <-Hh; [done|]. by left.
  - apply IH. intros y Hy. apply Hh. by right.
Qed.

Lemma texts_weaken h h' xs ss : texts h xs ss → h ⊆ h' → texts h' xs ss.
Proof.
  intros H Hs. eapply Forall2_impl; [exact H|]. intros x s [Hx Hn]. split; [|done].
  by eapply lookup_weaken.
Qed.

Lemma texts_length h xs ss : texts h xs ss → length xs = length ss.
Proof. apply Forall2_length. Qed.

Lemma texts_at h xs ss i s :
  texts h xs ss → ss !! i = Some s → ∃ x, xs !! i = Some x ∧ string_at h x = Ret s ∧ no_nul s.
Proof.
  intros H Hi. destruct (Forall2_lookup_r _ _ _ _ _ H Hi) as (x & Hx & Hb & Hn).
  exists x. split_and!; [done| |done]. unfold string_at, chars_at. rewrite (hread_Some _ _ _ Hb).
  cbn [mbind outcome_bind]. by rewrite cstr_run.
Qed.

Lemma strings_texts h xs ss F : strings h xs ss F → texts h xs ss.
Proof. by intros (_ & H & _). Qed.

Lemma strings_length h xs ss F : strings h xs ss F → length xs = length ss.
Proof. intros H. by eapply texts_length, strings_texts. Qed.

Lemma strings_none h : strings h [] [] h.
Proof. split_and!; [constructor|constructor|done|by intros x ?%elem_of_nil]. Qed.

Lemma strings_nil h F : strings h [] [] F → h = F.
Proof. intros (_ & _ & Hoff & _). apply map_eq. intros x. apply Hoff, not_elem_of_nil. Qed.

Lemma strings_notin h xs ss F y : strings h xs ss F → h !! y = None → (y ∉ xs) ∧ F !! y = None.
Proof.
  intros (Hnd & Hss & Hoff & HF) Hy. assert (y ∉ xs) as Hx.
  { intros [i Hi]%list_elem_of_lookup. destruct (Forall2_lookup_l _ _ _ _ _ Hss Hi)
      as (s & _ & E & _). by rewrite Hy in E. }
  split; [done|]. by rewrite <-Hoff.
Qed.

(** A string at the end of the list is allocated. *)
Lemma strings_add h xs ss F y s :
  strings h xs ss F → h !! y = None → no_nul s →
  strings (<[y := Chars (s ++ [0])]> h) (xs ++ [y]) (ss ++ [s]) F.
Proof.
  intros Hs Hy Hn. destruct (strings_notin _ _ _ _ _ Hs Hy) as [Hx HFx].
  destruct Hs as (Hnd & Hss & Hoff & HF). split_and!.
  - apply NoDup_app. split_and!; [done| |apply NoDup_singleton].
    intros z Hz ->%list_elem_of_singleton. done.
  - apply Forall2_app.
    + eapply texts_impl; [|exact Hss]. intros z Hz. rewrite lookup_insert_ne; [done|]. by intros ->.
    + constructor; [|constructor]. by rewrite lookup_insert_eq.
  - intros z Hz. rewrite not_elem_of_app, list_elem_of_singleton in Hz.
    destruct Hz as [Hz1 Hz2]. rewrite lookup_insert_ne by congruence. by apply Hoff.
  - intros z [Hz| ->%list_elem_of_singleton]%elem_of_app; auto.
Qed.

(** A string of the list is freed. *)
Lemma strings_del h xs x ys ss s ts F :
  strings h (xs ++ x :: ys) (ss ++ s :: ts) F → length xs = length ss →
  h !! x = Some (Chars (s ++ [0])) ∧ no_nul s ∧
  strings (delete x h) (xs ++ ys) (ss ++ ts) F.
Proof.
  intros (Hnd & Hss & Hoff & HF) Hl. apply Forall2_app_inv in Hss as [H1 H2]; [|done].
  inversion H2 as [|? ? ? ? [Hx Hsn] H3]; subst.
  apply NoDup_app in Hnd as (N1 & N2 & N3). apply NoDup_cons in N3 as [N3 N4].
  assert (x ∉ xs) as Hxs by (intros Hc; by apply (N2 _ Hc), list_elem_of_here).
  split; [done|]. split; [done|]. split_and!.
  - apply NoDup_app. split_and!; [done| |done]. intros y Hy Hc.
    apply (N2 _ Hy). by apply list_elem_of_further.
  - apply Forall2_app; (eapply texts_impl; [|done]); intros y Hy;
      rewrite lookup_delete_ne; [done|by intros ->|done|by intros ->].
  - intros y Hy. rewrite not_elem_of_app in Hy. destruct (decide (y = x)) as [->|Hyx].
    + rewrite lookup_delete_eq. symmetry. apply HF.
      apply elem_of_app. right. apply list_elem_of_here.
    + rewrite lookup_delete_ne by done. apply Hoff.
      rewrite not_elem_of_app, not_elem_of_cons. tauto.
  - intros y [Hy|Hy]%elem_of_app; apply HF, elem_of_app; [by left|right].
    by apply list_elem_of_further.
Qed.

(** Strings are blocks beside the others. *)
Definition text_blocks (xs : list loc) (ss : list (list Z)) (m : memory) : Prop := strings m xs ss ∅.

Lemma strings_over h xs ss F : strings h xs ss F ↔ over (text_blocks xs ss) h F.
Proof.
  split.
  - intros (Hnd & Hss & Hoff & HF). exists (filter (fun kv => kv.1 ∈ xs) h).
    assert (∀ x, x ∈ xs → (filter (fun kv => kv.1 ∈ xs) h : memory) !! x = h !! x) as Hin.
    { intros x Hx. rewrite map_lookup_filter. destruct (h !! x); [|done]. simpl.
      by rewrite option_guard_True. }
    assert (∀ x, x ∉ xs → (filter (fun kv => kv.1 ∈ xs) h : memory) !! x = None) as Hout.
    { intros x Hx. apply map_lookup_filter_None. right. intros v _ Hc. by apply Hx. }
    split_and!.
    + split_and!; [done| | |].
      * eapply texts_impl; [|exact Hss]. intros x Hx. by rewrite Hin.
      * intros x Hx. by rewrite Hout.
      * intros x _. apply lookup_empty.
    + apply map_disjoint_spec. intros x b1 b2 H1 H2. destruct (decide (x ∈ xs)) as [Hx|Hx].
      * by rewrite HF in H2.
      * by rewrite Hout in H1.
    + apply map_eq. intros x. destruct (decide (x ∈ xs)) as [Hx|Hx].
      * rewrite lookup_union_l by by apply HF. by rewrite Hin.
      * rewrite lookup_union_r by by apply Hout. by apply Hoff.
  - intros (m & (Hnd & Hss & Hoff & HF) & Hd & ->).
    assert (∀ x, x ∈ xs → ∃ b, m !! x = Some b) as Hin.
    { intros x [i Hi]%list_elem_of_lookup.
      destruct (Forall2_lookup_l _ _ _ _ _ Hss Hi) as (s & _ & E & _). eauto. }
    split_and!.
    + done.
    + eapply texts_weaken; [exact Hss|]. by apply map_union_subseteq_l.
    + intros x Hx. rewrite lookup_union_r; [done|]. by rewrite Hoff, lookup_empty.
    + intros x Hx. destruct (Hin x Hx) as [b Hb]. by eapply map_disjoint_Some_l.
Qed.

Lemma strings_sub h xs ss F : strings h xs ss F → F ⊆ h.
Proof. intros H%strings_over. by eapply over_sub. Qed.

(** A string is allocated, or freed, below another part of memory. *)
Lemma strings_alloc_below P h G xs ss F y s :
  over P h G → strings G xs ss F → h !! y = None → no_nul s →
  over P (<[y := Chars (s ++ [0])]> h) (<[y := Chars (s ++ [0])]> G) ∧
  strings (<[y := Chars (s ++ [0])]> G) (xs ++ [y]) (ss ++ [s]) F.
Proof.
  intros Ho Hs Hy Hn. split; [by apply over_alloc|]. apply strings_add; [done| |done].
  by eapply over_none.
Qed.

Lemma strings_free_below P h G xs x ys ss s ts F :
  over P h G → strings G (xs ++ x :: ys) (ss ++ s :: ts) F → length xs = length ss →
  hfree h (Some x) = Ret (delete x h) ∧ over P (delete x h) (delete x G) ∧
  strings (delete x G) (xs ++ ys) (ss ++ ts) F ∧ string_at h x = Ret s ∧ no_nul s.
Proof.
  intros Ho Hs Hl. destruct (strings_del _ _ _ _ _ _ _ _ Hs Hl) as (Hx & Hn & Hd).
  destruct (over_free _ _ _ _ _ Ho Hx) as [Hf Ho']. split_and!; [done..| |done].
  unfold string_at, chars_at. rewrite (hread_Some h x (Chars (s ++ [0]))).
  2: { eapply lookup_weaken; [exact Hx|by eapply over_sub]. }
  cbn [mbind outcome_bind]. by rewrite cstr_run.
Qed.

(** ** Vectors of strings *)

(** The array and the strings of a vector. *)
Definition svec (v : vec loc) (xs : list loc) (ss : list (list Z)) (h F : memory) : Prop :=
  ∃ G, over (elems v xs) h G ∧ strings G xs ss F.

Lemma svec_none v h : svec v [] [] h h.
Proof. exists h. split; [by apply elems_nil|apply strings_none]. Qed.

Lemma svec_length v xs ss h F : svec v xs ss h F → length xs = length ss.
Proof. intros (G & _ & H). by eapply strings_length. Qed.

Lemma svec_nil v ss h F : svec v [] ss h F → ss = [] ∧ h = F.
Proof.
  intros (G & ->%elems_nil & Hs). assert (ss = []) as ->
    by (apply strings_length in Hs; by destruct ss). split; [done|by apply strings_nil].
Qed.

Lemma svec_sub v xs ss h F : svec v xs ss h F → F ⊆ h.
Proof. intros (G & Ho%over_sub & Hs%strings_sub). by etrans. Qed.

(** What is read of it. *)
Lemma svec_reads v xs ss h F :
  svec v xs ss h F → texts h xs ss ∧ (xs ≠ [] → reads h v (Some <$> xs)).
Proof.
  intros (G & Ho & Hs). split.
  - eapply texts_weaken; [by eapply strings_texts|by eapply over_sub].
  - intros Hx. rewrite elems_cons in Ho by done. by eapply reads_over.
Qed.

(** A vector is a part of memory like the others. *)
Definition svec_blocks v xs ss (m : memory) : Prop := svec v xs ss m ∅.

Lemma svec_over v xs ss h F : svec v xs ss h F ↔ over (svec_blocks v xs ss) h F.
Proof.
  split.
  - intros (G & (m & Hm & Hd & ->) & (m' & Hm' & Hd' & ->)%strings_over).
    apply map_disjoint_union_r in Hd as [Hmm Hd]. exists (m ∪ m'). split_and!.
    + exists m'. split; [by exists m|done].
    + by apply map_disjoint_union_l.
    + by rewrite map_union_assoc.
  - intros (m & (G & (m1 & Hm1 & Hd1 & ->) & HG) & Hd & ->).
    apply map_disjoint_union_l in Hd as [Hd Hd']. exists (G ∪ F). split.
    + exists m1. split_and!; [done|by apply map_disjoint_union_r|by rewrite map_union_assoc].
    + apply strings_over. exists G. by split_and!.
Qed.

Lemma push_string_run h F v xs ss s :
  svec v xs ss h F → no_nul s →
  ∃ h' v' xs', VECTOR_PushBackString h (Z.of_nat (length xs)) v s = Ret (h', v') ∧
    length xs' = S (length xs) ∧ svec v' xs' (ss ++ [s]) h' F.
Proof.
  intros (G & Hv & Hs) Hn. unfold VECTOR_PushBackString.
  destruct (grow_run _ _ _ _ Hv) as (h1 & v1 & -> & Hv1). cbn [mbind outcome_bind].
  unfold new_string.
  destruct (strings_alloc_below _ _ _ _ _ _ (hfresh h1) s Hv1 Hs (hfresh_spec h1) Hn) as [Hv2 Hs2].
  destruct (vset_mid _ _ _ _ _ (hfresh h1) _ (Z.of_nat (length xs)) Hv2) as (h3 & -> & Hv3);
    [by rewrite length_fmap|].
  exists h3, v1, (xs ++ [hfresh h1]). split_and!; [done|rewrite length_app; simpl; lia|].
  eexists. split; [|exact Hs2]. rewrite elems_cons by by destruct xs. by rewrite fmap_app.
Qed.

Lemma erase_strings_skip n i rowc index h v m :
  i + Z.of_nat n ≤ index →
  erase_strings (n + m) i rowc index h v = erase_strings m (i + Z.of_nat n) rowc index h v.
Proof.
  revert i. induction n as [|n IH]; intros i Hi; [by rewrite Z.add_0_r|].
  cbn [Nat.add erase_strings]. rewrite (proj2 (Z.ltb_lt i index)) by lia.
  rewrite IH by lia. f_equal. lia.
Qed.

(** The part of the loop behind the erased element: the pointers move down, the
    last string gets a new block. *)
Lemma erase_strings_run lb pre o i rowc index h G v ss ts F :
  i = Z.of_nat (length pre) + 1 → index < i → rowc = i + Z.of_nat (length lb) →
  over (arr v ((Some <$> pre) ++ o :: (Some <$> lb))) h G →
  strings G (pre ++ lb) (ss ++ ts) F → length pre = length ss →
  ∃ h' G' lb' o', erase_strings (length lb) i rowc index h v = Ret h' ∧
    over (arr v ((Some <$> (pre ++ lb')) ++ [o'])) h' G' ∧
    length lb' = length lb ∧ strings G' (pre ++ lb') (ss ++ ts) F.
Proof.
  revert pre o i h G ss ts.
  induction lb as [|x lb IH]; intros pre o i h G ss ts Hi Hlt Hrow Hv Hs Hl.
  { exists h, G, [], o. rewrite app_nil_r in *. by split_and!. }
  cbn [length erase_strings] in *. rewrite fmap_cons in Hv.
  rewrite (proj2 (Z.ltb_ge i index)), (proj2 (Z.eqb_neq i index)) by lia.
  assert (vget h v i = Ret x) as Eg.
  { apply (vget_mid h v ((Some <$> pre) ++ [o]) x (Some <$> lb)).
    - rewrite <-app_assoc. by eapply reads_over.
    - rewrite length_app, length_fmap. simpl. lia. }
  assert (∃ s ts', ts = s :: ts') as (s & ts' & ->).
  { apply strings_length in Hs. rewrite !length_app in Hs. destruct ts; [simpl in Hs; lia|eauto]. }
  rewrite Eg. destruct lb as [|y lb].
  - rewrite (proj2 (Z.eqb_eq i (rowc - 1))) by (simpl in Hrow; lia). cbn [negb mbind outcome_bind].
    assert (ts' = []) as ->.
    { apply strings_length in Hs. rewrite !length_app in Hs. destruct ts'; [done|simpl in Hs; lia]. }
    destruct (strings_free_below _ _ _ _ _ _ _ _ _ _ Hv Hs Hl) as (_ & _ & _ & -> & Hn).
    cbn [mbind outcome_bind]. unfold new_string.
    destruct (strings_alloc_below _ _ _ _ _ _ (hfresh h) s Hv Hs (hfresh_spec h) Hn) as [Hv2 Hs2].
    rewrite <-!app_assoc in Hs2. cbn [app] in Hs2.
    destruct (strings_free_below _ _ _ _ _ _ _ _ _ _ Hv2 Hs2 Hl) as (-> & Hv3 & Hs3 & _).
    cbn [mbind outcome_bind].
    destruct (vset_mid _ _ _ _ _ (hfresh h) _ (i - 1) Hv3) as (h4 & -> & Hv4);
      [rewrite length_fmap; lia|].
    cbn [mbind outcome_bind erase_strings]. eexists h4, _, [hfresh h], _.
    split_and!; [done| |done|exact Hs3]. rewrite fmap_app, <-app_assoc. exact Hv4.
  - rewrite (proj2 (Z.eqb_neq i (rowc - 1))) by (simpl in Hrow; lia).
    cbn [negb mbind outcome_bind].
    destruct (vset_mid _ _ _ _ _ x _ (i - 1) Hv) as (h1 & -> & Hv1); [rewrite length_fmap; lia|].
    cbn [mbind outcome_bind].
    destruct (IH (pre ++ [x]) (Some x) (i + 1) h1 G (ss ++ [s]) ts')
      as (h' & G' & lb' & o' & E & Hv' & Hlb & Hs').
    + rewrite length_app. simpl. lia.
    + lia.
    + simpl in *. lia.
    + by rewrite fmap_app, <-app_assoc.
    + by rewrite <-!app_assoc.
    + rewrite !length_app. simpl. lia.
    + exists h', G', (x :: lb'), o'. rewrite <-!app_assoc in Hs'. rewrite <-app_assoc in Hv'.
      split_and!; [done|done|simpl in *; lia|done].
Qed.

Lemma erase_string_run h F v xs y ys ss t ts :
  svec v (xs ++ y :: ys) (ss ++ t :: ts) h F → length xs = length ss →
  ∃ h' v' xs', VECTOR_EraseString h (Z.of_nat (length (xs ++ y :: ys))) v
      (Z.of_nat (length xs)) =
      Ret (if (length (xs ++ y :: ys) =? 1)%nat then 1 else 0, h', v') ∧
    svec v' xs' (ss ++ ts) h' F.
Proof.
  intros (G & Hv & Hs) Hl. rewrite elems_cons in Hv by by destruct xs.
  destruct (strings_free_below _ _ _ _ _ _ _ _ _ _ Hv Hs Hl) as (Hfree & Hv1 & Hs1 & _).
  unfold VECTOR_EraseString. rewrite length_app. cbn [length].
  rewrite (proj2 (Z.ltb_ge _ _)) by lia. rewrite (proj2 (Z.leb_gt _ _)) by lia.
  rewrite (proj2 (Z.ltb_ge _ 0)) by lia. cbn [orb]. rewrite Nat2Z.id.
  rewrite erase_strings_skip by lia. cbn [erase_strings].
  rewrite Z.add_0_l, Z.ltb_irrefl, Z.eqb_refl. rewrite fmap_app, fmap_cons in *.
  rewrite (vget_mid h v (Some <$> xs) y (Some <$> ys)) by (by eapply reads_over || rewrite ?length_fmap).
  cbn [mbind outcome_bind]. rewrite Hfree. cbn [mbind outcome_bind].
  destruct (erase_strings_run ys xs (Some y) (Z.of_nat (length xs) + 1)
    (Z.of_nat (length xs + S (length ys))) (Z.of_nat (length xs)) (delete y h) (delete y G) v ss ts F)
    as (h2 & G2 & lb' & o & E & Hv2 & Hlb & Hs2); [lia..|done|done|done|].
  rewrite E. cbn [mbind outcome_bind].
  destruct (Nat.eqb_spec (length xs + S (length ys)) 1) as [E1|E1].
  - rewrite (proj2 (Z.eqb_eq _ _)) by lia. rewrite (vfree_run _ _ _ _ Hv2).
    eexists G2, v, (xs ++ lb'). split; [done|].
    assert (xs ++ lb' = []) as Hnil by (apply nil_length_inv; rewrite length_app; lia).
    exists G2. rewrite Hnil in *. split; [by apply elems_nil|done].
  - rewrite (proj2 (Z.eqb_neq _ _)) by lia.
    destruct (vrealloc_cut _ _ _ _ _ (Z.of_nat (length xs + S (length ys)) - 1) Hv2)
      as (h' & v' & -> & Hv').
    + rewrite length_app. lia.
    + intros Hn%(f_equal length). rewrite length_app in Hn. simpl in Hn. lia.
    + exists h', v', (xs ++ lb'). split; [done|]. by exists G2.
Qed.

(** The same with the index of the string. *)
Lemma erase_string_at h F v xs ss index :
  svec v xs ss h F → 0 ≤ index < Z.of_nat (length ss) →
  ∃ h' v' xs', VECTOR_EraseString h (Z.of_nat (length ss)) v index =
      Ret (if (length ss =? 1)%nat then 1 else 0, h', v') ∧
    svec v' xs' (delete (Z.to_nat index) ss) h' F.
Proof.
  intros Hs Hi. pose proof (svec_length _ _ _ _ _ Hs) as Hlen.
  destruct (lookup_lt_is_Some_2 xs (Z.to_nat index)) as [y Hy]; [lia|].
  destruct (lookup_lt_is_Some_2 ss (Z.to_nat index)) as [t Ht]; [lia|].
  apply list_elem_of_split_length in Hy as (ya & yb & -> & Hya).
  apply list_elem_of_split_length in Ht as (ta & tb & -> & Hta).
  rewrite <-Hlen, Hta, delete_middle. rewrite Hta in Hya.
  replace index with (Z.of_nat (length ya)) by lia.
  eapply erase_string_run; [exact Hs|lia].
Qed.

(** The strings behind [xs] are freed. *)
Lemma free_strings_run ys h G v cs rest xs ss ts F i :
  over (arr v (cs ++ (Some <$> ys) ++ rest)) h G →
  strings G (xs ++ ys) (ss ++ ts) F → length xs = length ss → i = Z.of_nat (length cs) →
  ∃ h' G', free_strings (length ys) i h v = Ret h' ∧
    over (arr v (cs ++ (Some <$> ys) ++ rest)) h' G' ∧ strings G' xs ss F.
Proof.
  revert h G cs ts i. induction ys as [|y ys IH]; intros h G cs ts i Hv Hs Hl Hi;
    pose proof (strings_length _ _ _ _ Hs) as Hlen; rewrite !length_app in Hlen.
  { destruct ts; [|simpl in Hlen; lia]. rewrite !app_nil_r in Hs. eauto. }
  destruct ts as [|t ts]; [simpl in Hlen; lia|]. cbn [length free_strings].
  rewrite fmap_cons in *. cbn [app] in Hv |- *.
  rewrite (vget_mid h v cs y ((Some <$> ys) ++ rest)) by (by eapply reads_over || done).
  cbn [mbind outcome_bind].
  destruct (strings_free_below _ _ _ _ _ _ _ _ _ _ Hv Hs Hl) as (-> & Hv1 & Hs1 & _).
  cbn [mbind outcome_bind].
  destruct (IH (delete y h) (delete y G) (cs ++ [Some y]) ts (i + 1)) as (h' & G' & E & Hv' & Hs');
    [by rewrite <-app_assoc|done|done|rewrite length_app; simpl; lia|].
  rewrite <-app_assoc in Hv'. eauto.
Qed.

(** All strings of a vector: its array is left. *)
Lemma free_strings_all v xs ss h F :
  svec v xs ss h F → ∃ h', free_strings (length ss) 0 h v = Ret h' ∧ over (elems v xs) h' F.
Proof.
  intros Hs. rewrite <-(svec_length _ _ _ _ _ Hs). destruct xs as [|x xs].
  { apply svec_nil in Hs as [_ ->]. exists F. split; [done|by apply elems_nil]. }
  destruct Hs as (G & Hv & Hs). rewrite elems_cons in Hv by done.
  destruct (free_strings_run (x :: xs) h G v [] [] [] [] ss F 0) as (h' & G' & E & Hv' & Hs');
    [by rewrite app_nil_r|done..|].
  apply strings_nil in Hs' as ->. rewrite app_nil_r in Hv'. eauto.
Qed.

(** The strings and the array of a vector with elements. *)
Lemma free_vector_run v xs ss h F :
  svec v xs ss h F → ss ≠ [] → (h ← free_strings (length ss) 0 h v; vfree h v) = Ret F.
Proof.
  intros Hs Hne. destruct (free_strings_all _ _ _ _ _ Hs) as (h' & -> & Hv).
  cbn [mbind outcome_bind]. eapply vfree_run. rewrite elems_cons in Hv; [exact Hv|].
  intros ->. apply svec_nil in Hs as [? _]. done.
Qed.

(** The vector of strings: appending puts a copy of the string behind the
    others; erasing by an index inside takes that string out. The blocks in
    memory are exactly the array and the strings of the vector and the ones that
    were there besides, so nothing leaks and nothing is freed twice. *)
Theorem vector_string_spec h F v xs ss s index :
  svec v xs ss h F → no_nul s →
  (∃ h' v' xs', VECTOR_PushBackString h (Z.of_nat (length ss)) v s = Ret (h', v') ∧
     svec v' xs' (ss ++ [s]) h' F) ∧
  (0 ≤ index < Z.of_nat (length ss) →
   ∃ h' v' xs', VECTOR_EraseString h (Z.of_nat (length ss)) v index =
      Ret (if (length ss =? 1)%nat then 1 else 0, h', v') ∧
     svec v' xs' (delete (Z.to_nat index) ss) h' F).
Proof.
  intros Hs Hn. split.
  - destruct (push_string_run h F v xs ss s Hs Hn) as (h' & v' & xs' & E & _ & Hs').
    rewrite (svec_length _ _ _ _ _ Hs) in E. eauto.
  - intros Hi. by eapply erase_string_at.
Qed.

(** Two strings at 1 and 2, their array at 3. *)
Lemma vector_string_spec_witness :
  let G := {[1%positive := Chars [97; 0]; 2%positive := Chars [98; 99; 0]]} : memory in
  let h := <[3%positive := Ptrs [Some 1%positive; Some 2%positive]]> G in
  (∃ h' v' xs', VECTOR_PushBackString h 2 (VAt 3%positive) [100] = Ret (h', v') ∧
     svec v' xs' [[97]; [98; 99]; [100]] h' ∅) ∧
  (0 ≤ 0 < 2 → ∃ h' v' xs', VECTOR_EraseString h 2 (VAt 3%positive) 0 = Ret (0, h', v') ∧
     svec v' xs' [[98; 99]] h' ∅).
Proof.
  intros G h.
  apply (vector_string_spec h ∅ (VAt 3%positive) [1%positive; 2%positive] [[97]; [98; 99]] [100] 0).
  - exists G. split; [apply arr_over; by exists 3%positive|]. split_and!.
    + by apply (bool_decide_unpack (NoDup [1%positive; 2%positive])).
    + repeat constructor; by apply (bool_decide_unpack (0 ∉ _)).
    + intros x [H1 H2%not_elem_of_cons]%not_elem_of_cons. destruct H2 as [H2 _]. unfold G.
      by rewrite lookup_insert_ne, lookup_singleton_ne, lookup_empty.
    + intros x _. apply lookup_empty.
  - by apply (bool_decide_unpack (0 ∉ [100])).
Defined.
