(* ===== verification/ChrStore.v ===== *)
(** * The storing character device ([kdev-char-storage])

    [chr_store.c] keeps what was written last in one heap block of whole
    4096-byte units. The state is the variables of the module and the heap the
    block lives in; the file operations are functions of it, with the lengths at
    their C types. The memory a growing [krealloc] adds is not cleared: its
    bytes are a parameter. [copy_from_user] clears what it could not copy.

    The theorems: the operations keep the block and [blk_count] in step as long
    as no write is empty; a read gives back what the last write stored; what a
    shorter write leaves behind; and the two ways to leave the block's bounds
    and lifetime, a long read and an empty write. *)

From stdpp Require Import base tactics numbers list gmap fin_sets.
From S2P Require Import Prelude Heap CStr.

Local Open Scope Z_scope.

Definition MAX_LEN : Z := 256.
Definition BLK_LEN : Z := 4096.
Definition EBUSY : Z := 16.
Definition EINVAL : Z := 22.
Definition ENOMEM : Z := 12.

Record chr_store := mkStore {
  device_open_counter : Z;
  blk_count : Z;
  msg : ptr;
  heap : gmap loc (list Z);
}.

Definition init_chr_store : chr_store := mkStore 0 0 None ∅.

Definition device_open (s : chr_store) : Z * chr_store :=
  if negb (device_open_counter s =? 0) then (- EBUSY, s)
  else (0, mkStore (device_open_counter s + 1) (blk_count s) (msg s) (heap s)).

Definition device_release (s : chr_store) : Z * chr_store :=
  (0, mkStore (device_open_counter s - 1) (blk_count s) (msg s) (heap s)).

(** [_blk_count]: an [int] computed from a [size_t]. *)
Definition blocks (len : Z) : Z :=
  let c := s32 (len / BLK_LEN) in
  if negb (len mod BLK_LEN =? 0) then c + 1 else c.

Section ops.
(** The bytes [krealloc] adds to a block. *)
Context (junk : nat -> list Z).

(** [copy_to_user(buffer, msg, len)] with [n] bytes not copied: what the caller
    gets. *)
Definition copy_to_user (s : chr_store) (len n : Z) : outcome (list Z) :=
  b ← hread (heap s) (msg s);
  if decide (len ≤ Z.of_nat (length b)) then Ret (take (Z.to_nat (len - n)) b)
  else Fault OutOfBounds.

(** The value returned and the bytes stored to the caller's buffer. *)
Definition device_read (s : chr_store) (len n : Z) : outcome (Z * list Z) :=
  if blk_count s =? 0 then Ret (0, [])
  else if MAX_LEN <? blocks len then Ret (- EINVAL, [])
  else bs ← copy_to_user s len n; Ret (len - n, bs).

(** [copy_from_user(msg, buf, len)] with [n] bytes not copied. *)
Definition copy_from_user (h : gmap loc (list Z)) (p : ptr) (buf : list Z) (n : Z)
    : outcome (gmap loc (list Z)) :=
  b ← hread h p;
  if decide (length buf ≤ length b)%nat then
    hwrite h p (take (length buf - Z.to_nat n) buf ++ replicate (Z.to_nat n) 0 ++
                drop (length buf) b)
  else Fault OutOfBounds.

(** [krealloc(msg, size)]: a block of the new size with the old bytes; none when
    there is no memory. *)
Definition krealloc (mem : bool) (h : gmap loc (list Z)) (p : ptr) (size : Z)
    : outcome (ptr * gmap loc (list Z)) :=
  b ← hread h p;
  if mem then
    h ← hfree h p;
    let x := hfresh h in
    let sz := Z.to_nat size in
    Ret (Some x, <[x := take sz b ++ junk (sz - length b)]> h)
  else Ret (None, h).

(** The bytes of [buf] are the caller's, [length buf] is [len]; [mem] says
    whether the allocator has memory. *)
Definition device_write (mem : bool) (s : chr_store) (buf : list Z) (n : Z)
    : outcome (Z * chr_store) :=
  let len := Z.of_nat (length buf) in
  let _blk_count := blocks len in
  if MAX_LEN <? _blk_count then Ret (- EINVAL, s)
  else if _blk_count =? 0 then
    match msg s with
    | Some _ =>
      h ← hfree (heap s) (msg s);
      Ret (0, mkStore (device_open_counter s) 0 (msg s) h)
    | None => Ret (0, s)
    end
  else
    match msg s with
    | None =>
      if mem then
        let x := hfresh (heap s) in
        let h := <[x := replicate (Z.to_nat (_blk_count * BLK_LEN)) 0]> (heap s) in
        h ← copy_from_user h (Some x) buf n;
        Ret (len - n, mkStore (device_open_counter s) _blk_count (Some x) h)
      else Ret (- ENOMEM, s)
    | Some _ =>
      '(p, h) ← (if negb (blk_count s =? _blk_count)
                 then krealloc mem (heap s) (msg s) (_blk_count * BLK_LEN)
                 else Ret (msg s, heap s));
      h ← copy_from_user h p buf n;
      Ret (len - n, mkStore (device_open_counter s) _blk_count p h)
    end.

Definition SEEK_END : Z := 2.

Definition device_llseek (s : chr_store) (whence : Z) : outcome Z :=
  if blk_count s =? 0 then Ret 0
  else if whence =? SEEK_END then b ← hread (heap s) (msg s); strlen b
  else Ret 0.

Definition exit_chr_store (s : chr_store) : outcome (gmap loc (list Z)) :=
  match msg s with
  | Some _ => hfree (heap s) (msg s)
  | None => Ret (heap s)
  end.

(** ** The block and its size *)

Context (junk_length : ∀ n, length (junk n) = n).

(** The block is there exactly when it has been written, has [blk_count] units
    and is all the module has allocated. *)
Definition store_ok (s : chr_store) : Prop :=
  match msg s with
  | None => blk_count s = 0 ∧ heap s = ∅
  | Some x => 0 < blk_count s ≤ MAX_LEN ∧
      ∃ b, heap s = {[x := b]} ∧ Z.of_nat (length b) = blk_count s * BLK_LEN
  end.

(** The bytes of the block. *)
Definition stored (s : chr_store) : list Z :=
  match msg s with Some x => default [] (heap s !! x) | None => [] end.

Lemma blocks_bounds len :
  0 ≤ len ≤ MAX_LEN * BLK_LEN →
  0 ≤ blocks len ≤ MAX_LEN ∧ len ≤ blocks len * BLK_LEN ∧ (blocks len = 0 ↔ len = 0).
Proof.
  unfold blocks, MAX_LEN, BLK_LEN. intros Hl.
  pose proof (Z.div_mod len 4096 ltac:(lia)) as Hd.
  pose proof (Z.mod_pos_bound len 4096 ltac:(lia)) as Hm.
  rewrite s32_small by lia.
  destruct (Z.eqb_spec (len mod 4096) 0); cbn [negb]; lia.
Qed.

(** A length the operations accept is one of at most 256 units, as long as it is
    one the system call can pass. *)
Lemma blocks_accept len :
  0 ≤ len < 2 ^ 31 → (MAX_LEN <? blocks len) = false ↔ len ≤ MAX_LEN * BLK_LEN.
Proof.
  intros Hl. rewrite Z.ltb_ge. split; [|intros; apply blocks_bounds; lia].
  unfold blocks, MAX_LEN, BLK_LEN.
  pose proof (Z.div_mod len 4096 ltac:(lia)) as Hd.
  pose proof (Z.mod_pos_bound len 4096 ltac:(lia)) as Hm.
  rewrite s32_small by lia.
  destruct (Z.eqb_spec (len mod 4096) 0); cbn [negb]; lia.
Qed.

(** What the block holds before the bytes of a write are copied into it. *)
Definition prepared (s : chr_store) (c : Z) : list Z :=
  match msg s with
  | None => replicate (Z.to_nat (c * BLK_LEN)) 0
  | Some _ =>
    if blk_count s =? c then stored s
    else take (Z.to_nat (c * BLK_LEN)) (stored s) ++
         junk (Z.to_nat (c * BLK_LEN) - length (stored s))
  end.

Lemma prepared_length s c :
  store_ok s → 0 < c → Z.of_nat (length (prepared s c)) = c * BLK_LEN.
Proof.
  unfold store_ok, prepared, stored, BLK_LEN. intros Hs Hc. destruct (msg s) as [x|].
  - destruct Hs as (_ & b & -> & Hb). rewrite lookup_singleton_eq. cbn [default].
    destruct (Z.eqb_spec (blk_count s) c) as [<-|]; [done|].
    rewrite length_app, length_take, junk_length. lia.
  - rewrite length_replicate. lia.
Qed.

Lemma copy_from_user_run x b buf n :
  (length buf ≤ length b)%nat →
  copy_from_user {[x := b]} (Some x) buf n =
    Ret {[x := take (length buf - Z.to_nat n) buf ++ replicate (Z.to_nat n) 0 ++
               drop (length buf) b]}.
Proof.
  intros Hl. unfold copy_from_user. rewrite (hread_Some _ _ b) by apply lookup_singleton_eq.
  cbn [mbind outcome_bind]. rewrite decide_True by done.
  rewrite (hwrite_Some _ _ b) by apply lookup_singleton_eq. by rewrite insert_singleton_eq.
Qed.

(** A write that is not empty, with memory at hand. *)
Lemma device_write_run s buf n :
  store_ok s → 0 < Z.of_nat (length buf) ≤ MAX_LEN * BLK_LEN →
  0 ≤ n ≤ Z.of_nat (length buf) →
  ∃ s', device_write true s buf n = Ret (Z.of_nat (length buf) - n, s') ∧ store_ok s' ∧
    blk_count s' = blocks (Z.of_nat (length buf)) ∧
    stored s' = take (length buf - Z.to_nat n) buf ++ replicate (Z.to_nat n) 0 ++
                drop (length buf) (prepared s (blocks (Z.of_nat (length buf)))).
Proof.
  intros Hs Hl Hn. unfold device_write.
  pose proof (blocks_bounds (Z.of_nat (length buf)) ltac:(lia)) as (Hc & Hcl & Hc0).
  set (c := blocks (Z.of_nat (length buf))) in *.
  pose proof (prepared_length s c Hs ltac:(lia)) as Hp.
  rewrite (proj2 (Z.ltb_ge _ _)) by lia. rewrite (proj2 (Z.eqb_neq c 0)) by lia.
  assert (∃ x, match msg s with
    | None =>
      h ← copy_from_user (<[hfresh (heap s) := replicate (Z.to_nat (c * BLK_LEN)) 0]> (heap s))
            (Some (hfresh (heap s))) buf n;
      Ret (Z.of_nat (length buf) - n,
           mkStore (device_open_counter s) c (Some (hfresh (heap s))) h)
    | Some _ =>
      '(p, h) ← (if negb (blk_count s =? c)
                 then krealloc true (heap s) (msg s) (c * BLK_LEN) else Ret (msg s, heap s));
      h ← copy_from_user h p buf n;
      Ret (Z.of_nat (length buf) - n, mkStore (device_open_counter s) c p h)
    end =
    (h ← copy_from_user {[x := prepared s c]} (Some x) buf n;
     Ret (Z.of_nat (length buf) - n, mkStore (device_open_counter s) c (Some x) h)))
    as [x ->].
  { unfold store_ok, prepared, stored in *. destruct (msg s) as [x|].
    - destruct Hs as (_ & b & -> & Hb). rewrite lookup_singleton_eq. cbn [default].
      destruct (blk_count s =? c); [by exists x|]. cbn [negb]. unfold krealloc.
      rewrite (hread_Some _ _ b) by apply lookup_singleton_eq. cbn [mbind outcome_bind].
      rewrite (hfree_Some _ _ b) by apply lookup_singleton_eq. cbn [mbind outcome_bind].
      rewrite delete_singleton_eq. eexists. by rewrite insert_empty.
    - destruct Hs as [_ ->]. eexists. by rewrite insert_empty. }
  rewrite copy_from_user_run by lia. cbn [mbind outcome_bind]. eexists. split; [done|].
  unfold store_ok, stored. cbn [msg heap blk_count]. rewrite lookup_singleton_eq.
  split_and!; [lia..| |done|done]. eexists. split; [done|].
  rewrite !length_app, length_take, length_replicate, length_drop. lia.
Qed.

Lemma device_read_run s len :
  store_ok s → 0 < blk_count s → 0 ≤ len ≤ blk_count s * BLK_LEN →
  device_read s len 0 = Ret (len, take (Z.to_nat len) (stored s)).
Proof.
  unfold store_ok, device_read, copy_to_user, stored. intros Hs Hb Hl.
  destruct (msg s) as [x|]; [|lia]. destruct Hs as (Hm & b & -> & Hlb).
  rewrite (proj2 (Z.eqb_neq _ _)) by lia.
  pose proof (blocks_bounds len) as Hbb. unfold MAX_LEN, BLK_LEN in *.
  rewrite (proj2 (Z.ltb_ge _ _)) by lia.
  rewrite (hread_Some _ _ b) by apply lookup_singleton_eq. cbn [mbind outcome_bind].
  rewrite decide_True by lia. rewrite lookup_singleton_eq, Z.sub_0_r. done.
Qed.

(** ** Theorems *)

(** The operations keep the block and [blk_count] in step: the module starts
    so, and a write of at least one byte that the code accepts returns the
    number of bytes copied, leaves one block of as many units as the bytes
    need, and the refused ones change nothing. *)
Theorem chr_store_well_formed s buf n :
  store_ok s → (0 < length buf)%nat → Z.of_nat (length buf) < 2 ^ 31 →
  0 ≤ n ≤ Z.of_nat (length buf) →
  store_ok init_chr_store ∧
  (Z.of_nat (length buf) ≤ MAX_LEN * BLK_LEN →
     ∃ s', device_write true s buf n = Ret (Z.of_nat (length buf) - n, s') ∧ store_ok s' ∧
       blk_count s' = blocks (Z.of_nat (length buf))) ∧
  (MAX_LEN * BLK_LEN < Z.of_nat (length buf) →
     ∀ mem, device_write mem s buf n = Ret (- EINVAL, s)) ∧
  (Z.of_nat (length buf) ≤ MAX_LEN * BLK_LEN → msg s = None →
     device_write false s buf n = Ret (- ENOMEM, s)).
Proof.
  intros Hs Hl Hlt Hn. pose proof (blocks_accept (Z.of_nat (length buf)) ltac:(lia)) as Ha.
  split_and!; [done| | |].
  - intros Hle. destruct (device_write_run s buf n Hs) as (s' & E & Hs' & Hb & _); [lia..|].
    exists s'. by split_and!.
  - intros Hgt mem. unfold device_write.
    destruct (MAX_LEN <? blocks (Z.of_nat (length buf))) eqn:E; [done|].
    pose proof (proj1 Ha eq_refl). lia.
  - intros Hle Hm. unfold device_write. rewrite (proj2 Ha Hle), Hm.
    pose proof (blocks_bounds (Z.of_nat (length buf)) ltac:(lia)) as (_ & _ & H0).
    rewrite (proj2 (Z.eqb_neq _ _)) by lia. done.
Qed.

(** What was written is read back: after a write that copied all its bytes,
    every read of at most as many returns them. *)
Theorem chr_write_read s buf len :
  store_ok s → 0 < Z.of_nat (length buf) ≤ MAX_LEN * BLK_LEN →
  0 ≤ len ≤ Z.of_nat (length buf) →
  ∃ s', device_write true s buf 0 = Ret (Z.of_nat (length buf), s') ∧
    device_read s' len 0 = Ret (len, take (Z.to_nat len) buf).
Proof.
  intros Hs Hl Hlen. destruct (device_write_run s buf 0 Hs Hl) as (s' & E & Hs' & Hb & Hst);
    [lia|]. rewrite Z.sub_0_r in E. exists s'. split; [done|].
  pose proof (blocks_bounds (Z.of_nat (length buf)) ltac:(lia)) as (Hc & Hcl & Hc0).
  rewrite device_read_run; [|done|rewrite Hb; lia..]. do 2 f_equal. rewrite Hst.
  change (Z.to_nat 0) with 0%nat. rewrite Nat.sub_0_r, firstn_all.
  by rewrite take_app_le by lia.
Qed.

(** The block is not cleared before a write (the arguments of the [memset] are
    in the wrong order): after a write that needs as many units as the one
    before, the bytes behind the new ones are those of the earlier writer, and
    a read of the whole block returns them. *)
Theorem chr_stale_tail s buf :
  store_ok s → 0 < Z.of_nat (length buf) ≤ MAX_LEN * BLK_LEN →
  blk_count s = blocks (Z.of_nat (length buf)) →
  ∃ s', device_write true s buf 0 = Ret (Z.of_nat (length buf), s') ∧
    device_read s' (blk_count s * BLK_LEN) 0 =
      Ret (blk_count s * BLK_LEN, buf ++ drop (length buf) (stored s)).
Proof.
  intros Hs Hl Hbl. destruct (device_write_run s buf 0 Hs Hl) as (s' & E & Hs' & Hb & Hst);
    [lia|]. rewrite Z.sub_0_r in E. exists s'. split; [done|].
  pose proof (blocks_bounds (Z.of_nat (length buf)) ltac:(lia)) as (Hc & Hcl & Hc0).
  rewrite device_read_run; [|done|rewrite Hb; lia|unfold BLK_LEN in *; lia].
  do 2 f_equal. rewrite Hst. change (Z.to_nat 0) with 0%nat.
  rewrite Nat.sub_0_r, firstn_all. cbn [replicate]. rewrite app_nil_l.
  pose proof Hs as Hs2. unfold store_ok, prepared, stored in *.
  destruct (msg s) as [x|]; [|lia]. destruct Hs as (Hm & b & -> & Hlb).
  rewrite Hbl, Z.eqb_refl, <-Hbl, lookup_singleton_eq. cbn [default].
  rewrite <-Hbl in Hcl. unfold id.
  rewrite take_ge; [done|]. rewrite length_app, length_drop. lia.
Qed.

(** A read checks the length against the largest block, not against the one
    there is: any longer length that is accepted reads past the end of it. *)
Theorem chr_read_overruns s len n :
  store_ok s → 0 < blk_count s → blk_count s * BLK_LEN < len ≤ MAX_LEN * BLK_LEN →
  device_read s len n = Fault OutOfBounds.
Proof.
  unfold store_ok, device_read, copy_to_user. intros Hs Hb Hl.
  destruct (msg s) as [x|]; [|lia]. destruct Hs as (Hm & b & -> & Hlb).
  rewrite (proj2 (Z.eqb_neq _ _)) by lia.
  pose proof (blocks_bounds len) as Hbb. unfold MAX_LEN, BLK_LEN in *.
  rewrite (proj2 (Z.ltb_ge _ _)) by lia.
  rewrite (hread_Some _ _ b) by apply lookup_singleton_eq. cbn [mbind outcome_bind].
  by rewrite decide_False by lia.
Qed.

(** An empty write frees the block and keeps the pointer: the next write that
    is not empty hands the freed block to [krealloc], and another empty write
    or the removal of the module frees it again. *)
Theorem chr_empty_write_dangles s buf n :
  store_ok s → msg s ≠ None → 0 < Z.of_nat (length buf) ≤ MAX_LEN * BLK_LEN →
  ∃ s', device_write true s [] 0 = Ret (0, s') ∧
    device_write true s' buf n = Fault Dangling ∧
    device_write true s' [] 0 = Fault BadFree ∧
    exit_chr_store s' = Fault BadFree.
Proof.
  unfold store_ok. intros Hs Hm Hl. destruct (msg s) as [x|] eqn:Em; [|done].
  destruct Hs as (_ & b & Eh & _).
  pose proof (blocks_bounds (Z.of_nat (length buf)) ltac:(lia)) as (Hc & Hcl & Hc0).
  exists (mkStore (device_open_counter s) 0 (Some x) ∅). split_and!.
  - unfold device_write. change (blocks _) with 0. cbn. rewrite Em, Eh.
    rewrite (hfree_Some _ _ b) by apply lookup_singleton_eq. cbn [mbind outcome_bind].
    by rewrite delete_singleton_eq.
  - unfold device_write. rewrite (proj2 (Z.ltb_ge _ _)) by lia.
    rewrite (proj2 (Z.eqb_neq _ _)) by lia. cbn [msg blk_count heap].
    rewrite (proj2 (Z.eqb_neq 0 _)) by lia. done.
  - done.
  - done.
Qed.
End ops.

(** ** A written block *)

Definition sample_junk (n : nat) : list Z := replicate n 170.

Lemma sample_junk_length n : length (sample_junk n) = n.
Proof. apply length_replicate. Qed.

Definition written : chr_store :=
  mkStore 1 1 (Some 1%positive) {[1%positive := replicate 4096 65]}.

Lemma written_ok : store_ok written.
Proof. split; [by vm_compute|]. eexists. split; [reflexivity|]. by vm_compute. Qed.

Lemma chr_store_well_formed_witness :
  store_ok written ∧
  ∃ s', device_write sample_junk true written [1; 2; 3] 1 = Ret (2, s') ∧ store_ok s' ∧
       blk_count s' = 1.
Proof.
  split; [exact written_ok|].
  apply (chr_store_well_formed sample_junk sample_junk_length written [1; 2; 3] 1 written_ok).
  - simpl. lia.
  - simpl. lia.
  - simpl. lia.
  - by vm_compute.
Defined.

Lemma chr_write_read_witness :
  ∃ s', device_write sample_junk true written [1; 2; 3] 0 = Ret (3, s') ∧
    device_read s' 2 0 = Ret (2, take (Z.to_nat 2) [1; 2; 3]).
Proof.
  apply (chr_write_read sample_junk sample_junk_length written [1; 2; 3] 2 written_ok).
  - by vm_compute.
  - by vm_compute.
Defined.

Lemma chr_stale_tail_witness :
  ∃ s', device_write sample_junk true written [1; 2; 3] 0 = Ret (3, s') ∧
    device_read s' (1 * BLK_LEN) 0 =
      Ret (1 * BLK_LEN, [1; 2; 3] ++ drop 3 (stored written)).
Proof.
  apply (chr_stale_tail sample_junk sample_junk_length written [1; 2; 3] written_ok).
  - by vm_compute.
  - by vm_compute.
Defined.

Lemma chr_read_overruns_witness : device_read written 4097 0 = Fault OutOfBounds.
Proof.
  apply (chr_read_overruns written 4097 0 written_ok).
  - by vm_compute.
  - by vm_compute.
Defined.

Lemma chr_empty_write_dangles_witness :
  ∃ s', device_write sample_junk true written [] 0 = Ret (0, s') ∧
    device_write sample_junk true s' [1] 0 = Fault Dangling ∧
    device_write sample_junk true s' [] 0 = Fault BadFree ∧
    exit_chr_store s' = Fault BadFree.
Proof.
  apply (chr_empty_write_dangles sample_junk written [1] 0 written_ok).
  - discriminate.
  - by vm_compute.
Defined.
