(* ===== verification/Grep.v ===== *)
(** * The line search tool ([var-grep])

    [grep.c] collects standard input, splits it at the newlines into a vector
    of strings, and copies the number and the tail of every line that contains
    the argument into two more vectors, which it prints and frees. The vectors
    are those of [CStr] ([grep.c] has a copy of their code); a pointer field of
    a local structure has no value before it is assigned. Standard input is the
    list of its bytes, and the heap is part of the state to the end, so that
    what is left of it shows what was not freed.

    The theorem gives the output for every input and argument, and what happens
    when nothing matches; of the blocks grep allocated only the input's is left. *)

From stdpp Require Import base tactics numbers list gmap fin_sets.
From S2P Require Import Prelude Heap CStr.

Local Open Scope Z_scope.

Definition MAX_STDINPUT_WIDTH : Z := 1024 * 1024.
Definition newline : Z := 10.

Record BITGREP_INPUT2D := mkInput {
  row_count : Z;
  buff_2d : vec loc;
}.

Record BITGREP_FOUND := mkFound {
  found_count : Z;
  found_index : vec Z;
  buff_found : vec loc;
}.

(** [argv[1]] is copied into a block; no block when the count is wrong. *)
Definition BITGREP_FlagParser (argv : list (list Z)) (h : memory) : option loc * memory :=
  match argv with
  | [_; arg] => let '(x, h) := new_string h arg in (Some x, h)
  | _ => (None, h)
  end.

(** What [fgets] takes from the input: at most [n] bytes, up to a newline. *)
Fixpoint fgets (n : nat) (bs : list Z) : list Z * list Z :=
  match n, bs with
  | O, _ => ([], bs)
  | _, [] => ([], [])
  | S n, c :: bs =>
    if c =? newline then ([c], bs)
    else let '(l, rest) := fgets n bs in (c :: l, rest)
  end.

(** The loop that collects the input: [buff_input] holds the string [acc] in a
    block of [total_input_size] bytes after each [realloc], and [strcat] has to
    fit into it. [mem] are the answers of [realloc]; none is a return of -1. *)
Fixpoint read_input (fuel : nat) (mem : nat -> bool) (bs acc : list Z)
    (total_input_size : nat) : outcome (option (list Z)) :=
  match fuel with
  | O => Fault OutOfFuel
  | S fuel =>
    match bs with
    | [] => Ret (Some acc)
    | _ =>
      let '(get_buffer, rest) := fgets (Z.to_nat (MAX_STDINPUT_WIDTH - 1)) bs in
      s ← cstr (get_buffer ++ [0]);
      let total_input_size := (total_input_size + length s)%nat in
      if mem fuel then
        if decide (length acc + length s + 1 ≤ total_input_size)%nat
        then read_input fuel mem rest (acc ++ s) total_input_size
        else Fault OutOfBounds
      else Ret None
    end
  end.

(** [strsep] overwrites every delimiter with a zero. *)
Definition separated (s : list Z) : list Z :=
  (fun c => if c =? newline then 0 else c) <$> s.

(** [PushBackString] of every row. *)
Fixpoint push_rows (h : memory) (bg_in2d : BITGREP_INPUT2D) (rows : list (list Z))
    : outcome (memory * BITGREP_INPUT2D) :=
  match rows with
  | [] => Ret (h, bg_in2d)
  | row :: rows =>
    '(h, v) ← VECTOR_PushBackString h (row_count bg_in2d) (buff_2d bg_in2d) row;
    push_rows h (mkInput (row_count bg_in2d + 1) v) rows
  end.

(** The return value and what it filled; [ferr] is [ferror(stdin)]. The block of
    the input is reachable through [buff_input] only, which [strsep] has set to
    null by the time of the last [free]. *)
Definition BITGREP_MapStdinTo2d (mem : nat -> bool) (ferr : bool) (bs : list Z)
    (h : memory) (bg_in2d : BITGREP_INPUT2D)
    : outcome (Z * memory * BITGREP_INPUT2D) :=
  text ← read_input (S (length bs)) mem bs [] 1;
  match text with
  | None => Ret (-1, h, bg_in2d)
  | Some text =>
    if ferr then Ret (-2, h, bg_in2d)
    else
      rows ← strsep_all (S (length text)) newline (Some (text ++ [0]));
      let h := <[hfresh h := Chars (separated text ++ [0])]> h in
      '(h, bg_in2d) ← push_rows h bg_in2d rows;
      Ret (0, h, bg_in2d)
  end.

(** The search from row [i] on. *)
Fixpoint search_rows (n : nat) (i : Z) (target : list Z) (h : memory)
    (bg_in2d : BITGREP_INPUT2D) (bg_found : BITGREP_FOUND)
    : outcome (memory * BITGREP_FOUND) :=
  match n with
  | O => Ret (h, bg_found)
  | S n =>
    x ← vget h (buff_2d bg_in2d) i;
    row ← string_at h x;
    match strstr row target with
    | None => search_rows n (i + 1) target h bg_in2d bg_found
    | Some target_found =>
      '(h, fi) ← VECTOR_PushBackInt h (found_count bg_found) (found_index bg_found) i;
      '(h, bf) ← VECTOR_PushBackString h (found_count bg_found) (buff_found bg_found)
                   target_found;
      search_rows n (i + 1) target h bg_in2d (mkFound (found_count bg_found + 1) fi bf)
    end
  end.

Definition BITGREP_PopulateSearchResult (target : loc) (h : memory)
    (bg_in2d : BITGREP_INPUT2D) (bg_found : BITGREP_FOUND)
    : outcome (memory * BITGREP_FOUND) :=
  t ← string_at h target;
  search_rows (Z.to_nat (row_count bg_in2d)) 0 t h bg_in2d bg_found.

(** The lines printed: the row number and the string. *)
Fixpoint print_found (n : nat) (i : Z) (h : memory) (bg_found : BITGREP_FOUND)
    : outcome (list (Z * list Z)) :=
  match n with
  | O => Ret []
  | S n =>
    k ← vget h (found_index bg_found) i;
    x ← vget h (buff_found bg_found) i;
    s ← string_at h x;
    out ← print_found n (i + 1) h bg_found;
    Ret ((k, s) :: out)
  end.

Definition BITGREP_PrintFound (h : memory) (bg_found : BITGREP_FOUND)
    : outcome (list (Z * list Z)) :=
  print_found (Z.to_nat (found_count bg_found)) 0 h bg_found.

Definition BITGREP_Clear (target : loc) (h : memory) (bg_in2d : BITGREP_INPUT2D)
    (bg_found : BITGREP_FOUND) : outcome memory :=
  h ← hfree h (Some target);
  h ← free_strings (Z.to_nat (row_count bg_in2d)) 0 h (buff_2d bg_in2d);
  h ← vfree h (buff_2d bg_in2d);
  h ← free_strings (Z.to_nat (found_count bg_found)) 0 h (buff_found bg_found);
  h ← vfree h (found_index bg_found);
  vfree h (buff_found bg_found).

(** The exit code, what is printed, and the heap at the end. *)
Definition main (argv : list (list Z)) (mem : nat -> bool) (ferr : bool) (bs : list Z)
    : outcome (Z * list (Z * list Z) * memory) :=
  match BITGREP_FlagParser argv ∅ with
  | (None, h) => Ret (-1, [], h)
  | (Some target, h) =>
    '(status, h, bg_in2d) ← BITGREP_MapStdinTo2d mem ferr bs h (mkInput 0 VNone);
    if status <? 0 then Ret (-2, [], h)
    else
      '(h, bg_found) ← BITGREP_PopulateSearchResult target h bg_in2d (mkFound 0 VNone VNone);
      out ← BITGREP_PrintFound h bg_found;
      h ← BITGREP_Clear target h bg_in2d bg_found;
      Ret (0, out, h)
  end.

(** ** Collecting the input *)

Lemma fgets_run n bs l rest :
  (0 < n)%nat → bs ≠ [] → fgets n bs = (l, rest) → bs = l ++ rest ∧ l ≠ [].
Proof.
  revert bs l rest. induction n as [|n IH]; intros [|c bs] l rest Hn Hbs; [lia|lia|done|].
  cbn [fgets]. destruct (c =? newline); [by intros [= <- <-]|].
  destruct (fgets n bs) as [l' rest'] eqn:E. intros [= <- <-]. split; [|done].
  destruct n as [|n].
  - destruct bs; by simplify_eq/=.
  - destruct bs as [|c' bs]; [by simplify_eq/=|].
    destruct (IH (c' :: bs) l' rest') as [-> _]; [lia|done|done|]. done.
Qed.

Lemma fgets_pos : (0 < Z.to_nat (MAX_STDINPUT_WIDTH - 1))%nat.
Proof. unfold MAX_STDINPUT_WIDTH. lia. Qed.

#[global] Opaque MAX_STDINPUT_WIDTH.

(** With memory at hand and no zero byte in it, all of the input is collected,
    and it always fits. *)
Lemma read_input_run fuel mem bs acc :
  (∀ k, mem k = true) → no_nul bs → (length bs < fuel)%nat →
  read_input fuel mem bs acc (S (length acc)) = Ret (Some (acc ++ bs)).
Proof.
  intros Hmem. revert bs acc. induction fuel as [|fuel IH]; intros bs acc Hn Hf; [lia|].
  cbn [read_input]. destruct bs as [|c bs]; [by rewrite app_nil_r|].
  destruct (fgets (Z.to_nat (MAX_STDINPUT_WIDTH - 1)) (c :: bs)) as [l rest] eqn:E.
  apply fgets_run in E as [E Hl]; [|apply fgets_pos|done]. rewrite E in *.
  unfold no_nul in Hn. rewrite not_elem_of_app in Hn. destruct Hn as [Hnl Hnr].
  rewrite cstr_run by done. cbn [mbind outcome_bind]. rewrite Hmem.
  rewrite decide_True by lia.
  replace (S (length acc) + length l)%nat with (S (length (acc ++ l)))
    by (rewrite length_app; lia).
  rewrite IH; [by rewrite <-app_assoc|done|].
  rewrite length_app in Hf. destruct l; [done|]. simpl in Hf. lia.
Qed.

(** ** Filling the vectors *)

Lemma split_on_no_nul d s : no_nul s → Forall no_nul (split_on d s).
Proof.
  unfold no_nul. induction s as [|c s IH]; intros Hs; simpl.
  - constructor; [apply not_elem_of_nil|constructor].
  - apply not_elem_of_cons in Hs as [Hc Hs]. specialize (IH Hs).
    destruct (c =? d); [constructor; [apply not_elem_of_nil|done]|].
    destruct (split_on d s) as [|l ls]; [constructor; [set_solver|constructor]|].
    apply Forall_cons in IH as [Hl Hls]. constructor; [|done]. by apply not_elem_of_cons.
Qed.

Lemma push_rows_run h F v xs ss rows :
  svec v xs ss h F → Forall no_nul rows →
  ∃ h' xs' v', push_rows h (mkInput (Z.of_nat (length ss)) v) rows =
      Ret (h', mkInput (Z.of_nat (length (ss ++ rows))) v') ∧ svec v' xs' (ss ++ rows) h' F.
Proof.
  revert h xs ss v. induction rows as [|row rows IH]; intros h xs ss v Hs Hn.
  { exists h, xs, v. by rewrite app_nil_r. }
  apply Forall_cons in Hn as [Hr Hn]. cbn [push_rows row_count buff_2d].
  destruct (push_string_run h F v xs ss row Hs Hr) as (h1 & v1 & xs1 & E1 & Hl1 & Hs1).
  rewrite (svec_length _ _ _ _ _ Hs) in E1. rewrite E1. cbn [mbind outcome_bind].
  destruct (IH h1 xs1 (ss ++ [row]) v1) as (h' & xs' & v' & E & Hs'); [done|done|].
  exists h', xs', v'. rewrite <-app_assoc in E, Hs'. split; [|done].
  etrans; [|exact E]. do 2 f_equal. rewrite length_app. simpl. lia.
Qed.

(** The rows that match, with their numbers and tails. *)
Fixpoint hits (target : list Z) (i : Z) (rows : list (list Z)) : list (Z * list Z) :=
  match rows with
  | [] => []
  | row :: rows =>
    match strstr row target with
    | Some r => (i, r) :: hits target (i + 1) rows
    | None => hits target (i + 1) rows
    end
  end.

(** The tail of a string is a string. *)
Lemma strstr_no_nul s t r : no_nul s → strstr s t = Some r → no_nul r.
Proof.
  intros Hs (a & _ & -> & _)%strstr_Some. unfold no_nul in *. rewrite not_elem_of_app in Hs.
  tauto.
Qed.

(** The two vectors of the results beside memory [R]. *)
Definition results (fi : vec Z) (ks : list Z) (vy : vec loc) (ys : list loc) (fs : list (list Z))
    (h R : memory) : Prop :=
  ∃ H, over (elems fi ks) h H ∧ svec vy ys fs H R.

Lemma results_push fi ks vy ys fs h R k s :
  results fi ks vy ys fs h R → length ks = length fs → no_nul s →
  ∃ h1 fi' h' vy' ys', VECTOR_PushBackInt h (Z.of_nat (length fs)) fi k = Ret (h1, fi') ∧
    VECTOR_PushBackString h1 (Z.of_nat (length fs)) vy s = Ret (h', vy') ∧
    results fi' (ks ++ [k]) vy' ys' (fs ++ [s]) h' R.
Proof.
  intros (H & Hi & Hv) Hl Hn. destruct (push_int_run _ _ _ _ k Hi) as (h1 & fi' & E1 & Hi').
  rewrite Hl in E1. exists h1, fi'. pose proof (svec_length _ _ _ _ _ Hv) as Hlv.
  apply svec_over in Hv. destruct (over_swap _ _ _ _ _ Hi' Hv) as (H' & Hv' & Hi2).
  apply svec_over in Hv'. destruct (push_string_run _ _ _ _ _ s Hv' Hn) as (h' & vy' & ys' & E & _ & Hv2).
  rewrite Hlv in E. exists h', vy', ys'. split_and!; [done..|]. apply svec_over in Hv2.
  destruct (over_swap _ _ _ _ _ Hv2 Hi2) as (H2 & Hi3 & Hv3). exists H2. split; [done|by apply svec_over].
Qed.

Lemma results_sub fi ks vy ys fs h R : results fi ks vy ys fs h R → R ⊆ h.
Proof. intros (H & Hi%over_sub & Hv%svec_sub). by etrans. Qed.

(** The rows are among the blocks the results do not own. *)
Lemma search_rows_run target todo done_ h R F xs vx ys fs ks fi vy :
  svec vx xs (done_ ++ todo) R F →
  results fi ks vy ys fs h R → length ks = length fs →
  ∃ h' ys' vy' fi', search_rows (length todo) (Z.of_nat (length done_)) target h
      (mkInput (Z.of_nat (length (done_ ++ todo))) vx)
      (mkFound (Z.of_nat (length fs)) fi vy) =
      Ret (h', mkFound
        (Z.of_nat (length (fs ++ (hits target (Z.of_nat (length done_)) todo).*2))) fi' vy') ∧
    results fi' (ks ++ (hits target (Z.of_nat (length done_)) todo).*1) vy' ys'
      (fs ++ (hits target (Z.of_nat (length done_)) todo).*2) h' R ∧
    (hits target (Z.of_nat (length done_)) todo = [] → fi' = fi).
Proof.
  intros Hrows. revert done_ Hrows h ys fs ks fi vy.
  induction todo as [|row todo IH]; intros done_ Hrows h ys fs ks fi vy Hr Hlen.
  { exists h, ys, vy, fi. simpl. rewrite !app_nil_r. by split_and!. }
  destruct (svec_reads _ _ _ _ _ Hrows) as [Htx Hrd]. pose proof (results_sub _ _ _ _ _ _ _ Hr) as Hsub.
  destruct (texts_at h xs (done_ ++ row :: todo) (length done_) row) as (x & Hx & Hb & Hn);
    [by eapply texts_weaken|by apply list_lookup_middle|].
  cbn [length search_rows buff_2d].
  rewrite (vget_at h vx xs [] _ x); [|rewrite app_nil_r; eapply reads_weaken; [apply Hrd; by intros ->|done]|done].
  cbn [mbind outcome_bind]. rewrite Hb. cbn [mbind outcome_bind].
  assert (Z.of_nat (length done_) + 1 = Z.of_nat (length (done_ ++ [row]))) as Hi
    by (rewrite length_app; simpl; lia).
  assert (done_ ++ row :: todo = (done_ ++ [row]) ++ todo) as Happ by by rewrite <-app_assoc.
  rewrite Happ in *. cbn [hits]. rewrite Hi.
  destruct (strstr row target) as [r|] eqn:Er; [|by apply (IH _ Hrows h ys)].
  pose proof (strstr_no_nul _ _ _ Hn Er) as Hrn. cbn [found_count found_index buff_found].
  destruct (results_push _ _ _ _ _ _ _ (Z.of_nat (length done_)) r Hr Hlen Hrn)
    as (h1 & fi1 & h2 & vy1 & ys1 & -> & E2 & Hr2).
  cbn [mbind outcome_bind]. rewrite E2. cbn [mbind outcome_bind].
  destruct (IH (done_ ++ [row]) Hrows h2 ys1 (fs ++ [r]) (ks ++ [Z.of_nat (length done_)]) fi1 vy1)
    as (h' & ys' & vy' & fi' & E & Hr' & _); [done|rewrite !length_app; simpl; lia|].
  exists h', ys', vy', fi'. rewrite !fmap_cons. cbn [fst snd].
  rewrite <-!app_assoc in Hr'. rewrite <-(app_assoc fs) in E.
  split_and!; [|done..]. etrans; [|exact E]. do 2 f_equal. rewrite length_app. simpl. lia.
Qed.

(** ** Printing and freeing *)

Lemma print_found_run todo kdone sdone ks h ys fi vy n :
  texts h ys (sdone ++ todo) → length kdone = length sdone → length ks = length todo →
  (todo ≠ [] → reads h fi (Some <$> (kdone ++ ks)) ∧ reads h vy (Some <$> ys)) →
  print_found (length todo) (Z.of_nat (length sdone)) h (mkFound n fi vy) = Ret (zip ks todo).
Proof.
  revert kdone sdone ks.
  induction todo as [|s todo IH]; intros kdone sdone [|k ks] Hs Hk Hl Hrd; try done.
  destruct (texts_at _ _ _ (length sdone) s Hs) as (y & Hy & Hb & Hn); [by apply list_lookup_middle|].
  destruct Hrd as [Hfi Hvy]; [done|]. cbn [length print_found found_index buff_found].
  rewrite (vget_at h fi (kdone ++ k :: ks) [] _ k)
    by (rewrite ?app_nil_r; (done || rewrite <-Hk; by apply list_lookup_middle)).
  cbn [mbind outcome_bind]. rewrite (vget_at h vy ys [] _ y) by (by rewrite ?app_nil_r).
  cbn [mbind outcome_bind]. rewrite Hb. cbn [mbind outcome_bind].
  replace (Z.of_nat (length sdone) + 1) with (Z.of_nat (length (sdone ++ [s])))
    by (rewrite length_app; simpl; lia).
  rewrite (IH (kdone ++ [k]) (sdone ++ [s]) ks); rewrite <-?app_assoc; try done.
  - rewrite !length_app. simpl. lia.
  - by injection Hl.
Qed.

(** ** The program *)

(** The lines of the input, in blocks of their own beside the argument and the
    block that was read into. *)
Lemma map_stdin_run mem t bs tl :
  (∀ k, mem k = true) → no_nul t → no_nul bs →
  let lines := split_on newline bs in
  ∃ h l xs v F,
    BITGREP_MapStdinTo2d mem false bs (<[tl := Chars (t ++ [0])]> ∅) (mkInput 0 VNone) =
      Ret (0, h, mkInput (Z.of_nat (length lines)) v) ∧
    svec v xs lines h F ∧ strings F [tl] [t] {[l := Chars (separated bs ++ [0])]}.
Proof.
  intros Hmem Ht Hb lines. unfold BITGREP_MapStdinTo2d.
  rewrite (read_input_run _ _ _ [] Hmem Hb) by lia. cbn [mbind outcome_bind app].
  rewrite strsep_all_run by (done || lia). cbn [mbind outcome_bind]. fold lines.
  set (l := hfresh _). set (h0 := <[l := _]> _).
  assert (l ≠ tl) as Hne.
  { intros Hc. pose proof (hfresh_spec (<[tl:=Chars (t ++ [0])]> (∅ : memory))) as H.
    fold l in H. rewrite Hc, lookup_insert_eq in H. done. }
  destruct (push_rows_run h0 h0 VNone [] [] lines (svec_none _ _)) as (h & xs & v & E & Hs);
    [by apply split_on_no_nul|].
  cbn [app length] in *. change (Z.of_nat 0) with 0 in E. rewrite E. cbn [mbind outcome_bind].
  exists h, l, xs, v, h0. split_and!; [done..|].
  assert (strings (<[tl := Chars (t ++ [0])]> {[l := Chars (separated bs ++ [0])]}) [tl] [t]
    {[l := Chars (separated bs ++ [0])]}) as Ht0.
  { apply (strings_add _ [] [] _ tl t); [apply strings_none| |done]. by apply lookup_singleton_ne. }
  unfold h0. by rewrite insert_insert_ne, insert_empty.
Qed.

(** The argument, the lines and the results are freed; without results the pointer to the
    index was never assigned. *)
Lemma clear_run h tl t xs vx lines ks fi ys vy fs R F L :
  results fi ks vy ys fs h R → svec vx xs lines R F → strings F [tl] [t] L →
  lines ≠ [] → length ks = length fs → (fs = [] → fi = VNone) →
  BITGREP_Clear tl h (mkInput (Z.of_nat (length lines)) vx) (mkFound (Z.of_nat (length fs)) fi vy) =
    if decide (fs = []) then Fault Uninit else Ret L.
Proof.
  intros (H & Hi & Hy) Hx Ht Hne Hl Hnone. apply svec_over in Hy, Hx. apply strings_over in Ht.
  destruct (over_swap _ _ _ _ _ Hx Ht) as (F1 & Ht1 & Hx1).
  destruct (over_swap _ _ _ _ _ Hy Ht1) as (F2 & Ht2 & Hy2).
  destruct (over_swap _ _ _ _ _ Hi Ht2) as (F3 & Ht3 & Hi3).
  destruct (over_swap _ _ _ _ _ Hy2 Hx1) as (F4 & Hx4 & Hy4).
  destruct (over_swap _ _ _ _ _ Hi3 Hx4) as (F5 & Hx5 & Hi5).
  destruct (over_swap _ _ _ _ _ Hi5 Hy4) as (F6 & Hy6 & Hi6).
  apply strings_over in Ht3. apply svec_over in Hx5, Hy6. unfold BITGREP_Clear.
  cbn [row_count buff_2d found_count found_index buff_found]. rewrite !Nat2Z.id.
  destruct (strings_del _ [] tl [] [] t [] _ Ht3 eq_refl) as (Hb & _ & Hd).
  rewrite (hfree_Some _ _ _ Hb). cbn [mbind outcome_bind]. apply strings_nil in Hd as ->.
  pose proof (free_vector_run _ _ _ _ _ Hx5 Hne) as Ef.
  destruct (free_strings (length lines) 0 F3 vx) as [h1|]; [|done]. cbn [mbind outcome_bind] in Ef |- *.
  rewrite Ef. cbn [mbind outcome_bind].
  destruct (free_strings_all _ _ _ _ _ Hy6) as (h2 & -> & Hv2). cbn [mbind outcome_bind].
  destruct (over_swap _ _ _ _ _ Hv2 Hi6) as (F7 & Hi7 & Hv7). case_decide as Hfs.
  - by rewrite Hnone.
  - rewrite elems_cons in Hi7 by (by destruct ks, fs).
    rewrite (vfree_run _ _ _ _ Hi7). cbn [mbind outcome_bind]. eapply vfree_run.
    rewrite elems_cons in Hv7; [exact Hv7|]. intros ->. apply svec_length in Hy6. by destruct fs.
Qed.

(** C35. One argument, no zero bytes in it or in the input, and memory for the input:
    exactly the lines that contain the argument are printed, each with its number
    and from the first place where the argument occurs on; the exit code is 0, and
    of all blocks, those of the strings, of the three arrays, of the argument and of the
    input, the input's is the one that is never freed. When no line matches, the cleanup
    frees two pointers that were never assigned. *)
Theorem grep_spec cmd t mem bs :
  no_nul t → no_nul bs → (∀ k, mem k = true) →
  let found := hits t 0 (split_on newline bs) in
  ∃ l, main [cmd; t] mem false bs =
    if decide (found = []) then Fault Uninit
    else Ret (0, found, {[l := Chars (separated bs ++ [0])]}).
Proof.
  intros Ht Hb Hmem found. unfold main. cbn [BITGREP_FlagParser]. unfold new_string.
  destruct (map_stdin_run mem t bs (hfresh (∅ : memory)) Hmem Ht Hb)
    as (h & l & xs & vx & F & -> & Hx & HF).
  exists l. cbn [mbind outcome_bind]. change (0 <? 0) with false. cbn iota.
  unfold BITGREP_PopulateSearchResult. set (lines := split_on newline bs) in *.
  destruct (texts_at h [hfresh (∅ : memory)] [t] O t) as (? & [= <-] & Etl & _); [|done|].
  { eapply texts_weaken; [by eapply strings_texts|by eapply svec_sub]. }
  rewrite Etl. cbn [mbind outcome_bind row_count]. rewrite Nat2Z.id.
  destruct (search_rows_run t lines [] h h F xs vx [] [] [] VNone VNone Hx)
    as (h' & ys & vy & fi & E & Hr & Hnone); [|done|].
  { exists h. split; [by apply elems_nil|apply svec_none]. }
  cbn [app length] in *. change (Z.of_nat 0) with 0 in *. rewrite E. cbn [mbind outcome_bind].
  fold found in Hr, Hnone |- *.
  unfold BITGREP_PrintFound. cbn [found_count]. rewrite Nat2Z.id.
  rewrite (print_found_run found.*2 [] [] found.*1 h' ys fi vy);
    [| |done|by rewrite !length_fmap|].
  - cbn [mbind outcome_bind].
    rewrite (clear_run h' _ t xs vx lines found.*1 fi ys vy found.*2 h F _ Hr Hx HF).
    + rewrite zip_fst_snd. destruct (decide (found = [])) as [->|Hf]; [done|].
      rewrite decide_False; [done|]. by intros ?%fmap_nil_inv.
    + apply split_on_not_nil.
    + by rewrite !length_fmap.
    + by intros ?%fmap_nil_inv%Hnone.
  - destruct Hr as (H & Hi & Hv). destruct (svec_reads _ _ _ _ _ Hv) as [Htx _].
    eapply texts_weaken; [exact Htx|by eapply over_sub].
  - intros Hf. destruct Hr as (H & Hi & Hv). destruct (svec_reads _ _ _ _ _ Hv) as [_ Hrd]. split.
    + rewrite elems_cons in Hi by (by destruct found). by eapply reads_over.
    + eapply reads_weaken; [apply Hrd|by eapply over_sub]. intros ->. apply svec_length in Hv.
      by destruct found.
Qed.

Lemma grep_spec_witness :
  ∃ l, main [[103]; [97]] (fun _ => true) false [98; 97; 99; 10; 100; 10; 97] =
    Ret (0, [(0, [97; 99]); (2, [97])], {[l := Chars [98; 97; 99; 0; 100; 0; 97; 0]]}).
Proof.
  destruct (grep_spec [103] [97] (fun _ => true) [98; 97; 99; 10; 100; 10; 97]) as [l E].
  - by apply (bool_decide_unpack (0 ∉ [97])).
  - by apply (bool_decide_unpack (0 ∉ [98; 97; 99; 10; 100; 10; 97])).
  - done.
  - exists l. rewrite E. by rewrite decide_False.
Defined.

(** The error paths: a wrong number of arguments, an error on the input, and no
    memory for the first piece of it. *)
Lemma grep_errors argv cmd t mem bs :
  (length argv ≠ 2%nat → main argv mem false bs = Ret (-1, [], ∅)) ∧
  (no_nul bs → (∀ k, mem k = true) →
   main [cmd; t] mem true bs = Ret (-2, [], <[hfresh (∅ : memory) := Chars (t ++ [0])]> ∅)) ∧
  (no_nul bs → bs ≠ [] → (∀ k, mem k = false) →
   main [cmd; t] mem false bs = Ret (-2, [], <[hfresh (∅ : memory) := Chars (t ++ [0])]> ∅)).
Proof.
  split_and!.
  - intros Hl. unfold main. by destruct argv as [|? [|? [|? ?]]].
  - intros Hb Hmem. unfold main. cbn [BITGREP_FlagParser]. unfold new_string.
    unfold BITGREP_MapStdinTo2d. by rewrite (read_input_run _ _ _ [] Hmem Hb) by lia.
  - intros Hb Hne Hmem. unfold main. cbn [BITGREP_FlagParser]. unfold new_string.
    unfold BITGREP_MapStdinTo2d. cbn [read_input]. destruct bs as [|c bs]; [done|].
    destruct (fgets _ _) as [l rest] eqn:E.
    apply fgets_run in E as [E _]; [|apply fgets_pos|done].
    rewrite cstr_run, Hmem; [done|]. unfold no_nul in *. rewrite E in Hb.
    rewrite not_elem_of_app in Hb. tauto.
Qed.
