(* ===== verification/FileTools.v ===== *)
(** * Counting, printing and hexadecimal text ([var-wc], [var-cat], [data-hex])

    [wc.c] and [cat.c] read a whole file into a block of exactly its size and
    hand the block to string functions; [hex.c] prints bytes as hexadecimal text
    and reads them back. What the system calls answer is part of the input: a
    [file_env] has the contents of the file and the results of [fopen], [fseek],
    [ftell], [fread] and [ferror].

    The theorems: the hexadecimal text of any bytes reads back as the bytes; the
    counters count what is before the first zero byte of the file; and for a file
    without a zero byte, which is every text file, both tools read past the end of
    their block, as does the program of [data-hex]. *)

From stdpp Require Import base tactics numbers list.
From S2P Require Import Prelude CStr.

Local Open Scope Z_scope.

(** ** Reading a file *)

Record file_env := mkFile {
  opens : bool;
  seeks_end : bool;
  tells : bool;
  seeks_set : bool;
  read_fails : bool;
  contents : list Z;
  read_len : nat;
}.

(** [memset] and [fread]: what was read, and zeros behind it. *)
Definition file_block (f : file_env) : list Z :=
  take (read_len f) (contents f) ++
  replicate (length (contents f) - length (take (read_len f) (contents f))) 0.

(** The return value, the buffer if it was assigned, and the length; [byte_len]
    was zero before the call. *)
Definition WC_get_buff_from_file_path (f : file_env) : Z * option (list Z) * Z :=
  if negb (opens f) then (-1, None, 0)
  else if seeks_end f then
    if negb (tells f) then (-2, None, 0)
    else if negb (seeks_set f) then (-3, None, 0)
    else if read_fails f then (-4, Some (file_block f), 0)
    else let n := Z.of_nat (length (take (read_len f) (contents f))) in
      (s32 n, Some (file_block f), n)
  else (0, None, 0).

(** ** The counters *)

Definition newline_delim : Z := 10.
Definition words_delim : Z := 32.

(** [malloc], [memset] and [memcpy] of the [byte_len] bytes; no byte is read
    when the length is zero. *)
Definition target_buff (byte_len : Z) (buff : option (list Z)) : outcome (list Z) :=
  match buff with
  | None => if byte_len =? 0 then Ret [] else Fault Uninit
  | Some b => memcpy (replicate (Z.to_nat byte_len) 0) b byte_len
  end.

Definition WC_count_line_from_buff (byte_len : Z) (buff : option (list Z)) : outcome Z :=
  b ← target_buff byte_len buff;
  lines ← strsep_all (S (length b)) newline_delim (Some b);
  Ret (u64 (Z.of_nat (length lines))).

Definition WC_count_word_from_buff (byte_len : Z) (buff : option (list Z)) : outcome Z :=
  b ← target_buff byte_len buff;
  words ← strtok_all words_delim [] b;
  Ret (u64 (Z.of_nat (length words))).

Definition WC_free_buff (buff : option (list Z)) : outcome unit :=
  match buff with None => Fault Uninit | Some _ => Ret tt end.

(** The lines, words and bytes printed, or nothing after an error. *)
Definition WC_default_summary (f : file_env) : outcome (option (Z * Z * Z)) :=
  let '(status, buff, byte_len) := WC_get_buff_from_file_path f in
  if status <? 0 then Ret None
  else
    lc ← WC_count_line_from_buff byte_len buff;
    wc ← WC_count_word_from_buff byte_len buff;
    _ ← WC_free_buff buff;
    Ret (Some (lc, wc, u64 byte_len)).

(** ** Printing a file *)

Definition BITCAT_GetFileIntoBuffer (f : file_env) : Z * option (list Z) :=
  if negb (opens f) then (-1, None)
  else if seeks_end f then
    if negb (tells f) then (-2, None)
    else if negb (seeks_set f) then (-3, None)
    else if read_fails f then (-4, Some (file_block f))
    else (s32 (Z.of_nat (length (take (read_len f) (contents f)))), Some (file_block f))
  else (0, None).

Definition BITCAT_PrintBuffer (buff : option (list Z)) : outcome (list Z) :=
  match buff with None => Fault Uninit | Some b => cstr b end.

(** The exit code and the text printed; [argc] is the number of words. *)
Definition cat_main (argc : Z) (f : file_env) : outcome (Z * list Z) :=
  if negb (argc =? 2) then Ret (-1, [])
  else
    let '(status, buff) := BITCAT_GetFileIntoBuffer f in
    if status <? 0 then Ret (status, [])
    else out ← BITCAT_PrintBuffer buff; Ret (0, out).

(** ** Hexadecimal text *)

(** A digit as [%X] prints it. *)
Definition hex_digit (d : Z) : Z := if d <? 10 then 48 + d else 55 + d.

Definition hex_val (c : Z) : option Z :=
  if (48 <=? c) && (c <=? 57) then Some (c - 48)
  else if (65 <=? c) && (c <=? 70) then Some (c - 55)
  else if (97 <=? c) && (c <=? 102) then Some (c - 87)
  else None.

(** [sprintf(p + o, "%02X", b)]: two digits and the terminating zero. *)
Definition sprintf_02X (p : list Z) (o b : Z) : outcome (list Z) :=
  p ← awrite p o (hex_digit (b / 16));
  p ← awrite p (o + 1) (hex_digit (b mod 16));
  awrite p (o + 2) 0.

Fixpoint bin2hex_from (n : nat) (i : Z) (bytearray hexarray : list Z) : outcome (list Z) :=
  match n with
  | O => Ret hexarray
  | S n =>
    b ← aread bytearray i;
    hexarray ← sprintf_02X hexarray (2 * i) b;
    bin2hex_from n (i + 1) bytearray hexarray
  end.

(** A length that went beyond [int] is a request [malloc] cannot meet. *)
Definition bin2hex (arrlen : Z) (bytearray : list Z) : outcome (list Z) :=
  let outstrlen := s32 (2 * arrlen + 1) in
  if outstrlen <? 0 then Fault NullDeref
  else bin2hex_from (Z.to_nat arrlen) 0 bytearray (replicate (Z.to_nat outstrlen) 0).

Definition is_space (c : Z) : bool := (c =? 32) || (9 <=? c) && (c <=? 13).

Fixpoint skip_space (s : list Z) : list Z :=
  match s with
  | c :: s' => if is_space c then skip_space s' else s
  | [] => []
  end.

(** [sscanf(s, "%2x", &n)]: [n] afterwards. White space is not counted; a sign
    is; when the text is no number, [0x] alone included, [n] stays. *)
Definition sscanf_2x (s : list Z) (n : Z) : Z :=
  match skip_space s with
  | [] => n
  | c1 :: s =>
    let second := match s with c2 :: _ => hex_val c2 | [] => None end in
    match hex_val c1, second with
    | Some d1, Some d2 => 16 * d1 + d2
    | Some d1, None =>
      match s with
      | c2 :: _ => if (c1 =? 48) && ((c2 =? 120) || (c2 =? 88)) then n else d1
      | [] => d1
      end
    | None, Some d => if c1 =? 43 then d else if c1 =? 45 then u32 (- d) else n
    | None, None => n
    end
  end.

Fixpoint hex2bin_from (k : nat) (i n : Z) (hexarray chararray : list Z) : outcome (list Z) :=
  match k with
  | O => Ret chararray
  | S k =>
    s ← cstr (drop (Z.to_nat (2 * i)) hexarray);
    let n := sscanf_2x s n in
    chararray ← awrite chararray i (u8 n);
    _ ← aread hexarray (2 * i);
    _ ← aread hexarray (2 * i + 1);
    hex2bin_from k (i + 1) n hexarray chararray
  end.

Definition hex2bin (hexarray : list Z) : outcome (list Z) :=
  hexlen ← strlen hexarray;
  let outstrlen := Z.quot (s32 hexlen) 2 in
  if outstrlen <? 0 then Fault NullDeref
  else hex2bin_from (Z.to_nat outstrlen) 0 0 hexarray (replicate (Z.to_nat outstrlen) 0).

(** The text [main] converts, and the two texts it prints. *)
Definition hex_test : list Z := [98; 108; 97; 104; 98; 108; 97; 104; 98; 108; 97; 104].

Definition hex_main : outcome (list Z * list Z) :=
  hex ← bin2hex (Z.of_nat (length hex_test)) (hex_test ++ [0]);
  out1 ← cstr hex;
  bin ← hex2bin hex;
  out2 ← cstr bin;
  Ret (out1, out2).

(** ** The round trip *)

Lemma hex_digit_spec d :
  0 ≤ d < 16 →
  hex_val (hex_digit d) = Some d ∧ is_space (hex_digit d) = false ∧ hex_digit d ≠ 0.
Proof.
  intros Hd. unfold hex_digit, hex_val, is_space.
  destruct (Z.ltb_spec d 10); repeat case_match; split_and!; try (f_equal; lia); lia.
Qed.

(** The digits of some bytes. *)
Definition hexs (bs : list Z) : list Z :=
  bs ≫= fun b => [hex_digit (b / 16); hex_digit (b mod 16)].

Lemma hexs_app bs cs : hexs (bs ++ cs) = hexs bs ++ hexs cs.
Proof. apply bind_app. Qed.

Lemma hexs_length bs : length (hexs bs) = (2 * length bs)%nat.
Proof.
  induction bs as [|b bs IH]; [done|].
  change (hexs (b :: bs)) with ([hex_digit (b / 16); hex_digit (b mod 16)] ++ hexs bs).
  rewrite length_app, IH. simpl. lia.
Qed.

Lemma byte_digits b : fits 8 b → 0 ≤ b / 16 < 16 ∧ 0 ≤ b mod 16 < 16.
Proof.
  unfold fits. change (2 ^ 8) with 256. intros Hb.
  split; [|apply Z.mod_pos_bound; lia].
  split; [apply Z.div_pos; lia|apply Z.div_lt_upper_bound; lia].
Qed.

Lemma hexs_no_nul bs : bytes bs → no_nul (hexs bs).
Proof.
  unfold no_nul. induction 1 as [|b bs Hb _ IH]; [apply not_elem_of_nil|].
  apply byte_digits in Hb as [Hh Hl]. apply hex_digit_spec in Hh as (_ & _ & Hh).
  apply hex_digit_spec in Hl as (_ & _ & Hl).
  change (hexs (b :: bs)) with (hex_digit (b / 16) :: hex_digit (b mod 16) :: hexs bs).
  rewrite !not_elem_of_cons. done.
Qed.

Lemma sscanf_hexs b bs n : fits 8 b → sscanf_2x (hexs (b :: bs)) n = b.
Proof.
  intros Hb. pose proof (byte_digits _ Hb) as [Hh Hl].
  destruct (hex_digit_spec _ Hh) as (Eh & Sh & _). destruct (hex_digit_spec _ Hl) as (El & _ & _).
  change (hexs (b :: bs)) with (hex_digit (b / 16) :: hex_digit (b mod 16) :: hexs bs).
  unfold sscanf_2x. cbn [skip_space]. rewrite Sh, Eh, El. rewrite <-Z.div_mod; lia.
Qed.

Lemma sprintf_run l x y z r b o :
  o = Z.of_nat (length l) →
  sprintf_02X (l ++ x :: y :: z :: r) o b =
    Ret (l ++ hex_digit (b / 16) :: hex_digit (b mod 16) :: 0 :: r).
Proof.
  intros ->. unfold sprintf_02X. rewrite awrite_mid by done. cbn [mbind outcome_bind].
  rewrite snoc_app, awrite_mid by (rewrite length_app; simpl; lia). cbn [mbind outcome_bind].
  rewrite snoc_app, awrite_mid by (rewrite !length_app; simpl; lia).
  by rewrite <-!app_assoc.
Qed.

Lemma bin2hex_from_run todo before rest :
  bytes todo →
  bin2hex_from (length todo) (Z.of_nat (length before)) (before ++ todo ++ rest)
    (hexs before ++ replicate (2 * length todo + 1) 0) = Ret (hexs (before ++ todo) ++ [0]).
Proof.
  intros Ht. revert before. induction Ht as [|b todo Hb _ IH]; intros before.
  { by rewrite app_nil_r. }
  replace (2 * length (b :: todo) + 1)%nat with (S (S (S (2 * length todo)))) by (simpl; lia).
  cbn [length bin2hex_from replicate app].
  rewrite (aread_mid before (todo ++ rest)) by done. cbn [mbind outcome_bind].
  rewrite sprintf_run by (rewrite hexs_length; lia). cbn [mbind outcome_bind].
  specialize (IH (before ++ [b])). rewrite length_app, (hexs_app before [b]) in IH.
  cbn [length] in IH. rewrite <-!app_assoc in IH. cbn [app] in IH.
  replace (2 * length todo + 1)%nat with (S (2 * length todo)) in IH by lia.
  etrans; [|exact IH]. f_equal. lia.
Qed.

Lemma hex2bin_from_run todo before n :
  bytes todo →
  hex2bin_from (length todo) (Z.of_nat (length before)) n (hexs (before ++ todo) ++ [0])
    (before ++ replicate (length todo) 0) = Ret (before ++ todo).
Proof.
  intros Ht. revert before n. induction Ht as [|b todo Hb Ht IH]; intros before n; [done|].
  cbn [length hex2bin_from replicate]. rewrite hexs_app, <-app_assoc.
  replace (Z.to_nat (2 * Z.of_nat (length before))) with (length (hexs before))
    by (rewrite hexs_length; lia).
  rewrite drop_app_length, cstr_run by (apply hexs_no_nul; by constructor).
  cbn [mbind outcome_bind]. rewrite sscanf_hexs by done.
  rewrite awrite_mid by done. cbn [mbind outcome_bind]. rewrite wrap_small by done.
  change (hexs (b :: todo)) with (hex_digit (b / 16) :: hex_digit (b mod 16) :: hexs todo).
  cbn [app].
  rewrite (aread_mid _ _ _ (2 * Z.of_nat (length before))) by (rewrite hexs_length; lia).
  cbn [mbind outcome_bind].
  rewrite snoc_app, aread_mid by (rewrite length_app, hexs_length; simpl; lia). cbn [mbind outcome_bind].
  specialize (IH (before ++ [b]) b). rewrite length_app, hexs_app in IH. cbn [length] in IH.
  rewrite hexs_app, <-!app_assoc in IH. cbn [app] in IH.
  rewrite <-app_assoc. cbn [app]. etrans; [|exact IH]. f_equal. lia.
Qed.

(** The hexadecimal text of any bytes, which has twice their number of digits,
    reads back as the bytes; no write or read leaves its block. *)
Theorem hex_roundtrip bs rest :
  bytes bs → Z.of_nat (length bs) < 2 ^ 30 →
  ∃ hex, bin2hex (Z.of_nat (length bs)) (bs ++ rest) = Ret hex ∧
    strlen hex = Ret (2 * Z.of_nat (length bs)) ∧ hex2bin hex = Ret bs.
Proof.
  intros Hb Hl. exists (hexs bs ++ [0]).
  assert (strlen (hexs bs ++ [0]) = Ret (2 * Z.of_nat (length bs))) as Hlen.
  { unfold strlen. rewrite cstr_run by by apply hexs_no_nul. cbn [mbind outcome_bind].
    f_equal. rewrite hexs_length. lia. }
  split_and!; [|done|].
  - unfold bin2hex. rewrite s32_small by lia. rewrite (proj2 (Z.ltb_ge _ _)) by lia.
    rewrite Nat2Z.id. replace (Z.to_nat (2 * Z.of_nat (length bs) + 1))
      with (2 * length bs + 1)%nat by lia.
    apply (bin2hex_from_run bs [] rest Hb).
  - unfold hex2bin. rewrite Hlen. cbn [mbind outcome_bind]. rewrite s32_small by lia.
    rewrite Z.mul_comm, Z.quot_mul by lia. rewrite (proj2 (Z.ltb_ge _ _)) by lia.
    rewrite Nat2Z.id. apply (hex2bin_from_run bs [] 0 Hb).
Qed.

Lemma hex_roundtrip_witness :
  ∃ hex, bin2hex 3 ([0; 171; 255] ++ []) = Ret hex ∧ strlen hex = Ret 6 ∧
    hex2bin hex = Ret [0; 171; 255].
Proof.
  apply (hex_roundtrip [0; 171; 255] []); [|done].
  repeat constructor; unfold fits; lia.
Defined.

(** ** Files *)

(** Every call succeeds and the whole file is read; its length is an [int]. *)
Definition readable (f : file_env) : Prop :=
  opens f = true ∧ seeks_end f = true ∧ tells f = true ∧ seeks_set f = true ∧
  read_fails f = false ∧ (length (contents f) ≤ read_len f)%nat ∧
  Z.of_nat (length (contents f)) < 2 ^ 31.

Lemma file_block_run f : readable f → file_block f = contents f.
Proof.
  intros (_ & _ & _ & _ & _ & Hl & _). unfold file_block.
  by rewrite take_ge, Nat.sub_diag, app_nil_r.
Qed.

Lemma get_buff_run f :
  readable f → let n := Z.of_nat (length (contents f)) in
  WC_get_buff_from_file_path f = (n, Some (contents f), n) ∧
  BITCAT_GetFileIntoBuffer f = (n, Some (contents f)).
Proof.
  intros Hr n. pose proof Hr as (H1 & H2 & H3 & H4 & H5 & Hl & Hn).
  unfold WC_get_buff_from_file_path, BITCAT_GetFileIntoBuffer.
  rewrite H1, H2, H3, H4, H5, file_block_run, take_ge, s32_small by (done || lia). done.
Qed.

Lemma target_buff_run b : target_buff (Z.of_nat (length b)) (Some b) = Ret b.
Proof. apply memcpy_all; [|done]. by rewrite length_replicate, Nat2Z.id. Qed.

Lemma reverse_ne {A} (x : A) l : reverse (x :: l) ≠ [].
Proof. intros H%(f_equal length). by rewrite length_reverse in H. Qed.

(** The tokens of [strtok] are the pieces that are not empty. *)
Lemma strtok_run d tok s b :
  no_nul s →
  strtok_all d tok (s ++ 0 :: b) = Ret (filter (fun w => w ≠ [])
    match split_on d s with [] => [] | t :: ts => (reverse tok ++ t) :: ts end).
Proof.
  unfold no_nul. revert tok. induction s as [|c s IH]; intros tok Hs.
  { cbn [app strtok_all split_on]. rewrite Z.eqb_refl, app_nil_r, filter_cons.
    destruct tok as [|c tok]; [by rewrite decide_False by auto|].
    rewrite decide_True by by apply reverse_ne. done. }
  apply not_elem_of_cons in Hs as [Hc Hs]. cbn [app strtok_all split_on].
  rewrite (proj2 (Z.eqb_neq c 0)) by congruence.
  pose proof (split_on_not_nil d s) as Hne. destruct (c =? d).
  - rewrite IH by done. cbn [mbind outcome_bind]. destruct (split_on d s) as [|t ts]; [done|].
    rewrite reverse_nil, app_nil_r. cbn [app]. rewrite (filter_cons _ (reverse tok)).
    destruct tok as [|c' tok]; [by rewrite decide_False by auto|].
    by rewrite decide_True by by apply reverse_ne.
  - rewrite IH by done. destruct (split_on d s) as [|t ts]; [done|].
    by rewrite reverse_cons, <-app_assoc.
Qed.

(** A file with a zero byte in it: the tool counts the newlines and the words
    before the zero byte, the last line ended or not, and all the bytes. *)
Theorem wc_counts f s rest :
  readable f → contents f = s ++ 0 :: rest → no_nul s →
  WC_default_summary f = Ret (Some (
    Z.of_nat (length (split_on newline_delim s)),
    Z.of_nat (length (filter (fun w => w ≠ []) (split_on words_delim s))),
    Z.of_nat (length (contents f)))).
Proof.
  intros Hr Hf Hs. pose proof Hr as (_ & _ & _ & _ & _ & _ & Hn).
  unfold WC_default_summary. destruct (get_buff_run f Hr) as [-> _].
  rewrite (proj2 (Z.ltb_ge _ _)) by lia.
  unfold WC_count_line_from_buff, WC_count_word_from_buff. rewrite !target_buff_run.
  cbn [mbind outcome_bind]. rewrite Hf in *. rewrite length_app in Hn |- *. cbn [length] in *.
  rewrite strsep_all_run by (done || lia). cbn [mbind outcome_bind].
  rewrite strtok_run by done. cbn [mbind outcome_bind WC_free_buff].
  assert (match split_on words_delim s with [] => [] | t :: ts => (reverse [] ++ t) :: ts end =
    split_on words_delim s) as -> by by destruct (split_on words_delim s).
  pose proof (split_on_length newline_delim s) as Hlines.
  pose proof (split_on_length words_delim s) as Hwords.
  pose proof (length_filter (fun w : list Z => w ≠ []) (split_on words_delim s)) as Hfilter.
  by rewrite !wrap_small by (unfold fits; lia).
Qed.

Lemma wc_counts_witness :
  WC_default_summary (mkFile true true true true false [97; 32; 98; 10; 99; 0; 10] 7) =
    Ret (Some (2, 2, 7)).
Proof.
  apply (wc_counts (mkFile true true true true false [97; 32; 98; 10; 99; 0; 10] 7)
    [97; 32; 98; 10; 99] [10]); [by repeat split; try lia|done|].
  unfold no_nul. rewrite !not_elem_of_cons. split_and!; try lia. apply not_elem_of_nil.
Defined.

(** A file without a zero byte: the block has no terminator, and counting lines
    and printing both read past its end. *)
Theorem file_tools_overrun f :
  readable f → no_nul (contents f) →
  WC_default_summary f = Fault OutOfBounds ∧ cat_main 2 f = Fault OutOfBounds.
Proof.
  intros Hr Hn. destruct (get_buff_run f Hr) as [Hw Hc].
  unfold WC_default_summary, cat_main, WC_count_line_from_buff. rewrite Hw, Hc.
  change (negb (2 =? 2)) with false. cbn iota.
  rewrite (proj2 (Z.ltb_ge _ _)) by lia. rewrite target_buff_run. cbn [mbind outcome_bind].
  rewrite strsep_overrun by (done || lia). cbn [BITCAT_PrintBuffer].
  by rewrite cstr_overrun.
Qed.

Lemma file_tools_overrun_witness :
  let f := mkFile true true true true false [97; 10] 2 in
  WC_default_summary f = Fault OutOfBounds ∧ cat_main 2 f = Fault OutOfBounds.
Proof.
  apply (file_tools_overrun (mkFile true true true true false [97; 10] 2));
    [by repeat split; try lia|].
  unfold no_nul. cbn [contents]. rewrite !not_elem_of_cons. split_and!; try done. apply not_elem_of_nil.
Defined.

(** The program of [data-hex] prints the bytes it read back as a string, and their
    block has no room for a terminator. *)
Lemma hex_main_overruns : hex_main = Fault OutOfBounds.
Proof. vm_compute. reflexivity. Qed.
