(* ===== verification/Gpio.v ===== *)
(** * Frames over two GPIO lines ([kdev-gpio-irqsock])

    [kgpio_irqsk.c] is a network device that sends a frame as pulses on a control
    and a data line and receives frames in the interrupt handlers of the two lines
    of the other side. Three control pulses before a data pulse mark the start and
    the end of a frame; in between every data pulse is a bit, and a control pulse
    before it says that its value differs from the one of the bit before.

    [gpio_tx] gives the list of pulses, and the handlers are functions on the state
    of the receiver, so that a transmission is the run of the handlers over the
    pulses. The pulses arrive in the order they were sent, one interrupt for each
    ([SYNC_UDELAY] is there for that). The theorems: a frame arrives as it was sent
    and leaves the receiver ready for the next, for every frame that fits into
    [MAX_PKTLEN]; what the driver does with longer frames, with a second frame before
    the first was polled, and when the device is opened; and that the module
    initialisation gives back what it took whenever it fails. *)

From stdpp Require Import base tactics numbers list.
From S2P Require Import Prelude.

Local Open Scope Z_scope.

(** [MAX_PKTLEN] and the kernel's [ETH_DATA_LEN], [ETH_ZLEN] and [ETH_ALEN]. *)
Definition MAX_PKTLEN : Z := 1500.
Definition MAX_Q_LEN : Z := 1.
Definition ETH_DATA_LEN : Z := 1500.
Definition ETH_ZLEN : Z := 60.
Definition ETH_ALEN : Z := 6.
Definition lockup : Z := 0.

Definition zeros (n : Z) : list Z := replicate (Z.to_nat n) 0.

(** ** Sending *)

(** A pulse on one of the lines. *)
Inductive pulse := Ctl | Data.

(** [gpio_ctl_on] and [gpio_data_on]. *)
Definition gpio_ctl_on : list pulse := [Ctl].
Definition gpio_data_on : list pulse := [Data].

Definition CHECK_BIT (var pos : Z) : bool := negb (Z.land var (Z.shiftl 1 pos) =? 0).

(** The inner loop from bit [j] on, [n] bits; the pulses and [comms_mode_o]. *)
Fixpoint tx_bits (n : nat) (j d : Z) (comms_mode_o : bool) : list pulse * bool :=
  match n with
  | O => ([], comms_mode_o)
  | S n =>
    let bit := CHECK_BIT d j in
    let ctl :=
      if bit then if negb comms_mode_o then gpio_ctl_on else []
      else if comms_mode_o then gpio_ctl_on else [] in
    let '(ps, mode) := tx_bits n (j + 1) d bit in
    (ctl ++ gpio_data_on ++ ps, mode)
  end.

Fixpoint tx_bytes (data : list Z) (comms_mode_o : bool) : list pulse * bool :=
  match data with
  | [] => ([], comms_mode_o)
  | d :: data =>
    let '(ps, mode) := tx_bits 8 0 d comms_mode_o in
    let '(qs, mode) := tx_bytes data mode in
    (ps ++ qs, mode)
  end.

Definition gpio_mark : list pulse := gpio_ctl_on ++ gpio_ctl_on ++ gpio_ctl_on ++ gpio_data_on.

(** [comms_mode_o] is zero again when it returns. *)
Definition gpio_tx (data : list Z) (comms_mode_o : bool) : list pulse * bool :=
  (gpio_mark ++ (tx_bytes data comms_mode_o).1 ++ gpio_mark, false).

(** ** The device *)

Record receiver := mkRx {
  comms_mode_i : bool;
  ctl_bits_count : Z;
  data_bits_count : Z;
  i_value : list Z;
}.

Record queue := mkQ {
  i_q_ptr : Z;
  i_q_len : list Z;
  i_q : list (list Z);
}.

Record geth_stats := mkGStats {
  tx_packets : Z;
  tx_bytes_count : Z;
  tx_errors : Z;
  rx_packets : Z;
  rx_bytes : Z;
  rx_dropped : Z;
}.

(** [up] are the frames given to [netif_receive_skb], the last one first. *)
Record geth := mkGeth {
  mode_o : bool;
  rx : receiver;
  q : queue;
  stats : geth_stats;
  napi_scheduled : bool;
  queue_stopped : bool;
  up : list (list Z);
}.

Definition idle_rx : receiver := mkRx false 0 0 (zeros MAX_PKTLEN).

(** The state the module starts in. *)
Definition geth_init : geth :=
  mkGeth false idle_rx (mkQ (-1) (zeros MAX_Q_LEN) (replicate (Z.to_nat MAX_Q_LEN) (zeros MAX_PKTLEN)))
    (mkGStats 0 0 0 0 0 0) false false [].

Definition set_rx (r : receiver) (g : geth) : geth :=
  mkGeth (mode_o g) r (q g) (stats g) (napi_scheduled g) (queue_stopped g) (up g).

(** What was received goes to the next place of the queue. *)
Definition geth_napi_interrupt (g : geth) : outcome geth :=
  let ptr := i_q_ptr (q g) + 1 in
  let len := data_bits_count (rx g) / 8 in
  lens ← awrite (i_q_len (q g)) ptr len;
  slot ← aread (i_q (q g)) ptr;
  slot ← memcpy slot (i_value (rx g)) len;
  slots ← awrite (i_q (q g)) ptr slot;
  Ret (mkGeth (mode_o g) (rx g) (mkQ ptr lens slots) (stats g) true (queue_stopped g) (up g)).

Definition gpio_ctl_irq_handler (g : geth) : geth :=
  let r := rx g in
  set_rx (mkRx (comms_mode_i r) (ctl_bits_count r + 1) (data_bits_count r) (i_value r)) g.

(** [prod]: both the incoming and the outgoing lines are set; otherwise what was
    received is printed only. *)
Definition gpio_data_irq_handler (prod : bool) (g : geth) : outcome geth :=
  let r := rx g in
  if ctl_bits_count r =? 3 then
    let g := set_rx (mkRx (comms_mode_i r) 0 (data_bits_count r) (i_value r)) g in
    if data_bits_count r =? 0 then Ret g
    else
      g ← (if prod then geth_napi_interrupt g else Ret g);
      Ret (set_rx (mkRx false 0 0 (zeros MAX_PKTLEN)) g)
  else
    let toggles := ctl_bits_count r =? 1 in
    let ctl := if toggles then 0 else ctl_bits_count r in
    let mode := if toggles then negb (comms_mode_i r) else comms_mode_i r in
    let pktidx := data_bits_count r / 8 in
    let bitidx := data_bits_count r mod 8 in
    v ← aread (i_value r) pktidx;
    value ← awrite (i_value r) pktidx
      (u8 (Z.lor v (Z.shiftl (if mode then 1 else 0) bitidx)));
    Ret (set_rx (mkRx mode ctl (data_bits_count r + 1) value) g).

Definition on_pulse (prod : bool) (p : pulse) (g : geth) : outcome geth :=
  match p with
  | Ctl => Ret (gpio_ctl_irq_handler g)
  | Data => gpio_data_irq_handler prod g
  end.

Fixpoint on_pulses (prod : bool) (ps : list pulse) (g : geth) : outcome geth :=
  match ps with
  | [] => Ret g
  | p :: ps => g ← on_pulse prod p g; on_pulses prod ps g
  end.

Definition count_rx (len : Z) (s : geth_stats) : geth_stats :=
  mkGStats (tx_packets s) (tx_bytes_count s) (tx_errors s) (u64 (rx_packets s + 1))
    (u64 (rx_bytes s + len)) (rx_dropped s).
Definition count_drop (s : geth_stats) : geth_stats :=
  mkGStats (tx_packets s) (tx_bytes_count s) (tx_errors s) (rx_packets s) (rx_bytes s)
    (u64 (rx_dropped s + 1)).
Definition count_tx (len : Z) (s : geth_stats) : geth_stats :=
  mkGStats (u64 (tx_packets s + 1)) (u64 (tx_bytes_count s + len)) (tx_errors s)
    (rx_packets s) (rx_bytes s) (rx_dropped s).
Definition count_timeout (s : geth_stats) : geth_stats :=
  mkGStats (tx_packets s) (tx_bytes_count s) (u64 (tx_errors s + 1)) (rx_packets s)
    (rx_bytes s) (rx_dropped s).

(** The loop of [geth_poll]; [mem] are the answers of [dev_alloc_skb]. *)
Fixpoint poll_loop (fuel : nat) (mem : Z -> bool) (pkt : list Z) (npackets budget : Z) (g : geth)
    : outcome (Z * geth) :=
  match fuel with
  | O => Fault OutOfFuel
  | S fuel =>
    if (npackets <? budget) && negb (i_q_ptr (q g) + 1 =? 0) then
      let q' := mkQ (i_q_ptr (q g) - 1) (i_q_len (q g)) (i_q (q g)) in
      if mem npackets then
        poll_loop fuel mem pkt (npackets + 1) budget
          (mkGeth (mode_o g) (rx g) q' (count_rx (Z.of_nat (length pkt)) (stats g))
             (napi_scheduled g) (queue_stopped g) (pkt :: up g))
      else
        poll_loop fuel mem pkt (npackets + 1) budget
          (mkGeth (mode_o g) (rx g) q' (count_drop (stats g))
             (napi_scheduled g) (queue_stopped g) (up g))
    else Ret (npackets, g)
  end.

(** The packet is copied once, before the loop; [napi_complete_done] ends the
    scheduling when the budget was not used up. *)
Definition geth_poll (mem : Z -> bool) (budget : Z) (g : geth) : outcome (Z * geth) :=
  datalen ← aread (i_q_len (q g)) (i_q_ptr (q g));
  slot ← aread (i_q (q g)) (i_q_ptr (q g));
  data ← memcpy (zeros ETH_DATA_LEN) slot datalen;
  '(npackets, g) ← poll_loop (S (Z.to_nat budget)) mem (take (Z.to_nat datalen) data) 0 budget g;
  Ret (npackets,
    if npackets <? budget
    then mkGeth (mode_o g) (rx g) (q g) (stats g) false (queue_stopped g) (up g)
    else g).

(** The headers are read for the log: the addresses, the protocol (17 is UDP, 6 is
    TCP), and the ports when it is one of these. *)
Definition log_headers (buf : list Z) : outcome unit :=
  _ ← aread buf 11;
  _ ← aread buf 33;
  protocol ← aread buf 23;
  if (protocol =? 17) || (protocol =? 6) then _ ← aread buf 37; Ret tt else Ret tt.

Definition geth_hw_tx (buf : list Z) (g : geth) : outcome (list pulse * geth) :=
  let len := Z.of_nat (length buf) in
  if len <? 14 + 20 then Ret ([], g)
  else
    _ ← log_headers buf;
    let '(ps, mode) := gpio_tx buf (mode_o g) in
    let stats := count_tx len (stats g) in
    let stopped :=
      if negb (lockup =? 0) && ((tx_packets stats + 1) mod lockup =? 0) then true
      else queue_stopped g in
    Ret (ps, mkGeth mode (rx g) (q g) stats (napi_scheduled g) stopped (up g)).

(** The pulses of a frame; a short one is filled up with zeros. *)
Definition geth_xmit (skb : list Z) (g : geth) : outcome (list pulse * geth) :=
  if Z.of_nat (length skb) <? ETH_ZLEN then
    shortpkt ← memcpy (zeros ETH_ZLEN) skb (Z.of_nat (length skb));
    geth_hw_tx shortpkt g
  else geth_hw_tx skb g.

Definition geth_tx_timeout (g : geth) : outcome geth :=
  g ← geth_napi_interrupt g;
  Ret (mkGeth (mode_o g) (rx g) (q g) (count_timeout (stats g)) (napi_scheduled g) false (up g)).

Definition geth_stop (g : geth) : geth :=
  mkGeth (mode_o g) (rx g) (q g) (stats g) false true (up g).

(** The decimal digits of a natural number below [10^(n+1)]. *)
Fixpoint digits (n : nat) (z : Z) (acc : list Z) : list Z :=
  match n with
  | O => (48 + z mod 10) :: acc
  | S n => if z <? 10 then (48 + z) :: acc else digits n (z / 10) ((48 + z mod 10) :: acc)
  end.

(** An [int] as [%d] prints it. *)
Definition print_int (z : Z) : list Z :=
  if z <? 0 then 45 :: digits 9 (- z) [] else digits 9 z [].

(** [sprintf(macaddr, "GETH0%d", val)] into the [ETH_ALEN] bytes; the address. *)
Definition geth_open (gpio_data_i gpio_ctl_i : Z) (g : geth) : outcome (list Z * geth) :=
  let text := [71; 69; 84; 72; 48] ++ print_int (s32 (gpio_data_i - gpio_ctl_i)) ++ [0] in
  macaddr ← memcpy (zeros ETH_ALEN) text (Z.of_nat (length text));
  Ret (macaddr, mkGeth (mode_o g) (rx g) (q g) (stats g) (napi_scheduled g) false (up g)).

(** ** Receiving what was sent *)

Lemma CHECK_BIT_spec d j : 0 ≤ j → CHECK_BIT d j = Z.testbit d j.
Proof.
  intros Hj. unfold CHECK_BIT. rewrite Z.shiftl_1_l.
  assert (Z.land d (2 ^ j) = if Z.testbit d j then 2 ^ j else 0) as ->.
  { apply Z.bits_inj'. intros k Hk. rewrite Z.land_spec, Z.pow2_bits_eqb by done.
    destruct (Z.eqb_spec j k) as [->|Hne].
    - destruct (Z.testbit d k); [|by rewrite Z.bits_0].
      by rewrite Z.pow2_bits_eqb, Z.eqb_refl.
    - rewrite andb_false_r. destruct (Z.testbit d j); [|by rewrite Z.bits_0].
      rewrite Z.pow2_bits_eqb by done. symmetry. by apply Z.eqb_neq. }
  destruct (Z.testbit d j); [|done].
  apply negb_true_iff, Z.eqb_neq. pose proof (Z.pow_pos_nonneg 2 j). lia.
Qed.

(** One more bit of a byte. *)
Lemma low_bits_step d j :
  0 ≤ j → Z.lor (d mod 2 ^ j) (Z.shiftl (if Z.testbit d j then 1 else 0) j) = d mod 2 ^ (j + 1).
Proof.
  intros Hj. apply Z.bits_inj'. intros k Hk. rewrite Z.lor_spec, Z.shiftl_spec by done.
  destruct (Z.lt_trichotomy k j) as [Hlt|[->|Hgt]].
  - rewrite (Z.testbit_neg_r _ (k - j)) by lia. rewrite !Z.mod_pow2_bits_low by lia.
    by rewrite orb_false_r.
  - rewrite Z.sub_diag, Z.mod_pow2_bits_high, Z.mod_pow2_bits_low by lia.
    by destruct (Z.testbit d j).
  - rewrite !Z.mod_pow2_bits_high by lia. destruct (Z.testbit d j); [|by rewrite Z.bits_0].
    rewrite Z.bits_above_log2; [done|done|]. change (Z.log2 1) with 0. lia.
Qed.

Definition ctl_pulses (b mode : bool) : list pulse :=
  if b then if negb mode then gpio_ctl_on else [] else if mode then gpio_ctl_on else [].

Lemma tx_bits_S n j d mode :
  0 ≤ j →
  tx_bits (S n) j d mode =
    (ctl_pulses (Z.testbit d j) mode ++ Data :: (tx_bits n (j + 1) d (Z.testbit d j)).1,
     (tx_bits n (j + 1) d (Z.testbit d j)).2).
Proof.
  intros Hj. cbn [tx_bits]. rewrite CHECK_BIT_spec by done.
  by destruct (tx_bits n (j + 1) d (Z.testbit d j)).
Qed.

Lemma rx_set_rx r g : rx (set_rx r g) = r.
Proof. done. Qed.

Lemma set_rx_set_rx r r' g : set_rx r (set_rx r' g) = set_rx r g.
Proof. done. Qed.

(** A bit of a byte arrives. *)
Lemma rx_bit prod ps g b mode k value :
  on_pulses prod (ctl_pulses b mode ++ Data :: ps) (set_rx (mkRx mode 0 k value) g) =
    (v ← aread value (k / 8);
     value ← awrite value (k / 8) (u8 (Z.lor v (Z.shiftl (if b then 1 else 0) (k mod 8))));
     on_pulses prod ps (set_rx (mkRx b 0 (k + 1) value) g)).
Proof.
  assert (on_pulses prod (ctl_pulses b mode ++ Data :: ps) (set_rx (mkRx mode 0 k value) g) =
    (g ← gpio_data_irq_handler prod
       (set_rx (mkRx mode (if Bool.eqb b mode then 0 else 1) k value) g);
     on_pulses prod ps g)) as -> by by destruct b, mode.
  unfold gpio_data_irq_handler. rewrite rx_set_rx.
  cbn [comms_mode_i ctl_bits_count data_bits_count i_value].
  destruct (Bool.eqb b mode) eqn:Eb.
  - apply eqb_prop in Eb as ->. change (0 =? 3) with false. change (0 =? 1) with false. cbn iota.
    destruct (aread value (k / 8)) as [v|]; [|done]. cbn [mbind outcome_bind].
    by destruct (awrite _ _ _).
  - apply eqb_false_iff in Eb. assert (mode = negb b) as -> by by destruct b, mode.
    change (1 =? 3) with false. change (1 =? 1) with true. cbn iota.
    rewrite negb_involutive.
    destruct (aread value (k / 8)) as [v|]; [|done]. cbn [mbind outcome_bind].
    by destruct (awrite _ _ _).
Qed.

Lemma rx_bits prod ps g n j d mode p before after v :
  0 ≤ j → j + Z.of_nat n = 8 → p = Z.of_nat (length before) → v = d mod 2 ^ j →
  on_pulses prod ((tx_bits n j d mode).1 ++ ps)
    (set_rx (mkRx mode 0 (8 * p + j) (before ++ v :: after)) g) =
  on_pulses prod ps
    (set_rx (mkRx (tx_bits n j d mode).2 0 (8 * p + 8) (before ++ d mod 2 ^ 8 :: after)) g).
Proof.
  intros Hj Hn -> ->. revert j mode Hj Hn. induction n as [|n IH]; intros j mode Hj Hn.
  { by replace j with 8 by lia. }
  rewrite tx_bits_S by done. cbn [fst snd]. rewrite <-app_assoc. cbn [app]. rewrite rx_bit.
  replace ((8 * Z.of_nat (length before) + j) / 8) with (Z.of_nat (length before)).
  2: { rewrite (Z.mul_comm 8), Z.div_add_l, Z.div_small by lia. lia. }
  replace ((8 * Z.of_nat (length before) + j) mod 8) with j.
  2: { rewrite (Z.mul_comm 8), Z.add_comm, Z.mod_add, Z.mod_small by lia. done. }
  rewrite (aread_Some _ _ (d mod 2 ^ j)); [|lia|by rewrite Nat2Z.id, list_lookup_middle].
  cbn [mbind outcome_bind]. rewrite low_bits_step by done.
  rewrite (awrite_Some _ _ (d mod 2 ^ j)); [|lia|by rewrite Nat2Z.id, list_lookup_middle].
  cbn [mbind outcome_bind]. rewrite Nat2Z.id, insert_app_r_alt, Nat.sub_diag by lia.
  cbn [list_insert]. rewrite wrap_small.
  - rewrite <-Z.add_assoc. apply IH; lia.
  - unfold fits. pose proof (Z.mod_pos_bound d (2 ^ (j + 1))).
    pose proof (Z.pow_le_mono_r 2 (j + 1) 8). lia.
Qed.

Lemma tx_bytes_cons d data mode :
  tx_bytes (d :: data) mode =
    ((tx_bits 8 0 d mode).1 ++ (tx_bytes data (tx_bits 8 0 d mode).2).1,
     (tx_bytes data (tx_bits 8 0 d mode).2).2).
Proof.
  change (tx_bytes (d :: data) mode) with
    (let '(ps, mode) := tx_bits 8 0 d mode in
     let '(qs, mode) := tx_bytes data mode in (ps ++ qs, mode)).
  destruct (tx_bits 8 0 d mode) as [ps m]. cbn [fst snd]. by destruct (tx_bytes data m).
Qed.

(** Bytes arrive, as long as there is room for them. *)
Lemma rx_bytes_run prod ps g data mode before after :
  bytes data →
  on_pulses prod ((tx_bytes data mode).1 ++ ps)
    (set_rx (mkRx mode 0 (8 * Z.of_nat (length before))
       (before ++ replicate (length data) 0 ++ after)) g) =
  on_pulses prod ps
    (set_rx (mkRx (tx_bytes data mode).2 0 (8 * Z.of_nat (length (before ++ data)))
       (before ++ data ++ after)) g).
Proof.
  intros Hd. revert mode before. induction Hd as [|d data Hd _ IH]; intros mode before.
  { by rewrite app_nil_r. }
  rewrite tx_bytes_cons. cbn [fst snd length replicate app]. rewrite <-app_assoc.
  pose proof (rx_bits prod ((tx_bytes data (tx_bits 8 0 d mode).2).1 ++ ps) g 8 0 d mode
    (Z.of_nat (length before)) before (replicate (length data) 0 ++ after) 0) as Hb.
  rewrite Z.add_0_r in Hb. rewrite Hb; [|lia|lia|done|by rewrite Z.pow_0_r, Z.mod_1_r].
  rewrite (wrap_small 8 d Hd : d mod 2 ^ 8 = d).
  specialize (IH (tx_bits 8 0 d mode).2 (before ++ [d])). rewrite <-!app_assoc in IH.
  cbn [app] in IH. rewrite <-IH. do 3 f_equal. rewrite length_app. simpl. lia.
Qed.

(** Three control pulses and a data pulse. *)
Lemma rx_mark prod ps g mode k value :
  on_pulses prod (gpio_mark ++ ps) (set_rx (mkRx mode 0 k value) g) =
    if k =? 0 then on_pulses prod ps (set_rx (mkRx mode 0 k value) g)
    else
      g ← (if prod then geth_napi_interrupt (set_rx (mkRx mode 0 k value) g)
           else Ret (set_rx (mkRx mode 0 k value) g));
      on_pulses prod ps (set_rx idle_rx g).
Proof.
  cbn [gpio_mark gpio_ctl_on gpio_data_on app on_pulses on_pulse mbind outcome_bind].
  unfold gpio_ctl_irq_handler, gpio_data_irq_handler. rewrite !rx_set_rx, !set_rx_set_rx.
  cbn [comms_mode_i ctl_bits_count data_bits_count i_value].
  change (0 + 1 + 1 + 1 =? 3) with true. cbn iota. destruct (k =? 0); [done|].
  destruct prod; [|done]. by destruct (geth_napi_interrupt _).
Qed.

Lemma zeros_split (data : list Z) n :
  Z.of_nat (length data) ≤ n →
  zeros n = replicate (length data) 0 ++ zeros (n - Z.of_nat (length data)).
Proof. intros Hl. unfold zeros. rewrite <-replicate_add. f_equal. lia. Qed.

(** A frame on a receiver that waits for one: in [prod] mode the interrupt gets
    it, and the receiver waits for the next. *)
Lemma rx_frame prod g data :
  bytes data → 0 < Z.of_nat (length data) ≤ MAX_PKTLEN → rx g = idle_rx →
  on_pulses prod (gpio_tx data false).1 g =
    g ← (if prod then geth_napi_interrupt (set_rx (mkRx (tx_bytes data false).2 0
           (8 * Z.of_nat (length data))
           (data ++ zeros (MAX_PKTLEN - Z.of_nat (length data)))) g)
         else Ret g);
    Ret (set_rx idle_rx g).
Proof.
  intros Hd Hl Hr. cbn [gpio_tx fst].
  replace g with (set_rx (mkRx false 0 0 (zeros MAX_PKTLEN)) g) at 1
    by (unfold set_rx; fold idle_rx; rewrite <-Hr; by destruct g).
  rewrite rx_mark. change (0 =? 0) with true. cbn iota.
  rewrite (zeros_split data) by lia.
  pose proof (rx_bytes_run prod gpio_mark g data false []
    (zeros (MAX_PKTLEN - Z.of_nat (length data))) Hd) as Hb.
  cbn [length app] in Hb. change (8 * Z.of_nat 0) with 0 in Hb. rewrite Hb.
  rewrite <-(app_nil_r gpio_mark), rx_mark. rewrite (proj2 (Z.eqb_neq _ _)) by lia.
  destruct prod; [|done]. by destruct (geth_napi_interrupt _).
Qed.

(** The queue is empty and has its place. *)
Definition ready (g : geth) : Prop :=
  rx g = idle_rx ∧ i_q_ptr (q g) = -1 ∧ (∃ n, i_q_len (q g) = [n]) ∧
  ∃ slot, i_q (q g) = [slot] ∧ Z.of_nat (length slot) = MAX_PKTLEN.

(** The state with a frame in the queue. *)
Definition holds_frame (g : geth) (data : list Z) : Prop :=
  rx g = idle_rx ∧ i_q_ptr (q g) = 0 ∧ i_q_len (q g) = [Z.of_nat (length data)] ∧
  ∃ rest, i_q (q g) = [data ++ rest] ∧ Z.of_nat (length (data ++ rest)) = MAX_PKTLEN.

Lemma receive_run g data :
  ready g → bytes data → 0 < Z.of_nat (length data) ≤ MAX_PKTLEN →
  ∃ g', on_pulses true (gpio_tx data false).1 g = Ret g' ∧ holds_frame g' data ∧
    napi_scheduled g' = true ∧ up g' = up g ∧ stats g' = stats g ∧ mode_o g' = mode_o g.
Proof.
  intros (Hr & Hp & (n & Hn) & slot & Hs & Hl) Hd Hlen. rewrite rx_frame by done.
  unfold geth_napi_interrupt, set_rx. cbn [q rx data_bits_count i_value].
  rewrite Hp, Hn, Hs. change (-1 + 1) with 0. rewrite (Z.mul_comm 8), Z.div_mul by lia.
  rewrite (awrite_Some [n] 0 n), (aread_Some [slot] 0 slot) by done.
  cbn [mbind outcome_bind].
  rewrite memcpy_run by (rewrite ?length_app; lia). rewrite Nat2Z.id, take_app_length.
  cbn [mbind outcome_bind]. rewrite (awrite_Some [slot] 0 slot) by done.
  cbn [mbind outcome_bind]. eexists. split; [done|]. split_and!; try done.
  split_and!; [done..|]. exists (drop (length data) slot). split; [done|].
  rewrite length_app, length_drop. lia.
Qed.

(** A poll gives the frame to the network stack and empties the queue. *)
Lemma poll_run g data mem budget :
  holds_frame g data → 1 < budget → mem 0 = true →
  ∃ g', geth_poll mem budget g = Ret (1, g') ∧ ready g' ∧ up g' = data :: up g ∧
    stats g' = count_rx (Z.of_nat (length data)) (stats g) ∧ napi_scheduled g' = false ∧
    mode_o g' = mode_o g.
Proof.
  intros (Hr & Hp & Hn & rest & Hs & Hl) Hb Hmem. unfold geth_poll. rewrite Hp, Hn, Hs.
  rewrite length_app in Hl.
  rewrite (aread_Some _ _ (Z.of_nat (length data))), (aread_Some _ _ (data ++ rest)) by done.
  cbn [mbind outcome_bind].
  rewrite memcpy_run; [|unfold zeros, ETH_DATA_LEN, MAX_PKTLEN in *; rewrite length_replicate; lia|
    rewrite length_app; lia].
  cbn [mbind outcome_bind]. rewrite Nat2Z.id, take_app_length.
  assert (∀ l : list Z, take (length data) (data ++ l) = data) as Htake
    by (intros l; apply take_app_length).
  rewrite Htake. destruct (Z.to_nat budget) as [|k] eqn:Ek; [lia|].
  cbn [poll_loop]. rewrite (proj2 (Z.ltb_lt 0 budget)) by lia. rewrite Hp.
  change (negb (0 + 1 =? 0)) with true. cbn [andb]. rewrite Hmem.
  cbn [q i_q_ptr]. change (negb (0 - 1 + 1 =? 0)) with false. rewrite andb_false_r.
  cbn [mbind outcome_bind]. change (0 + 1) with 1. rewrite (proj2 (Z.ltb_lt 1 budget)) by lia.
  eexists. split; [done|]. split_and!; try done.
  split_and!; [done|done|by eexists|]. exists (data ++ rest). cbn [q i_q].
  rewrite Hs, length_app. done.
Qed.

(** ** From one host to the other *)

(** What of a frame goes over the wire. *)
Definition padded (skb : list Z) : list Z := skb ++ zeros (ETH_ZLEN - Z.of_nat (length skb)).

Lemma padded_min skb : ETH_ZLEN ≤ Z.of_nat (length (padded skb)).
Proof.
  unfold padded, zeros. rewrite length_app, length_replicate. unfold ETH_ZLEN. lia.
Qed.

Lemma zeros_bytes n : bytes (zeros n).
Proof. apply Forall_replicate. by vm_compute. Qed.

Lemma padded_bytes skb : bytes skb → bytes (padded skb).
Proof. intros Hb. apply Forall_app. split; [done|apply zeros_bytes]. Qed.

Lemma aread_below buf i : 0 ≤ i < Z.of_nat (length buf) → ∃ c : Z, aread buf i = Ret c.
Proof.
  intros Hi. destruct (lookup_lt_is_Some_2 buf (Z.to_nat i)) as [c Hc]; [lia|].
  exists c. by apply aread_Some; [lia|].
Qed.

Lemma log_headers_run buf : 38 ≤ Z.of_nat (length buf) → log_headers buf = Ret tt.
Proof.
  intros Hl. unfold log_headers.
  destruct (aread_below buf 11) as [c1 ->]; [lia|]. cbn [mbind outcome_bind].
  destruct (aread_below buf 33) as [c2 ->]; [lia|]. cbn [mbind outcome_bind].
  destruct (aread_below buf 23) as [c3 ->]; [lia|]. cbn [mbind outcome_bind].
  destruct (_ || _); [|done]. by destruct (aread_below buf 37) as [c4 ->]; [lia|].
Qed.

Lemma geth_xmit_run skb g :
  ∃ g', geth_xmit skb g = Ret ((gpio_tx (padded skb) (mode_o g)).1, g') ∧ mode_o g' = false ∧
    rx g' = rx g ∧ q g' = q g ∧ up g' = up g.
Proof.
  assert (∃ g', geth_hw_tx (padded skb) g = Ret ((gpio_tx (padded skb) (mode_o g)).1, g') ∧
    mode_o g' = false ∧ rx g' = rx g ∧ q g' = q g ∧ up g' = up g) as (g' & E & H).
  { unfold geth_hw_tx. pose proof (padded_min skb). unfold ETH_ZLEN in *.
    rewrite (proj2 (Z.ltb_ge _ _)) by lia. rewrite log_headers_run by lia.
    eexists. by split_and!. }
  exists g'. split; [|done]. rewrite <-E. unfold geth_xmit.
  destruct (Z.ltb_spec (Z.of_nat (length skb)) ETH_ZLEN) as [Hlt|Hge].
  - rewrite memcpy_run; [|unfold zeros, ETH_ZLEN in *; rewrite length_replicate; lia|lia].
    rewrite Nat2Z.id, take_ge by done. cbn [mbind outcome_bind]. unfold padded, zeros.
    rewrite drop_replicate. do 3 f_equal. lia.
  - unfold padded, zeros. replace (Z.to_nat _) with 0%nat by lia. by rewrite app_nil_r.
Qed.

(** A frame is sent by [a], and [b] receives and polls it. *)
Definition transfer (mem : Z -> bool) (budget : Z) (skb : list Z) (ab : geth * geth)
    : outcome (geth * geth) :=
  '(ps, a) ← geth_xmit skb ab.1;
  b ← on_pulses true ps ab.2;
  '(_, b) ← geth_poll mem budget b;
  Ret (a, b).

Fixpoint transfers (mem : Z -> bool) (budget : Z) (skbs : list (list Z)) (ab : geth * geth)
    : outcome (geth * geth) :=
  match skbs with
  | [] => Ret ab
  | skb :: skbs => ab ← transfer mem budget skb ab; transfers mem budget skbs ab
  end.

Lemma transfer_run mem budget skb a b :
  mode_o a = false → ready b → bytes skb → Z.of_nat (length (padded skb)) ≤ MAX_PKTLEN →
  1 < budget → mem 0 = true →
  ∃ a' b', transfer mem budget skb (a, b) = Ret (a', b') ∧ mode_o a' = false ∧ ready b' ∧
    up b' = padded skb :: up b.
Proof.
  intros Ha Hb Hs Hl Hbud Hmem. unfold transfer. cbn [fst snd].
  destruct (geth_xmit_run skb a) as (a' & -> & Ha' & _). cbn [mbind outcome_bind]. rewrite Ha.
  pose proof (padded_min skb) as Hmin. unfold ETH_ZLEN in Hmin.
  destruct (receive_run b (padded skb) Hb (padded_bytes _ Hs)) as (b1 & -> & Hh & _ & Hup & _);
    [lia|]. cbn [mbind outcome_bind].
  destruct (poll_run b1 (padded skb) mem budget Hh Hbud Hmem) as (b' & -> & Hr & Hup' & _).
  cbn [mbind outcome_bind]. exists a', b'. split_and!; [done..|]. by rewrite Hup', Hup.
Qed.

(** C16. Any sequence of frames, each of which fits into [MAX_PKTLEN] bytes and is polled
    before the next one comes in, goes over the two lines without a fault: the
    frames are given to the network stack of the other host in the order they were
    sent, each with the bytes it had and filled up with zeros to the minimal length. *)
Theorem gpio_frames_delivered mem budget skbs a b :
  mode_o a = false → ready b →
  Forall (fun skb => bytes skb ∧ Z.of_nat (length (padded skb)) ≤ MAX_PKTLEN) skbs →
  1 < budget → mem 0 = true →
  ∃ a' b', transfers mem budget skbs (a, b) = Ret (a', b') ∧ mode_o a' = false ∧ ready b' ∧
    up b' = reverse (padded <$> skbs) ++ up b.
Proof.
  intros Ha Hb Hs Hbud Hmem. revert a b Ha Hb.
  induction Hs as [|skb skbs [Hd Hl] _ IH]; intros a b Ha Hb; [by exists a, b|].
  cbn [transfers].
  destruct (transfer_run mem budget skb a b Ha Hb Hd Hl Hbud Hmem)
    as (a1 & b1 & -> & Ha1 & Hb1 & Hup). cbn [mbind outcome_bind].
  destruct (IH a1 b1 Ha1 Hb1) as (a' & b' & -> & Ha' & Hb' & Hup'). exists a', b'.
  split_and!; [done..|]. rewrite Hup', Hup, fmap_cons, reverse_cons, <-app_assoc. done.
Qed.

Lemma geth_init_ready : ready geth_init.
Proof. split_and!; [done|done|by exists 0|]. by eexists. Qed.

Lemma gpio_frames_delivered_witness :
  ∃ a' b', transfers (fun _ => true) 2 [[1; 2; 3]; [255]] (geth_init, geth_init) = Ret (a', b') ∧
    mode_o a' = false ∧ ready b' ∧ up b' = reverse (padded <$> [[1; 2; 3]; [255]]) ++ [].
Proof.
  apply (gpio_frames_delivered (fun _ => true) 2 [[1; 2; 3]; [255]] geth_init geth_init).
  - done.
  - apply geth_init_ready.
  - constructor; [|constructor; [|constructor]];
      (split; [by apply (bool_decide_unpack (Forall (fits 8) _))|done]).
  - lia.
  - done.
Defined.

(** ** What the limits do *)

(** A bit for a byte behind the last one. *)
Lemma rx_bit_beyond prod ps g b mode k value :
  Z.of_nat (length value) ≤ k / 8 →
  on_pulses prod (ctl_pulses b mode ++ Data :: ps) (set_rx (mkRx mode 0 k value) g) =
    Fault OutOfBounds.
Proof.
  intros Hk. rewrite rx_bit. unfold aread. rewrite (proj2 (Z.ltb_ge _ _)) by lia.
  by rewrite lookup_ge_None_2 by lia.
Qed.

Lemma tx_bytes_app x y mode :
  (tx_bytes (x ++ y) mode).1 = (tx_bytes x mode).1 ++ (tx_bytes y (tx_bytes x mode).2).1.
Proof.
  revert mode. induction x as [|d x IH]; intros mode; [done|]. cbn [app].
  rewrite !tx_bytes_cons. cbn [fst snd]. by rewrite IH, app_assoc.
Qed.

Lemma rx_overrun prod ps g x d rest :
  bytes x → Z.of_nat (length x) = MAX_PKTLEN → rx g = idle_rx →
  on_pulses prod (gpio_mark ++ (tx_bytes (x ++ d :: rest) false).1 ++ ps) g = Fault OutOfBounds.
Proof.
  intros Hb Hl Hr.
  replace g with (set_rx (mkRx false 0 0 (zeros MAX_PKTLEN)) g)
    by (unfold set_rx; fold idle_rx; rewrite <-Hr; by destruct g).
  rewrite rx_mark. change (0 =? 0) with true. cbn iota.
  rewrite tx_bytes_app, <-app_assoc.
  pose proof (rx_bytes_run prod ((tx_bytes (d :: rest) (tx_bytes x false).2).1 ++ ps) g x false
    [] [] Hb) as H.
  cbn [length app] in H. rewrite !app_nil_r in H. change (8 * Z.of_nat 0) with 0 in H.
  replace (zeros MAX_PKTLEN) with (replicate (length x) 0)
    by (unfold zeros; f_equal; lia).
  rewrite H, tx_bytes_cons. cbn [fst]. rewrite tx_bits_S by lia. cbn [fst].
  rewrite <-!app_assoc. cbn [app]. apply rx_bit_beyond.
  rewrite Z.mul_comm, Z.div_mul; lia.
Qed.

(** A frame longer than [MAX_PKTLEN], which the MTU of an Ethernet device allows
    with its header, leaves the buffer of the receiver. *)
Theorem gpio_long_frame_overruns g skb a :
  ready g → bytes skb → MAX_PKTLEN < Z.of_nat (length skb) → mode_o a = false →
  ∃ ps a', geth_xmit skb a = Ret (ps, a') ∧ on_pulses true ps g = Fault OutOfBounds.
Proof.
  intros (Hr & _) Hb Hl Ha. destruct (geth_xmit_run skb a) as (a' & E & _).
  eexists _, a'. split; [exact E|]. rewrite Ha.
  assert (padded skb = skb) as ->.
  { unfold padded, zeros. unfold MAX_PKTLEN, ETH_ZLEN in *.
    replace (Z.to_nat _) with 0%nat by lia. apply app_nil_r. }
  destruct (lookup_lt_is_Some_2 skb (Z.to_nat MAX_PKTLEN)) as [d Hd]; [unfold MAX_PKTLEN in *; lia|].
  apply list_elem_of_split_length in Hd as (x & rest & -> & Hx).
  apply Forall_app in Hb as [Hb _]. apply rx_overrun; [done|rewrite <-Hx; unfold MAX_PKTLEN; lia|done].
Qed.

Lemma gpio_long_frame_overruns_witness :
  ∃ ps a', geth_xmit (zeros 1514) geth_init = Ret (ps, a') ∧
    on_pulses true ps geth_init = Fault OutOfBounds.
Proof.
  apply gpio_long_frame_overruns; [apply geth_init_ready|apply zeros_bytes|by vm_compute|done].
Defined.

(** The queue has one place: a second frame before the first was polled leaves it. *)
Theorem gpio_second_frame_overruns g first second :
  holds_frame g first → bytes second → 0 < Z.of_nat (length second) ≤ MAX_PKTLEN →
  on_pulses true (gpio_tx second false).1 g = Fault OutOfBounds.
Proof.
  intros (Hr & Hp & Hn & _) Hb Hl. rewrite rx_frame by done.
  unfold geth_napi_interrupt, set_rx. cbn [q]. rewrite Hp, Hn. done.
Qed.

Lemma gpio_second_frame_overruns_witness :
  ∃ g, on_pulses true (gpio_tx [7] false).1 geth_init = Ret g ∧
    on_pulses true (gpio_tx [8] false).1 g = Fault OutOfBounds.
Proof.
  destruct (receive_run geth_init [7]) as (g & E & Hg & _);
    [apply geth_init_ready|repeat constructor; unfold fits; lia|unfold MAX_PKTLEN; simpl; lia|].
  exists g. split; [exact E|]. apply (gpio_second_frame_overruns g [7] [8] Hg).
  - repeat constructor; unfold fits; lia.
  - unfold MAX_PKTLEN. simpl. lia.
Defined.

Lemma digits_length n z acc : (length acc < length (digits n z acc))%nat.
Proof.
  revert z acc. induction n as [|n IH]; intros z acc; cbn [digits]; [simpl; lia|].
  destruct (z <? 10); [simpl; lia|]. specialize (IH (z / 10) ((48 + z mod 10) :: acc)).
  simpl in IH. lia.
Qed.

(** Opening the device writes at least seven bytes into the six of the address,
    whatever the numbers of the lines are. *)
Theorem geth_open_overruns gpio_data_i gpio_ctl_i g :
  geth_open gpio_data_i gpio_ctl_i g = Fault OutOfBounds.
Proof.
  unfold geth_open. set (p := print_int _).
  assert (0 < length p)%nat as Hp.
  { unfold p, print_int. destruct (_ <? 0); [simpl; lia|]. apply (digits_length 9 _ []). }
  unfold memcpy. rewrite decide_False; [done|]. rewrite !length_app. simpl. lia.
Qed.

(** A transmission timeout while the receiver waits puts an empty frame into the
    queue, which the next poll gives to the network stack. *)
Lemma geth_timeout_spurious g mem budget :
  ready g → 1 < budget → mem 0 = true →
  ∃ g1 g2, geth_tx_timeout g = Ret g1 ∧ geth_poll mem budget g1 = Ret (1, g2) ∧
    up g2 = [] :: up g.
Proof.
  intros (Hr & Hp & (n & Hn) & slot & Hs & Hl) Hb Hmem.
  assert (∃ g1, geth_tx_timeout g = Ret g1 ∧ holds_frame g1 [] ∧ up g1 = up g)
    as (g1 & E1 & Hh & Hup).
  { unfold geth_tx_timeout, geth_napi_interrupt. rewrite Hp, Hn, Hs, Hr.
    change (-1 + 1) with 0. change (data_bits_count idle_rx / 8) with 0.
    rewrite (awrite_Some [n] 0 n), (aread_Some [slot] 0 slot) by done. cbn [mbind outcome_bind].
    rewrite memcpy_run by (unfold MAX_PKTLEN in *; lia). cbn [mbind outcome_bind].
    rewrite (awrite_Some [slot] 0 slot) by done. cbn [mbind outcome_bind].
    eexists. split; [done|]. split; [|done]. split_and!; [done..|]. by exists slot. }
  destruct (poll_run g1 [] mem budget Hh Hb Hmem) as (g2 & E2 & _ & Hup2 & _).
  exists g1, g2. split_and!; [done..|]. by rewrite Hup2, Hup.
Qed.
