(* ===== verification/GpioInit.v ===== *)
(** * Loading and unloading the GPIO device ([kdev-gpio-irqsock])

    [ksock_gpio_init] takes lines, interrupts and a network device one after the
    other and has to give back what it has when a step fails; [ksock_gpio_exit] gives
    back everything. What is taken is a set of resources; the answers of the kernel
    calls are an input, and a line or an interrupt that is taken cannot be requested
    again. The theorem: nothing is given back that was not taken, a failed
    initialisation leaves the resources as it found them, and so does loading and
    unloading. *)

From stdpp Require Import base tactics numbers list gmap fin_sets.
From S2P Require Import Prelude.

Local Open Scope Z_scope.

(** A line, an interrupt, the device and its registration. *)
Inductive resource :=
  | Line (n : Z)
  | Irq (n : Z)
  | Netdev
  | Registered.

#[export] Instance resource_eq_dec : EqDecision resource.
Proof. solve_decision. Defined.

#[export] Instance resource_countable : Countable resource.
Proof.
  apply (inj_countable'
    (fun r => match r with Line n => inl n | Irq n => inr (inl n) | Netdev => inr (inr true)
              | Registered => inr (inr false) end)
    (fun x => match x with inl n => Line n | inr (inl n) => Irq n | inr (inr true) => Netdev
              | inr (inr false) => Registered end)).
  by intros [].
Defined.

(** The calls that can fail. *)
Inductive call :=
  | RequestCtlO | OutputCtlO | RequestDataO | OutputDataO
  | RequestCtlI | InputCtlI | RequestDataI | InputDataI
  | IrqCtlI | IrqDataI | AllocNetdev | RegisterNetdev.

Section init.
Context (gpio_to_irq : Z -> Z).
Context (gpio_ctl_o gpio_data_o gpio_ctl_i gpio_data_i : Z).
Context (ok : call -> bool).

Definition ENOMEM : Z := 12.

(** [gpio_request] and [request_irq]: the resource, unless the call fails or it is
    taken. *)
Definition request (c : call) (r : resource) (H : gset resource) : option (gset resource) :=
  if ok c && bool_decide (r ∉ H) then Some ({[r]} ∪ H) else None.

Definition give_back (r : resource) (H : gset resource) : outcome (gset resource) :=
  if decide (r ∈ H) then Ret (H ∖ {[r]}) else Fault BadFree.

Fixpoint give_back_all (rs : list resource) (H : gset resource) : outcome (gset resource) :=
  match rs with
  | [] => Ret H
  | r :: rs => H ← give_back r H; give_back_all rs H
  end.

(** [return v] after giving back [rs]. *)
Definition fail_with (v : Z) (rs : list resource) (H : gset resource)
    : outcome (Z * gset resource) :=
  H ← give_back_all rs H; Ret (v, H).

(** The lines to send on; 0 to go on. *)
Definition init_out (H : gset resource) : outcome (Z * gset resource) :=
  if gpio_ctl_o =? 0 then Ret (0, H)
  else if gpio_data_o =? 0 then Ret (-1, H)
  else match request RequestCtlO (Line gpio_ctl_o) H with
  | None => Ret (-1, H)
  | Some H =>
    if negb (ok OutputCtlO) then fail_with (-1) [Line gpio_ctl_o] H
    else match request RequestDataO (Line gpio_data_o) H with
    | None => fail_with (-1) [Line gpio_ctl_o] H
    | Some H =>
      if negb (ok OutputDataO) then fail_with (-1) [Line gpio_ctl_o; Line gpio_data_o] H
      else Ret (0, H)
    end
  end.

(** What [init_out] took. *)
Definition out_lines : list resource :=
  if gpio_ctl_o =? 0 then [] else [Line gpio_ctl_o; Line gpio_data_o].

Definition ctl_irq : resource := Irq (gpio_to_irq gpio_ctl_i).
Definition data_irq : resource := Irq (gpio_to_irq gpio_data_i).

(** The lines to receive from and their interrupts. *)
Definition init_in (H : gset resource) : outcome (Z * gset resource) :=
  if gpio_ctl_i =? 0 then Ret (0, H)
  else if gpio_data_i =? 0 then fail_with (-1) out_lines H
  else match request RequestCtlI (Line gpio_ctl_i) H with
  | None => fail_with (-1) out_lines H
  | Some H =>
    if negb (ok InputCtlI) then fail_with (-1) (out_lines ++ [Line gpio_ctl_i]) H
    else match request RequestDataI (Line gpio_data_i) H with
    | None => fail_with (-1) (out_lines ++ [Line gpio_ctl_i]) H
    | Some H =>
      let lines := out_lines ++ [Line gpio_ctl_i; Line gpio_data_i] in
      if negb (ok InputDataI) then fail_with (-1) lines H
      else match request IrqCtlI ctl_irq H with
      | None => fail_with (-1) lines H
      | Some H =>
        match request IrqDataI data_irq H with
        | None => fail_with (-1) (lines ++ [ctl_irq]) H
        | Some H => Ret (0, H)
        end
      end
    end
  end.

(** The network device, when there are lines in both directions. *)
Definition init_dev (H : gset resource) : outcome (Z * gset resource) :=
  if negb (gpio_ctl_o =? 0) && negb (gpio_ctl_i =? 0) then
    let all := [Line gpio_ctl_o; Line gpio_data_o; Line gpio_ctl_i; Line gpio_data_i;
                ctl_irq; data_irq] in
    match request AllocNetdev Netdev H with
    | None => fail_with (- ENOMEM) all H
    | Some H =>
      match request RegisterNetdev Registered H with
      | None => fail_with (-1) (all ++ [Netdev]) H
      | Some H => Ret (0, H)
      end
    end
  else Ret (0, H).

Definition ksock_gpio_init (H : gset resource) : outcome (Z * gset resource) :=
  if (gpio_ctl_o =? 0) && (gpio_ctl_i =? 0) then Ret (-1, H)
  else
    '(r, H) ← init_out H;
    if negb (r =? 0) then Ret (r, H)
    else
      '(r, H) ← init_in H;
      if negb (r =? 0) then Ret (r, H) else init_dev H.

Definition ksock_gpio_exit (H : gset resource) : outcome (gset resource) :=
  H ← give_back_all out_lines H;
  H ← (if gpio_ctl_i =? 0 then Ret H
       else give_back_all [Line gpio_ctl_i; Line gpio_data_i; ctl_irq; data_irq] H);
  if negb (gpio_ctl_i =? 0) && negb (gpio_ctl_o =? 0)
  then give_back_all [Registered; Netdev] H else Ret H.

(** ** Giving back what was taken *)

(** [H] are the resources of [H0] and [got]. *)
Definition owns (got : list resource) (H0 H : gset resource) : Prop :=
  H = list_to_set got ∪ H0 ∧ NoDup got ∧ ∀ r, r ∈ got → r ∉ H0.

Lemma owns_nil H : owns [] H H.
Proof.
  split_and!; [|constructor|by intros r ?%not_elem_of_nil].
  by rewrite list_to_set_nil, (left_id_L ∅ (∪)).
Qed.

Lemma owns_none H0 H : owns [] H0 H → H = H0.
Proof. intros (-> & _). by rewrite list_to_set_nil, (left_id_L ∅ (∪)). Qed.

Lemma request_Some c r H H' got H0 :
  request c r H = Some H' → owns got H0 H → owns (r :: got) H0 H'.
Proof.
  unfold request. destruct (ok c && bool_decide (r ∉ H)) eqn:E; [|done].
  apply andb_true_iff in E as [_ Hr%bool_decide_eq_true]. intros [= <-] (-> & Hnd & Hd).
  rewrite not_elem_of_union, not_elem_of_list_to_set in Hr. destruct Hr as [Hr Hr0].
  split_and!; [|by constructor|].
  - by rewrite list_to_set_cons, (assoc_L (∪)).
  - intros x [->|Hx]%elem_of_cons; [done|by apply Hd].
Qed.

Lemma owns_perm got got' H0 H : got ≡ₚ got' → owns got H0 H → owns got' H0 H.
Proof.
  intros Hp (-> & Hnd & Hd). split_and!.
  - by rewrite (list_to_set_perm_L _ _ Hp).
  - by rewrite <-Hp.
  - intros r Hr. apply Hd. by rewrite Hp.
Qed.

Lemma owns_give_back rs got H0 H :
  owns (rs ++ got) H0 H → ∃ H', give_back_all rs H = Ret H' ∧ owns got H0 H'.
Proof.
  revert H. induction rs as [|r rs IH]; intros H Ho; [by exists H|].
  destruct Ho as (-> & Hnd & Hd). cbn [app] in *. apply NoDup_cons in Hnd as [Hr Hnd].
  cbn [give_back_all]. unfold give_back.
  rewrite decide_True by (rewrite elem_of_union, elem_of_list_to_set; left; left).
  cbn [mbind outcome_bind]. apply IH. split_and!; [|done|].
  - rewrite list_to_set_cons. assert (r ∉ H0) as Hr0 by (apply Hd; left).
    apply set_eq. intros x. rewrite elem_of_difference, !elem_of_union, !elem_of_singleton.
    rewrite !elem_of_list_to_set. split; [tauto|]. intros Hx. split; [tauto|].
    intros ->. by destruct Hx.
  - intros x Hx. apply Hd. by right.
Qed.

(** What a step of the initialisation does: it takes [rs], or fails and leaves
    nothing of what the module had. *)
Definition step_spec (f : gset resource -> outcome (Z * gset resource)) (got rs : list resource)
    (H0 H : gset resource) : Prop :=
  ∃ r H', f H = Ret (r, H') ∧ if decide (r = 0) then owns (rs ++ got) H0 H' else H' = H0.

Lemma fail_run v rs own got more H0 H :
  v ≠ 0 → owns own H0 H → rs ≡ₚ own → step_spec (fail_with v rs) got more H0 H.
Proof.
  intros Hv Ho Hp. apply (owns_perm _ (rs ++ [])) in Ho; [|by rewrite app_nil_r].
  apply owns_give_back in Ho as (H' & E & ->%owns_none).
  exists v, H0. rewrite decide_False by done. split; [|done]. unfold fail_with. by rewrite E.
Qed.

Lemma done_run got rs H0 H got' :
  owns got' H0 H → got' ≡ₚ rs ++ got → step_spec (fun H => Ret (0, H)) got rs H0 H.
Proof.
  intros Ho Hp. exists 0, H. split; [done|]. rewrite decide_True by done.
  by eapply owns_perm.
Qed.

(** What a request that was granted adds. *)
Ltac take_request :=
  match goal with
  | E : request _ _ _ = Some _, Ho : owns _ _ _ |- _ =>
    pose proof (request_Some _ _ _ _ _ _ E Ho); clear E Ho
  end.

Lemma init_out_run H : step_spec init_out [] out_lines H H.
Proof.
  pose proof (owns_nil H) as Ho. unfold init_out, out_lines, step_spec.
  destruct (gpio_ctl_o =? 0); [by apply (done_run _ _ _ _ [])|].
  destruct (gpio_data_o =? 0); [by exists (-1), H|].
  destruct (request RequestCtlO _ _) eqn:E; [|by exists (-1), H]. take_request.
  destruct (ok OutputCtlO); cbn [negb]; [|by eapply fail_run].
  destruct (request RequestDataO _ _) eqn:E; [|by eapply fail_run]. take_request.
  destruct (ok OutputDataO); cbn [negb]; [|by eapply fail_run; [done|done|solve_Permutation]].
  eapply done_run; [done|]. solve_Permutation.
Qed.

(** What [init_in] and [init_dev] take. *)
Definition in_res : list resource :=
  if gpio_ctl_i =? 0 then [] else [Line gpio_ctl_i; Line gpio_data_i; ctl_irq; data_irq].

Definition dev_res : list resource :=
  if negb (gpio_ctl_i =? 0) && negb (gpio_ctl_o =? 0) then [Registered; Netdev] else [].

Lemma init_in_run H0 H : owns out_lines H0 H → step_spec init_in out_lines in_res H0 H.
Proof.
  intros Ho. unfold init_in, in_res, step_spec.
  destruct (gpio_ctl_i =? 0); [by eapply done_run|].
  destruct (gpio_data_i =? 0); [by eapply fail_run|].
  destruct (request RequestCtlI _ _) eqn:E; [|by eapply fail_run]. take_request.
  destruct (ok InputCtlI); cbn [negb]; [|by eapply fail_run; [done|done|solve_Permutation]].
  destruct (request RequestDataI _ _) eqn:E;
    [|by eapply fail_run; [done|done|solve_Permutation]]. take_request.
  destruct (ok InputDataI); cbn [negb]; [|by eapply fail_run; [done|done|solve_Permutation]].
  destruct (request IrqCtlI _ _) eqn:E;
    [|by eapply fail_run; [done|done|solve_Permutation]]. take_request.
  destruct (request IrqDataI _ _) eqn:E;
    [|by eapply fail_run; [done|done|solve_Permutation]]. take_request.
  eapply done_run; [done|]. solve_Permutation.
Qed.

Lemma init_dev_run H0 H :
  owns (in_res ++ out_lines) H0 H → step_spec init_dev (in_res ++ out_lines) dev_res H0 H.
Proof.
  intros Ho. unfold init_dev, dev_res, step_spec.
  rewrite (andb_comm (negb (gpio_ctl_i =? 0))).
  destruct (gpio_ctl_o =? 0) eqn:Eo; [by eapply done_run|].
  destruct (gpio_ctl_i =? 0) eqn:Ei; [by eapply done_run|]. cbn [negb andb].
  assert ([Line gpio_ctl_o; Line gpio_data_o; Line gpio_ctl_i; Line gpio_data_i; ctl_irq;
    data_irq] ≡ₚ in_res ++ out_lines) as Hp
    by (unfold in_res, out_lines; rewrite Eo, Ei; solve_Permutation).
  destruct (request AllocNetdev _ _) eqn:E; [|by eapply fail_run]. take_request.
  destruct (request RegisterNetdev _ _) eqn:E.
  - take_request. eapply done_run; [done|]. solve_Permutation.
  - eapply fail_run; [done|done|]. rewrite Hp. solve_Permutation.
Qed.

(** Unloading gives everything back. *)
Lemma exit_run H0 H :
  owns (dev_res ++ in_res ++ out_lines) H0 H → ksock_gpio_exit H = Ret H0.
Proof.
  intros Ho. unfold ksock_gpio_exit.
  apply (owns_perm _ (out_lines ++ in_res ++ dev_res ++ [])) in Ho; [|solve_Permutation].
  apply owns_give_back in Ho as (H1 & -> & Ho). cbn [mbind outcome_bind].
  assert (∃ H2, (if gpio_ctl_i =? 0 then Ret H1
     else give_back_all [Line gpio_ctl_i; Line gpio_data_i; ctl_irq; data_irq] H1) = Ret H2 ∧
     owns (dev_res ++ []) H0 H2) as (H2 & -> & Ho2).
  { unfold in_res in Ho. destruct (gpio_ctl_i =? 0); [by exists H1|].
    by apply owns_give_back in Ho. }
  cbn [mbind outcome_bind]. unfold dev_res in Ho2.
  destruct (negb (gpio_ctl_i =? 0) && negb (gpio_ctl_o =? 0)).
  - apply owns_give_back in Ho2 as (H3 & -> & ->%owns_none). done.
  - by apply owns_none in Ho2 as ->.
Qed.

(** C33. Whatever the parameters are, whatever was taken before and whichever calls
    fail, the initialisation gives back only what it took. When it fails the
    resources are those it found; when it succeeds, unloading restores them. *)
Theorem gpio_init_balanced H :
  ∃ r H', ksock_gpio_init H = Ret (r, H') ∧
    if decide (r = 0) then ksock_gpio_exit H' = Ret H else H' = H.
Proof.
  unfold ksock_gpio_init. destruct ((gpio_ctl_o =? 0) && (gpio_ctl_i =? 0));
    [by exists (-1), H|].
  destruct (init_out_run H) as (r & H1 & -> & H1o). cbn [mbind outcome_bind].
  destruct (Z.eqb_spec r 0) as [->|Hr]; cbn [negb].
  2: { exists r, H1. by rewrite decide_False in H1o |- *. }
  rewrite decide_True, app_nil_r in H1o by done.
  destruct (init_in_run H H1 H1o) as (r & H2 & -> & H2o). cbn [mbind outcome_bind].
  destruct (Z.eqb_spec r 0) as [->|Hr]; cbn [negb].
  2: { exists r, H2. by rewrite decide_False in H2o |- *. }
  rewrite decide_True in H2o by done.
  destruct (init_dev_run H H2 H2o) as (r & H3 & -> & H3o). exists r, H3. split; [done|].
  case_decide; [|done]. by apply exit_run.
Qed.
End init.
