(* ===== verification/Xsk.v ===== *)
(** * The buffer pool of the AF_XDP forwarder ([dev-net-ebpf-xdp/xsk])

    [af_rxtx.c] keeps the addresses of its packet buffers in slabs of equal size.
    The pool holds full and empty slabs; every port has a cache with two slabs of
    its own, one to take buffers from and one to put them into, and trades an empty
    or a full slab with the pool when it has to. The slabs are passed around as
    pointers: a slab is the number of its block, and the blocks are one array.

    The specification: no buffer is ever in two places, and none is lost but those in a
    cache that is freed. For any number of caches and any sequence of their operations,
    every call succeeds, a cache that has to trade its full slab finds an empty one in
    the pool (which the code relies on), and the buffers in the pool, in the caches,
    with the users and in freed caches are together the buffers the pool was made
    with. *)

From stdpp Require Import base tactics numbers list.
From S2P Require Import Prelude.

Local Open Scope Z_scope.

Record bpool_params := mkParams {
  p_n_buffers : Z;
  p_buffer_size : Z;
  p_n_users_max : Z;
  p_n_buffers_per_slab : Z;
}.

(** [slab_mem] are the blocks of [buffers] and, behind them, of
    [buffers_reserved]. *)
Record bpool := mkPool {
  params : bpool_params;
  slabs : list nat;
  slabs_reserved : list nat;
  slab_mem : list (list Z);
  n_slabs : Z;
  n_slabs_reserved : Z;
  n_buffers : Z;
  n_slabs_available : Z;
  n_slabs_reserved_available : Z;
}.

Record bcache := mkCache {
  slab_cons : nat;
  slab_prod : nat;
  n_buffers_cons : Z;
  n_buffers_prod : Z;
}.

(** The calls of [bpool_init] that can fail, and what it holds. *)
Inductive pool_call := SetRlimit | Calloc | MutexInit | Mmap | UmemCreate.
Inductive pool_res := PoolMem | PoolLock | PoolMap | PoolUmem.

#[export] Instance pool_res_eq_dec : EqDecision pool_res.
Proof. solve_decision. Defined.

(** The pool in memory: [n] slabs and [r] reserved ones of [per] places, with the
    addresses of all buffers in the first ones. *)
Definition make_pool (p : bpool_params) (n r : Z) : bpool :=
  let per := p_n_buffers_per_slab p in
  let blocks := fun i => (fun j => u64 (Z.of_nat (i * Z.to_nat per + j) * p_buffer_size p)) <$>
                           seq 0 (Z.to_nat per) in
  mkPool (mkParams (u32 (n * per)) (p_buffer_size p) (p_n_users_max p) per)
    (seq 0 (Z.to_nat n)) (seq (Z.to_nat n) (Z.to_nat r))
    ((blocks <$> seq 0 (Z.to_nat n)) ++ replicate (Z.to_nat r) (replicate (Z.to_nat per) 0))
    n r (n * per) n r.

(** The pool, or none, and what is held afterwards. The sizes are computed in 32
    bits. *)
Definition bpool_init (ok : pool_call -> bool) (p : bpool_params)
    : outcome (option bpool * list pool_res) :=
  if negb (ok SetRlimit) then Ret (None, [])
  else if p_n_buffers_per_slab p =? 0 then Fault DivZero
  else
    let n := u32 (p_n_buffers p + p_n_buffers_per_slab p - 1) / p_n_buffers_per_slab p in
    let r := u32 (p_n_users_max p * 2) in
    if negb (ok Calloc) then Ret (None, [])
    else
      let held := [PoolMem] in
      let bp := make_pool p n r in
      if negb (ok MutexInit) then Ret (None, list_difference held [PoolMem])
      else
        let held := PoolLock :: held in
        if negb (ok Mmap) then Ret (None, list_difference held [PoolLock; PoolMem])
        else
          let held := PoolMap :: held in
          if negb (ok UmemCreate)
          then Ret (None, list_difference held [PoolMap; PoolLock; PoolMem])
          else Ret (Some bp, PoolUmem :: held).

Definition bpool_free (held : list pool_res) : list pool_res :=
  list_difference held [PoolUmem; PoolMap; PoolLock; PoolMem].

Definition bcache_slab_size (bp : bpool) : Z := u32 (p_n_buffers_per_slab (params bp)).

Definition set_slabs (bp : bpool) (ss : list nat) (avail : Z) : bpool :=
  mkPool (params bp) ss (slabs_reserved bp) (slab_mem bp) (n_slabs bp) (n_slabs_reserved bp)
    (n_buffers bp) avail (n_slabs_reserved_available bp).

Definition set_reserved (bp : bpool) (ss : list nat) (avail : Z) : bpool :=
  mkPool (params bp) (slabs bp) ss (slab_mem bp) (n_slabs bp) (n_slabs_reserved bp)
    (n_buffers bp) (n_slabs_available bp) avail.

(** [slab[i]] and [slab[i] = b]. *)
Definition slab_read (bp : bpool) (s : nat) (i : Z) : outcome Z :=
  block ← or_fault OutOfBounds (slab_mem bp !! s); aread block i.

Definition slab_write (bp : bpool) (s : nat) (i b : Z) : outcome bpool :=
  block ← or_fault OutOfBounds (slab_mem bp !! s);
  block ← awrite block i b;
  Ret (mkPool (params bp) (slabs bp) (slabs_reserved bp) (<[s := block]> (slab_mem bp))
         (n_slabs bp) (n_slabs_reserved bp) (n_buffers bp) (n_slabs_available bp)
         (n_slabs_reserved_available bp)).

(** [mem]: whether [calloc] succeeds. *)
Definition bcache_init (mem : bool) (bp : bpool) : outcome (option bcache * bpool) :=
  if negb mem then Ret (None, bp)
  else if n_slabs_reserved_available bp =? 0 then Ret (None, bp)
  else
    c ← aread (slabs_reserved bp) (u64 (n_slabs_reserved_available bp - 1));
    p ← aread (slabs_reserved bp) (u64 (n_slabs_reserved_available bp - 2));
    Ret (Some (mkCache c p 0 0),
         set_reserved bp (slabs_reserved bp) (u64 (n_slabs_reserved_available bp - 2))).

Definition bcache_free (bp : bpool) (bc : bcache) : outcome bpool :=
  ss ← awrite (slabs_reserved bp) (n_slabs_reserved_available bp) (slab_prod bc);
  ss ← awrite ss (u64 (n_slabs_reserved_available bp + 1)) (slab_cons bc);
  Ret (set_reserved bp ss (u64 (n_slabs_reserved_available bp + 2))).

Definition bcache_cons_check (bp : bpool) (bc : bcache) (n : Z)
    : outcome (Z * bpool * bcache) :=
  if negb (n_buffers_cons bc =? 0) then
    Ret (u32 (if n_buffers_cons bc <? n then n_buffers_cons bc else n), bp, bc)
  else if n_slabs_available bp =? 0 then Ret (0, bp, bc)
  else
    let avail := n_slabs_available bp - 1 in
    slab_full ← aread (slabs bp) avail;
    ss ← awrite (slabs bp) avail (slab_cons bc);
    Ret (n, set_slabs bp ss avail,
         mkCache slab_full (slab_prod bc) (p_n_buffers_per_slab (params bp))
           (n_buffers_prod bc)).

(** No buffer for the cache: neither in it nor in the pool. *)
Definition starved (bp : bpool) (bc : bcache) : bool :=
  (n_buffers_cons bc =? 0) && (n_slabs_available bp =? 0).

Definition bcache_cons (bp : bpool) (bc : bcache) : outcome (Z * bcache) :=
  let n := u64 (n_buffers_cons bc - 1) in
  b ← slab_read bp (slab_cons bc) n;
  Ret (b, mkCache (slab_cons bc) (slab_prod bc) n (n_buffers_prod bc)).

Definition bcache_prod (bp : bpool) (bc : bcache) (b : Z) : outcome (bpool * bcache) :=
  let per := p_n_buffers_per_slab (params bp) in
  if n_buffers_prod bc <? per then
    bp ← slab_write bp (slab_prod bc) (n_buffers_prod bc) b;
    Ret (bp, mkCache (slab_cons bc) (slab_prod bc) (n_buffers_cons bc)
               (u64 (n_buffers_prod bc + 1)))
  else
    let avail := n_slabs_available bp in
    slab_empty ← aread (slabs bp) avail;
    ss ← awrite (slabs bp) avail (slab_prod bc);
    bp ← slab_write (set_slabs bp ss (u64 (avail + 1))) slab_empty 0 b;
    Ret (bp, mkCache (slab_cons bc) slab_empty (n_buffers_cons bc) 1).

(** ** The users of a pool *)

(** The kernel hands a buffer back with the place of the packet in it: the buffer is
    the chunk the address lies in. *)
Definition chunk (size b : Z) : Z := b / size * size.
#[global] Arguments chunk : simpl never.

(** The pool, the caches of the users, the buffers the users hold, and the buffers that
    were in a cache when it was freed: nobody has a way to them any more. *)
Record xsys := mkSys {
  pool : bpool;
  caches : list bcache;
  out : list Z;
  lost : list Z;
}.

(** A call on cache [i]. *)
Inductive xop :=
  | OInit (mem : bool)
  | OFree (i : nat)
  | OCheck (i : nat) (n : Z)
  | OCons (i : nat)
  | OProd (i : nat) (b : Z).

Definition block (bp : bpool) (s : nat) : list Z := default [] (slab_mem bp !! s).

(** The buffers in the slabs of a cache. *)
Definition cached (bp : bpool) (c : bcache) : list Z :=
  take (Z.to_nat (n_buffers_cons c)) (block bp (slab_cons c)) ++
  take (Z.to_nat (n_buffers_prod c)) (block bp (slab_prod c)).

(** The buffers in the pool and in the caches. *)
Definition stored (bp : bpool) (cs : list bcache) : list Z :=
  (take (Z.to_nat (n_slabs_available bp)) (slabs bp) ≫= block bp) ++ (cs ≫= cached bp).

Definition run_xop (o : xop) (s : xsys) : outcome xsys :=
  match o with
  | OInit mem =>
    '(c, bp) ← bcache_init mem (pool s);
    Ret (mkSys bp (option_list c ++ caches s) (out s) (lost s))
  | OFree i =>
    c ← or_fault OutOfBounds (caches s !! i);
    bp ← bcache_free (pool s) c;
    Ret (mkSys bp (delete i (caches s)) (out s)
           ((chunk (p_buffer_size (params (pool s))) <$> cached (pool s) c) ++ lost s))
  | OCheck i n =>
    c ← or_fault OutOfBounds (caches s !! i);
    '(_, bp, c) ← bcache_cons_check (pool s) c n;
    Ret (mkSys bp (<[i := c]> (caches s)) (out s) (lost s))
  | OCons i =>
    c ← or_fault OutOfBounds (caches s !! i);
    '(b, c) ← bcache_cons (pool s) c;
    Ret (mkSys (pool s) (<[i := c]> (caches s))
           (chunk (p_buffer_size (params (pool s))) b :: out s) (lost s))
  | OProd i b =>
    c ← or_fault OutOfBounds (caches s !! i);
    '(bp, c) ← bcache_prod (pool s) c b;
    Ret (mkSys bp (<[i := c]> (caches s))
           (list_difference (out s) [chunk (p_buffer_size (params (pool s))) b]) (lost s))
  end.

(** A buffer is taken after a check said there is one, and put back by who has
    it. *)
Definition allowed (o : xop) (s : xsys) : Prop :=
  match o with
  | OInit _ => True
  | OFree i | OCheck i _ => (i < length (caches s))%nat
  | OCons i => ∃ c, caches s !! i = Some c ∧ 0 < n_buffers_cons c
  | OProd i b => (i < length (caches s))%nat ∧ chunk (p_buffer_size (params (pool s))) b ∈ out s
  end.

Definition frees (o : xop) : bool := match o with OFree _ => true | _ => false end.

(** The states after the calls [os], the last one first. *)
Inductive xreach (bp : bpool) : list xop -> xsys -> Prop :=
  | xreach_init : xreach bp [] (mkSys bp [] [] [])
  | xreach_step os o s s' :
      xreach bp os s → allowed o s → run_xop o s = Ret s' → xreach bp (o :: os) s'.

(** ** The invariant *)

Definition cache_ids (c : bcache) : list nat := [slab_cons c; slab_prod c].

Section inv.
Context (per : nat) (Hper : (0 < per)%nat) (Hmax : Z.of_nat per < 2 ^ 32).
Context (n r : nat) (Hn : Z.of_nat n < 2 ^ 32) (Hr : Z.of_nat r < 2 ^ 32).
Context (size : Z) (all : list Z) (Hall : length all = (n * per)%nat) (Hnd : NoDup all).

Definition cache_ok (c : bcache) : Prop :=
  0 ≤ n_buffers_cons c ≤ Z.of_nat per ∧ 0 ≤ n_buffers_prod c ≤ Z.of_nat per.

(** [full] and [empty] are the slabs of the pool, [rv] the reserved slabs that are
    left. *)
Record pool_inv (bp : bpool) (cs : list bcache) (o : list Z) (full empty rv : list nat) : Prop := {
  pi_per : p_n_buffers_per_slab (params bp) = Z.of_nat per;
  pi_size : p_buffer_size (params bp) = size;
  pi_slabs : slabs bp = full ++ empty;
  pi_avail : n_slabs_available bp = Z.of_nat (length full);
  pi_n : length (full ++ empty) = n;
  pi_rv : rv = take (length rv) (slabs_reserved bp);
  pi_ravail : n_slabs_reserved_available bp = Z.of_nat (length rv);
  pi_r : length (slabs_reserved bp) = r;
  pi_even : ∃ k, length rv = (2 * k)%nat;
  pi_count : (length rv + 2 * length cs = r)%nat;
  pi_blocks : Forall (fun b => length b = per) (slab_mem bp);
  pi_ids : NoDup (full ++ empty ++ rv ++ (cs ≫= cache_ids));
  pi_bound : Forall (fun s => s < length (slab_mem bp))%nat
               (full ++ empty ++ rv ++ (cs ≫= cache_ids));
  pi_caches : Forall cache_ok cs;
  pi_all : (chunk size <$> ((full ≫= block bp) ++ (cs ≫= cached bp))) ++ o ≡ₚ all;
}.

Lemma block_length bp cs o full empty rv s :
  pool_inv bp cs o full empty rv → s ∈ full ++ empty ++ rv ++ (cs ≫= cache_ids) →
  slab_mem bp !! s = Some (block bp s) ∧ length (block bp s) = per.
Proof.
  intros Hi Hs. pose proof (pi_bound _ _ _ _ _ _ Hi) as Hb. rewrite Forall_forall in Hb.
  apply Hb in Hs. destruct (lookup_lt_is_Some_2 _ _ Hs) as [b Eb].
  unfold block. rewrite Eb. split; [done|].
  eapply (Forall_lookup_1 (fun b => length b = per)); [apply (pi_blocks _ _ _ _ _ _ Hi)|done].
Qed.

Lemma bind_length {A B} (f : A → list B) (l : list A) k :
  (∀ x, x ∈ l → length (f x) = k) → length (l ≫= f) = (length l * k)%nat.
Proof.
  induction l as [|x l IH]; intros Hf; [done|]. rewrite bind_cons, length_app, IH.
  - rewrite Hf by left. simpl. lia.
  - intros y Hy. apply Hf. by right.
Qed.

Lemma bind_ext_in {A B} (f g : A → list B) (l : list A) :
  (∀ x, x ∈ l → f x = g x) → l ≫= f = l ≫= g.
Proof.
  induction l as [|x l IH]; intros Hf; [done|]. rewrite !bind_cons, IH.
  - by rewrite Hf by left.
  - intros y Hy. apply Hf. by right.
Qed.

(** As many buffers are in the full slabs and in one cache as there are at most. *)
Lemma pool_room bp cs o full empty rv c :
  pool_inv bp cs o full empty rv → c ∈ cs →
  (length full * per + length (cached bp c) ≤ n * per)%nat.
Proof.
  intros Hi Hc. rewrite <-Hall, <-(pi_all _ _ _ _ _ _ Hi), length_app, length_fmap, length_app.
  rewrite (bind_length _ full per).
  - apply list_elem_of_split in Hc as (l1 & l2 & ->). rewrite bind_app, bind_cons, !length_app. lia.
  - intros s Hs. eapply block_length; [done|]. rewrite elem_of_app. by left.
Qed.

Lemma cache_elem l1 c l2 full empty rv s :
  s ∈ cache_ids c → s ∈ full ++ empty ++ rv ++ ((l1 ++ c :: l2) ≫= cache_ids).
Proof.
  intros Hs. rewrite bind_app, bind_cons, !elem_of_app. auto 10.
Qed.

Lemma take_snoc_Z (l : list Z) k b :
  0 ≤ k → l !! Z.to_nat k = Some b → take (Z.to_nat (k + 1)) l = take (Z.to_nat k) l ++ [b].
Proof.
  intros Hk Hb. replace (Z.to_nat (k + 1)) with (S (Z.to_nat k)) by lia. by apply take_S_r.
Qed.

(** A buffer is taken from a cache. *)
Lemma cons_inv bp l1 c l2 o full empty rv :
  pool_inv bp (l1 ++ c :: l2) o full empty rv → 0 < n_buffers_cons c →
  ∃ b c', bcache_cons bp c = Ret (b, c') ∧ n_buffers_cons c' = n_buffers_cons c - 1 ∧
    pool_inv bp (l1 ++ c' :: l2) (chunk size b :: o) full empty rv.
Proof.
  intros Hi Hc. pose proof (pi_caches _ _ _ _ _ _ Hi) as Hok.
  apply Forall_app in Hok as [Hok1 [[Hcc Hcp] Hok2]%Forall_cons].
  destruct (block_length _ _ _ _ _ _ (slab_cons c) Hi) as [Hs Hl]; [apply cache_elem; left|].
  destruct (lookup_lt_is_Some_2 (block bp (slab_cons c)) (Z.to_nat (n_buffers_cons c - 1)))
    as [b Hb]; [lia|].
  exists b, (mkCache (slab_cons c) (slab_prod c) (n_buffers_cons c - 1) (n_buffers_prod c)).
  unfold bcache_cons, slab_read. rewrite wrap_small by (unfold fits; lia). rewrite Hs.
  cbn [or_fault mbind outcome_bind]. rewrite (aread_Some _ _ b) by (done || lia).
  split; [done|]. split; [done|]. destruct Hi as [H1 Hsz H2 H3 H4 H5 H6 H7 H8 H9 H10 H11 H12 H13 H14].
  split; try done.
  - rewrite <-H9, !length_app. done.
  - by rewrite bind_app, bind_cons in *.
  - by rewrite bind_app, bind_cons in *.
  - apply Forall_app. split; [done|]. constructor; [|done]. split; simpl; lia.
  - rewrite <-H14, !bind_app, !bind_cons. unfold cached at 2 5.
    cbn [slab_cons slab_prod n_buffers_cons n_buffers_prod].
    replace (n_buffers_cons c) with (n_buffers_cons c - 1 + 1) at 2 by lia.
    rewrite (take_snoc_Z _ (n_buffers_cons c - 1) b) by (done || lia). rewrite !fmap_app. cbn [fmap list_fmap]. solve_Permutation.
Qed.

Lemma snoc_cases {A} (l : list A) : l = [] ∨ ∃ l' x, l = l' ++ [x].
Proof. destruct l as [|x l _] using rev_ind; [by left|right; eauto]. Qed.

(** An empty consumer slab is traded for a full one. *)
Lemma check_inv bp l1 c l2 o full empty rv k :
  pool_inv bp (l1 ++ c :: l2) o full empty rv →
  ∃ m bp' c' full' empty', bcache_cons_check bp c k = Ret (m, bp', c') ∧
    pool_inv bp' (l1 ++ c' :: l2) o full' empty' rv ∧
    (0 ≤ k ≤ Z.of_nat per → 0 ≤ m ≤ n_buffers_cons c' ∧ m ≤ k) ∧
    (1 ≤ k ≤ Z.of_nat per → (m =? 0) = starved bp c).
Proof.
  intros Hi. pose proof (pi_caches _ _ _ _ _ _ Hi) as Hok.
  apply Forall_app in Hok as [Hok1 [[Hcc Hcp] Hok2]%Forall_cons].
  unfold bcache_cons_check, starved. destruct (Z.eqb_spec (n_buffers_cons c) 0) as [Hz|Hz]; cbn [negb].
  2: { eexists _, bp, c, full, empty. split_and!; [done..| |];
    intros Hk1; destruct (Z.ltb_spec (n_buffers_cons c) k); rewrite wrap_small;
      unfold fits; rewrite ?andb_false_l, ?Z.eqb_neq; lia. }
  rewrite (pi_avail _ _ _ _ _ _ Hi).
  destruct (snoc_cases full) as [->|(full' & f & ->)].
  { eexists 0, bp, c, [], empty. split_and!; [done..|lia|done]. }
  destruct Hi as [H1 Hsz H2 H3 H4 H5 H6 H7 H8 H9 H10 H11 H12 H13 H14].
  assert (length (block bp f) = per) as Hbf.
  { eapply block_length; [by split|]. rewrite !elem_of_app. left. right. left. }
  rewrite length_app. cbn [length]. rewrite (proj2 (Z.eqb_neq _ _)) by lia.
  rewrite <-app_assoc in H2. cbn [app] in H2. rewrite H2.
  rewrite aread_mid, awrite_mid by lia. cbn [mbind outcome_bind].
  eexists k, _, _, full', (slab_cons c :: empty). split_and!; [done| | |].
  2: { intros Hk. cbn [n_buffers_cons]. rewrite H1. lia. }
  2: { intros Hk. cbn [andb]. apply Z.eqb_neq. lia. }
  assert (full' ++ (slab_cons c :: empty) ++ rv ++
    ((l1 ++ mkCache f (slab_prod c) (p_n_buffers_per_slab (params bp)) (n_buffers_prod c) :: l2)
       ≫= cache_ids) ≡ₚ
    (full' ++ [f]) ++ empty ++ rv ++ ((l1 ++ c :: l2) ≫= cache_ids)) as Hids.
  { rewrite !bind_app, !bind_cons. unfold cache_ids at 2 5. cbn [slab_cons slab_prod app].
    solve_Permutation. }
  split; try done.
  - cbn. lia.
  - rewrite <-H4, !length_app. simpl. lia.
  - rewrite <-H9, !length_app. done.
  - by rewrite Hids.
  - by rewrite Hids.
  - apply Forall_app. split; [done|]. constructor; [|done]. split; simpl; lia.
  - change (block (set_slabs bp _ _)) with (block bp).
    change (cached (set_slabs bp _ _)) with (cached bp).
    rewrite <-H14, !bind_app, !bind_cons. change ([] ≫= block bp) with (@nil Z). unfold cached at 2 5.
    cbn [slab_cons slab_prod n_buffers_cons n_buffers_prod]. rewrite H1, Hz, Nat2Z.id.
    rewrite (take_ge (block bp f)) by lia. cbn [take]. rewrite !fmap_app. solve_Permutation.
Qed.

(** ** Writing a slab *)

Definition set_block (bp : bpool) (x : nat) (b : list Z) : bpool :=
  mkPool (params bp) (slabs bp) (slabs_reserved bp) (<[x := b]> (slab_mem bp))
    (n_slabs bp) (n_slabs_reserved bp) (n_buffers bp) (n_slabs_available bp)
    (n_slabs_reserved_available bp).

Lemma slab_write_run bp x i b :
  slab_mem bp !! x = Some (block bp x) → 0 ≤ i < Z.of_nat (length (block bp x)) →
  slab_write bp x i b = Ret (set_block bp x (<[Z.to_nat i := b]> (block bp x))).
Proof.
  intros Hx Hi. unfold slab_write. rewrite Hx. cbn [or_fault mbind outcome_bind].
  destruct (lookup_lt_is_Some_2 (block bp x) (Z.to_nat i)) as [y Hy]; [lia|].
  by rewrite (awrite_Some _ _ y) by (done || lia).
Qed.

Lemma block_set_eq bp x b : (x < length (slab_mem bp))%nat → block (set_block bp x b) x = b.
Proof. intros Hx. unfold block, set_block. cbn. by rewrite list_lookup_insert_eq. Qed.

Lemma block_set_ne bp x b y : y ≠ x → block (set_block bp x b) y = block bp y.
Proof. intros Hy. unfold block, set_block. cbn. by rewrite list_lookup_insert_ne. Qed.

Lemma cached_set bp x b c : x ∉ cache_ids c → cached (set_block bp x b) c = cached bp c.
Proof.
  unfold cache_ids, cached. intros Hx. rewrite !not_elem_of_cons in Hx.
  rewrite !block_set_ne by naive_solver. done.
Qed.

Lemma cacheds_set bp x b cs :
  x ∉ (cs ≫= cache_ids) → cs ≫= cached (set_block bp x b) = cs ≫= cached bp.
Proof.
  intros Hx. apply bind_ext_in. intros c Hc. apply cached_set. intros Hc'. apply Hx.
  apply list_elem_of_bind. eauto.
Qed.

Lemma blocks_set bp x b l : x ∉ l → l ≫= block (set_block bp x b) = l ≫= block bp.
Proof. intros Hx. apply bind_ext_in. intros y Hy. apply block_set_ne. by intros ->. Qed.

Lemma take_insert_snoc (l : list Z) k b :
  (k < length l)%nat → take (S k) (<[k := b]> l) = take k l ++ [b].
Proof.
  intros Hk. rewrite (take_S_r _ _ b).
  - by rewrite take_insert_ge by lia.
  - by apply list_lookup_insert_eq.
Qed.

(** A buffer is put into a slab with room. *)
Lemma prod_room_inv bp l1 c l2 o full empty rv b :
  pool_inv bp (l1 ++ c :: l2) (chunk size b :: o) full empty rv → n_buffers_prod c < Z.of_nat per →
  ∃ bp' c', bcache_prod bp c b = Ret (bp', c') ∧
    pool_inv bp' (l1 ++ c' :: l2) o full empty rv.
Proof.
  intros Hi Hlt. pose proof (pi_caches _ _ _ _ _ _ Hi) as Hok.
  apply Forall_app in Hok as [Hok1 [[Hcc Hcp] Hok2]%Forall_cons].
  destruct (block_length _ _ _ _ _ _ (slab_prod c) Hi) as [Hs Hl];
    [apply cache_elem; right; left|].
  unfold bcache_prod. rewrite (pi_per _ _ _ _ _ _ Hi), (proj2 (Z.ltb_lt _ _)) by lia.
  rewrite slab_write_run by (done || lia). cbn [mbind outcome_bind].
  rewrite wrap_small by (unfold fits; lia).
  eexists _, _. split; [done|].
  destruct Hi as [H1 Hsz H2 H3 H4 H5 H6 H7 H8 H9 H10 H11 H12 H13 H14].
  pose proof H11 as Hids. rewrite bind_app, bind_cons in Hids.
  assert (slab_prod c ∉ full ∧ slab_prod c ∉ (l1 ≫= cache_ids) ∧ slab_prod c ∉ (l2 ≫= cache_ids) ∧
    slab_cons c ≠ slab_prod c) as (X1 & X2 & X3 & X4).
  { assert (slab_prod c :: slab_cons c :: (full ++ empty ++ rv) ++ (l1 ≫= cache_ids) ++
      (l2 ≫= cache_ids) ≡ₚ full ++ empty ++ rv ++ (l1 ≫= cache_ids) ++ cache_ids c ++
      (l2 ≫= cache_ids)) as Hp by (unfold cache_ids at 3; solve_Permutation).
    rewrite <-Hp in Hids. apply NoDup_cons in Hids as [Hids _].
    rewrite not_elem_of_cons, !not_elem_of_app in Hids. naive_solver. }
  assert (slab_prod c < length (slab_mem bp))%nat as Hlt' by by eapply lookup_lt_Some.
  split; try done.
  - rewrite <-H9, !length_app. done.
  - cbn. by apply Forall_insert; [done|rewrite length_insert].
  - rewrite bind_app, bind_cons in *. done.
  - cbn. rewrite length_insert. rewrite bind_app, bind_cons in *. done.
  - apply Forall_app. split; [done|]. constructor; [|done]. split; simpl; lia.
  - rewrite <-H14, blocks_set by done. rewrite !bind_app, !bind_cons, !cacheds_set by done.
    unfold cached at 2 5. cbn [slab_cons slab_prod n_buffers_cons n_buffers_prod].
    rewrite block_set_ne, block_set_eq by done.
    replace (Z.to_nat (n_buffers_prod c + 1)) with (S (Z.to_nat (n_buffers_prod c))) by lia.
    rewrite take_insert_snoc by lia. rewrite !fmap_app. cbn [fmap list_fmap]. solve_Permutation.
Qed.

(** While a cache has a full producer slab there is an empty slab in the pool. *)
Lemma prod_full_empty bp l1 c l2 o full empty rv :
  pool_inv bp (l1 ++ c :: l2) o full empty rv → n_buffers_prod c = Z.of_nat per →
  ∃ e empty', (length full < n)%nat ∧ empty = e :: empty'.
Proof.
  intros Hi Heq. pose proof (pi_caches _ _ _ _ _ _ Hi) as Hok.
  apply Forall_app in Hok as [_ [[Hcc Hcp] _]%Forall_cons].
  destruct (block_length _ _ _ _ _ _ (slab_prod c) Hi) as [_ Hl];
    [apply cache_elem; right; left|].
  pose proof (pool_room _ _ _ _ _ _ c Hi) as Hroom.
  assert (per ≤ length (cached bp c))%nat as Hc.
  { unfold cached. rewrite length_app, !length_take, Heq, Nat2Z.id. lia. }
  assert (c ∈ l1 ++ c :: l2) as Hin by (rewrite elem_of_app; right; left).
  specialize (Hroom Hin). assert (length full < n)%nat by nia.
  destruct empty as [|e empty]; [|by exists e, empty].
  pose proof (pi_n _ _ _ _ _ _ Hi) as H1. rewrite app_nil_r in H1. lia.
Qed.

(** The first empty slab is not in use anywhere else. *)
Lemma first_empty_alone full e empty rv l1 c l2 :
  NoDup (full ++ (e :: empty) ++ rv ++ ((l1 ++ c :: l2) ≫= cache_ids)) →
  e ∉ full ∧ e ≠ slab_prod c ∧ e ∉ (l1 ≫= cache_ids) ∧ e ∉ (l2 ≫= cache_ids) ∧ e ≠ slab_cons c.
Proof.
  intros Hd. assert (e :: slab_prod c :: slab_cons c :: (full ++ empty ++ rv) ++ (l1 ≫= cache_ids) ++
    (l2 ≫= cache_ids) ≡ₚ full ++ (e :: empty) ++ rv ++ ((l1 ++ c :: l2) ≫= cache_ids)) as Hp
    by (rewrite bind_app, bind_cons; unfold cache_ids at 4; solve_Permutation).
  rewrite <-Hp in Hd. apply NoDup_cons in Hd as [Hx _].
  rewrite !not_elem_of_cons, !not_elem_of_app in Hx. naive_solver.
Qed.

(** A full producer slab is traded for an empty one. *)
Lemma prod_full_inv bp l1 c l2 o full empty rv b :
  pool_inv bp (l1 ++ c :: l2) (chunk size b :: o) full empty rv → n_buffers_prod c = Z.of_nat per →
  ∃ bp' c' full' empty', bcache_prod bp c b = Ret (bp', c') ∧
    pool_inv bp' (l1 ++ c' :: l2) o full' empty' rv.
Proof.
  intros Hi Heq. pose proof (pi_caches _ _ _ _ _ _ Hi) as Hok.
  apply Forall_app in Hok as [Hok1 [[Hcc Hcp] Hok2]%Forall_cons].
  destruct (block_length _ _ _ _ _ _ (slab_prod c) Hi) as [_ Hl];
    [apply cache_elem; right; left|].
  destruct (prod_full_empty _ _ _ _ _ _ _ _ Hi Heq) as (e & empty' & Hroom & ->).
  rename empty' into empty.
  destruct (block_length _ _ _ _ _ _ e Hi) as [He Hle];
    [rewrite !elem_of_app; right; left; left|].
  destruct Hi as [H1 Hsz H2 H3 H4 H5 H6 H7 H8 H9 H10 H11 H12 H13 H14].
  unfold bcache_prod. rewrite H1, (proj2 (Z.ltb_ge _ _)) by lia. rewrite H3, H2.
  rewrite aread_mid, awrite_mid by done. cbn [mbind outcome_bind].
  rewrite wrap_small by (unfold fits; lia).
  rewrite (slab_write_run (set_slabs bp _ _) e) by (done || (change (block (set_slabs bp _ _)) with (block bp); lia)).
  cbn [mbind outcome_bind]. eexists _, _, (full ++ [slab_prod c]), empty. split; [done|].
  assert ((full ++ [slab_prod c]) ++ empty ++ rv ++
    ((l1 ++ mkCache (slab_cons c) e (n_buffers_cons c) 1 :: l2) ≫= cache_ids) ≡ₚ
    full ++ (e :: empty) ++ rv ++ ((l1 ++ c :: l2) ≫= cache_ids)) as Hids.
  { rewrite !bind_app, !bind_cons. unfold cache_ids at 2 5. cbn [slab_cons slab_prod app].
    solve_Permutation. }
  destruct (first_empty_alone _ _ _ _ _ _ _ H11) as (X1 & X2 & X3 & X4 & X5).
  assert (e < length (slab_mem bp))%nat as Hlt by by eapply lookup_lt_Some.
  split; try done.
  - cbn. by rewrite <-app_assoc.
  - cbn. rewrite length_app. simpl. lia.
  - rewrite <-H4, !length_app. simpl. lia.
  - rewrite <-H9, !length_app. done.
  - cbn. by apply Forall_insert; [done|rewrite length_insert].
  - by rewrite Hids.
  - rewrite Hids. cbn. by rewrite length_insert.
  - apply Forall_app. split; [done|]. constructor; [|done]. split; simpl; lia.
  - rewrite <-H14, blocks_set by (rewrite elem_of_app, elem_of_cons, elem_of_nil; naive_solver).
    rewrite !bind_app, !bind_cons, !cacheds_set by done.
    change (block (set_slabs bp _ _)) with (block bp).
    change (cached (set_slabs bp _ _)) with (cached bp). change ([] ≫= block bp) with (@nil Z).
    unfold cached at 2 5. cbn [slab_cons slab_prod n_buffers_cons n_buffers_prod].
    rewrite block_set_ne, block_set_eq by done. change (block (set_slabs bp _ _)) with (block bp).
    rewrite Heq, Nat2Z.id, (take_ge (block bp (slab_prod c))) by lia.
    change (Z.to_nat 1) with 1%nat. change (Z.to_nat 0) with 0%nat.
    rewrite take_insert_snoc by lia. cbn [take app]. rewrite !fmap_app. cbn [fmap list_fmap].
    solve_Permutation.
Qed.

Lemma prod_inv bp l1 c l2 o full empty rv b :
  pool_inv bp (l1 ++ c :: l2) (chunk size b :: o) full empty rv →
  ∃ bp' c' full' empty', bcache_prod bp c b = Ret (bp', c') ∧
    pool_inv bp' (l1 ++ c' :: l2) o full' empty' rv.
Proof.
  intros Hi. pose proof (pi_caches _ _ _ _ _ _ Hi) as Hok.
  apply Forall_app in Hok as [_ [[_ Hcp] _]%Forall_cons].
  destruct (decide (n_buffers_prod c = Z.of_nat per)) as [Heq|Hne].
  - by eapply prod_full_inv.
  - destruct (prod_room_inv _ _ _ _ _ _ _ _ _ Hi) as (bp' & c' & E & Hi'); [lia|eauto 10].
Qed.

(** A new cache gets the last two reserved slabs. *)
Lemma cache_init_inv mem bp cs o full empty rv :
  pool_inv bp cs o full empty rv →
  ∃ c bp' rv', bcache_init mem bp = Ret (c, bp') ∧
    pool_inv bp' (option_list c ++ cs) o full empty rv'.
Proof.
  intros Hi. unfold bcache_init. destruct mem; cbn [negb]; [|by eexists None, bp, rv].
  rewrite (pi_ravail _ _ _ _ _ _ Hi).
  destruct (Z.eqb_spec (Z.of_nat (length rv)) 0) as [Hz|Hz]; [by eexists None, bp, rv|].
  destruct Hi as [H1 Hsz H2 H3 H4 H5 H6 H7 H8 H9 H10 H11 H12 H13 H14].
  destruct H8 as [k Hk].
  destruct (snoc_cases rv) as [->|(rv1 & a & ->)]; [done|].
  destruct (snoc_cases rv1) as [->|(rv0 & p & ->)]; [cbn in Hk; lia|].
  rewrite !length_app in H5, Hk, H9, H6, Hz |- *. cbn [length] in *.
  assert (∃ rest, slabs_reserved bp = rv0 ++ p :: a :: rest) as [rest Er].
  { exists (drop (length rv0 + 1 + 1) (slabs_reserved bp)).
    rewrite <-(take_drop (length rv0 + 1 + 1) (slabs_reserved bp)) at 1.
    rewrite <-H5, <-!app_assoc. done. }
  assert (length rv0 + 1 + 1 ≤ r)%nat as Hle by lia.
  rewrite !wrap_small by (unfold fits; lia).
  assert (aread (slabs_reserved bp) (Z.of_nat (length rv0 + 1 + 1) - 1) = Ret a) as ->
    by (rewrite Er, snoc_app; apply aread_mid; rewrite length_app; simpl; lia).
  assert (aread (slabs_reserved bp) (Z.of_nat (length rv0 + 1 + 1) - 2) = Ret p) as ->
    by (rewrite Er; apply aread_mid; lia).
  cbn [mbind outcome_bind]. eexists (Some _), _, rv0. split; [done|]. cbn [option_list app].
  assert (full ++ empty ++ rv0 ++ ((mkCache a p 0 0 :: cs) ≫= cache_ids) ≡ₚ
    full ++ empty ++ ((rv0 ++ [p]) ++ [a]) ++ (cs ≫= cache_ids)) as Hids.
  { rewrite bind_cons. unfold cache_ids at 1. cbn [slab_cons slab_prod app]. solve_Permutation. }
  split; try done.
  - cbn. by rewrite Er, take_app_length.
  - cbn. lia.
  - exists (k - 1)%nat. lia.
  - simpl. lia.
  - by rewrite Hids.
  - by rewrite Hids.
  - constructor; [|done]. split; simpl; lia.
Qed.

(** The slabs of a cache go back to the reserved ones. *)
Lemma cache_free_inv bp l1 c l2 o full empty rv :
  pool_inv bp (l1 ++ c :: l2) o full empty rv →
  ∃ bp', bcache_free bp c = Ret bp' ∧
    pool_inv bp' (l1 ++ l2) ((chunk size <$> cached bp c) ++ o) full empty (rv ++ [slab_prod c; slab_cons c]).
Proof.
  intros [H1 Hsz H2 H3 H4 H5 H6 H7 H8 H9 H10 H11 H12 H13 H14].
  rewrite length_app in H9. cbn [length] in H9.
  assert (∃ x y rest, slabs_reserved bp = rv ++ x :: y :: rest) as (x & y & rest & Er).
  { rewrite <-(take_drop (length rv) (slabs_reserved bp)), <-H5.
    destruct (drop (length rv) (slabs_reserved bp)) as [|x [|y rest]] eqn:Ed; [| |eauto];
      apply (f_equal length) in Ed; rewrite length_drop in Ed; cbn in Ed; lia. }
  unfold bcache_free. rewrite Er, H6, awrite_mid by done. cbn [mbind outcome_bind].
  rewrite !wrap_small by (unfold fits; lia).
  rewrite snoc_app, awrite_mid by (rewrite length_app; simpl; lia). cbn [mbind outcome_bind].
  eexists. split; [done|].
  assert (full ++ empty ++ (rv ++ [slab_prod c; slab_cons c]) ++ ((l1 ++ l2) ≫= cache_ids) ≡ₚ
    full ++ empty ++ rv ++ ((l1 ++ c :: l2) ≫= cache_ids)) as Hids.
  { rewrite !bind_app, bind_cons. unfold cache_ids at 4. solve_Permutation. }
  split; try done.
  - cbn [slabs_reserved set_reserved]. rewrite <-app_assoc. cbn [app].
    rewrite length_app. cbn [length].
    replace (length rv + 2)%nat with (length (rv ++ [slab_prod c; slab_cons c]))
      by (rewrite length_app; done).
    change (rv ++ slab_prod c :: slab_cons c :: rest) with
      (rv ++ [slab_prod c; slab_cons c] ++ rest). by rewrite app_assoc, take_app_length.
  - cbn. rewrite length_app. simpl. lia.
  - cbn. rewrite <-H7, Er, !length_app. simpl. lia.
  - destruct H8 as [k Hk]. exists (S k). rewrite length_app. simpl. lia.
  - rewrite !length_app in *. simpl. lia.
  - by rewrite Hids.
  - by rewrite Hids.
  - apply Forall_app in H13 as [? [_ ?]%Forall_cons]. by apply Forall_app.
  - rewrite <-H14, !bind_app, bind_cons. change (cached (set_reserved bp _ _)) with (cached bp).
    change (block (set_reserved bp _ _)) with (block bp). rewrite !fmap_app. solve_Permutation.
Qed.

Lemma perm_inv bp cs o o' full empty rv :
  o ≡ₚ o' → pool_inv bp cs o full empty rv → pool_inv bp cs o' full empty rv.
Proof. intros Hp [H1 Hsz H2 H3 H4 H5 H6 H7 H8 H9 H10 H11 H12 H13 H14]. split; try done. by rewrite <-Hp. Qed.

Lemma out_NoDup bp cs o full empty rv : pool_inv bp cs o full empty rv → NoDup o.
Proof.
  intros Hi. pose proof Hnd as H. rewrite <-(pi_all _ _ _ _ _ _ Hi) in H.
  by apply NoDup_app in H as (_ & _ & H).
Qed.

Lemma list_difference_one (l : list Z) x :
  NoDup l → x ∈ l → l ≡ₚ x :: list_difference l [x].
Proof.
  intros Hl Hx. apply NoDup_Permutation; [done| |].
  - constructor; [|by apply NoDup_list_difference].
    rewrite list_elem_of_difference, list_elem_of_singleton. tauto.
  - intros y. rewrite elem_of_cons, list_elem_of_difference, list_elem_of_singleton.
    destruct (decide (y = x)) as [->|]; tauto.
Qed.

(** Every call that is allowed succeeds and keeps the invariant. *)
Lemma xop_inv s o full empty rv :
  pool_inv (pool s) (caches s) (out s ++ lost s) full empty rv → allowed o s →
  ∃ s' full' empty' rv', run_xop o s = Ret s' ∧
    pool_inv (pool s') (caches s') (out s' ++ lost s') full' empty' rv'.
Proof.
  destruct s as [bp cs out0 lost0]. intros Hi Ha. destruct o as [mem|i|i k|i|i b]; cbn in *;
    rewrite ?(pi_size _ _ _ _ _ _ Hi) in Ha |- *.
  - destruct (cache_init_inv mem _ _ _ _ _ _ Hi) as (c & bp' & rv' & -> & Hi').
    eexists _, full, empty, rv'. by split.
  - apply lookup_lt_is_Some_2 in Ha as [c Hc]. rewrite Hc.
    apply list_elem_of_split_length in Hc as (l1 & l2 & -> & ->).
    destruct (cache_free_inv _ _ _ _ _ _ _ _ Hi) as (bp' & E & Hi'). cbn. rewrite E.
    eexists _, full, empty, _. split; [done|]. cbn.
    rewrite delete_middle, (pi_size _ _ _ _ _ _ Hi). eapply perm_inv; [|exact Hi'].
    solve_Permutation.
  - apply lookup_lt_is_Some_2 in Ha as [c Hc]. rewrite Hc.
    apply list_elem_of_split_length in Hc as (l1 & l2 & -> & ->).
    destruct (check_inv _ _ _ _ _ _ _ _ k Hi) as (m & bp' & c' & full' & empty' & E & Hi' & _).
    cbn. rewrite E. eexists _, full', empty', rv. split; [done|]. cbn.
    by rewrite insert_app_r_alt, Nat.sub_diag by done.
  - destruct Ha as (c & Hc & Hpos). rewrite Hc.
    apply list_elem_of_split_length in Hc as (l1 & l2 & -> & ->).
    destruct (cons_inv _ _ _ _ _ _ _ _ Hi Hpos) as (b & c' & E & _ & Hi').
    cbn. rewrite E. eexists _, full, empty, rv. split; [done|]. cbn.
    by rewrite insert_app_r_alt, Nat.sub_diag, (pi_size _ _ _ _ _ _ Hi) by done.
  - destruct Ha as [Hlt Hb]. apply lookup_lt_is_Some_2 in Hlt as [c Hc]. rewrite Hc.
    apply list_elem_of_split_length in Hc as (l1 & l2 & -> & ->).
    pose proof (out_NoDup _ _ _ _ _ _ Hi) as Hno. apply NoDup_app in Hno as (Hno & _ & _).
    pose proof (list_difference_one _ _ Hno Hb) as Hp. apply (Permutation_app_tail lost0) in Hp.
    destruct (prod_inv _ _ _ _ _ _ _ _ _ (perm_inv _ _ _ _ _ _ _ Hp Hi))
      as (bp' & c' & full' & empty' & E & Hi').
    cbn. rewrite E. eexists _, full', empty', rv. split; [done|]. cbn.
    by rewrite insert_app_r_alt, Nat.sub_diag, ?(pi_size _ _ _ _ _ _ Hi) by done.
Qed.

Lemma xreach_inv bp os s :
  (∃ full empty rv, pool_inv bp [] [] full empty rv) → xreach bp os s →
  ∃ full empty rv, pool_inv (pool s) (caches s) (out s ++ lost s) full empty rv.
Proof.
  intros H0 Hs. induction Hs as [|os o s s' _ (full & empty & rv & Hi) Ha E]; [done|].
  destruct (xop_inv _ _ _ _ _ Hi Ha) as (s1 & full' & empty' & rv' & E' & Hi').
  rewrite E in E'. injection E' as <-. by exists full', empty', rv'.
Qed.

Lemma inv_stored bp cs o full empty rv :
  pool_inv bp cs o full empty rv → (chunk size <$> stored bp cs) ++ o ≡ₚ all.
Proof.
  intros Hi. unfold stored. rewrite (pi_avail _ _ _ _ _ _ Hi), (pi_slabs _ _ _ _ _ _ Hi).
  rewrite Nat2Z.id, take_app_length. apply Hi.
Qed.
End inv.

(** ** Pools as they are made *)

(** The parameters keep the computations in their types. *)
Definition good_params (p : bpool_params) : Prop :=
  0 < p_n_buffers_per_slab p ∧ 0 < p_n_buffers p ∧
  p_n_buffers p + p_n_buffers_per_slab p - 1 < 2 ^ 32 ∧
  0 ≤ p_n_users_max p ∧ p_n_users_max p * 2 < 2 ^ 32 ∧
  0 < p_buffer_size p < 2 ^ 32 ∧
  (p_n_buffers p + p_n_buffers_per_slab p) * p_buffer_size p < 2 ^ 64.

(** The number of slabs, and the addresses of the buffers. *)
Definition slab_count (p : bpool_params) : Z :=
  (p_n_buffers p + p_n_buffers_per_slab p - 1) / p_n_buffers_per_slab p.

Definition all_buffers (p : bpool_params) : list Z :=
  (fun j => Z.of_nat j * p_buffer_size p) <$>
    seq 0 (Z.to_nat (slab_count p) * Z.to_nat (p_n_buffers_per_slab p)).

Lemma blocks_concat {A} (f : nat → A) per n :
  (seq 0 n ≫= fun i => (fun j => f (i * per + j)%nat) <$> seq 0 per) = f <$> seq 0 (n * per).
Proof.
  induction n as [|n IH]; [done|].
  rewrite seq_S, bind_app, IH. replace (S n * per)%nat with (n * per + per)%nat by lia.
  rewrite seq_app, fmap_app. f_equal. rewrite bind_cons. change ([] ≫= _) with (@nil A).
  rewrite app_nil_r. cbn [Nat.add].
  replace (seq (n * per) per) with (Nat.add (n * per) <$> seq 0 per)
    by (rewrite fmap_add_seq; f_equal; lia).
  by rewrite <-list_fmap_compose.
Qed.

Lemma slab_count_bound p :
  good_params p →
  0 ≤ slab_count p ∧ slab_count p * p_n_buffers_per_slab p < p_n_buffers p + p_n_buffers_per_slab p ∧
  slab_count p < 2 ^ 32.
Proof.
  intros (H1 & H2 & H3 & _). unfold slab_count.
  pose proof (Z.div_pos (p_n_buffers p + p_n_buffers_per_slab p - 1) (p_n_buffers_per_slab p)).
  pose proof (Z.mul_div_le (p_n_buffers p + p_n_buffers_per_slab p - 1) (p_n_buffers_per_slab p)).
  nia.
Qed.

Lemma all_buffers_NoDup p : good_params p → NoDup (all_buffers p).
Proof.
  intros (H1 & H2 & H3 & H4 & H5 & H6 & H7). apply (NoDup_fmap_2_strong _ _); [|apply NoDup_seq].
  intros x y _ _ E. nia.
Qed.

Lemma good_dims p :
  good_params p →
  let per := Z.to_nat (p_n_buffers_per_slab p) in
  let n := Z.to_nat (slab_count p) in
  let r := Z.to_nat (p_n_users_max p * 2) in
  (0 < per)%nat ∧ Z.of_nat per < 2 ^ 32 ∧ Z.of_nat n < 2 ^ 32 ∧ Z.of_nat r < 2 ^ 32 ∧
  length (all_buffers p) = (n * per)%nat ∧ NoDup (all_buffers p).
Proof.
  intros Hg per n r. pose proof (slab_count_bound p Hg). pose proof (all_buffers_NoDup p Hg).
  destruct Hg as (H1 & H2 & H3 & H4 & H5 & H6 & H7).
  unfold all_buffers in *. rewrite length_fmap, length_seq. unfold per, n, r.
  split_and!; try done; lia.
Qed.

(** The pool as [bpool_init] makes it. *)
Lemma make_pool_inv p :
  good_params p →
  pool_inv (Z.to_nat (p_n_buffers_per_slab p)) (Z.to_nat (slab_count p))
    (Z.to_nat (p_n_users_max p * 2)) (p_buffer_size p) (all_buffers p)
    (make_pool p (slab_count p) (p_n_users_max p * 2)) [] []
    (seq 0 (Z.to_nat (slab_count p))) []
    (seq (Z.to_nat (slab_count p)) (Z.to_nat (p_n_users_max p * 2))).
Proof.
  intros Hg. pose proof (slab_count_bound p Hg) as (Hc0 & Hc1 & Hc2).
  destruct Hg as (H1 & H2 & H3 & H4 & H5 & H6 & H7).
  set (n := Z.to_nat (slab_count p)) in *. set (per := Z.to_nat (p_n_buffers_per_slab p)).
  set (r := Z.to_nat (p_n_users_max p * 2)).
  split; cbn -[seq]; rewrite ?app_nil_r, ?length_seq; try done; try lia.
  - by rewrite take_ge by by rewrite length_seq.
  - unfold r. exists (Z.to_nat (p_n_users_max p)). lia.
  - apply Forall_app. split.
    + apply Forall_fmap, Forall_forall. intros x _. cbn. by rewrite length_fmap, length_seq.
    + apply Forall_replicate. by rewrite length_replicate.
  - rewrite <-seq_app. apply NoDup_seq.
  - rewrite <-seq_app. apply Forall_forall. intros x Hx%elem_of_seq.
    rewrite length_app, length_fmap, length_replicate, length_seq. lia.
  - trans (chunk (p_buffer_size p) <$> all_buffers p).
    2: { unfold all_buffers. rewrite <-list_fmap_compose. apply Permutation_refl', list_fmap_ext.
      intros i x _. unfold compose, chunk. by rewrite Z.div_mul by lia. }
    apply Permutation_refl'. f_equal. unfold all_buffers. fold n per. rewrite <-blocks_concat.
    apply bind_ext_in. intros i Hi%elem_of_seq. unfold block. cbn -[seq].
    rewrite lookup_app_l by (rewrite length_fmap, length_seq; lia).
    rewrite list_lookup_fmap, lookup_seq_lt by lia. cbn -[seq].
    apply list_fmap_ext. intros j x Hx%lookup_seq. destruct Hx as [-> Hx]. fold per.
    apply wrap_small. unfold fits, n, per in *. nia.
Qed.

(** [bpool_init] makes this pool or cleans up. *)
Lemma bpool_init_run ok p :
  good_params p →
  bpool_init ok p = Ret (if ok SetRlimit && ok Calloc && ok MutexInit && ok Mmap && ok UmemCreate
    then (Some (make_pool p (slab_count p) (p_n_users_max p * 2)),
          [PoolUmem; PoolMap; PoolLock; PoolMem])
    else (None, [])).
Proof.
  intros (H1 & H2 & H3 & H4 & H5 & H6 & H7). unfold bpool_init.
  rewrite (proj2 (Z.eqb_neq _ _)) by lia. rewrite !wrap_small by (unfold fits; lia).
  fold (slab_count p).
  destruct (ok SetRlimit), (ok Calloc), (ok MutexInit), (ok Mmap), (ok UmemCreate); done.
Qed.

(** ** What the ports rely on *)

(** [holds bp cs o]: a pool with the caches [cs], whose users have the buffers
    [o]. The operations keep it so, and move buffers as they say. *)
Class BufferPool (size per : Z) (holds : bpool -> list bcache -> list Z -> Prop) := {
  pool_slab_size bp cs o : holds bp cs o → bcache_slab_size bp = per;
  pool_perm bp cs o o' : o ≡ₚ o' → holds bp cs o → holds bp cs o';
  pool_check bp l1 c l2 o k : holds bp (l1 ++ c :: l2) o →
    ∃ m bp' c', bcache_cons_check bp c k = Ret (m, bp', c') ∧ holds bp' (l1 ++ c' :: l2) o ∧
      (0 ≤ k ≤ per → 0 ≤ m ≤ n_buffers_cons c' ∧ m ≤ k) ∧ (1 ≤ k ≤ per → (m =? 0) = starved bp c);
  pool_cons bp l1 c l2 o : holds bp (l1 ++ c :: l2) o → 0 < n_buffers_cons c →
    ∃ b c', bcache_cons bp c = Ret (b, c') ∧ n_buffers_cons c' = n_buffers_cons c - 1 ∧
      holds bp (l1 ++ c' :: l2) (chunk size b :: o);
  pool_prod bp l1 c l2 o b : holds bp (l1 ++ c :: l2) (chunk size b :: o) →
    ∃ bp' c', bcache_prod bp c b = Ret (bp', c') ∧ holds bp' (l1 ++ c' :: l2) o;
  pool_init mem bp cs o : holds bp cs o →
    ∃ c bp', bcache_init mem bp = Ret (c, bp') ∧ holds bp' (option_list c ++ cs) o;
  pool_free bp l1 c l2 o : holds bp (l1 ++ c :: l2) o →
    ∃ bp', bcache_free bp c = Ret bp' ∧
      holds bp' (l1 ++ l2) ((chunk size <$> cached bp c) ++ o);
}.

(** The pools [bpool_init] makes. *)
Definition pool_holds (p : bpool_params) (bp : bpool) (cs : list bcache) (o : list Z) : Prop :=
  good_params p ∧ ∃ full empty rv,
    pool_inv (Z.to_nat (p_n_buffers_per_slab p)) (Z.to_nat (slab_count p))
      (Z.to_nat (p_n_users_max p * 2)) (p_buffer_size p) (all_buffers p) bp cs o full empty rv.

#[export] Instance pool_holds_pool p :
  BufferPool (p_buffer_size p) (p_n_buffers_per_slab p) (pool_holds p).
Proof.
  split.
  - intros bp cs o [Hg (full & empty & rv & Hi)].
    destruct (good_dims p Hg) as (D1 & D2 & D3 & D4 & D5 & D6).
    unfold bcache_slab_size. rewrite (pi_per _ _ _ _ _ _ _ _ _ _ _ Hi), wrap_small; [lia|].
    unfold fits. lia.
  - intros bp cs o o' Hp [Hg (full & empty & rv & Hi)]. split; [done|].
    exists full, empty, rv. by eapply perm_inv.
  - intros bp l1 c l2 o k [Hg (full & empty & rv & Hi)].
    destruct (good_dims p Hg) as (D1 & D2 & D3 & D4 & D5 & D6).
    eapply check_inv in Hi as (m & bp' & c' & full' & empty' & E & Hi & Hm & Hz); try done.
    exists m, bp', c'. split_and!; [done| | |].
    + split; [done|]. by exists full', empty', rv.
    + intros Hk. apply Hm. lia.
    + intros Hk. apply Hz. lia.
  - intros bp l1 c l2 o [Hg (full & empty & rv & Hi)] Hc.
    destruct (good_dims p Hg) as (D1 & D2 & D3 & D4 & D5 & D6).
    eapply cons_inv in Hi as (b & c' & E & Hn & Hi); try done.
    exists b, c'. split_and!; [done..|]. split; [done|]. by exists full, empty, rv.
  - intros bp l1 c l2 o b [Hg (full & empty & rv & Hi)].
    destruct (good_dims p Hg) as (D1 & D2 & D3 & D4 & D5 & D6).
    eapply prod_inv in Hi as (bp' & c' & full' & empty' & E & Hi); try done.
    exists bp', c'. split; [done|]. split; [done|]. by exists full', empty', rv.
  - intros mem bp cs o [Hg (full & empty & rv & Hi)].
    destruct (good_dims p Hg) as (D1 & D2 & D3 & D4 & D5 & D6).
    destruct (cache_init_inv _ D1 _ _ D4 _ _ D5 mem _ _ _ _ _ _ Hi) as (c & bp' & rv' & E & Hi').
    exists c, bp'. split; [done|]. split; [done|]. by exists full, empty, rv'.
  - intros bp l1 c l2 o [Hg (full & empty & rv & Hi)].
    destruct (good_dims p Hg) as (D1 & D2 & D3 & D4 & D5 & D6).
    eapply cache_free_inv in Hi as (bp' & E & Hi); try done.
    exists bp'. split; [done|]. split; [done|]. by exists full, empty, (rv ++ [slab_prod c; slab_cons c]).
Qed.

Lemma pool_holds_made p :
  good_params p → pool_holds p (make_pool p (slab_count p) (p_n_users_max p * 2)) [] [].
Proof. intros Hg. split; [done|]. eexists _, _, _. by apply make_pool_inv. Qed.

(** All buffers are accounted for. *)
Lemma pool_holds_all p bp cs o :
  pool_holds p bp cs o → (chunk (p_buffer_size p) <$> stored bp cs) ++ o ≡ₚ all_buffers p ∧
    NoDup (all_buffers p).
Proof.
  intros [Hg (full & empty & rv & Hi)]. split; [|by apply all_buffers_NoDup].
  by apply inv_stored in Hi.
Qed.

Section pool.
Context (ok : pool_call -> bool) (p : bpool_params) (bp : bpool) (held : list pool_res).

Lemma pool_reach os s :
  good_params p → bpool_init ok p = Ret (Some bp, held) → xreach bp os s →
  ∃ full empty rv, pool_inv (Z.to_nat (p_n_buffers_per_slab p)) (Z.to_nat (slab_count p))
    (Z.to_nat (p_n_users_max p * 2)) (p_buffer_size p) (all_buffers p) (pool s) (caches s)
    (out s ++ lost s) full empty rv.
Proof.
  intros Hg Hp Hs. pose proof (slab_count_bound p Hg) as (Hc0 & Hc1 & Hc2).
  rewrite bpool_init_run in Hp by done. destruct (_ && _); [|done]. injection Hp as <- <-.
  destruct (good_dims p Hg) as (D1 & D2 & D3 & D4 & D5 & D6).
  eapply xreach_inv; try done. eexists _, _, _. by apply make_pool_inv.
Qed.

(** For any parameters that do not overflow, any number of caches and any order of
    their calls, every call succeeds: there is always an empty slab to trade a full
    one for, as the code assumes, and a place for the slabs that are given back. *)
Theorem pool_calls_succeed os s o :
  good_params p → bpool_init ok p = Ret (Some bp, held) → xreach bp os s → allowed o s →
  ∃ s', run_xop o s = Ret s'.
Proof.
  intros Hg Hp Hs Ha. pose proof (slab_count_bound p Hg) as (Hc0 & Hc1 & Hc2).
  destruct (pool_reach os s Hg Hp Hs) as (full & empty & rv & Hi).
  destruct (good_dims p Hg) as (D1 & D2 & D3 & D4 & D5 & D6).
  eapply xop_inv in Hi as (s' & _ & _ & _ & E & _); [by exists s'|..]; done.
Qed.

(** Only freeing a cache loses buffers. *)
Lemma lost_by_free os s : xreach bp os s → Forall (λ o, frees o = false) os → lost s = [].
Proof.
  induction 1 as [|os o s s' _ IH _ E]; [done|]. intros [Ho Hos]%Forall_cons.
  rewrite <-(IH Hos). destruct o as [mem|i|i k|i|i b]; [|done|..]; cbn in E.
  - destruct (bcache_init _ _) as [[c bp']|]; [|done]. by injection E as <-.
  - destruct (caches s !! i) as [c|]; [|done]. cbn in E.
    destruct (bcache_cons_check _ _ _) as [[[m bp'] c']|]; [|done]. by injection E as <-.
  - destruct (caches s !! i) as [c|]; [|done]. cbn in E.
    destruct (bcache_cons _ _) as [[b c']|]; [|done]. by injection E as <-.
  - destruct (caches s !! i) as [c|]; [|done]. cbn in E.
    destruct (bcache_prod _ _ _) as [[bp' c']|]; [|done]. by injection E as <-.
Qed.

Lemma pool_accounts os s :
  good_params p → bpool_init ok p = Ret (Some bp, held) → xreach bp os s →
  (chunk (p_buffer_size p) <$> stored (pool s) (caches s)) ++ out s ++ lost s ≡ₚ all_buffers p.
Proof.
  intros Hg Hp Hs. destruct (pool_reach os s Hg Hp Hs) as (full & empty & rv & Hi).
  by apply inv_stored in Hi.
Qed.

(** C9. No buffer is in two places, and the ones that are neither stored in the pool or in
    a cache nor held by a user were left in a cache that was freed. Without such a call
    all buffers of the pool are stored or held; a call of [bcache_free] loses exactly the
    buffers that are in the cache. *)
Theorem pool_buffers_conserved os s :
  good_params p → bpool_init ok p = Ret (Some bp, held) → xreach bp os s →
  let bufs s := (chunk (p_buffer_size p) <$> stored (pool s) (caches s)) ++ out s in
  NoDup (bufs s) ∧
  (Forall (λ o, frees o = false) os → bufs s ≡ₚ all_buffers p) ∧
  (∀ i c s', caches s !! i = Some c → run_xop (OFree i) s = Ret s' →
     bufs s ≡ₚ (chunk (p_buffer_size p) <$> cached (pool s) c) ++ bufs s').
Proof.
  intros Hg Hp Hs bufs. pose proof (pool_accounts os s Hg Hp Hs) as Ha.
  rewrite app_assoc in Ha. fold (bufs s) in Ha. split_and!.
  - pose proof (all_buffers_NoDup p Hg) as Hn. rewrite <-Ha in Hn. by apply NoDup_app in Hn as [? _].
  - intros Hf. by rewrite (lost_by_free os s Hs Hf), app_nil_r in Ha.
  - intros i c s' Hc E. assert (allowed (OFree i) s) as Hal by (by eapply lookup_lt_Some).
    pose proof (pool_accounts _ s' Hg Hp (xreach_step _ _ _ _ _ Hs Hal E)) as Ha'.
    rewrite app_assoc in Ha'. fold (bufs s') in Ha'.
    destruct (pool_reach os s Hg Hp Hs) as (full & empty & rv & Hi).
    assert (lost s' = (chunk (p_buffer_size p) <$> cached (pool s) c) ++ lost s) as El.
    { cbn in E. rewrite Hc in E. cbn in E. destruct (bcache_free (pool s) c) as [bp'|]; [|done].
      injection E as <-. cbn [lost]. by rewrite (pi_size _ _ _ _ _ _ _ _ _ _ _ Hi). }
    rewrite El, <-Ha in Ha'. apply (Permutation_app_inv_r (lost s)). rewrite <-Ha'. solve_Permutation.
Qed.
End pool.

(** A pool of four buffers in two slabs: a cache takes its buffers and puts three
    back, the third into a slab it traded for the full one. *)
Definition sample_params : bpool_params := mkParams 3 4096 1 2.
Definition sample_pool : bpool := make_pool sample_params 2 2.
Definition after (o : xop) (s : xsys) : xsys :=
  match run_xop o s with Ret s' => s' | Fault _ => s end.
Definition sample_ops : list xop :=
  [OInit true; OCheck 0 1; OCons 0; OCons 0; OCheck 0 1; OCons 0; OProd 0 4352; OProd 0 8448].
Definition sample_state : xsys := foldl (fun s o => after o s) (mkSys sample_pool [] [] []) sample_ops.

Lemma sample_good : good_params sample_params.
Proof. unfold good_params. cbn. lia. Qed.

Lemma sample_init : bpool_init (fun _ => true) sample_params =
  Ret (Some sample_pool, [PoolUmem; PoolMap; PoolLock; PoolMem]).
Proof. vm_compute. reflexivity. Qed.

Lemma after_reach os o s :
  xreach sample_pool os s → allowed o s → (if run_xop o s is Ret _ then True else False) →
  xreach sample_pool (o :: os) (after o s).
Proof.
  unfold after. intros Hs Ha. destruct (run_xop o s) eqn:E; [|done]. intros _.
  by eapply xreach_step.
Qed.

Lemma sample_reach : xreach sample_pool (reverse sample_ops) sample_state.
Proof.
  unfold sample_state, sample_ops. cbn [foldl reverse rev_append].
  repeat (apply after_reach; [| |by vm_compute]); [apply xreach_init|..]; cbn [allowed];
    try (by vm_compute; lia); try (vm_compute; eexists; split; [reflexivity|reflexivity]).
  1, 2: split; [by vm_compute; lia|]; by apply (bool_decide_unpack (_ ∈ _)); vm_compute.
Qed.

Lemma pool_calls_succeed_witness : ∃ s', run_xop (OProd 0 12544) sample_state = Ret s'.
Proof.
  apply (pool_calls_succeed (fun _ => true) sample_params sample_pool
    [PoolUmem; PoolMap; PoolLock; PoolMem] (reverse sample_ops)).
  - apply sample_good.
  - apply sample_init.
  - apply sample_reach.
  - split; [by vm_compute; lia|]. by apply (bool_decide_unpack (_ ∈ _)); vm_compute.
Defined.

(** Without a free all four buffers are accounted for; freeing the cache now would lose
    the buffer in it. *)
Lemma pool_buffers_conserved_witness :
  let bufs s := (chunk 4096 <$> stored (pool s) (caches s)) ++ out s in
  NoDup (bufs sample_state) ∧ bufs sample_state ≡ₚ [0; 4096; 8192; 12288] ∧
  ∀ c, caches sample_state !! 0%nat = Some c →
    bufs sample_state ≡ₚ (chunk 4096 <$> cached (pool sample_state) c) ++
      bufs (after (OFree 0) sample_state).
Proof.
  destruct (pool_buffers_conserved (fun _ => true) sample_params sample_pool
    [PoolUmem; PoolMap; PoolLock; PoolMem] (reverse sample_ops) sample_state
    sample_good sample_init sample_reach) as (H1 & H2 & H3).
  split_and!; [exact H1| |].
  - apply H2. repeat constructor.
  - intros c Hc. apply (H3 0%nat c); [done|]. vm_compute. reflexivity.
Defined.
