(* ===== verification/XskPort.v ===== *)
(** * The ports of the AF_XDP forwarder ([dev-net-ebpf-xdp/xsk])

    A port has a buffer cache of the shared pool ([Xsk]) and four rings with the
    kernel: buffers to receive into ([umem_fq]), received packets ([rxq]), packets to
    send ([txq]) and buffers that were sent ([umem_cq]). A ring is the list of its
    entries; the functions of [libxdp] on it are those its documentation describes:
    [xsk_ring_prod__reserve] gives all places asked for or none, and
    [xsk_ring_cons__peek] as many entries as there are, up to the number asked for.

    The two ports of a thread forward to each other. The kernel fills the receive
    ring from the fill ring and moves sent buffers to the completion ring; what it
    does while the code waits for a place is an argument of the operations. The
    theorems: in every interleaving with the kernel what came in on a port is, in
    order, what the kernel has taken from the other port's transmit ring, what waits in
    that ring and what was not read yet; no buffer is lost or used twice; and a step
    returns unless a packet cannot be handled. Forwarding a burst is one step, with
    what the kernel does during the waits. *)

From stdpp Require Import base tactics numbers list.
From S2P Require Import Prelude Xsk.

Local Open Scope Z_scope.

Definition MAX_BURST_RX : Z := 1.
Definition MAX_BURST_TX : Z := 1.
Definition BPOOL_GRP : Z := 2.

Record umem_config := mkUmem {
  fill_size : Z;
  comp_size : Z;
  tx_size : Z;
}.

(** A packet in a ring: its address and length. *)
Notation desc := (Z * Z)%type.

(** [sent] is not in the structure: the packets the kernel has taken from the transmit
    ring. *)
Record port := mkPort {
  bc : bcache;
  rxq : list desc;
  txq : list desc;
  umem_fq : list Z;
  umem_cq : list Z;
  n_pkts_rx : Z;
  n_pkts_tx : Z;
  sent : list desc;
}.

(** What [xsk_ring_cons__peek] finds when [n] entries are asked for. *)
Definition ring_peek {A} (ring : list A) (n : Z) : list A := take (Z.to_nat n) ring.

(** Whether [xsk_ring_prod__reserve] has room for [n] entries. *)
Definition ring_room {A} (ring : list A) (size n : Z) : bool :=
  Z.of_nat (length ring) + n <=? size.

(** [n] calls of [bcache_cons]. *)
Fixpoint cons_buffers (n : nat) (bp : bpool) (c : bcache) : outcome (list Z * bcache) :=
  match n with
  | O => Ret ([], c)
  | S n =>
    '(b, c) ← bcache_cons bp c;
    '(bs, c) ← cons_buffers n bp c;
    Ret (b :: bs, c)
  end.

(** [bcache_prod] of the buffers of the completion ring. *)
Fixpoint prod_buffers (bs : list Z) (bp : bpool) (c : bcache) : outcome (bpool * bcache) :=
  match bs with
  | [] => Ret (bp, c)
  | b :: bs => '(bp, c) ← bcache_prod bp c b; prod_buffers bs bp c
  end.

(** ** Receiving *)

(** The packets received. The fill ring gets as many new buffers; the loop that
    waits for room in it goes on for ever when there is none and the kernel does not
    take a buffer. *)
Definition port_rx_burst (cfg : umem_config) (bp : bpool) (p : port)
    : outcome (list desc * bpool * port) :=
  '(n, bp, c) ← bcache_cons_check bp (bc p) MAX_BURST_RX;
  let p := mkPort c (rxq p) (txq p) (umem_fq p) (umem_cq p) (n_pkts_rx p) (n_pkts_tx p) (sent p) in
  if n =? 0 then Ret ([], bp, p)
  else
    let b := ring_peek (rxq p) n in
    let n := Z.of_nat (length b) in
    if n =? 0 then Ret ([], bp, p)
    else if negb (ring_room (umem_fq p) (fill_size cfg) n) then Fault Deadlock
    else
      '(bs, c) ← cons_buffers (length b) bp (bc p);
      Ret (b, bp, mkPort c (drop (length b) (rxq p)) (txq p) (umem_fq p ++ bs) (umem_cq p)
                    (u64 (n_pkts_rx p + n)) (n_pkts_tx p) (sent p)).

(** ** Sending *)

(** The kernel sends the first [k] packets of the ring, as far as the completion ring has
    room for their buffers. *)
Definition kernel_tx (cfg : umem_config) (k : nat) (p : port) : port :=
  let k := Nat.min k (Z.to_nat (comp_size cfg) - length (umem_cq p)) in
  mkPort (bc p) (rxq p) (drop k (txq p)) (umem_fq p) (umem_cq p ++ (take k (txq p)).*1)
    (n_pkts_rx p) (n_pkts_tx p) (sent p ++ take k (txq p)).

(** The loop that waits for [n] places of the transmit ring; [kicks] is how many
    packets the kernel sends after each failed attempt. *)
Fixpoint wait_tx (cfg : umem_config) (kicks : list nat) (n : Z) (p : port) : outcome port :=
  if ring_room (txq p) (tx_size cfg) n then Ret p
  else match kicks with
       | [] => Fault Deadlock
       | k :: kicks => wait_tx cfg kicks n (kernel_tx cfg k p)
       end.

(** What the kernel sends while the code waits for the transmit ring, and after it has
    put its packets into it. *)
Record kick := mkKick { waiting : list nat; after : nat }.

(** [xsk_ring_prod__submit] of the packets [b]. *)
Definition submit_tx (b : list desc) (p : port) : port :=
  mkPort (bc p) (rxq p) (txq p ++ b) (umem_fq p) (umem_cq p) (n_pkts_rx p)
    (u64 (n_pkts_tx p + Z.of_nat (length b))) (sent p).

Definition port_tx_burst (cfg : umem_config) (kicks : kick) (bp : bpool) (p : port)
    (b : list desc) : outcome (bpool * port) :=
  p ← wait_tx cfg (waiting kicks) (Z.of_nat (length b)) p;
  let p := kernel_tx cfg (after kicks) (submit_tx b p) in
  let done := ring_peek (umem_cq p) (comp_size cfg) in
  '(bp, c) ← prod_buffers done bp (bc p);
  Ret (bp, mkPort c (rxq p) (txq p) (umem_fq p) (drop (length done) (umem_cq p))
             (n_pkts_rx p) (n_pkts_tx p) (sent p)).

(** ** Forwarding *)

(** [xsk_umem__add_offset_to_addr]: the upper 16 bits of an address are an offset. *)
Definition add_offset_to_addr (a : Z) : Z := u64 (Z.land a (2 ^ 48 - 1) + Z.shiftr a 48).

Section port.
Context {U : Type}.
(** What [handle_packet] does to the packet memory. *)
Context (handle_packet : desc -> U -> outcome U).
Context (cfg : umem_config).

(** The packets of a burst one after the other; [kicks] is what the kernel sends
    during each of them. *)
Fixpoint forward (kicks : desc -> kick) (b : list desc) (bp : bpool) (tx : port) (u : U)
    : outcome (bpool * port * U) :=
  match b with
  | [] => Ret (bp, tx, u)
  | d :: b =>
    let d := (add_offset_to_addr d.1, d.2) in
    u ← handle_packet d u;
    '(bp, tx) ← port_tx_burst cfg (kicks d) bp tx [d];
    forward kicks b bp tx u
  end.

Definition handle_port (kicks : desc -> kick) (bp : bpool) (rx tx : port) (u : U)
    : outcome (bpool * port * port * U) :=
  '(b, bp, rx) ← port_rx_burst cfg bp rx;
  '(bp, tx, u) ← forward kicks b bp tx u;
  Ret (bp, rx, tx, u).

(** ** Making ports *)

(** The calls of [port_init] that can fail. *)
Inductive port_call := CallocPort | CallocCache | SocketCreate | UpdateMap.

(** The port, or none, and the pool. A port whose socket is not entered into the map
    is not freed. *)
Definition port_init (ok : port_call -> bool) (bp : bpool) : outcome (option port * bpool) :=
  if negb (ok CallocPort) then Ret (None, bp)
  else
    let umem_fq_size := fill_size cfg / BPOOL_GRP in
    '(c, bp) ← bcache_init (ok CallocCache) bp;
    match c with
    | None => Ret (None, bp)
    | Some c =>
      if bcache_slab_size bp <? umem_fq_size
      then bp ← bcache_free bp c; Ret (None, bp)
      else
        '(n, bp, c) ← bcache_cons_check bp c umem_fq_size;
        if n <? umem_fq_size then bp ← bcache_free bp c; Ret (None, bp)
        else if negb (ok SocketCreate) then bp ← bcache_free bp c; Ret (None, bp)
        else if negb (ok UpdateMap) then Ret (None, bp)
        else
          '(bs, c) ← cons_buffers (Z.to_nat umem_fq_size) bp c;
          Ret (Some (mkPort c [] [] bs [] 0 0 []), bp)
    end.
End port.

(** ** The end of the program *)

(** [pools] are the pools by number, [None] when freed; [i] is the pool of the port's
    cache. *)
Definition port_free (pools : list (option bpool)) (i : nat) (p : port)
    : outcome (list (option bpool)) :=
  bp ← or_fault OutOfBounds (pools !! i);
  bp ← or_fault Dangling bp;
  bp ← bcache_free bp (bc p);
  Ret (<[i := Some bp]> pools).

(** The last loop of [main]: port [i] and the pool of its group. *)
Fixpoint free_all (ports : list port) (i bpptr : nat) (pools : list (option bpool))
    : outcome (list (option bpool)) :=
  match ports with
  | [] => Ret pools
  | p :: ports =>
    let bpptr := if negb (Z.of_nat i =? 0) && (Z.of_nat i mod BPOOL_GRP =? 0)
                 then S bpptr else bpptr in
    pools ← port_free pools bpptr p;
    bp ← or_fault OutOfBounds (pools !! bpptr);
    _ ← or_fault Dangling bp;
    free_all ports (S i) bpptr (<[bpptr := None]> pools)
  end.

(** ** Two ports and the kernel *)

(** A direction: packets received on the first or on the second port. *)
Record pair (U : Type) := mkPair {
  ppool : bpool;
  ports : bool -> port;
  packets : U;
  got : bool -> list desc;
}.
Arguments mkPair {U} _ _ _ _.
Arguments ppool {U} _.
Arguments ports {U} _.
Arguments packets {U} _.
Arguments got {U} _.

Definition upd {A} (f : bool -> A) (d : bool) (a : A) : bool -> A :=
  fun d' => if Bool.eqb d' d then a else f d'.

Section system.
Context {U : Type} (handle_packet : desc -> U -> outcome U) (cfg : umem_config) (size : Z).

(** [got d] are the packets the kernel has put into the receive ring of port [d]. *)
Definition forward_step (d : bool) (kicks : desc -> kick) (s : pair U) : outcome (pair U) :=
  '(bp, rx, tx, u) ←
    handle_port handle_packet cfg kicks (ppool s) (ports s d) (ports s (negb d)) (packets s);
  Ret (mkPair bp (upd (upd (ports s) d rx) (negb d) tx) u (got s)).

(** The kernel writes a packet into the next buffer of the fill ring. *)
Definition kernel_rx (d : bool) (pkt : desc) (fq : list Z) (u : U) (s : pair U) : pair U :=
  let p := ports s d in
  mkPair (ppool s)
    (upd (ports s) d (mkPort (bc p) (rxq p ++ [pkt]) (txq p) fq (umem_cq p) (n_pkts_rx p)
                        (n_pkts_tx p) (sent p)))
    u (upd (got s) d (got s d ++ [pkt])).

(** While the code waits for a transmit ring the kernel sends at least one packet. *)
Inductive pstep (s : pair U) : outcome (pair U) -> Prop :=
  | p_handle d kicks :
      (∀ pkt, Exists (λ k, (0 < k)%nat) (waiting (kicks pkt))) → pstep s (forward_step d kicks s)
  | p_kernel_rx d a fq pkt u :
      umem_fq (ports s d) = a :: fq → chunk size pkt.1 = chunk size a → fits 48 pkt.1 →
      pstep s (Ret (kernel_rx d pkt fq u s))
  | p_kernel_tx d k :
      pstep s (Ret (mkPair (ppool s) (upd (ports s) d (kernel_tx cfg k (ports s d)))
                      (packets s) (got s))).

Inductive preach (s0 : pair U) : pair U -> Prop :=
  | preach_init : preach s0 s0
  | preach_step s s' : preach s0 s → pstep s (Ret s') → preach s0 s'.

(** Both ports were made by [port_init] on the pool. *)
Definition started (ok0 ok1 : port_call -> bool) (bp : bpool) (u : U) : outcome (option (pair U)) :=
  '(p0, bp) ← port_init cfg ok0 bp;
  match p0 with
  | None => Ret None
  | Some p0 =>
    '(p1, bp) ← port_init cfg ok1 bp;
    match p1 with
    | None => Ret None
    | Some p1 =>
      Ret (Some (mkPair bp (fun d => if d then p1 else p0) u (fun _ => [])))
    end
  end.

(** The buffers in the rings of a port. *)
Definition ring_bufs (p : port) : list Z :=
  chunk size <$> ((rxq p).*1 ++ (txq p).*1 ++ umem_fq p ++ umem_cq p).
End system.

(** ** The operations of a port *)

Section ports.
Context {size per : Z} {holds : bpool -> list bcache -> list Z -> Prop}.
Context `{!BufferPool size per holds} (Hper : 1 ≤ per).
Context (cfg : umem_config).

Lemma cons_buffers_run n bp l1 c l2 o :
  holds bp (l1 ++ c :: l2) o → Z.of_nat n ≤ n_buffers_cons c →
  ∃ bs c', cons_buffers n bp c = Ret (bs, c') ∧ length bs = n ∧
    holds bp (l1 ++ c' :: l2) ((chunk size <$> bs) ++ o).
Proof.
  revert c o. induction n as [|n IH]; intros c o Hh Hn; [by exists [], c|].
  destruct (pool_cons bp l1 c l2 o Hh) as (b & c1 & E & Hc & Hh1); [lia|].
  destruct (IH c1 _ Hh1) as (bs & c' & E' & Hl & Hh'); [lia|].
  exists (b :: bs), c'. cbn [cons_buffers]. rewrite E. cbn [mbind outcome_bind]. rewrite E'.
  cbn [mbind outcome_bind length]. split_and!; [done|lia|].
  eapply pool_perm; [|exact Hh']. cbn [fmap list_fmap]. solve_Permutation.
Qed.

Lemma prod_buffers_run bs bp l1 c l2 o :
  holds bp (l1 ++ c :: l2) ((chunk size <$> bs) ++ o) →
  ∃ bp' c', prod_buffers bs bp c = Ret (bp', c') ∧ holds bp' (l1 ++ c' :: l2) o.
Proof.
  revert bp c. induction bs as [|b bs IH]; intros bp c Hh; [by exists bp, c|].
  cbn [fmap list_fmap app] in Hh.
  destruct (pool_prod bp l1 c l2 _ b Hh) as (bp1 & c1 & E & Hh1).
  destruct (IH _ _ Hh1) as (bp' & c' & E' & Hh'). exists bp', c'.
  cbn [prod_buffers]. rewrite E. cbn [mbind outcome_bind]. done.
Qed.

(** A port's fill and receive ring together have the buffers it started with. *)
Definition fill_ok (k : Z) (p : port) : Prop :=
  Z.of_nat (length (umem_fq p)) + Z.of_nat (length (rxq p)) = k ∧ k ≤ fill_size cfg.

Lemma ring_peek_split {A} (ring : list A) m :
  ring = ring_peek ring m ++ drop (length (ring_peek ring m)) ring.
Proof.
  unfold ring_peek. rewrite length_take. rewrite <-(take_drop (Z.to_nat m) ring) at 1. f_equal.
  destruct (decide (Z.to_nat m ≤ length ring)%nat); [by rewrite Nat.min_l by lia|].
  by rewrite !drop_ge by lia.
Qed.

(** The packets a burst takes: one, if there is one and a buffer to replace it. *)
Definition received (bp : bpool) (p : port) : nat :=
  if starved bp (bc p) then 0%nat else Nat.min 1 (length (rxq p)).

Lemma rx_burst_run k bp l1 p l2 o :
  holds bp (l1 ++ bc p :: l2) (ring_bufs size p ++ o) → fill_ok k p →
  ∃ b bp' p', port_rx_burst cfg bp p = Ret (b, bp', p') ∧
    rxq p = b ++ rxq p' ∧ txq p' = txq p ∧ umem_cq p' = umem_cq p ∧ sent p' = sent p ∧ fill_ok k p' ∧
    length b = received bp p ∧ holds bp' (l1 ++ bc p' :: l2) ((chunk size <$> b.*1) ++ ring_bufs size p' ++ o).
Proof.
  intros Hh [Hk Hsize]. unfold port_rx_burst.
  destruct (pool_check bp l1 (bc p) l2 _ MAX_BURST_RX Hh) as (m & bp' & c' & -> & Hh' & Hm & Hz).
  specialize (Hm ltac:(unfold MAX_BURST_RX; lia)). specialize (Hz ltac:(unfold MAX_BURST_RX; lia)).
  unfold received. rewrite <-Hz. cbn [mbind outcome_bind rxq txq umem_fq umem_cq n_pkts_rx n_pkts_tx bc sent].
  destruct (Z.eqb_spec m 0) as [Hm0|Hm0]; [by eexists [], bp', _|].
  assert (length (ring_peek (rxq p) m) = Nat.min 1 (length (rxq p))) as Hlb.
  { unfold ring_peek, MAX_BURST_RX in *. rewrite length_take. lia. }
  destruct (Z.eqb_spec (Z.of_nat (length (ring_peek (rxq p) m))) 0) as [Hn|Hn].
  { eexists [], bp', _. split; [done|]. cbn [rxq txq umem_fq umem_cq bc sent length].
    split_and!; (done || lia). }
  pose proof (ring_peek_split (rxq p) m) as Eq.
  set (b := ring_peek (rxq p) m) in *.
  assert (length b ≤ length (rxq p))%nat as Hlen
    by (rewrite Eq, length_app; lia).
  assert (ring_room (umem_fq p) (fill_size cfg) (Z.of_nat (length b)) = true) as ->
    by (apply Z.leb_le; lia).
  cbn [negb]. destruct (cons_buffers_run (length b) bp' l1 c' l2 _ Hh')
    as (bs & c1 & E & Hl & Hh1).
  { unfold b, ring_peek. rewrite length_take. lia. }
  rewrite E. cbn [mbind outcome_bind]. eexists b, bp', _. split; [done|].
  cbn [rxq txq umem_cq bc sent]. split_and!; [done..| |done|].
  - split; [|done]. cbn [umem_fq rxq]. rewrite length_app, length_drop. lia.
  - eapply pool_perm; [|exact Hh1]. unfold ring_bufs. cbn [rxq txq umem_fq umem_cq].
    rewrite Eq at 1. rewrite !fmap_app. solve_Permutation.
Qed.

(** The kernel sends the first packets of the ring. *)
Definition sends (p p' : port) : Prop :=
  ∃ done_, txq p = done_ ++ txq p' ∧ umem_cq p' = umem_cq p ++ done_.*1 ∧
    sent p' = sent p ++ done_ ∧ bc p' = bc p ∧ rxq p' = rxq p ∧ umem_fq p' = umem_fq p.

Lemma sends_refl p : sends p p.
Proof. exists []. by rewrite !app_nil_r. Qed.

Lemma kernel_tx_sends k p : sends p (kernel_tx cfg k p).
Proof.
  unfold kernel_tx. eexists. cbn [txq umem_cq sent bc rxq umem_fq].
  split_and!; [symmetry; apply take_drop|done..].
Qed.

Lemma sends_trans p1 p2 p3 : sends p1 p2 → sends p2 p3 → sends p1 p3.
Proof.
  intros (x & E1 & E2 & E3 & E4 & E5 & E6) (y & F1 & F2 & F3 & F4 & F5 & F6).
  exists (x ++ y). rewrite E1, F1, F2, E2, F3, E3, F4, F5, F6, fmap_app, <-!app_assoc. done.
Qed.

(** All packets that were put into the transmit ring, in order. *)
Definition tx_log (p : port) : list desc := sent p ++ txq p.

Lemma sends_log p p' : sends p p' → tx_log p' = tx_log p.
Proof. intros (x & E1 & _ & E3 & _). unfold tx_log. by rewrite E3, E1, <-app_assoc. Qed.

Lemma sends_bufs p p' : sends p p' → ring_bufs size p' ≡ₚ ring_bufs size p.
Proof.
  intros (x & E1 & E2 & _ & _ & E5 & E6). unfold ring_bufs. rewrite E2, E5, E6, E1, !fmap_app.
  solve_Permutation.
Qed.

Lemma wait_tx_run kicks n p p' : wait_tx cfg kicks n p = Ret p' → sends p p'.
Proof.
  revert p. induction kicks as [|k kicks IH]; intros p; cbn [wait_tx];
    (destruct (ring_room _ _ _); [intros [= <-]; apply sends_refl|]); [done|].
  intros H%IH. eapply sends_trans; [apply kernel_tx_sends|done].
Qed.

Lemma submit_bufs b p : ring_bufs size (submit_tx b p) ≡ₚ ring_bufs size p ++ (chunk size <$> b.*1).
Proof.
  unfold ring_bufs, submit_tx. cbn [rxq txq umem_fq umem_cq]. rewrite !fmap_app. solve_Permutation.
Qed.

Lemma tx_burst_run kicks bp l1 p l2 o b p1 :
  holds bp (l1 ++ bc p :: l2) (ring_bufs size p ++ (chunk size <$> b.*1) ++ o) →
  wait_tx cfg (waiting kicks) (Z.of_nat (length b)) p = Ret p1 →
  ∃ bp' p', port_tx_burst cfg kicks bp p b = Ret (bp', p') ∧
    rxq p' = rxq p ∧ umem_fq p' = umem_fq p ∧ tx_log p' = tx_log p ++ b ∧
    holds bp' (l1 ++ bc p' :: l2) (ring_bufs size p' ++ o).
Proof.
  intros Hh Hw. unfold port_tx_burst. rewrite Hw, outcome_ret_bind. cbv zeta.
  apply wait_tx_run in Hw. pose proof (kernel_tx_sends (after kicks) (submit_tx b p1)) as Hs.
  set (p2 := kernel_tx cfg (after kicks) (submit_tx b p1)) in *.
  pose proof (sends_log _ _ Hs) as Hlog. pose proof (sends_bufs _ _ Hs) as Hbufs.
  rewrite submit_bufs, (sends_bufs _ _ Hw) in Hbufs.
  assert (tx_log (submit_tx b p1) = tx_log p ++ b) as Hsub.
  { rewrite <-(sends_log _ _ Hw). unfold tx_log, submit_tx. cbn [sent txq]. by rewrite app_assoc. }
  destruct Hs as (x & _ & _ & _ & B2 & R2 & F2), Hw as (y & _ & _ & _ & B1 & R1 & F1).
  cbn [submit_tx bc rxq umem_fq] in B2, R2, F2.
  set (cq := ring_peek (umem_cq p2) (comp_size cfg)).
  pose proof (ring_peek_split (umem_cq p2) (comp_size cfg)) as Eq. fold cq in Eq.
  destruct (prod_buffers_run cq bp l1 (bc p2) l2 (ring_bufs size (mkPort (bc p2) (rxq p2)
    (txq p2) (umem_fq p2) (drop (length cq) (umem_cq p2)) 0 0 []) ++ o)) as (bp' & c' & E & Hh').
  - rewrite B2, B1. eapply pool_perm; [|exact Hh]. rewrite (app_assoc (ring_bufs size p)), <-Hbufs.
    unfold ring_bufs. cbn [rxq txq umem_fq umem_cq]. rewrite Eq at 1. rewrite !fmap_app.
    solve_Permutation.
  - rewrite E, outcome_ret_bind. eexists bp', _. split; [done|].
    cbn [rxq umem_fq bc txq]. split_and!; [by rewrite R2|by rewrite F2| |exact Hh'].
    by rewrite <-Hsub, <-Hlog.
Qed.

Lemma add_offset_small a : fits 48 a → add_offset_to_addr a = a.
Proof.
  unfold fits. intros Ha. unfold add_offset_to_addr.
  change (2 ^ 48 - 1) with (Z.ones 48). rewrite Z.land_ones, Z.mod_small by lia.
  rewrite Z.shiftr_div_pow2, Z.div_small, Z.add_0_r by lia.
  apply wrap_small. unfold fits. lia.
Qed.

(** The packets of the transmit ring and the buffers of the completion ring together
    have room in the transmit ring: a burst empties the completion ring. *)
Definition tx_ok (p : port) : Prop :=
  Z.of_nat (length (umem_cq p)) ≤ comp_size cfg ∧
  Z.of_nat (length (txq p)) + Z.of_nat (length (umem_cq p)) ≤ tx_size cfg.

Context (Htx : 1 ≤ tx_size cfg) (Hcomp : 1 ≤ comp_size cfg).

Lemma kernel_tx_ok j p : tx_ok p → tx_ok (kernel_tx cfg j p).
Proof.
  unfold tx_ok, kernel_tx. cbn [umem_cq txq]. intros [H1 H2].
  rewrite length_app, length_fmap, length_take, length_drop. lia.
Qed.

(** A full transmit ring leaves room in the completion ring, so a kernel that sends
    makes room. *)
Lemma wait_tx_ends kicks p :
  tx_ok p → Exists (λ k, (0 < k)%nat) kicks →
  ∃ p', wait_tx cfg kicks 1 p = Ret p' ∧ tx_ok p' ∧ ring_room (txq p') (tx_size cfg) 1 = true.
Proof.
  revert p. induction kicks as [|j kicks IH]; intros p Hp Hk; [by apply Exists_nil in Hk|].
  cbn [wait_tx]. destruct (ring_room (txq p) (tx_size cfg) 1) eqn:Er; [by exists p|].
  apply Exists_cons in Hk as [Hj|Hk]; [|by apply IH; [apply kernel_tx_ok|]].
  exists (kernel_tx cfg j p). assert (ring_room (txq (kernel_tx cfg j p)) (tx_size cfg) 1 = true) as E.
  { unfold ring_room, tx_ok in *. apply Z.leb_gt in Er. apply Z.leb_le. unfold kernel_tx.
    cbn [txq]. rewrite length_drop. lia. }
  destruct kicks; cbn [wait_tx]; rewrite E; (split_and!; [done|by apply kernel_tx_ok|done]).
Qed.

Lemma tx_burst_ok kicks bp p d p1 bp' p' :
  wait_tx cfg (waiting kicks) 1 p = Ret p1 → tx_ok p1 → ring_room (txq p1) (tx_size cfg) 1 = true →
  port_tx_burst cfg kicks bp p [d] = Ret (bp', p') → tx_ok p'.
Proof.
  intros Hw [H1 _] Hr. unfold port_tx_burst. cbn [length]. change (Z.of_nat 1) with 1.
  rewrite Hw, outcome_ret_bind. cbv zeta. destruct (prod_buffers _ _ _) as [[bp1 c]|]; [|done].
  rewrite outcome_ret_bind. intros [= _ <-]. unfold tx_ok, kernel_tx, submit_tx. cbn [umem_cq txq].
  apply Z.leb_le in Hr. unfold ring_peek.
  rewrite !length_drop, !length_take, !length_app, length_fmap, length_take, length_app.
  cbn [length]. lia.
Qed.

(** ** Forwarding *)

Context {U : Type} (handle_packet : desc -> U -> outcome U).

(** The caches of the receiving and the sending port in the order of the ports. *)
Definition both (d : bool) (crx ctx : bcache) : list bcache :=
  if d then [crx; ctx] else [ctx; crx].

Lemma both_rx d ctx : ∃ l1 l2, ∀ c, both d c ctx = l1 ++ c :: l2.
Proof. destruct d; [by exists [], [ctx]|by exists [ctx], []]. Qed.

Lemma both_tx d crx : ∃ l1 l2, ∀ c, both d crx c = l1 ++ c :: l2.
Proof. destruct d; [by exists [crx], []|by exists [], [crx]]. Qed.

(** The transmit ring gets a place. *)
Definition kicking (kicks : desc -> kick) : Prop :=
  ∀ d, Exists (λ k, (0 < k)%nat) (waiting (kicks d)).

(** Forwarding returns unless a packet cannot be handled. *)
Lemma forward_run d kicks b bp crx tx u o :
  holds bp (both d crx (bc tx)) (ring_bufs size tx ++ (chunk size <$> b.*1) ++ o) →
  Forall (fits 48) b.*1 → tx_ok tx → kicking kicks →
  (∃ bp' tx' u', forward handle_packet cfg kicks b bp tx u = Ret (bp', tx', u') ∧
     rxq tx' = rxq tx ∧ umem_fq tx' = umem_fq tx ∧ tx_log tx' = tx_log tx ++ b ∧
     holds bp' (both d crx (bc tx')) (ring_bufs size tx' ++ o) ∧ tx_ok tx') ∨
  ∃ f, forward handle_packet cfg kicks b bp tx u = Fault f ∧ ∃ d u, handle_packet d u = Fault f.
Proof.
  intros Hh Hf Hk Hkick. destruct (both_tx d crx) as (l1 & l2 & Hb). revert bp tx u Hb Hh Hf Hk.
  induction b as [|[a len] b IH]; intros bp tx u Hb Hh Hf Hk.
  { left. exists bp, tx, u. by rewrite app_nil_r. }
  cbn [fmap list_fmap fst] in Hh, Hf. apply Forall_cons in Hf as [Ha Hf].
  cbn [forward fst snd]. rewrite add_offset_small by done.
  destruct (handle_packet (a, len) u) as [u'|f] eqn:Eu; cbn [mbind outcome_bind].
  2: { right. exists f. split; [done|]. eauto. }
  destruct (wait_tx_ends (waiting (kicks (a, len))) tx Hk (Hkick _)) as (p1 & Ew & Hk1 & Hr).
  rewrite Hb in Hh.
  destruct (tx_burst_run (kicks (a, len)) bp l1 tx l2 ((chunk size <$> b.*1) ++ o) [(a, len)] p1)
    as (bp' & tx' & E & E1 & E2 & Ed1 & Hh'); [done|done|].
  pose proof (tx_burst_ok _ _ _ _ _ _ _ Ew Hk1 Hr E) as Hk'.
  rewrite E. cbn [mbind outcome_bind]. rewrite <-Hb in Hh'.
  destruct (IH bp' tx' u' Hb Hh' Hf Hk')
    as [(bp2 & tx2 & u2 & E' & E3 & E4 & Ed2 & Hh2 & Hk2)|Hx].
  - left. exists bp2, tx2, u2. rewrite E3, E4. split_and!; [done..| |done|done].
    by rewrite Ed2, Ed1, <-app_assoc.
  - by right.
Qed.

Lemma handle_port_run d kicks k bp rx tx u o :
  holds bp (both d (bc rx) (bc tx)) (ring_bufs size rx ++ ring_bufs size tx ++ o) →
  fill_ok k rx → Forall (fits 48) (rxq rx).*1 → tx_ok tx → kicking kicks →
  (∃ bp' rx' tx' u' b,
     handle_port handle_packet cfg kicks bp rx tx u = Ret (bp', rx', tx', u') ∧
     rxq rx = b ++ rxq rx' ∧ txq rx' = txq rx ∧ umem_cq rx' = umem_cq rx ∧ sent rx' = sent rx ∧
     fill_ok k rx' ∧ length b = received bp rx ∧ rxq tx' = rxq tx ∧ umem_fq tx' = umem_fq tx ∧ tx_log tx' = tx_log tx ++ b ∧
     tx_ok tx' ∧
     holds bp' (both d (bc rx') (bc tx')) (ring_bufs size rx' ++ ring_bufs size tx' ++ o)) ∨
  ∃ f, handle_port handle_packet cfg kicks bp rx tx u = Fault f ∧ ∃ d u, handle_packet d u = Fault f.
Proof.
  intros Hh Hk Hf Ht Hkick. destruct (both_rx d (bc tx)) as (l1 & l2 & Hb). rewrite Hb in Hh.
  destruct (rx_burst_run k bp l1 rx l2 _ Hh Hk) as (b & bp1 & rx' & E & Eb & Et & Ec & Es & Hk' & Hlb & Hh1).
  rewrite <-Hb in Hh1. unfold handle_port. rewrite E. cbn [mbind outcome_bind].
  rewrite Eb, fmap_app, Forall_app in Hf.
  destruct (forward_run d kicks b bp1 (bc rx') tx u (ring_bufs size rx' ++ o))
    as [(bp2 & tx' & u' & -> & E1 & E2 & Ed & Hh2 & Ht2)|(f & -> & Hx)].
  - eapply pool_perm; [|exact Hh1]. solve_Permutation.
  - tauto.
  - done.
  - done.
  - left. exists bp2, rx', tx', u', b. split_and!; [done..|].
    eapply pool_perm; [|exact Hh2]. solve_Permutation.
  - right. exists f. by split.
Qed.

(** ** The pair *)

Record pair_inv (k : Z) (s : pair U) : Prop := {
  pv_holds : holds (ppool s) [bc (ports s true); bc (ports s false)]
               (ring_bufs size (ports s true) ++ ring_bufs size (ports s false));
  pv_fill d : fill_ok k (ports s d);
  pv_fits d : Forall (fits 48) (rxq (ports s d)).*1;
  pv_log d : got s d = tx_log (ports s (negb d)) ++ rxq (ports s d);
  pv_tx d : tx_ok (ports s d);
}.

Lemma port_upd_eq {A} (f : bool → A) d a : upd f d a d = a.
Proof. unfold upd. by rewrite Bool.eqb_reflx. Qed.

Lemma port_upd_ne {A} (f : bool → A) d d' a : d' ≠ d → upd f d a d' = f d'.
Proof. intros Hd. unfold upd. by rewrite (proj2 (Bool.eqb_false_iff d' d)). Qed.

Lemma pv_both k s d :
  pair_inv k s →
  holds (ppool s) (both d (bc (ports s d)) (bc (ports s (negb d))))
    (ring_bufs size (ports s d) ++ ring_bufs size (ports s (negb d)) ++ []).
Proof.
  intros Hi. rewrite app_nil_r. pose proof (pv_holds _ _ Hi) as Hh. destruct d; [done|].
  eapply pool_perm; [|exact Hh]. apply Permutation_app_comm.
Qed.

(** The first [n] packets of receive ring [d] have gone to the other transmit ring, and
    nothing else has moved. *)
Definition moved (d : bool) (n : nat) (s s' : pair U) : Prop :=
  ∃ b, length b = n ∧ rxq (ports s d) = b ++ rxq (ports s' d) ∧
    tx_log (ports s' (negb d)) = tx_log (ports s (negb d)) ++ b ∧
    rxq (ports s' (negb d)) = rxq (ports s (negb d)) ∧ tx_log (ports s' d) = tx_log (ports s d).

Lemma moved_none d s : moved d 0 s s.
Proof. exists []. by rewrite app_nil_r. Qed.

Lemma forward_step_inv k d kicks s :
  pair_inv k s → kicking kicks →
  (∃ s', forward_step handle_packet cfg d kicks s = Ret s' ∧ pair_inv k s' ∧
     moved d (received (ppool s) (ports s d)) s s') ∨
  ∃ f, forward_step handle_packet cfg d kicks s = Fault f ∧ ∃ d u, handle_packet d u = Fault f.
Proof.
  intros Hi Hkick. unfold forward_step.
  destruct (handle_port_run d kicks k (ppool s) (ports s d) (ports s (negb d)) (packets s) [])
    as [(bp & rx & tx & u & b & -> & Erx & Etx & Ec & Es & Hk & Hlb & E1 & E2 & Ed & Ht & Hh)|(f & -> & Hx)].
  - by eapply pv_both.
  - by eapply pv_fill.
  - by eapply pv_fits.
  - by eapply pv_tx.
  - done.
  - left. eexists. split; [done|]. split; [|exists b; cbn [ports]; rewrite !port_upd_eq,
      !(port_upd_ne _ (negb d) d), !port_upd_eq by (by destruct d); unfold tx_log;
      rewrite Etx, Es; by split_and!].
    split; cbn [ppool ports got].
    + destruct d; cbn in *; [by rewrite app_nil_r in Hh|].
      eapply pool_perm; [|exact Hh]. rewrite app_nil_r. apply Permutation_app_comm.
    + intros d'. destruct (decide (d' = negb d)) as [->|Hne].
      * rewrite port_upd_eq. pose proof (pv_fill _ _ Hi (negb d)) as Hf. unfold fill_ok in *.
        by rewrite E1, E2.
      * rewrite port_upd_ne by done. replace d' with d by (by destruct d, d'). by rewrite port_upd_eq.
    + intros d'. destruct (decide (d' = negb d)) as [->|Hne].
      * rewrite port_upd_eq, E1. by eapply pv_fits.
      * rewrite port_upd_ne by done. replace d' with d by (by destruct d, d'). rewrite port_upd_eq.
        pose proof (pv_fits _ _ Hi d) as Hf. rewrite Erx, fmap_app, Forall_app in Hf. tauto.
    + intros d'. destruct (decide (d' = negb d)) as [->|Hne].
      * rewrite negb_involutive, !port_upd_eq, E1.
        rewrite !(port_upd_ne _ (negb d) d) by by destruct d. unfold tx_log.
        rewrite port_upd_eq, Etx, Es.
        pose proof (pv_log _ _ Hi (negb d)) as Hl. by rewrite negb_involutive in Hl.
      * replace d' with d by (by destruct d, d'). rewrite !port_upd_eq.
        rewrite (port_upd_ne _ (negb d) d) by by destruct d. rewrite port_upd_eq.
        by rewrite (pv_log _ _ Hi d), Erx, Ed, <-app_assoc.
    + intros d'. destruct (decide (d' = negb d)) as [->|Hne]; [by rewrite port_upd_eq|].
      rewrite port_upd_ne by done. replace d' with d by (by destruct d, d'). rewrite port_upd_eq.
      unfold tx_ok. rewrite Etx, Ec. by apply (pv_tx _ _ Hi).
  - right. exists f. by split.
Qed.

Lemma kernel_rx_inv k d a fq pkt u s :
  pair_inv k s → umem_fq (ports s d) = a :: fq → chunk size pkt.1 = chunk size a →
  fits 48 pkt.1 → pair_inv k (kernel_rx d pkt fq u s).
Proof.
  intros Hi Efq Hc Hf. unfold kernel_rx.
  set (p := mkPort _ _ _ _ _ _ _ _).
  assert (ring_bufs size p ≡ₚ ring_bufs size (ports s d)) as Hp.
  { unfold ring_bufs, p. cbn [rxq txq umem_fq umem_cq]. rewrite Efq, !fmap_app, !fmap_cons, Hc.
    cbn [fmap list_fmap]. solve_Permutation. }
  split; cbn [ppool ports got].
  - pose proof (pv_holds _ _ Hi) as Hh.
    destruct d; rewrite port_upd_eq, port_upd_ne by done; (eapply pool_perm; [|exact Hh]); by rewrite Hp.
  - intros d'. destruct (decide (d' = d)) as [->|Hne].
    + rewrite port_upd_eq. destruct (pv_fill _ _ Hi d) as [H1 H2]. split; [|done].
      unfold p. cbn [umem_fq rxq]. rewrite Efq in H1. rewrite length_app. cbn [length] in *. lia.
    + rewrite port_upd_ne by done. by eapply pv_fill.
  - intros d'. destruct (decide (d' = d)) as [->|Hne].
    + rewrite port_upd_eq. unfold p. cbn [rxq]. rewrite fmap_app, Forall_app.
      split; [by eapply pv_fits|]. by constructor.
    + rewrite port_upd_ne by done. by eapply pv_fits.
  - intros d'. destruct (decide (d' = d)) as [->|Hne].
    + rewrite !port_upd_eq, port_upd_ne by by destruct d. rewrite (pv_log _ _ Hi d).
      unfold p. cbn [rxq]. by rewrite <-!app_assoc.
    + rewrite !(port_upd_ne _ d d') by done. rewrite (pv_log _ _ Hi d').
      replace (negb d') with d by (by destruct d, d'). by rewrite port_upd_eq.
  - intros d'. destruct (decide (d' = d)) as [->|Hne];
      [rewrite port_upd_eq|rewrite port_upd_ne by done]; by apply (pv_tx _ _ Hi).
Qed.

Lemma kernel_tx_inv k d j s :
  pair_inv k s →
  pair_inv k (mkPair (ppool s) (upd (ports s) d (kernel_tx cfg j (ports s d))) (packets s) (got s)).
Proof.
  intros Hi. pose proof (kernel_tx_sends j (ports s d)) as Hs.
  set (p := kernel_tx cfg j (ports s d)) in *. pose proof (sends_bufs _ _ Hs) as Hp.
  split; cbn [ppool ports got].
  - pose proof (pv_holds _ _ Hi) as Hh.
    destruct d; rewrite port_upd_eq, port_upd_ne by done; (eapply pool_perm; [|exact Hh]); by rewrite Hp.
  - intros d'. destruct (decide (d' = d)) as [->|Hne];
      [rewrite port_upd_eq|rewrite port_upd_ne by done]; by apply (pv_fill _ _ Hi).
  - intros d'. destruct (decide (d' = d)) as [->|Hne];
      [rewrite port_upd_eq|rewrite port_upd_ne by done]; by apply (pv_fits _ _ Hi).
  - intros d'. rewrite (pv_log _ _ Hi d'). destruct (decide (d' = d)) as [->|Hne].
    + rewrite !(port_upd_ne _ d (negb d)) by by destruct d. by rewrite port_upd_eq.
    + replace (negb d') with d by (by destruct d, d'). rewrite !port_upd_eq, port_upd_ne by done.
      by rewrite (sends_log _ _ Hs).
  - intros d'. destruct (decide (d' = d)) as [->|Hne];
      [rewrite port_upd_eq; apply kernel_tx_ok|rewrite port_upd_ne by done]; by apply (pv_tx _ _ Hi).
Qed.

Lemma pstep_inv k s o :
  pair_inv k s → pstep handle_packet cfg size s o →
  (∃ s', o = Ret s' ∧ pair_inv k s') ∨ ∃ f, o = Fault f ∧ ∃ d u, handle_packet d u = Fault f.
Proof.
  intros Hi Hs. destruct Hs as [d kicks Hkick|d a fq pkt u Efq Hc Hf|d j].
  - destruct (forward_step_inv k d kicks s Hi Hkick) as [(s' & -> & ? & _)|Hx]; [left; eauto|by right].
  - left. eexists. split; [done|]. by eapply kernel_rx_inv.
  - left. eexists. split; [done|]. by apply kernel_tx_inv.
Qed.

Lemma preach_inv k s0 s :
  pair_inv k s0 → preach handle_packet cfg size s0 s → pair_inv k s.
Proof.
  intros H0 Hr. induction Hr as [|s s' _ IH Hs]; [done|].
  destruct (pstep_inv k s (Ret s') IH Hs) as [(s1 & [= ->] & ?)|(f & ? & _)]; done.
Qed.

(** ** Making the ports *)

Lemma port_init_run ok bp cs o :
  holds bp cs o → 0 ≤ fill_size cfg →
  ∃ p bp', port_init cfg ok bp = Ret (p, bp') ∧
    match p with
    | None => True
    | Some p => holds bp' (bc p :: cs) (ring_bufs size p ++ o) ∧ rxq p = [] ∧ txq p = [] ∧
        umem_cq p = [] ∧ sent p = [] ∧ fill_ok (fill_size cfg / BPOOL_GRP) p
    end.
Proof.
  intros Hh Hfs. unfold port_init, BPOOL_GRP.
  destruct (ok CallocPort); cbn [negb]; [|by exists None, bp].
  destruct (pool_init (ok CallocCache) bp cs o Hh) as (c & bp1 & -> & Hh1).
  cbn [mbind outcome_bind]. destruct c as [c|]; [|by exists None, bp1].
  cbn [option_list app] in Hh1. rewrite (pool_slab_size _ _ _ Hh1).
  pose proof (Z.div_pos (fill_size cfg) 2 Hfs ltac:(lia)) as Hpos.
  pose proof (Z.mul_div_le (fill_size cfg) 2 ltac:(lia)) as Hle.
  destruct (Z.ltb_spec per (fill_size cfg / 2)) as [Hlt|Hge].
  { destruct (pool_free bp1 [] c cs o Hh1) as (bp2 & -> & _). by exists None, bp2. }
  destruct (pool_check bp1 [] c cs o (fill_size cfg / 2) Hh1) as (m & bp2 & c2 & -> & Hh2 & Hm & _).
  cbn [mbind outcome_bind app] in *. specialize (Hm ltac:(lia)).
  destruct (pool_free bp2 [] c2 cs o Hh2) as (bp3 & Efree & _).
  destruct (Z.ltb_spec m (fill_size cfg / 2)) as [Hlt|Hge']; [rewrite Efree; by exists None, bp3|].
  destruct (ok SocketCreate); cbn [negb]; [|rewrite Efree; by exists None, bp3].
  destruct (ok UpdateMap); cbn [negb]; [|by exists None, bp2].
  destruct (cons_buffers_run (Z.to_nat (fill_size cfg / 2)) bp2 [] c2 cs o Hh2)
    as (bs & c3 & -> & Hl & Hh3); [lia|].
  cbn [mbind outcome_bind]. eexists (Some _), bp2. split; [done|].
  cbn [bc rxq txq]. split_and!; try done.
  - unfold ring_bufs. cbn [rxq txq umem_fq umem_cq fmap list_fmap app]. by rewrite app_nil_r.
  - split; cbn [umem_fq rxq length]; lia.
Qed.

(** Two ports of a fresh pool satisfy the invariant. *)
Lemma started_inv ok0 ok1 bp u :
  holds bp [] [] → 0 ≤ fill_size cfg →
  ∃ r, started cfg ok0 ok1 bp u = Ret r ∧
    match r with None => True | Some s => pair_inv (fill_size cfg / BPOOL_GRP) s end.
Proof.
  intros Hh Hfs. unfold started.
  destruct (port_init_run ok0 bp [] [] Hh Hfs) as (p0 & bp1 & -> & H0). cbn [mbind outcome_bind].
  destruct p0 as [p0|]; [|by exists None]. destruct H0 as (Hh0 & R0 & T0 & C0 & S0 & F0).
  destruct (port_init_run ok1 bp1 _ _ Hh0 Hfs) as (p1 & bp2 & -> & H1). cbn [mbind outcome_bind].
  destruct p1 as [p1|]; [|by exists None]. destruct H1 as (Hh1 & R1 & T1 & C1 & S1 & F1).
  eexists. split; [done|]. split; cbn [ppool ports got].
  - by rewrite app_nil_r in Hh1.
  - by intros [].
  - intros []; by rewrite ?R0, ?R1; constructor.
  - intros []; unfold tx_log; cbn; by rewrite ?R0, ?R1, ?T0, ?T1, ?S0, ?S1.
  - intros []; unfold tx_ok; rewrite ?T0, ?T1, ?C0, ?C1; cbn [length]; lia.
Qed.
End ports.

(** ** The forwarder *)

Section forwarder.
Context (pp : bpool_params) (ok : pool_call -> bool) (bp : bpool) (held : list pool_res).
Context (cfg : umem_config) (ok0 ok1 : port_call -> bool).
Context {U : Type} (handle_packet : desc -> U -> outcome U) (u : U) (s0 s : pair U).

(** Pool and rings have sizes that fit, the pool and both ports were made, and the
    state is reached by steps of the forwarder and of the kernel. *)
Record forwarding : Prop := {
  fw_params : good_params pp;
  fw_fill : 0 ≤ fill_size cfg;
  fw_tx : 1 ≤ tx_size cfg;
  fw_comp : 1 ≤ comp_size cfg;
  fw_pool : bpool_init ok pp = Ret (Some bp, held);
  fw_ports : started cfg ok0 ok1 bp u = Ret (Some s0);
  fw_reach : preach handle_packet cfg (p_buffer_size pp) s0 s;
}.

Lemma forwarding_inv :
  forwarding →
  pair_inv (size := p_buffer_size pp) (holds := pool_holds pp) cfg
    (fill_size cfg / BPOOL_GRP) s.
Proof.
  intros [Hg Hf Ht Hc Hp Hs Hr]. rewrite bpool_init_run in Hp by done.
  destruct (_ && _); [|done]. injection Hp as <- <-.
  destruct (good_dims pp Hg) as (D1 & _).
  destruct (started_inv (holds := pool_holds pp) cfg Ht Hc ok0 ok1 _ u (pool_holds_made pp Hg) Hf)
    as (r & E & Hi). rewrite E in Hs. injection Hs as ->.
  eapply (preach_inv (per := p_n_buffers_per_slab pp)); [lia|done..].
Qed.

(** A step of the program from such a state. *)
Lemma forwarding_step d kicks :
  forwarding → kicking kicks →
  (∃ s', forward_step handle_packet cfg d kicks s = Ret s' ∧
     preach handle_packet cfg (p_buffer_size pp) s0 s' ∧
     moved d (received (ppool s) (ports s d)) s s') ∨
  ∃ f, forward_step handle_packet cfg d kicks s = Fault f ∧ ∃ pkt u, handle_packet pkt u = Fault f.
Proof.
  intros Hf Hk. pose proof (forwarding_inv Hf) as Hi.
  destruct (good_dims pp (fw_params Hf)) as (D1 & _). destruct Hf as [_ _ Ht Hc _ _ Hr].
  assert (1 ≤ p_n_buffers_per_slab pp) as Hper by lia.
  destruct (forward_step_inv Hper cfg Ht Hc handle_packet _ d kicks s Hi Hk)
    as [(s' & E & _ & Hm)|Hx]; [|by right].
  left. exists s'. split_and!; [done| |done]. eapply preach_step; [exact Hr|].
  rewrite <-E. by apply p_handle.
Qed.

(** C6. The forwarder sends what it received: the packets the kernel put into the
    receive ring of a port are the packets it took from the transmit ring of the other
    port, followed by those that wait in this ring and then by those that were not read
    yet, each once and in order, in every interleaving with the kernel. *)
Theorem xsk_forwards_in_order d :
  forwarding →
  got s d = sent (ports s (negb d)) ++ txq (ports s (negb d)) ++ rxq (ports s d).
Proof.
  intros Hi%forwarding_inv. rewrite (pv_log _ _ _ Hi d). unfold tx_log. by rewrite <-app_assoc.
Qed.

(** C7. No buffer is lost and none is in two places: the buffers stored in the pool and
    in the caches of the two ports and those in their eight rings are, each once, the
    buffers of the pool. *)
Theorem xsk_no_buffer_lost :
  forwarding →
  let bufs := (chunk (p_buffer_size pp) <$>
                 stored (ppool s) [bc (ports s true); bc (ports s false)]) ++
              ring_bufs (p_buffer_size pp) (ports s true) ++
              ring_bufs (p_buffer_size pp) (ports s false) in
  bufs ≡ₚ all_buffers pp ∧ NoDup bufs.
Proof.
  intros Hi%forwarding_inv bufs. destruct (pool_holds_all _ _ _ _ (pv_holds _ _ _ Hi)) as [Hp Hn].
  split; [exact Hp|]. unfold bufs. by rewrite Hp.
Qed.

(** C8. Every step returns, unless a packet cannot be handled: the fill ring has room for
    each buffer, a full transmit ring always leaves the kernel room to complete a
    packet, so no wait goes on for ever, and no cache operation goes out of bounds. *)
Theorem xsk_steps_return o :
  forwarding → pstep handle_packet cfg (p_buffer_size pp) s o →
  (∃ s', o = Ret s') ∨ ∃ f, o = Fault f ∧ ∃ pkt u, handle_packet pkt u = Fault f.
Proof.
  intros Hf Hs. pose proof (forwarding_inv Hf) as Hi.
  destruct (good_dims pp (fw_params Hf)) as (D1 & _). destruct Hf as [_ _ Ht Hc _ _ _].
  assert (1 ≤ p_n_buffers_per_slab pp) as Hper by lia.
  destruct (pstep_inv Hper cfg Ht Hc handle_packet _ s o Hi Hs) as [(s' & -> & _)|?];
    [left; by exists s'|by right].
Qed.

(** At the end the program uses a pool it has freed: the pool of a group is freed
    with the first port of the group, and the second port gives its slabs back to
    it. *)
Theorem xsk_exit_uses_freed_pool :
  forwarding →
  free_all [ports s false; ports s true] 0 0 [Some (ppool s)] = Fault Dangling.
Proof.
  intros Hi%forwarding_inv.
  destruct (pool_free (ppool s) [bc (ports s true)] (bc (ports s false)) [] _ (pv_holds _ _ _ Hi))
    as (bp' & E & _).
  assert (port_free [Some (ppool s)] 0 (ports s false) = Ret [Some bp']) as Ef.
  { unfold port_free. cbn [lookup list_lookup or_fault mbind outcome_bind]. by rewrite E. }
  cbn [free_all]. change (Z.of_nat 0 =? 0) with true. cbn [negb andb]. rewrite Ef. reflexivity.
Qed.
End forwarder.

(** Two ports with fill rings of two buffers and transmit rings of one packet: two
    packets come in, and the second waits until the kernel has sent the first. *)
Definition small_params : bpool_params := mkParams 8 4096 2 2.
Definition small_pool : bpool := make_pool small_params 4 4.
Definition small_cfg : umem_config := mkUmem 4 2 1.
Definition count_packet (d : desc) (u : nat) : outcome nat := Ret (S u).
Definition one_kick (d : desc) : kick := mkKick [0; 1]%nat 0.
Definition no_pair : pair nat :=
  mkPair small_pool (fun _ => mkPort (mkCache 0 0 0 0) [] [] [] [] 0 0 []) 0%nat (fun _ => []).
Definition ret_pair (o : outcome (pair nat)) : pair nat :=
  match o with Ret s => s | Fault _ => no_pair end.
Definition small_start : pair nat :=
  match started small_cfg (fun _ => true) (fun _ => true) small_pool 0%nat with
  | Ret (Some s) => s
  | _ => no_pair
  end.
Definition small_rx1 : pair nat := kernel_rx true (20736, 60) [16384] 0%nat small_start.
Definition small_rx2 : pair nat := kernel_rx true (16640, 61) [] 0%nat small_rx1.
Definition small_fw1 : pair nat :=
  ret_pair (forward_step count_packet small_cfg true one_kick small_rx2).
Definition small_fw2 : pair nat :=
  ret_pair (forward_step count_packet small_cfg true one_kick small_fw1).

Lemma one_kick_kicks : kicking one_kick.
Proof. intros d. apply Exists_cons_tl, Exists_cons_hd. lia. Qed.

Lemma small_forwarding :
  forwarding small_params (fun _ => true) small_pool [PoolUmem; PoolMap; PoolLock; PoolMem]
    small_cfg (fun _ => true) (fun _ => true) count_packet 0%nat small_start small_fw2.
Proof.
  split; cbn [small_cfg fill_size tx_size comp_size]; try lia.
  - unfold good_params. cbn. lia.
  - vm_compute. reflexivity.
  - vm_compute. reflexivity.
  - assert (preach count_packet small_cfg (p_buffer_size small_params) small_start small_rx1) as H1.
    { eapply preach_step; [apply preach_init|].
      eapply p_kernel_rx with (a := 20480); [vm_compute; reflexivity..|]. unfold fits. cbn. lia. }
    assert (preach count_packet small_cfg (p_buffer_size small_params) small_start small_rx2) as H2.
    { eapply preach_step; [exact H1|].
      eapply p_kernel_rx with (a := 16384); [vm_compute; reflexivity..|]. unfold fits. cbn. lia. }
    assert (preach count_packet small_cfg (p_buffer_size small_params) small_start small_fw1) as H3.
    { eapply preach_step; [exact H2|].
      replace (Ret small_fw1) with (forward_step count_packet small_cfg true one_kick small_rx2)
        by (vm_compute; reflexivity).
      apply p_handle, one_kick_kicks. }
    eapply preach_step; [exact H3|].
    replace (Ret small_fw2) with (forward_step count_packet small_cfg true one_kick small_fw1)
      by (vm_compute; reflexivity).
    apply p_handle, one_kick_kicks.
Qed.

Lemma xsk_forwards_in_order_witness :
  [(20736, 60); (16640, 61)] = [(20736, 60)] ++ [(16640, 61)] ++ [].
Proof. exact (xsk_forwards_in_order _ _ _ _ _ _ _ _ _ _ _ true small_forwarding). Defined.

Lemma xsk_no_buffer_lost_witness :
  (chunk 4096 <$> stored (ppool small_fw2) [bc (ports small_fw2 true); bc (ports small_fw2 false)]) ++
  ring_bufs 4096 (ports small_fw2 true) ++ ring_bufs 4096 (ports small_fw2 false) ≡ₚ
  [0; 4096; 8192; 12288; 16384; 20480; 24576; 28672].
Proof. exact (proj1 (xsk_no_buffer_lost _ _ _ _ _ _ _ _ _ _ _ small_forwarding)). Defined.

Lemma xsk_steps_return_witness :
  (∃ s', forward_step count_packet small_cfg false one_kick small_fw2 = Ret s') ∨
  ∃ f, forward_step count_packet small_cfg false one_kick small_fw2 = Fault f ∧
    ∃ pkt u, count_packet pkt u = Fault f.
Proof.
  apply (xsk_steps_return _ _ _ _ _ _ _ _ _ _ _ _ small_forwarding).
  apply p_handle, one_kick_kicks.
Defined.

Lemma xsk_exit_uses_freed_pool_witness :
  free_all [ports small_fw2 false; ports small_fw2 true] 0 0 [Some (ppool small_fw2)] =
  Fault Dangling.
Proof. exact (xsk_exit_uses_freed_pool _ _ _ _ _ _ _ _ _ _ _ small_forwarding). Defined.
