(* ===== verification/Csum.v ===== *)
(** * The Internet checksums of the AF_XDP forwarder ([dev-net-ebpf-xdp/xsk])

    Three routines of [af_rxtx.c] compute the checksum of RFC 1071 in three ways: with
    a signed sum and two additions of the carries ([ip_csum]), with carries added
    during the sum ([udp_checksum]) and with carries added at the end
    ([tcp_checksum]). Here each is shown to be the one's complement of the one's
    complement sum. [handle_packet] rewrites the checksum of a packet in memory; a
    receiver that finds the segment by the header's length and adds it up then accepts
    it, for headers without options.

    Memory is the list of its bytes, and an address is an index. *)

From stdpp Require Import base tactics numbers list.
From S2P Require Import Prelude Packet.

Local Open Scope Z_scope.

(** ** Memory *)

Definition load16 (mem : list Z) (i : Z) : outcome Z :=
  a ← aread mem i;
  b ← aread mem (i + 1);
  Ret (a + 256 * b).

Definition load32 (mem : list Z) (i : Z) : outcome Z :=
  a ← load16 mem i;
  b ← load16 mem (i + 2);
  Ret (a + 65536 * b).

Definition store16 (mem : list Z) (i x : Z) : outcome (list Z) :=
  mem ← awrite mem i (x mod 256);
  awrite mem (i + 1) (x / 256).

(** ** The routines *)

(** The loop over the 16-bit words, [add] what it does with a word: the sum and the
    address behind the last whole word. *)
Fixpoint sum_loop (add : Z -> Z -> Z) (mem : list Z) (w : Z) (nleft : nat) (sum : Z)
    : outcome (Z * Z) :=
  match nleft with
  | S (S n) => x ← load16 mem w; sum_loop add mem (w + 2) n (add sum x)
  | _ => Ret (sum, w)
  end.

Definition ip_csum (mem : list Z) (addr : Z) (len : nat) : outcome Z :=
  '(sum, w) ← sum_loop (fun sum x => s32 (sum + x)) mem addr len 0;
  sum ← (if Nat.odd len then b ← aread mem w; Ret (s32 (sum + b)) else Ret sum);
  let sum := s32 (Z.shiftr sum 16 + Z.land sum 0xffff) in
  let sum := s32 (sum + Z.shiftr sum 16) in
  Ret (u16 (Z.lnot sum)).

(** The loop [while (sum >> 16)]. *)
Fixpoint fold_loop (fuel : nat) (sum : Z) : outcome Z :=
  match fuel with
  | O => Fault OutOfFuel
  | S fuel =>
    if Z.shiftr sum 16 =? 0 then Ret sum
    else fold_loop fuel (u32 (Z.land sum 0xffff + Z.shiftr sum 16))
  end.

(** A 32-bit sum needs two rounds at most. *)
Definition fold_fuel : nat := 3.

Definition udp_add (sum x : Z) : Z :=
  let sum := u32 (sum + x) in
  if Z.land sum 0x80000000 =? 0 then sum else u32 (Z.land sum 0xffff + Z.shiftr sum 16).

Definition IPPROTO_TCP : Z := 6.
Definition IPPROTO_UDP : Z := 17.

(** The additions [sum += x], one after the other. *)
Definition add_words (sum : Z) (ws : list Z) : Z := foldl (fun sum x => u32 (sum + x)) sum ws.

Definition udp_checksum (mem : list Z) (p : Z) (len : nat) (src_addr dest_addr : Z) : outcome Z :=
  '(sum, buf) ← sum_loop udp_add mem p len 0;
  sum ← (if Nat.odd len then b ← aread mem buf; Ret (u32 (sum + b)) else Ret sum);
  let sum := add_words sum [Z.land src_addr 0xffff; Z.shiftr src_addr 16;
                            Z.land dest_addr 0xffff; Z.shiftr dest_addr 16;
                            bswap16 IPPROTO_UDP; bswap16 (u16 (Z.of_nat len))] in
  sum ← fold_loop fold_fuel sum;
  Ret (u16 (Z.lnot sum)).

(** An odd byte is read as the low half of a word. *)
Definition tcp_checksum (mem : list Z) (p : Z) (len : nat) (src_addr dest_addr : Z) : outcome Z :=
  let sum := add_words 0 [Z.land (Z.shiftr src_addr 16) 0xffff; Z.land src_addr 0xffff;
                          Z.land (Z.shiftr dest_addr 16) 0xffff; Z.land dest_addr 0xffff;
                          bswap16 IPPROTO_TCP; bswap16 (u16 (Z.of_nat len))] in
  '(sum, buf) ← sum_loop (fun sum x => u32 (sum + x)) mem p len sum;
  sum ← (if Nat.odd len
         then x ← load16 mem buf; Ret (u32 (sum + Z.land x (bswap16 0xff00)))
         else Ret sum);
  sum ← fold_loop fold_fuel sum;
  Ret (u16 (Z.lnot sum)).

(** ** The packet *)

Definition PROTO_IP : Z := 0x0800.

(** Offsets in a packet: the Ethernet header has 14 bytes and the IP header is taken
    to have 20. *)
Definition eth_proto : Z := 12.
Definition ip_vihl : Z := 14.
Definition ip_tot_len : Z := 16.
Definition ip_protocol : Z := 23.
Definition ip_saddr : Z := 26.
Definition ip_daddr : Z := 30.
Definition l4_header : Z := 34.
Definition tcp_check : Z := 16.
Definition udp_len : Z := 4.
Definition udp_check : Z := 6.

(** The length of the packet, the second argument of the function, is not used. *)
Definition handle_packet (mem : list Z) (pkt : Z) : outcome (Z * list Z) :=
  h_proto ← load16 mem (pkt + eth_proto);
  if negb (bswap16 h_proto =? PROTO_IP) then Ret (0, mem)
  else
    protocol ← aread mem (pkt + ip_protocol);
    let l4 := pkt + l4_header in
    if protocol =? IPPROTO_TCP then
      mem ← store16 mem (l4 + tcp_check) 0;
      tot_len ← load16 mem (pkt + ip_tot_len);
      vihl ← aread mem (pkt + ip_vihl);
      let tcplen := u16 (bswap16 tot_len - Z.shiftl (Z.land vihl 15) 2) in
      saddr ← load32 mem (pkt + ip_saddr);
      daddr ← load32 mem (pkt + ip_daddr);
      check ← tcp_checksum mem l4 (Z.to_nat tcplen) saddr daddr;
      mem ← store16 mem (l4 + tcp_check) check;
      Ret (1, mem)
    else if protocol =? IPPROTO_UDP then
      mem ← store16 mem (l4 + udp_check) 0;
      len ← load16 mem (l4 + udp_len);
      saddr ← load32 mem (pkt + ip_saddr);
      daddr ← load32 mem (pkt + ip_daddr);
      check ← udp_checksum mem l4 (Z.to_nat (bswap16 len)) saddr daddr;
      mem ← store16 mem (l4 + udp_check) check;
      Ret (1, mem)
    else Ret (1, mem).

(** ** The checksum of RFC 1071 *)

(** One's complement addition of 16-bit words: a carry is added at the low end. *)
Definition ones_add (a b : Z) : Z := if a + b <? 65536 then a + b else a + b - 65535.
Definition ones_sum (ws : list Z) : Z := foldr (fun w s => ones_add s w) 0 ws.

(** The words of a byte sequence, an odd last byte padded with zero. *)
Fixpoint words (bs : list Z) : list Z :=
  match bs with
  | a :: b :: bs => a + 256 * b :: words bs
  | [a] => [a]
  | [] => []
  end.

(** The words of the pseudo header: addresses, protocol and length. *)
Definition pseudo (src dst proto : Z) (len : nat) : list Z :=
  [src mod 65536; src / 65536; dst mod 65536; dst / 65536;
   bswap16 proto; bswap16 (Z.of_nat len)].

Definition inet_checksum (ws : list Z) : Z := 65535 - ones_sum ws.

(** ** Sums modulo 65535 *)

(** The 16-bit number a sum folds to: zero only for the sum zero. *)
Definition canon (s : Z) : Z := if s =? 0 then 0 else (s - 1) mod 65535 + 1.

Lemma canon_pos s : 0 < s → ∃ k, s = canon s + 65535 * k ∧ 0 ≤ k ∧ 1 ≤ canon s ≤ 65535.
Proof.
  intros Hs. unfold canon. rewrite (proj2 (Z.eqb_neq s 0)) by lia.
  exists ((s - 1) / 65535). pose proof (Z.div_mod (s - 1) 65535 ltac:(lia)).
  pose proof (Z.mod_pos_bound (s - 1) 65535 ltac:(lia)).
  pose proof (Z.div_pos (s - 1) 65535 ltac:(lia)). lia.
Qed.

Lemma canon_unique s c k : s = c + 65535 * k → 1 ≤ c ≤ 65535 → 0 ≤ k → canon s = c.
Proof.
  intros -> Hc Hk. destruct (canon_pos (c + 65535 * k)) as (j & Hj & Hj0 & Hc'); lia.
Qed.

Lemma canon_small s : 0 ≤ s ≤ 65535 → canon s = s.
Proof.
  intros Hs. destruct (Z.eq_dec s 0) as [->|]; [done|]. apply (canon_unique s s 0); lia.
Qed.

Lemma canon_bound s : 0 ≤ s → 0 ≤ canon s ≤ 65535.
Proof.
  intros Hs. destruct (Z.eq_dec s 0) as [->|]; [done|].
  destruct (canon_pos s) as (k & ? & ? & ?); lia.
Qed.

Lemma canon_shift s j : 0 < s → 0 ≤ j → canon (s + 65535 * j) = canon s.
Proof.
  intros Hs Hj. destruct (canon_pos s Hs) as (k & Hk & Hk0 & Hc).
  apply (canon_unique _ _ (k + j)); lia.
Qed.

Lemma ones_add_canon s w : 0 ≤ s → 0 ≤ w < 65536 → ones_add (canon s) w = canon (s + w).
Proof.
  intros Hs Hw. unfold ones_add. destruct (Z.eq_dec s 0) as [->|Hs0].
  { change (canon 0) with 0. rewrite (proj2 (Z.ltb_lt _ _)), !Z.add_0_l by lia.
    symmetry. apply canon_small. lia. }
  destruct (canon_pos s) as (k & Hk & Hk0 & Hc); [lia|].
  destruct (Z.ltb_spec (canon s + w) 65536); symmetry.
  - apply (canon_unique _ _ k); lia.
  - apply (canon_unique _ _ (k + 1)); lia.
Qed.

Definition sumz (ws : list Z) : Z := foldr Z.add 0 ws.

Lemma sumz_cons w ws : sumz (w :: ws) = w + sumz ws.
Proof. done. Qed.

Lemma sumz_nonneg ws : Forall (fits 16) ws → 0 ≤ sumz ws ≤ 65535 * Z.of_nat (length ws).
Proof.
  induction 1 as [|w ws Hw _ IH]; [done|]. unfold fits in Hw. rewrite sumz_cons. cbn [length]. lia.
Qed.

Lemma sumz_app ws ws' : sumz (ws ++ ws') = sumz ws + sumz ws'.
Proof. induction ws as [|w ws IH]; [done|]. cbn [app]. rewrite !sumz_cons, IH. lia. Qed.

(** The one's complement sum only depends on the sum. *)
Lemma ones_sum_canon ws : Forall (fits 16) ws → ones_sum ws = canon (sumz ws).
Proof.
  induction 1 as [|w ws Hw Hws IH]; [done|]. unfold fits in Hw.
  cbn [ones_sum foldr]. fold (ones_sum ws). rewrite IH.
  rewrite ones_add_canon by (try apply sumz_nonneg; done). f_equal.
  rewrite sumz_cons. lia.
Qed.

(** Adding the carries to the low half does not change what the sum folds to. *)
Lemma fold_step s :
  0 ≤ s → Z.land s 0xffff + Z.shiftr s 16 = s mod 65536 + s / 65536 ∧
    canon (s mod 65536 + s / 65536) = canon s.
Proof.
  intros Hs. split.
  - change 0xffff with (Z.ones 16). by rewrite Z.land_ones, Z.shiftr_div_pow2 by lia.
  - pose proof (Z.div_mod s 65536 ltac:(lia)) as E.
    pose proof (Z.mod_pos_bound s 65536 ltac:(lia)).
    pose proof (Z.div_pos s 65536 ltac:(lia)).
    destruct (Z.eq_dec s 0) as [->|]; [done|].
    rewrite <-(canon_shift (s mod 65536 + s / 65536) (s / 65536)) by lia. f_equal. lia.
Qed.

Lemma fold_loop_step fuel s :
  0 ≤ s < 2 ^ 32 →
  fold_loop (S fuel) s = if s <? 65536 then Ret s else fold_loop fuel (s mod 65536 + s / 65536).
Proof.
  intros Hs. cbn [fold_loop]. rewrite Z.shiftr_div_pow2 by lia.
  pose proof (Z.div_mod s 65536 ltac:(lia)). pose proof (Z.mod_pos_bound s 65536 ltac:(lia)).
  change (2 ^ 16) with 65536.
  destruct (Z.ltb_spec s 65536) as [Hlt|Hge].
  - by rewrite (Z.div_small s 65536) by lia.
  - rewrite (proj2 (Z.eqb_neq (s / 65536) 0)) by lia. f_equal.
    change 0xffff with (Z.ones 16). rewrite Z.land_ones by lia. apply wrap_small.
    unfold fits. change (2 ^ 16) with 65536. lia.
Qed.

(** The loop ends and folds the sum. *)
Lemma fold_loop_canon s : 0 ≤ s < 2 ^ 32 → fold_loop fold_fuel s = Ret (canon s).
Proof.
  intros Hs. unfold fold_fuel. rewrite fold_loop_step by done.
  destruct (Z.ltb_spec s 65536); [by rewrite canon_small by lia|].
  rewrite <-(proj2 (fold_step s ltac:(lia))).
  pose proof (Z.div_mod s 65536 ltac:(lia)). pose proof (Z.mod_pos_bound s 65536 ltac:(lia)).
  set (t := s mod 65536 + s / 65536) in *. assert (0 ≤ t ≤ 131070) by lia.
  rewrite fold_loop_step by lia. destruct (Z.ltb_spec t 65536); [by rewrite canon_small by lia|].
  rewrite <-(proj2 (fold_step t ltac:(lia))).
  pose proof (Z.div_mod t 65536 ltac:(lia)). pose proof (Z.mod_pos_bound t 65536 ltac:(lia)).
  set (v := t mod 65536 + t / 65536) in *. assert (0 ≤ v < 65536) by lia.
  rewrite fold_loop_step by lia. by rewrite (proj2 (Z.ltb_lt v 65536)), canon_small by lia.
Qed.

Lemma u16_lnot c : 0 ≤ c ≤ 65535 → u16 (Z.lnot c) = 65535 - c.
Proof.
  intros Hc. unfold Z.lnot. unfold u16, wrap. change (2 ^ 16) with 65536.
  rewrite <-(Z.mod_add _ 1) by lia. rewrite Z.mod_small; lia.
Qed.

Lemma canon_add_r a b t : 0 ≤ a → 0 ≤ b → 0 ≤ t → canon a = canon b → canon (a + t) = canon (b + t).
Proof.
  intros Ha Hb Ht E. destruct (Z.eq_dec a 0) as [->|], (Z.eq_dec b 0) as [->|]; try done.
  - destruct (canon_pos b) as (j & ? & ? & ?); [lia|]. change (canon 0) with 0 in E. lia.
  - destruct (canon_pos a) as (j & ? & ? & ?); [lia|]. change (canon 0) with 0 in E. lia.
  - destruct (canon_pos a) as (k & Ea & ? & ?); [lia|].
    destruct (canon_pos b) as (j & Eb & ? & ?); [lia|].
    replace (a + t) with (canon a + t + 65535 * k) by lia.
    replace (b + t) with (canon a + t + 65535 * j) by lia.
    by rewrite !canon_shift by lia.
Qed.

(** ** The loops *)

Lemma load16_mid pre a b post i :
  i = Z.of_nat (length pre) → load16 (pre ++ a :: b :: post) i = Ret (a + 256 * b).
Proof.
  intros ->. unfold load16. rewrite (aread_mid pre _ _ (Z.of_nat (length pre))) by done. cbn [mbind outcome_bind].
  rewrite (snoc_app pre), (aread_mid (pre ++ [a])) by (rewrite length_app; cbn; lia). done.
Qed.

Lemma sum_loop_run add k : ∀ seg r pre post sum,
  length seg = (2 * k)%nat → (r ≤ 1)%nat →
  sum_loop add (pre ++ seg ++ post) (Z.of_nat (length pre)) (2 * k + r) sum =
    Ret (foldl add sum (words seg), Z.of_nat (length pre + 2 * k)).
Proof.
  induction k as [|k IH]; intros seg r pre post sum Hl Hr.
  - destruct seg; [|done]. rewrite Nat.add_0_r. by destruct r as [|[|]]; [| |lia].
  - destruct seg as [|a [|b seg]]; [done|cbn in Hl; lia|]. cbn [length] in Hl.
    replace (2 * S k + r)%nat with (S (S (2 * k + r))) by lia. cbn [sum_loop app].
    rewrite load16_mid by done. cbn [mbind outcome_bind words foldl].
    replace (pre ++ a :: b :: seg ++ post) with ((pre ++ [a; b]) ++ seg ++ post)
      by by rewrite <-app_assoc.
    replace (Z.of_nat (length pre) + 2) with (Z.of_nat (length (pre ++ [a; b])))
      by (rewrite length_app; cbn; lia).
    rewrite IH by lia. do 2 f_equal. rewrite length_app. cbn. lia.
Qed.

Lemma words_app k : ∀ xs ys, length xs = (2 * k)%nat → words (xs ++ ys) = words xs ++ words ys.
Proof.
  induction k as [|k IH]; intros xs ys Hl; [by destruct xs|].
  destruct xs as [|a [|b xs]]; [done|cbn in Hl; lia|]. cbn [app words].
  rewrite IH; [done|]. cbn in Hl. lia.
Qed.

(** A segment: its whole words and perhaps a last byte. *)
Lemma halves {A} (seg : list A) :
  ∃ k ev od, seg = ev ++ od ∧ length ev = (2 * k)%nat ∧
    (od = [] ∧ length seg = (2 * k + 0)%nat ∧ Nat.odd (length seg) = false ∨
     ∃ a, od = [a] ∧ length seg = (2 * k + 1)%nat ∧ Nat.odd (length seg) = true).
Proof.
  destruct (Nat.odd (length seg)) eqn:Ho.
  - apply Nat.odd_spec in Ho as [k Hk]. exists k, (take (2 * k) seg), (drop (2 * k) seg).
    rewrite take_drop, length_take. split_and!; [done|lia|]. right.
    destruct (drop (2 * k) seg) as [|a [|b l]] eqn:E;
      apply (f_equal length) in E; rewrite length_drop in E; cbn in E; [lia| |lia].
    exists a. split_and!; [done|lia|done].
  - assert (Nat.even (length seg) = true) as He by (by rewrite <-Nat.negb_odd, Ho).
    apply Nat.even_spec in He as [k Hk]. exists k, seg, []. rewrite app_nil_r.
    split_and!; [done|lia|]. left. split_and!; [done|lia|done].
Qed.

Lemma words_fits bs : bytes bs → Forall (fits 16) (words bs) ∧ (2 * length (words bs) ≤ S (length bs))%nat.
Proof.
  intros Hb. destruct (halves bs) as (k & ev & od & -> & Hl & Ho). apply Forall_app in Hb as [He Hd].
  assert (Forall (fits 16) (words ev) ∧ length (words ev) = k) as [Hw Hlw].
  { clear Ho. revert ev Hl He. induction k as [|k IH]; intros ev Hl He.
    - by destruct ev.
    - destruct ev as [|a [|b ev]]; [done|cbn in Hl; lia|]. cbn [words length] in *.
      apply Forall_cons in He as [Ha He]. apply Forall_cons in He as [Hb He].
      destruct (IH ev) as [? ?]; [lia|done|]. split; [|lia]. constructor; [|done].
      unfold fits in *. change (2 ^ 8) with 256 in *. change (2 ^ 16) with 65536. lia. }
  rewrite (words_app k) by done. rewrite Forall_app, !length_app, Hlw, Hl.
  destruct Ho as [(-> & _)|(a & -> & _)]; cbn [words length].
  - split_and!; [done|constructor|lia].
  - split_and!; [done| |lia]. constructor; [|done]. apply Forall_cons in Hd as [Ha _].
    unfold fits in *. change (2 ^ 8) with 256 in *. change (2 ^ 16) with 65536. lia.
Qed.

Lemma fold_add (f : Z -> Z) B ws s :
  (∀ z, 0 ≤ z < B → f z = z) → Forall (fits 16) ws → 0 ≤ s →
  s + 65535 * Z.of_nat (length ws) < B →
  foldl (fun s x => f (s + x)) s ws = s + sumz ws.
Proof.
  intros Hf Hw. revert s. induction Hw as [|w ws Hw Hws IH]; intros s Hs Hb.
  - cbn. lia.
  - unfold fits in Hw. change (2 ^ 16) with 65536 in Hw. cbn [foldl length] in *.
    rewrite Hf by lia. rewrite IH by lia. rewrite sumz_cons. lia.
Qed.

Lemma udp_add_canon s w :
  0 ≤ s < 2 ^ 31 → fits 16 w → 0 ≤ udp_add s w < 2 ^ 31 ∧ canon (udp_add s w) = canon (s + w).
Proof.
  unfold fits. intros Hs Hw. unfold udp_add. rewrite wrap_small by (unfold fits; lia).
  assert (Z.land (s + w) 0x80000000 = if s + w <? 2 ^ 31 then 0 else 2 ^ 31) as ->.
  { apply Z.bits_inj'. intros i Hi. rewrite Z.land_spec. change 0x80000000 with (2 ^ 31).
    rewrite Z.pow2_bits_eqb by lia. destruct (Z.ltb_spec (s + w) (2 ^ 31)) as [Hlt|Hge].
    - rewrite Z.bits_0. destruct (Z.eqb_spec 31 i) as [<-|]; [|by rewrite andb_false_r].
      rewrite Z.testbit_eqb by lia. by rewrite (Z.div_small _ (2 ^ 31)) by lia.
    - rewrite Z.pow2_bits_eqb by lia. destruct (Z.eqb_spec 31 i) as [<-|]; [|by rewrite andb_false_r].
      rewrite Z.testbit_eqb by lia.
      by rewrite <-(Z.div_unique_pos (s + w) (2 ^ 31) 1 (s + w - 2 ^ 31)) by lia. }
  destruct (Z.ltb_spec (s + w) (2 ^ 31)) as [Hlt|Hge].
  { change (0 =? 0) with true. cbv iota. split; [lia|done]. }
  change (2 ^ 31 =? 0) with false. cbv iota.
  destruct (fold_step (s + w)) as [-> E]; [lia|].
  pose proof (Z.div_mod (s + w) 65536 ltac:(lia)).
  pose proof (Z.mod_pos_bound (s + w) 65536 ltac:(lia)).
  rewrite wrap_small by (unfold fits; lia). split; [lia|done].
Qed.

Lemma fold_udp ws s :
  Forall (fits 16) ws → 0 ≤ s < 2 ^ 31 →
  0 ≤ foldl udp_add s ws < 2 ^ 31 ∧ canon (foldl udp_add s ws) = canon (s + sumz ws).
Proof.
  intros Hw. revert s. induction Hw as [|w ws Hw Hws IH]; intros s Hs.
  - cbn [foldl]. rewrite Z.add_0_r. done.
  - cbn [foldl]. destruct (udp_add_canon s w Hs Hw) as [Hb E].
    destruct (IH _ Hb) as [Hb' E']. split; [done|]. rewrite E', sumz_cons, Z.add_assoc.
    unfold fits in Hw. apply canon_add_r; [lia|lia| |done]. by apply sumz_nonneg.
Qed.

(** ** The routines compute the checksum *)

Lemma inet_canon ws : Forall (fits 16) ws → inet_checksum ws = 65535 - canon (sumz ws).
Proof. intros Hw. unfold inet_checksum. by rewrite ones_sum_canon. Qed.

(** The two additions of [ip_csum]. *)
Lemma ip_fold s :
  0 ≤ s < 2 ^ 31 →
  let t := s32 (Z.shiftr s 16 + Z.land s 0xffff) in
  u16 (Z.lnot (s32 (t + Z.shiftr t 16))) = 65535 - canon s.
Proof.
  intros Hs. rewrite (Z.add_comm (Z.shiftr s 16)). destruct (fold_step s) as [-> E]; [lia|].
  pose proof (Z.div_mod s 65536 ltac:(lia)). pose proof (Z.mod_pos_bound s 65536 ltac:(lia)).
  rewrite <-E. set (t := s mod 65536 + s / 65536) in *. assert (0 ≤ t ≤ 131070) by lia.
  rewrite (s32_small t) by lia. cbv zeta. rewrite Z.shiftr_div_pow2 by lia.
  change (2 ^ 16) with 65536. destruct (Z.ltb_spec t 65536).
  - rewrite (Z.div_small t 65536), Z.add_0_r, s32_small by lia.
    rewrite u16_lnot, canon_small by lia. done.
  - rewrite <-(Z.div_unique_pos t 65536 1 (t - 65536)) by lia. rewrite s32_small by lia.
    rewrite (canon_unique t (t - 65535) 1) by lia. unfold Z.lnot, u16, wrap.
    change (2 ^ 16) with 65536. rewrite <-(Z.mod_add _ 2) by lia. rewrite Z.mod_small; lia.
Qed.

(** The sum of a segment is that of its whole words and its odd byte. *)
Lemma sumz_halves k ev od :
  length ev = (2 * k)%nat → bytes (ev ++ od) → Z.of_nat (length (ev ++ od)) ≤ 65535 →
  Forall (fits 16) (words ev) ∧ 65535 * Z.of_nat (length (words ev)) < 2 ^ 31 - 65536 ∧
  sumz (words (ev ++ od)) = sumz (words ev) + sumz (words od) ∧ 0 ≤ sumz (words ev) < 2 ^ 31 - 65536.
Proof.
  intros He Hb Hl. apply Forall_app in Hb as [Hbe _]. destruct (words_fits ev Hbe) as [Hwe Hne].
  rewrite (words_app k), sumz_app by done. rewrite length_app in Hl.
  pose proof (sumz_nonneg _ Hwe). split_and!; [done|lia|done|lia|lia].
Qed.

Lemma ip_csum_run pre seg post :
  bytes seg → Z.of_nat (length seg) ≤ 65535 →
  ip_csum (pre ++ seg ++ post) (Z.of_nat (length pre)) (length seg) =
    Ret (inet_checksum (words seg)).
Proof.
  intros Hb Hl. rewrite inet_canon by by apply words_fits. unfold ip_csum.
  destruct (halves seg) as (k & ev & od & -> & He & Ho).
  destruct (sumz_halves k ev od He Hb Hl) as (Hwe & Hne & -> & Hse).
  assert (∀ z, 0 ≤ z < 2 ^ 31 → s32 z = z) as Hsm by (intros; apply s32_small; lia).
  apply Forall_app in Hb as [_ Hbo].
  destruct Ho as [(-> & -> & ->)|(a & -> & -> & ->)]; rewrite <-app_assoc, sum_loop_run by (done || lia);
    cbn [mbind outcome_bind app words].
  - rewrite (fold_add s32 (2 ^ 31)) by (done || lia). rewrite Z.add_0_l, Z.add_0_r.
    f_equal. apply ip_fold. lia.
  - apply Forall_cons in Hbo as [Ha _]. unfold fits in Ha. change (2 ^ 8) with 256 in Ha.
    rewrite (app_assoc pre), aread_mid by (rewrite length_app; lia). cbn [mbind outcome_bind].
    rewrite (fold_add s32 (2 ^ 31)) by (done || lia). rewrite sumz_cons, Z.add_0_l, Z.add_0_r.
    rewrite (s32_small (_ + a)) by lia. f_equal. apply ip_fold. lia.
Qed.

Lemma land_ffff a : Z.land a 0xffff = a mod 65536.
Proof. change 0xffff with (Z.ones 16). by rewrite Z.land_ones by lia. Qed.

(** The words of the pseudo header. *)
Lemma pseudo_fits src dst proto len :
  fits 32 src → fits 32 dst → Forall (fits 16) (pseudo src dst proto len).
Proof.
  intros Hs Hd. unfold fits in Hs, Hd. change (2 ^ 32) with (65536 * 65536) in *. unfold pseudo.
  pose proof (Z.div_mod src 65536 ltac:(lia)). pose proof (Z.mod_pos_bound src 65536 ltac:(lia)).
  pose proof (Z.div_mod dst 65536 ltac:(lia)). pose proof (Z.mod_pos_bound dst 65536 ltac:(lia)).
  repeat (apply Forall_cons; split; [try apply bswap16_fits; unfold fits; change (2 ^ 16) with 65536; lia|]).
  constructor.
Qed.

Lemma u32_small z : 0 ≤ z < 2 ^ 32 → u32 z = z.
Proof. intros Hz. by apply wrap_small. Qed.

(** The end of [udp_checksum] and of [tcp_checksum]. *)
Lemma fold_end s ws :
  0 ≤ s < 2 ^ 32 → canon s = canon (sumz ws) → Forall (fits 16) ws →
  (sum ← fold_loop fold_fuel s; Ret (u16 (Z.lnot sum))) = Ret (inet_checksum ws).
Proof.
  intros Hs E Hw. rewrite fold_loop_canon by done. cbn [mbind outcome_bind].
  rewrite u16_lnot by (apply canon_bound; lia). by rewrite inet_canon, E by done.
Qed.

Section routines.
Context (pre seg post : list Z) (src dst : Z).
Hypothesis Hb : bytes seg.
Hypothesis Hl : Z.of_nat (length seg) ≤ 65535.
Hypothesis Hsrc : fits 32 src.
Hypothesis Hdst : fits 32 dst.

Lemma seg_fits proto : Forall (fits 16) (pseudo src dst proto (length seg) ++ words seg).
Proof. apply Forall_app. split; [by apply pseudo_fits|by apply words_fits]. Qed.

(** The additions of the pseudo header do not overflow. *)
Lemma pseudo_sum sum proto :
  0 ≤ sum < 2 ^ 31 + 65536 →
  let ps := pseudo src dst proto (length seg) in
  add_words sum ps = sum + sumz ps ∧ 0 ≤ sum + sumz ps < 2 ^ 32.
Proof.
  intros Hs ps. pose proof (pseudo_fits src dst proto (length seg) Hsrc Hdst) as Hp.
  pose proof (sumz_nonneg _ Hp) as Hn. fold ps in Hn, Hp. change (length ps) with 6%nat in Hn.
  split; [|lia]. apply (fold_add u32 (2 ^ 32)); [by apply u32_small|done|lia|].
  change (length ps) with 6%nat. lia.
Qed.

(** The sum of the segment in [udp_checksum] folds to the right number. *)
Lemma udp_segment_sum :
  ∃ s, 0 ≤ s < 2 ^ 31 + 65536 ∧ canon s = canon (sumz (words seg)) ∧
    ('(sum, buf) ← sum_loop udp_add (pre ++ seg ++ post) (Z.of_nat (length pre)) (length seg) 0;
     if Nat.odd (length seg) then b ← aread (pre ++ seg ++ post) buf; Ret (u32 (sum + b)) else Ret sum)
    = Ret s.
Proof.
  destruct (halves seg) as (k & ev & od & Eseg & He & Ho). rewrite Eseg in *.
  destruct (sumz_halves k ev od He Hb Hl) as (Hwe & Hne & Esum & Hse). rewrite Esum.
  destruct (fold_udp (words ev) 0 Hwe ltac:(lia)) as [Hf Ef]. rewrite Z.add_0_l in Ef.
  apply Forall_app in Hb as [_ Hbo].
  destruct Ho as [(-> & -> & ->)|(a & -> & -> & ->)]; rewrite <-app_assoc, sum_loop_run by (done || lia);
    cbn [mbind outcome_bind app words]; eexists.
  - rewrite Z.add_0_r. split_and!; [| | |done]; [lia|lia|done].
  - apply Forall_cons in Hbo as [Ha _]. unfold fits in Ha. change (2 ^ 8) with 256 in Ha.
    rewrite (app_assoc pre), aread_mid by (rewrite length_app; lia). cbn [mbind outcome_bind].
    rewrite u32_small, sumz_cons by lia. change (sumz []) with 0. rewrite Z.add_0_r.
    split_and!; [| | |done]; [lia|lia|]. apply canon_add_r; lia || done.
Qed.

Lemma udp_checksum_run :
  udp_checksum (pre ++ seg ++ post) (Z.of_nat (length pre)) (length seg) src dst =
    Ret (inet_checksum (pseudo src dst IPPROTO_UDP (length seg) ++ words seg)).
Proof.
  destruct udp_segment_sum as (s & Hs & Es & E).
  unfold udp_checksum. rewrite !land_ffff, !Z.shiftr_div_pow2 by lia. change (2 ^ 16) with 65536.
  rewrite (wrap_small 16) by (unfold fits; lia).
  destruct (pseudo_sum s IPPROTO_UDP Hs) as [Ep Hp].
  destruct (sum_loop udp_add _ _ _ _) as [[sum buf]|]; [|done]. cbn [mbind outcome_bind] in E |- *.
  rewrite E, outcome_ret_bind. cbv zeta.
  fold (pseudo src dst IPPROTO_UDP (length seg)). rewrite Ep. apply fold_end; [done| |apply seg_fits]. rewrite sumz_app.
  rewrite (Z.add_comm (sumz (pseudo _ _ _ _)) (sumz (words seg))). apply canon_add_r; [lia| | |done].
  - by apply sumz_nonneg, words_fits.
  - by apply sumz_nonneg, pseudo_fits.
Qed.

(** [tcp_checksum] starts with the sum of the pseudo header. *)
Lemma tcp_pseudo_sum :
  let ps := pseudo src dst IPPROTO_TCP (length seg) in
  add_words 0 [Z.land (Z.shiftr src 16) 0xffff; Z.land src 0xffff; Z.land (Z.shiftr dst 16) 0xffff;
    Z.land dst 0xffff; bswap16 IPPROTO_TCP; bswap16 (u16 (Z.of_nat (length seg)))] = sumz ps ∧
  0 ≤ sumz ps < 2 ^ 20.
Proof.
  intros ps. pose proof (pseudo_fits src dst IPPROTO_TCP (length seg) Hsrc Hdst) as Hpf. fold ps in Hpf.
  pose proof (sumz_nonneg _ Hpf) as Hps. change (length ps) with 6%nat in Hps. split; [|lia].
  rewrite !land_ffff, !Z.shiftr_div_pow2 by lia. change (2 ^ 16) with 65536.
  pose proof Hsrc as Hs. pose proof Hdst as Hd. unfold fits in Hs, Hd.
  change (2 ^ 32) with (65536 * 65536) in Hs, Hd.
  rewrite (Z.mod_small (src / 65536)), (Z.mod_small (dst / 65536))
    by (split; [apply Z.div_pos; lia|apply Z.div_lt_upper_bound; lia]).
  rewrite (wrap_small 16) by (unfold fits; lia).
  set (qs := [src / 65536; src mod 65536; dst / 65536; dst mod 65536; bswap16 IPPROTO_TCP;
              bswap16 (Z.of_nat (length seg))]).
  assert (ps ≡ₚ qs) as Hp by (unfold ps, qs, pseudo; solve_Permutation).
  rewrite Hp in Hpf. trans (0 + sumz qs); [|unfold ps, qs, pseudo; rewrite !sumz_cons; lia].
  apply (fold_add u32 (2 ^ 32) qs 0); [by apply u32_small|done|lia|by vm_compute].
Qed.

Lemma tcp_checksum_run :
  (Nat.odd (length seg) = true → post ≠ []) →
  tcp_checksum (pre ++ seg ++ post) (Z.of_nat (length pre)) (length seg) src dst =
    Ret (inet_checksum (pseudo src dst IPPROTO_TCP (length seg) ++ words seg)).
Proof.
  intros Hpost. unfold tcp_checksum. cbv zeta. destruct tcp_pseudo_sum as [-> Hps].
  assert (∀ z, 0 ≤ z < 2 ^ 32 → u32 z = z) as Hu by apply u32_small.
  pose proof (seg_fits IPPROTO_TCP) as Hall.
  destruct (halves seg) as (k & ev & od & Eseg & He & Ho).
  set (ps := pseudo src dst IPPROTO_TCP (length seg)) in *. clearbody ps.
  pose proof Hb as Hb'. pose proof Hl as Hl'. clear Hl. rewrite Eseg in Hb', Hl', Hall, Hpost, Ho |- *.
  destruct (sumz_halves k ev od He Hb' Hl') as (Hwe & Hne & Esum & Hse).
  apply Forall_app in Hb' as [_ Hbo].
  destruct Ho as [(-> & El & Eo)|(a & -> & El & Eo)]; rewrite Eo, El;
    rewrite <-app_assoc, sum_loop_run by (done || lia);
    cbn [mbind outcome_bind app]; rewrite (fold_add u32 (2 ^ 32)) by (done || lia).
  - apply fold_end; [lia| |done]. by rewrite sumz_app, Esum, Z.add_0_r.
  - apply Forall_cons in Hbo as [Ha _]. unfold fits in Ha. change (2 ^ 8) with 256 in Ha.
    destruct post as [|x post']; [by destruct Hpost|].
    rewrite (app_assoc pre), load16_mid by (rewrite length_app; lia). cbn [mbind outcome_bind].
    change (bswap16 0xff00) with (Z.ones 8). rewrite Z.land_ones, (Z.mul_comm 256), Z.mod_add by lia.
    change (2 ^ 8) with 256. rewrite Z.mod_small by lia. cbn [words] in Esum.
    rewrite sumz_cons in Esum. change (sumz []) with 0 in Esum.
    rewrite u32_small by lia. apply fold_end; [lia| |done]. rewrite sumz_app, Esum.
    f_equal. lia.
Qed.
End routines.

(** ** Rewriting a packet *)

Lemma store16_mid pre a b post i x :
  i = Z.of_nat (length pre) →
  store16 (pre ++ a :: b :: post) i x = Ret (pre ++ x mod 256 :: x / 256 :: post).
Proof.
  intros ->. unfold store16. rewrite awrite_mid by done. cbn [mbind outcome_bind].
  rewrite (snoc_app pre), awrite_mid by (rewrite length_app; cbn; lia). by rewrite <-app_assoc.
Qed.

Lemma aread_prefix {A} (l x y : list A) i : i < Z.of_nat (length l) → aread (l ++ x) i = aread (l ++ y) i.
Proof.
  intros Hi. unfold aread. destruct (Z.ltb_spec i 0); [done|]. by rewrite !lookup_app_l by lia.
Qed.

Lemma load16_prefix l x y i : i + 1 < Z.of_nat (length l) → load16 (l ++ x) i = load16 (l ++ y) i.
Proof. intros Hi. unfold load16. by rewrite !(aread_prefix l x y) by lia. Qed.

Lemma load32_prefix l x y i : i + 3 < Z.of_nat (length l) → load32 (l ++ x) i = load32 (l ++ y) i.
Proof. intros Hi. unfold load32. by rewrite !(load16_prefix l x y) by lia. Qed.

Lemma load16_ok mem i :
  bytes mem → 0 ≤ i → i + 1 < Z.of_nat (length mem) → ∃ x, load16 mem i = Ret x ∧ fits 16 x.
Proof.
  intros Hm Hi Hl. unfold load16.
  destruct (lookup_lt_is_Some_2 mem (Z.to_nat i)) as [a Ha]; [lia|].
  destruct (lookup_lt_is_Some_2 mem (Z.to_nat (i + 1))) as [b Hb]; [lia|].
  rewrite (aread_Some _ _ _ Hi Ha), (aread_Some _ (i + 1) b) by (done || lia).
  eexists. split; [done|]. apply (Forall_lookup_1 _ _ _ _ Hm) in Ha, Hb.
  unfold fits in *. change (2 ^ 8) with 256 in *. change (2 ^ 16) with 65536. lia.
Qed.

Lemma load32_ok mem i :
  bytes mem → 0 ≤ i → i + 3 < Z.of_nat (length mem) → ∃ x, load32 mem i = Ret x ∧ fits 32 x.
Proof.
  intros Hm Hi Hl. unfold load32. destruct (load16_ok mem i) as (a & -> & Ha); [done|lia|lia|].
  destruct (load16_ok mem (i + 2)) as (b & E & Hb); [done|lia|lia|]. cbn [mbind outcome_bind].
  rewrite E. eexists. split; [done|]. unfold fits in *. change (2 ^ 16) with 65536 in *.
  change (2 ^ 32) with (65536 * 65536). lia.
Qed.

(** Where the checksum is in the segment, and the length of the segment as the code
    finds it. *)
Definition check_at (proto : Z) : Z := if proto =? IPPROTO_TCP then tcp_check else udp_check.

Definition segment_len (mem : list Z) (pkt proto : Z) : outcome Z :=
  if proto =? IPPROTO_TCP then
    tot_len ← load16 mem (pkt + ip_tot_len);
    vihl ← aread mem (pkt + ip_vihl);
    Ret (u16 (bswap16 tot_len - Z.shiftl (Z.land vihl 15) 2))
  else
    len ← load16 mem (pkt + l4_header + udp_len);
    Ret (bswap16 len).

(** What a receiver does with a TCP or UDP packet: the segment starts behind the IP
    header, whose length is in the packet, and has to fit into the IP packet; its words
    and those of the pseudo header add up to all ones. *)
Definition accepts (mem : list Z) (pkt : Z) : outcome bool :=
  vihl ← aread mem (pkt + ip_vihl);
  tot_len ← load16 mem (pkt + ip_tot_len);
  protocol ← aread mem (pkt + ip_protocol);
  saddr ← load32 mem (pkt + ip_saddr);
  daddr ← load32 mem (pkt + ip_daddr);
  let iplen := 4 * Z.land vihl 15 in
  let l4 := pkt + ip_vihl + iplen in
  len ← (if protocol =? IPPROTO_TCP then Ret (bswap16 tot_len - iplen)
         else x ← load16 mem (l4 + udp_len); Ret (bswap16 x));
  let seg := take (Z.to_nat len) (drop (Z.to_nat l4) mem) in
  Ret ((20 <=? iplen) && (0 <=? len) && (iplen + len <=? bswap16 tot_len) &&
       (ones_sum (pseudo saddr daddr protocol (Z.to_nat len) ++ words seg) =? 65535)).

(** A packet without IP options whose segment of [n] bytes is in memory with the byte
    behind it. *)
Record rewritable (mem : list Z) (pkt proto : Z) (n : nat) : Prop := {
  rw_bytes : bytes mem;
  rw_pkt : 0 ≤ pkt;
  rw_ip : ∃ x, load16 mem (pkt + eth_proto) = Ret x ∧ bswap16 x = PROTO_IP;
  rw_proto : aread mem (pkt + ip_protocol) = Ret proto;
  rw_kind : proto = IPPROTO_TCP ∨ proto = IPPROTO_UDP;
  rw_len : segment_len mem pkt proto = Ret (Z.of_nat n);
  rw_check : check_at proto + 2 ≤ Z.of_nat n;
  rw_end : pkt + l4_header + Z.of_nat n < Z.of_nat (length mem);
  rw_ihl : ∃ v, aread mem (pkt + ip_vihl) = Ret v ∧ Z.land v 15 = 5;
  rw_total : ∃ x, load16 mem (pkt + ip_tot_len) = Ret x ∧ 20 + Z.of_nat n ≤ bswap16 x;
}.

(** The memory around the checksum. *)
Lemma packet_split (mem : list Z) (i j n : nat) :
  (j + 2 ≤ n)%nat → (i + n ≤ length mem)%nat →
  ∃ pre A a b B post, mem = pre ++ (A ++ a :: b :: B) ++ post ∧ length pre = i ∧ length A = j ∧
    length (A ++ a :: b :: B) = n ∧ length post = (length mem - i - n)%nat.
Proof.
  intros Hj Hn. exists (take i mem), (take j (drop i mem)).
  destruct (drop j (drop i mem)) as [|a [|b R]] eqn:E;
    apply (f_equal length) in E as El; rewrite !length_drop in El; cbn in El; [lia|lia|].
  exists a, b, (take (n - j - 2) R), (drop (n - j - 2) R).
  rewrite !length_app, !length_take, !length_drop. cbn [length]. rewrite length_take.
  split_and!; try lia.
  rewrite <-app_assoc. cbn [app]. rewrite take_drop, <-E, take_drop. by rewrite take_drop.
Qed.

(** The checksum makes the sum come out: [A] and [B] surround it. *)
Lemma checksum_completes src dst proto n k A B :
  fits 32 src → fits 32 dst → 0 < bswap16 proto → length A = (2 * k)%nat → bytes A → bytes B →
  let c := inet_checksum (pseudo src dst proto n ++ words (A ++ 0 :: 0 :: B)) in
  fits 16 c ∧ ones_sum (pseudo src dst proto n ++ words (A ++ c mod 256 :: c / 256 :: B)) = 65535.
Proof.
  intros Hs Hd Hp HA Ha Hb c. pose proof (pseudo_fits src dst proto n Hs Hd) as Hps.
  destruct (words_fits A Ha) as [HwA _]. destruct (words_fits B Hb) as [HwB _].
  assert (∀ w, fits 16 w → Forall (fits 16) (pseudo src dst proto n ++ words A ++ w :: words B)) as Hall.
  { intros w Hw. apply Forall_app. split; [done|]. apply Forall_app. split; [done|]. by constructor. }
  unfold c. rewrite !(words_app k) by done. cbn [words].
  set (S := sumz (pseudo src dst proto n) + sumz (words A) + sumz (words B)).
  assert (0 < S) as HS.
  { pose proof (proj1 (sumz_nonneg _ HwA)). pose proof (proj1 (sumz_nonneg _ HwB)).
    unfold fits in Hs, Hd. change (2 ^ 32) with (65536 * 65536) in *.
    pose proof (bswap16_fits (Z.of_nat n)) as Hn. unfold fits in Hn.
    unfold S, pseudo. rewrite !sumz_cons. change (sumz []) with 0.
    pose proof (Z.mod_pos_bound src 65536). pose proof (Z.mod_pos_bound dst 65536).
    pose proof (Z.div_pos src 65536). pose proof (Z.div_pos dst 65536). lia. }
  destruct (canon_pos S HS) as (q & Eq & Hq & Hc).
  rewrite inet_canon by (apply Hall; unfold fits; lia).
  rewrite !sumz_app, !sumz_cons. replace (_ + (_ + (_ + _))) with S by lia.
  rewrite (Z.add_comm (_ mod _)), <-Z.div_mod by lia.
  assert (fits 16 (65535 - canon S)) as Hcs by (unfold fits; change (2 ^ 16) with 65536; lia).
  split; [done|]. rewrite ones_sum_canon by by apply Hall.
  rewrite !sumz_app, sumz_cons. apply (canon_unique _ _ q); lia.
Qed.

(** Both kinds of packet: memory around the checksum, and what the code finds there. *)
Section packet.
Context (pre A B post : list Z) (a b pkt proto : Z).
Notation mem_with x y := (pre ++ (A ++ x :: y :: B) ++ post).
Notation n := (length (A ++ a :: b :: B)).
Hypothesis Hpre : Z.of_nat (length pre) = pkt + l4_header.
Hypothesis HA : Z.of_nat (length A) = check_at proto.

Lemma mem_store x y z :
  store16 (mem_with x y) (pkt + l4_header + check_at proto) z = Ret (mem_with (z mod 256) (z / 256)).
Proof.
  rewrite <-Hpre, <-HA. rewrite !app_assoc, <-!(app_assoc (pre ++ A)). cbn [app].
  rewrite store16_mid by (rewrite length_app; lia). done.
Qed.

Lemma mem_prefix x y : mem_with x y = (pre ++ A) ++ x :: y :: B ++ post.
Proof. by rewrite <-!app_assoc. Qed.

(** What is in front of the checksum stays. *)
Lemma mem_load16 x y i :
  i + 1 < pkt + l4_header + check_at proto → load16 (mem_with x y) i = load16 (mem_with a b) i.
Proof. intros Hi. rewrite !mem_prefix. apply load16_prefix. rewrite length_app. lia. Qed.

Lemma mem_load32 x y i :
  i + 3 < pkt + l4_header → load32 (mem_with x y) i = load32 (mem_with a b) i.
Proof. intros Hi. apply load32_prefix. lia. Qed.

Lemma mem_aread x y i : i < pkt + l4_header → aread (mem_with x y) i = aread (mem_with a b) i.
Proof. intros Hi. apply aread_prefix. lia. Qed.

Lemma seg_n x y : length (A ++ x :: y :: B) = n.
Proof. by rewrite !length_app. Qed.

Lemma mem_segment x y :
  take n (drop (Z.to_nat (pkt + l4_header)) (mem_with x y)) = A ++ x :: y :: B.
Proof.
  rewrite <-Hpre, Nat2Z.id, drop_app_length. by rewrite <-(seg_n x y), take_app_length.
Qed.

(** What the code does with an IP packet: the checksum is computed with its field
    cleared. *)
Lemma handle_packet_steps m s d :
  (∃ x, load16 (mem_with a b) (pkt + eth_proto) = Ret x ∧ bswap16 x = PROTO_IP) →
  aread (mem_with a b) (pkt + ip_protocol) = Ret proto → proto = IPPROTO_TCP ∨ proto = IPPROTO_UDP →
  segment_len (mem_with a b) pkt proto = Ret (Z.of_nat m) →
  load32 (mem_with a b) (pkt + ip_saddr) = Ret s → load32 (mem_with a b) (pkt + ip_daddr) = Ret d →
  handle_packet (mem_with a b) pkt =
    (c ← (if proto =? IPPROTO_TCP then tcp_checksum else udp_checksum) (mem_with 0 0)
           (pkt + l4_header) m s d;
     Ret (1, mem_with (c mod 256) (c / 256))).
Proof.
  intros (x & Ex & Eip) Epr Hkind Hlen Es Ed. unfold handle_packet.
  rewrite Ex, Epr. cbn [mbind outcome_bind]. rewrite Eip. change (PROTO_IP =? PROTO_IP) with true.
  cbn [negb]. unfold segment_len in Hlen. pose proof mem_store as Hst. unfold check_at in Hst.
  assert (∀ i, i + 1 < pkt + l4_header + 6 → load16 (mem_with 0 0) i = load16 (mem_with a b) i) as Hld.
  { intros i Hi. apply mem_load16. unfold check_at, tcp_check, udp_check. destruct (_ =? _); lia. }
  destruct (proto =? IPPROTO_TCP) eqn:Et.
  - rewrite Hst. cbn [mbind outcome_bind]. change (0 mod 256) with 0. change (0 / 256) with 0.
    rewrite Hld, mem_aread by (unfold ip_tot_len, ip_vihl, l4_header; lia).
    destruct (load16 _ (pkt + ip_tot_len)) as [t|]; [|done]. cbn [mbind outcome_bind] in Hlen |- *.
    destruct (aread _ (pkt + ip_vihl)) as [v|]; [|done]. cbn [mbind outcome_bind] in Hlen |- *.
    injection Hlen as ->. rewrite !(mem_load32 0 0), Es, Ed by (unfold ip_saddr, ip_daddr, l4_header; lia).
    cbn [mbind outcome_bind]. rewrite Nat2Z.id. destruct (tcp_checksum _ _ _ _ _); [|done].
    cbn [mbind outcome_bind]. by rewrite Hst.
  - destruct Hkind as [->| ->]; [done|]. change (IPPROTO_UDP =? IPPROTO_UDP) with true. cbv iota.
    rewrite Hst. cbn [mbind outcome_bind]. change (0 mod 256) with 0. change (0 / 256) with 0.
    rewrite Hld by (unfold udp_len; lia).
    destruct (load16 _ (pkt + l4_header + udp_len)) as [t|]; [|done].
    cbn [mbind outcome_bind] in Hlen |- *. injection Hlen as ->.
    rewrite !(mem_load32 0 0), Es, Ed by (unfold ip_saddr, ip_daddr, l4_header; lia).
    cbn [mbind outcome_bind]. rewrite Nat2Z.id. destruct (udp_checksum _ _ _ _ _); [|done].
    cbn [mbind outcome_bind]. by rewrite Hst.
Qed.

Hypothesis Hrw : rewritable (mem_with a b) pkt proto n.

Lemma n_small : Z.of_nat n ≤ 65535.
Proof.
  destruct Hrw as [_ _ _ _ _ Hl _ _ _ _]. unfold segment_len in Hl. destruct (proto =? IPPROTO_TCP).
  - destruct (load16 _ _) as [t|]; [|done]. cbn [mbind outcome_bind] in Hl.
    destruct (aread _ _) as [v|]; [|done]. cbn [mbind outcome_bind] in Hl. injection Hl as <-.
    match goal with |- ?x ≤ _ => pose proof (wrap_fits 16 (bswap16 t - Z.shiftl (Z.land v 15) 2)) as H end.
    unfold fits in H. lia.
  - destruct (load16 _ _) as [t|]; [|done]. cbn [mbind outcome_bind] in Hl. injection Hl as <-.
    pose proof (bswap16_fits t) as H. unfold fits in H. lia.
Qed.

Lemma parts_bytes : bytes A ∧ bytes B.
Proof.
  destruct Hrw as [Hb _ _ _ _ _ _ _ _ _]. unfold bytes in *. rewrite !Forall_app, !Forall_cons in Hb.
  tauto.
Qed.

(** The addresses the code reads are those a receiver reads. *)
Lemma mem_addrs :
  ∃ s d, fits 32 s ∧ fits 32 d ∧ ∀ x y,
    load32 (mem_with x y) (pkt + ip_saddr) = Ret s ∧ load32 (mem_with x y) (pkt + ip_daddr) = Ret d.
Proof.
  destruct Hrw as [Hb Hp _ _ _ _ _ He _ _]. unfold l4_header in *.
  destruct (load32_ok (mem_with a b) (pkt + ip_saddr)) as (s & Es & Hs);
    [done|unfold ip_saddr; lia..|].
  destruct (load32_ok (mem_with a b) (pkt + ip_daddr)) as (d & Ed & Hd);
    [done|unfold ip_daddr; lia..|].
  exists s, d. split_and!; [done..|]. intros x y.
  rewrite !(mem_load32 x y) by (unfold ip_saddr, ip_daddr, l4_header; lia). done.
Qed.

(** The checksum the code computes with the field cleared. *)
Lemma mem_checksum s d :
  fits 32 s → fits 32 d → post ≠ [] →
  (if proto =? IPPROTO_TCP then tcp_checksum else udp_checksum) (mem_with 0 0) (pkt + l4_header) n s d =
    Ret (inet_checksum (pseudo s d proto n ++ words (A ++ 0 :: 0 :: B))).
Proof.
  intros Hs Hd Hpost. rewrite <-Hpre, <-(seg_n 0 0). pose proof n_small as Hn.
  rewrite <-(seg_n 0 0) in Hn. destruct parts_bytes as [HbA HbB].
  assert (bytes (A ++ 0 :: 0 :: B)) as Hb.
  { apply Forall_app. split; [done|]. by repeat (constructor; [done|]). }
  destruct (rw_kind _ _ _ _ Hrw) as [->| ->].
  - change (IPPROTO_TCP =? IPPROTO_TCP) with true. cbv iota. by apply tcp_checksum_run.
  - change (IPPROTO_UDP =? IPPROTO_TCP) with false. cbv iota. by apply udp_checksum_run.
Qed.

(** A receiver looks at the segment the code has summed up. *)
Lemma mem_accepts x y s d :
  load32 (mem_with x y) (pkt + ip_saddr) = Ret s → load32 (mem_with x y) (pkt + ip_daddr) = Ret d →
  accepts (mem_with x y) pkt =
    Ret (ones_sum (pseudo s d proto n ++ words (A ++ x :: y :: B)) =? 65535).
Proof.
  destruct Hrw as [_ _ _ Epr Hkind Hlen _ _ (v & Ev & Hv) (t & Et & Ht)]. intros Es Ed.
  assert (∀ i, i + 1 < pkt + l4_header + 6 → load16 (mem_with x y) i = load16 (mem_with a b) i) as Hld.
  { intros i Hi. apply mem_load16. unfold check_at, tcp_check, udp_check. destruct (_ =? _); lia. }
  unfold accepts. rewrite (mem_aread x y (pkt + ip_vihl)), (mem_aread x y (pkt + ip_protocol)),
    (Hld (pkt + ip_tot_len)), Ev, Et, Epr, Es, Ed
    by (unfold ip_tot_len, ip_vihl, ip_protocol, l4_header; lia).
  cbn [mbind outcome_bind]. rewrite Hv. change (4 * 5) with 20. cbv zeta.
  replace (pkt + ip_vihl + 20) with (pkt + l4_header) by (unfold ip_vihl, l4_header; lia).
  assert ((if proto =? IPPROTO_TCP then Ret (bswap16 t - 20)
    else z ← load16 (mem_with x y) (pkt + l4_header + udp_len); Ret (bswap16 z)) = Ret (Z.of_nat n)) as ->.
  { rewrite Hld by (unfold udp_len; lia). unfold segment_len in Hlen.
    destruct (proto =? IPPROTO_TCP); [|done]. rewrite Et, Ev in Hlen. cbn [mbind outcome_bind] in Hlen.
    rewrite Hv in Hlen. change (Z.shiftl 5 2) with 20 in Hlen. pose proof (bswap16_fits t) as Hf.
    unfold fits in Hf. rewrite wrap_small in Hlen by (unfold fits; lia). done. }
  cbn [mbind outcome_bind]. rewrite Nat2Z.id, mem_segment.
  rewrite (proj2 (Z.leb_le 0 _)), (proj2 (Z.leb_le (20 + _) _)) by lia. done.
Qed.

Lemma packet_rewritten :
  post ≠ [] →
  ∃ c, fits 16 c ∧ handle_packet (mem_with a b) pkt = Ret (1, mem_with (c mod 256) (c / 256)) ∧
    accepts (mem_with (c mod 256) (c / 256)) pkt = Ret true.
Proof.
  intros Hpost. destruct mem_addrs as (s & d & Hs & Hd & Ea). destruct parts_bytes as [HbA HbB].
  assert (∃ k, length A = (2 * k)%nat ∧ 0 < bswap16 proto) as (k & Hk & Hp).
  { destruct (rw_kind _ _ _ _ Hrw) as [E|E]; unfold check_at in HA; rewrite E in HA |- *; cbn in HA;
      [exists 8%nat|exists 3%nat]; (split; [unfold tcp_check, udp_check in HA; lia|by vm_compute]). }
  destruct (checksum_completes s d proto n k A B Hs Hd Hp Hk HbA HbB) as [Hc Hsum].
  pose proof (mem_checksum s d Hs Hd Hpost) as Ec.
  set (c := inet_checksum _) in *. exists c. split; [done|]. split.
  2: { rewrite (mem_accepts _ _ s d) by apply Ea. by rewrite Hsum. }
  destruct Hrw as [_ _ Hip Epr Hkind Hlen _ _ _ _]. destruct (Ea a b) as [Es Ed].
  by rewrite (handle_packet_steps n s d), Ec.
Qed.
End packet.

(** A segment that reaches past the memory: the loop runs into the end, or stops in
    front of the odd byte. *)
Lemma sum_loop_overrun add mem m : ∀ nleft w sum,
  (nleft ≤ m)%nat → 0 ≤ w → Z.of_nat (length mem) < w + Z.of_nat nleft →
  sum_loop add mem w nleft sum = Fault OutOfBounds ∨
  (∃ sum' w', sum_loop add mem w nleft sum = Ret (sum', w') ∧ Nat.odd nleft = true ∧
     Z.of_nat (length mem) ≤ w') ∨ nleft = O.
Proof.
  induction m as [|m IH]; intros nleft w sum Hm Hw Hl; [right; right; lia|].
  destruct nleft as [|[|nleft]].
  - by right; right.
  - right; left. exists sum, w. split_and!; [done|done|lia].
  - cbn [sum_loop]. unfold load16. destruct (aread mem w) as [x|f] eqn:Ex.
    2: { left. unfold aread in Ex. rewrite (proj2 (Z.ltb_ge w 0)) in Ex by lia.
      destruct (mem !! Z.to_nat w); [done|]. by injection Ex as <-. }
    destruct (aread mem (w + 1)) as [y|f] eqn:Ey.
    2: { left. unfold aread in Ey. rewrite (proj2 (Z.ltb_ge (w + 1) 0)) in Ey by lia.
      destruct (mem !! Z.to_nat (w + 1)); [done|]. by injection Ey as <-. }
    cbn [mbind outcome_bind].
    destruct (IH nleft (w + 2) (add sum (x + 256 * y))) as [?|[(s & w' & E & Ho & Hw')| ->]];
      [lia|lia|lia|by left| |].
    + right; left. by exists s, w'.
    + left. exfalso. unfold aread in Ey. rewrite (proj2 (Z.ltb_ge (w + 1) 0)) in Ey by lia.
      destruct (mem !! Z.to_nat (w + 1)) eqn:E; [|done]. apply lookup_lt_Some in E. lia.
Qed.

Lemma checksum_overrun mem p n s d :
  0 ≤ p → (n ≠ 0)%nat → Z.of_nat (length mem) < p + Z.of_nat n →
  tcp_checksum mem p n s d = Fault OutOfBounds ∧ udp_checksum mem p n s d = Fault OutOfBounds.
Proof.
  intros Hp Hn Hl. unfold tcp_checksum, udp_checksum, load16. cbv zeta. split.
  - match goal with |- context [sum_loop ?add mem p n ?sum] =>
      destruct (sum_loop_overrun add mem n n p sum) as [->|[(s' & w & -> & -> & Hw)|?]] end;
      try done. cbn [mbind outcome_bind]. by rewrite (aread_past mem w) by lia.
  - destruct (sum_loop_overrun udp_add mem n n p 0) as [->|[(s' & w & -> & -> & Hw)|?]]; try done.
    cbn [mbind outcome_bind]. by rewrite (aread_past mem w) by lia.
Qed.

(** ** The theorems *)

(** C18. The three routines compute the checksum of RFC 1071, the complement of the one's
    complement sum of the words, in any memory and for every length of 16 bits: no
    sum overflows and the loops that add the carries end. [tcp_checksum] also needs
    the byte behind a segment of odd length to be in memory. *)
Theorem checksum_routines_spec pre seg post src dst :
  bytes seg → Z.of_nat (length seg) ≤ 65535 → fits 32 src → fits 32 dst →
  (Nat.odd (length seg) = true → post ≠ []) →
  let mem := pre ++ seg ++ post in
  let p := Z.of_nat (length pre) in
  let n := length seg in
  ip_csum mem p n = Ret (inet_checksum (words seg)) ∧
  udp_checksum mem p n src dst = Ret (inet_checksum (pseudo src dst IPPROTO_UDP n ++ words seg)) ∧
  tcp_checksum mem p n src dst = Ret (inet_checksum (pseudo src dst IPPROTO_TCP n ++ words seg)).
Proof.
  intros Hb Hl Hs Hd Ho mem p n. split_and!.
  - by apply ip_csum_run.
  - by apply udp_checksum_run.
  - by apply tcp_checksum_run.
Qed.

(** C19. A TCP or UDP packet without IP options, whose segment is in memory with the
    byte behind it, is rewritten so that a receiver, who finds the segment by the length
    of the IP header, accepts its checksum; nothing but the two bytes of the checksum
    changes. *)
Theorem handle_packet_accepted mem pkt proto n :
  rewritable mem pkt proto n →
  ∃ mem', handle_packet mem pkt = Ret (1, mem') ∧ accepts mem' pkt = Ret true ∧
    ∀ i : nat, Z.of_nat i ≠ pkt + l4_header + check_at proto →
      Z.of_nat i ≠ pkt + l4_header + check_at proto + 1 → mem' !! i = mem !! i.
Proof.
  intros Hrw. pose proof (rw_check _ _ _ _ Hrw) as Hc. pose proof (rw_end _ _ _ _ Hrw) as He.
  pose proof (rw_pkt _ _ _ _ Hrw) as Hp.
  assert (0 ≤ check_at proto) as Hc0 by (unfold check_at; destruct (_ =? _); by vm_compute).
  destruct (packet_split mem (Z.to_nat (pkt + l4_header)) (Z.to_nat (check_at proto)) n)
    as (pre & A & a & b & B & post & Emem & Hpre & HA & <- & Hl);
    [unfold l4_header in *; lia..|].
  assert (post ≠ []) as Hpost by (intros ->; cbn in Hl; unfold l4_header in *; lia).
  subst mem.
  assert (0 ≤ l4_header) by by vm_compute.
  assert (Z.of_nat (length pre) = pkt + l4_header) as Hpre' by lia.
  assert (Z.of_nat (length A) = check_at proto) as HA' by lia.
  destruct (packet_rewritten pre A B post a b pkt proto Hpre' HA' Hrw Hpost) as (c & _ & E & Ha).
  eexists. split; [exact E|]. split; [exact Ha|]. intros i H1 H2.
  rewrite !mem_prefix. destruct (decide (i < length (pre ++ A))%nat); [by rewrite !(lookup_app_l (pre ++ A))|].
  rewrite !(lookup_app_r (pre ++ A)) by lia. rewrite length_app in *.
  destruct (i - (length pre + length A))%nat as [|[|j]] eqn:Ej; [lia|lia|done].
Qed.

(** C40. The length in the packet is believed: when the segment it announces ends behind
    the memory, the packet is read beyond the memory, whatever the length of the
    frame was. *)
Theorem handle_packet_believes_length mem pkt proto n :
  bytes mem → 0 ≤ pkt → (∃ x, load16 mem (pkt + eth_proto) = Ret x ∧ bswap16 x = PROTO_IP) →
  aread mem (pkt + ip_protocol) = Ret proto → proto = IPPROTO_TCP ∨ proto = IPPROTO_UDP →
  segment_len mem pkt proto = Ret (Z.of_nat n) →
  pkt + l4_header + check_at proto + 2 ≤ Z.of_nat (length mem) < pkt + l4_header + Z.of_nat n →
  handle_packet mem pkt = Fault OutOfBounds.
Proof.
  intros Hb Hp Hip Epr Hkind Hlen [Hl He].
  assert (0 ≤ check_at proto) as Hc0 by (unfold check_at; destruct (_ =? _); by vm_compute).
  assert (l4_header = 34) as Hh by done.
  destruct (packet_split mem (Z.to_nat (pkt + l4_header)) (Z.to_nat (check_at proto))
    (Z.to_nat (check_at proto) + 2)) as (pre & A & a & b & B & post & Emem & Hpre & HA & _ & _); [lia..|].
  subst mem. assert (Z.of_nat (length pre) = pkt + l4_header) as Hpre' by lia.
  assert (Z.of_nat (length A) = check_at proto) as HA' by lia.
  destruct (load32_ok (pre ++ (A ++ a :: b :: B) ++ post) (pkt + ip_saddr)) as (sa & Es & _);
    [done|unfold ip_saddr; lia..|].
  destruct (load32_ok (pre ++ (A ++ a :: b :: B) ++ post) (pkt + ip_daddr)) as (da & Ed & _);
    [done|unfold ip_daddr; lia..|].
  destruct (checksum_overrun (pre ++ (A ++ 0 :: 0 :: B) ++ post) (pkt + l4_header) n sa da)
    as [Et Eu]; [lia|lia| |].
  { rewrite !length_app in *. cbn [length] in *. lia. }
  rewrite (handle_packet_steps pre A B post a b pkt proto Hpre' HA' n sa da) by done.
  destruct (proto =? IPPROTO_TCP); [by rewrite Et|by rewrite Eu].
Qed.

(** ** Packets *)

(** A TCP segment of 21 bytes and a UDP datagram of 9, and a byte behind it. *)
Definition tcp_frame : list Z :=
  [2; 0; 0; 0; 0; 1; 2; 0; 0; 0; 0; 2; 8; 0] ++
  [69; 0; 0; 41; 0; 1; 0; 0; 64; 6; 0; 0; 10; 0; 0; 1; 10; 0; 0; 2] ++
  [31; 144; 0; 80; 0; 0; 0; 1; 0; 0; 0; 0; 80; 2; 4; 0; 222; 173; 0; 0; 65; 0].
Definition udp_frame : list Z :=
  [2; 0; 0; 0; 0; 1; 2; 0; 0; 0; 0; 2; 8; 0] ++
  [69; 0; 0; 29; 0; 1; 0; 0; 64; 17; 0; 0; 10; 0; 0; 1; 10; 0; 0; 2] ++
  [31; 144; 0; 80; 0; 9; 222; 173; 65; 0].

Lemma checksum_routines_spec_witness :
  ip_csum ([1] ++ [69; 0; 7] ++ [9]) 1 3 = Ret 65459 ∧
  udp_checksum ([1] ++ [69; 0; 7] ++ [9]) 1 3 0 0 = Ret 60339 ∧
  tcp_checksum ([1] ++ [69; 0; 7] ++ [9]) 1 3 0 0 = Ret 63155.
Proof.
  assert (bytes [69; 0; 7]) as Hb by (by repeat constructor).
  assert (fits 32 0) as H0 by (by vm_compute).
  pose proof (checksum_routines_spec [1] [69; 0; 7] [9] 0 0 Hb ltac:(by vm_compute) H0 H0
    ltac:(done)) as H.
  vm_compute in H. vm_compute. exact H.
Defined.

Lemma tcp_frame_rewritable : rewritable ([0; 0] ++ tcp_frame) 2 IPPROTO_TCP 21.
Proof.
  split; try by vm_compute.
  - unfold bytes, tcp_frame. cbn [app]. by repeat constructor.
  - exists 8. by vm_compute.
  - by left.
  - exists 69. by vm_compute.
  - exists 10496. by vm_compute.
Qed.

Lemma handle_packet_accepted_witness :
  ∃ mem', handle_packet ([0; 0] ++ tcp_frame) 2 = Ret (1, mem') ∧
    accepts mem' 2 = Ret true ∧
    ∀ i : nat, Z.of_nat i ≠ 52 → Z.of_nat i ≠ 53 → mem' !! i = ([0; 0] ++ tcp_frame) !! i.
Proof. exact (handle_packet_accepted _ 2 IPPROTO_TCP 21 tcp_frame_rewritable). Defined.

(** The checksum field of a frame after [handle_packet]. *)
Definition new_check (mem : list Z) (i : Z) : outcome Z :=
  '(_, mem) ← handle_packet mem 0; load16 mem i.

(** A datagram whose checksum comes out as zero is sent with zero, which tells a
    receiver that there is no checksum; RFC 768 has it sent as all ones. *)
Example udp_zero_checksum :
  new_check udp_frame 40 = Ret 63882 ∧
  new_check (take 34 udp_frame ++ [235; 137; 0; 80; 0; 9; 222; 173; 0; 0]) 40 = Ret 0.
Proof. by vm_compute. Qed.

(** The frame with a total length of 1065. *)
Lemma handle_packet_believes_length_witness :
  handle_packet (<[16%nat := 4]> tcp_frame) 0 = Fault OutOfBounds.
Proof.
  apply (handle_packet_believes_length _ 0 IPPROTO_TCP 1045); try by vm_compute.
  - unfold bytes, tcp_frame. cbn. by repeat constructor.
  - exists 8. by vm_compute.
  - by left.
Defined.
