(* ===== verification/XskMain.v ===== *)
(** * The main program of the AF_XDP forwarder ([dev-net-ebpf-xdp/xsk])

    [setup] makes the list of ports, left and right interface in turn; [main] gives
    each group of two ports a buffer pool and distributes the ports over the threads;
    a thread polls its ports and forwards what they received ([XskPort]). The
    theorems: with two ports per thread each thread has the two interfaces of a queue,
    they share a pool and send to each other; and a round of the poll loop moves one
    packet of each port that is ready, if a buffer to replace it is left, and ends early
    only when a packet cannot be handled. *)

From stdpp Require Import base tactics numbers list.
From S2P Require Import Prelude Xsk XskPort.

Definition MAX_THREADS : nat := 32.
Definition MAX_PORTS : nat := 64.
Definition MAX_BPOOL : nat := 16.
Definition MAX_PORTS_PER_THREAD : nat := 16.

(** ** Setup *)

(** A port: whether it is on the left interface, and its queue. *)
Notation iface_port := (bool * nat)%type.

(** [g] more threads after [n_threads]. *)
Fixpoint add_threads (g n_threads : nat) : option nat :=
  match g with
  | O => Some n_threads
  | S g => if bool_decide (n_threads = MAX_THREADS) then None else add_threads g (S n_threads)
  end.

Fixpoint add_ports (g lr_count queue : nat) (ports : list iface_port) : option (list iface_port) :=
  match g with
  | O => Some ports
  | S g =>
    if bool_decide (length ports = MAX_PORTS) then None
    else if Nat.even lr_count
         then add_ports g (S lr_count) queue (ports ++ [(true, queue)])
         else add_ports g (S lr_count) (S queue) (ports ++ [(false, queue)])
  end.

(** The number of threads and the ports. *)
Definition setup (g_threads g_ports : nat) : option (nat * list iface_port) :=
  n_threads ← add_threads g_threads 0;
  ports ← add_ports g_ports 0 0 [];
  if bool_decide (length ports = 0%nat) then None
  else if bool_decide (n_threads = 0%nat) then None
  else if bool_decide ((length ports mod n_threads)%nat ≠ 0%nat) then None
  else Some (n_threads, ports).

(** ** Pools and threads *)

(** The numbers of the pools of [n] ports from port [i] on. *)
Fixpoint port_pools (n i bpptr : nat) : outcome (list nat) :=
  match n with
  | O => Ret []
  | S n =>
    let bpptr := if negb (i =? 0) && (i mod 2 =? 0) then S bpptr else bpptr in
    if MAX_BPOOL <=? bpptr then Fault OutOfBounds
    else ps ← port_pools n (S i) bpptr; Ret (bpptr :: ps)
  end%nat.

(** The ports thread [i] receives from and sends to: slots [j] on. *)
Fixpoint thread_ports (per i n j : nat) : outcome (list (nat * nat)) :=
  match n with
  | O => Ret []
  | S n =>
    if MAX_PORTS_PER_THREAD <=? j then Fault OutOfBounds
    else l ← thread_ports per i n (S j); Ret ((i * per + j, i * per + (j + 1) mod per) :: l)
  end%nat.

(** The ports of threads [i] on. *)
Fixpoint all_threads (per n i : nat) : outcome (list (list (nat * nat))) :=
  match n with
  | O => Ret []
  | S n =>
    t ← thread_ports per i per 0;
    ts ← all_threads per n (S i);
    Ret (t :: ts)
  end.

(** What [main] makes of [setup]: ports, pools and threads. *)
Definition layout (g_threads g_ports : nat)
    : outcome (option (list iface_port * list nat * list (list (nat * nat)))) :=
  match setup g_threads g_ports with
  | None => Ret None
  | Some (n_threads, ports) =>
    pools ← port_pools (length ports) 0 0;
    threads ← all_threads (length ports / n_threads) n_threads 0;
    Ret (Some (ports, pools, threads))
  end.

(** ** The poll loop *)

Local Open Scope Z_scope.

Definition POLLIN : Z := 1.
Definition POLLERR : Z := 8.
Definition POLLHUP : Z := 16.

Definition has (revents flag : Z) : bool := negb (Z.land revents flag =? 0).

Section poll.
Context {U : Type} (handle_packet : Z * Z -> U -> outcome U) (cfg : umem_config).
(** The descriptors of the two sockets, and what [poll] reported for them. *)
Context (fd revents : bool -> Z) (kicks : Z * Z -> kick).

Definition poll_slot (i : bool) (s : pair U) : outcome (pair U) :=
  if has (revents i) POLLERR || has (revents i) POLLHUP then Ret s
  else foldl (fun o j => s ← o;
                if (fd i =? fd j) && has (revents i) POLLIN
                then forward_step handle_packet cfg j kicks s else Ret s)
         (Ret s) [false; true].

Definition poll_round (s : pair U) : outcome (pair U) :=
  foldl (fun o i => s ← o; poll_slot i s) (Ret s) [false; true].

(** A port is ready when [poll] reported packets and no error. *)
Definition ready (i : bool) : bool :=
  has (revents i) POLLIN && negb (has (revents i) POLLERR || has (revents i) POLLHUP).

Lemma poll_slot_serve i s :
  fd false ≠ fd true →
  poll_slot i s = if ready i then forward_step handle_packet cfg i kicks s else Ret s.
Proof.
  intros Hfd. unfold poll_slot, ready. destruct (_ || _); [by rewrite andb_false_r|].
  rewrite andb_true_r. cbn [foldl mbind outcome_bind].
  destruct i; rewrite Z.eqb_refl, (proj2 (Z.eqb_neq _ _)) by congruence; cbn [andb].
  - done.
  - destruct (has _ _); [|done]. by destruct (forward_step _ _ _ _ _).
Qed.
End poll.

(** ** The theorems *)

Section round.
Context (pp : bpool_params) (ok : pool_call -> bool) (bp : bpool) (held : list pool_res).
Context (cfg : umem_config) (ok0 ok1 : port_call -> bool).
Context {U : Type} (handle_packet : Z * Z -> U -> outcome U) (u : U) (s0 : pair U).
Context (fd revents : bool -> Z) (kicks : Z * Z -> kick).
Notation forwarding_at := (forwarding pp ok bp held cfg ok0 ok1 handle_packet u s0).

Lemma forwarding_move s s' :
  forwarding_at s → preach handle_packet cfg (p_buffer_size pp) s0 s' → forwarding_at s'.
Proof. intros [] Hr. by constructor. Qed.

Lemma slot_run i s :
  fd false ≠ fd true → forwarding_at s → kicking kicks →
  (∃ s', poll_slot handle_packet cfg fd revents kicks i s = Ret s' ∧ forwarding_at s' ∧
     moved i (if ready revents i then received (ppool s) (ports s i) else 0%nat) s s') ∨
  ∃ f, poll_slot handle_packet cfg fd revents kicks i s = Fault f ∧
    ∃ pkt u, handle_packet pkt u = Fault f.
Proof.
  intros Hfd Hf Hk. rewrite poll_slot_serve by done.
  destruct (ready revents i); [|left; exists s; split_and!; [done..|apply moved_none]].
  destruct (forwarding_step pp ok bp held cfg ok0 ok1 handle_packet u s0 s i kicks Hf Hk)
    as [(s' & E & Hr & Hm)|Hx]; [|by right].
  left. exists s'. split_and!; [done| |done]. by eapply forwarding_move.
Qed.

(** C17. A round of the poll loop returns, unless [handle_packet] fails on a packet, and
    moves what it has to: first for the first port, then for the second, the oldest
    received packet goes to the transmit ring of the other port, if [poll] reported
    packets and no error for the port, a packet is there and the cache or the pool has a
    buffer to replace it; nothing else moves. *)
Theorem xsk_round_serves s :
  fd false ≠ fd true → forwarding_at s → kicking kicks →
  let n i s := if ready revents i then received (ppool s) (ports s i) else 0%nat in
  (∃ s1 s2, poll_round handle_packet cfg fd revents kicks s = Ret s2 ∧ forwarding_at s2 ∧
     moved false (n false s) s s1 ∧ moved true (n true s1) s1 s2) ∨
  ∃ f, poll_round handle_packet cfg fd revents kicks s = Fault f ∧
    ∃ pkt u, handle_packet pkt u = Fault f.
Proof.
  intros Hfd Hf Hk n. unfold poll_round. cbn [foldl]. rewrite outcome_ret_bind.
  destruct (slot_run false s Hfd Hf Hk) as [(s1 & -> & Hf1 & Hm1)|(f & -> & Hx)];
    [|right; by exists f].
  rewrite outcome_ret_bind.
  destruct (slot_run true s1 Hfd Hf1 Hk) as [(s2 & E2 & Hf2 & Hm2)|Hx]; [|by right].
  left. exists s1, s2. by split_and!.
Qed.
End round.

(** What the program means to set up for [t] threads. *)
Definition paired (t : nat) : list iface_port * list nat * list (list (nat * nat)) :=
  (seq 0 t ≫= (fun q => [(true, q); (false, q)]), seq 0 t ≫= (fun q => [q; q]),
   (fun i => [(2 * i, 2 * i + 1); (2 * i + 1, 2 * i)]%nat) <$> seq 0 t).

(** With two ports per thread and up to 16 threads, thread [i] has the two interfaces
    of queue [i], which share pool [i] and send to each other. *)
Theorem xsk_layout_paired t :
  (1 ≤ t ≤ 16)%nat → layout t (2 * t) = Ret (Some (paired t)).
Proof.
  intros Ht. assert (Forall (fun t => layout t (2 * t) = Ret (Some (paired t))) (seq 1 16)) as H.
  { apply (bool_decide_unpack (Forall _ _)). vm_compute. done. }
  rewrite Forall_forall in H. apply H, elem_of_seq. lia.
Qed.

(** [setup] accepts up to 32 threads, but from 17 threads on there are more groups
    than pools and [main] reads behind its array of pools. *)
Theorem xsk_layout_overruns t :
  (17 ≤ t ≤ 32)%nat → is_Some (setup t (2 * t)) ∧ layout t (2 * t) = Fault OutOfBounds.
Proof.
  intros Ht. assert (Forall (fun t => is_Some (setup t (2 * t)) ∧ layout t (2 * t) = Fault OutOfBounds)
    (seq 17 16)) as H.
  { apply (bool_decide_unpack (Forall _ _)). vm_compute. done. }
  rewrite Forall_forall in H. apply H, elem_of_seq. lia.
Qed.

Lemma xsk_layout_paired_witness :
  layout 4 8 = Ret (Some ([(true, 0); (false, 0); (true, 1); (false, 1); (true, 2); (false, 2);
                           (true, 3); (false, 3)], [0; 0; 1; 1; 2; 2; 3; 3],
    [[(0, 1); (1, 0)]; [(2, 3); (3, 2)]; [(4, 5); (5, 4)]; [(6, 7); (7, 6)]]))%nat.
Proof. apply (xsk_layout_paired 4). lia. Defined.

Lemma xsk_layout_overruns_witness : layout 32 64 = Fault OutOfBounds.
Proof. apply (xsk_layout_overruns 32). lia. Defined.

(** A packet has come in on the second port. *)
Definition small_rx3 : pair nat := kernel_rx false (28800, 62) [24576] 0%nat small_fw2.

Lemma small_forwarding3 :
  forwarding small_params (fun _ => true) small_pool [PoolUmem; PoolMap; PoolLock; PoolMem]
    small_cfg (fun _ => true) (fun _ => true) count_packet 0%nat small_start small_rx3.
Proof.
  eapply forwarding_move; [apply small_forwarding|].
  eapply preach_step; [apply small_forwarding|].
  eapply p_kernel_rx with (a := 28672); [vm_compute; reflexivity..|]. unfold fits. cbn. lia.
Qed.

Lemma xsk_round_serves_witness :
  (∃ s1 s2, poll_round count_packet small_cfg (fun d => if d then 8 else 7) (fun _ => 1) one_kick
       small_rx3 = Ret s2 ∧
     forwarding small_params (fun _ => true) small_pool [PoolUmem; PoolMap; PoolLock; PoolMem]
       small_cfg (fun _ => true) (fun _ => true) count_packet 0%nat small_start s2 ∧
     moved false 1 small_rx3 s1 ∧ moved true (received (ppool s1) (ports s1 true)) s1 s2) ∨
  ∃ f, poll_round count_packet small_cfg (fun d => if d then 8 else 7) (fun _ => 1) one_kick
       small_rx3 = Fault f ∧ ∃ pkt u, count_packet pkt u = Fault f.
Proof.
  apply (xsk_round_serves small_params (fun _ => true) small_pool
    [PoolUmem; PoolMap; PoolLock; PoolMem] small_cfg (fun _ => true) (fun _ => true) count_packet
    0%nat small_start (fun d => if d then 8 else 7) (fun _ => 1) one_kick small_rx3).
  - done.
  - apply small_forwarding3.
  - apply one_kick_kicks.
Defined.
