(* ===== verification/MiscDrv.v ===== *)
(** * The misc character devices around a secret

    Three drivers keep a string of at most 127 characters that user space reads and
    writes: [kdev-misc/miscdrv_rdwr.c] without locks, [ksync-mutex/mutexlock_misc.c]
    with a mutex and [ksync-spin/spinlock_misc.c] with a mutex and a spinlock.

    The operations of the first are functions of the driver's state. The other two are
    programs of any number of threads that interleave byte by byte; they differ in the
    lock each part of them holds. Open and close read and store the two counters in
    steps of their own, under [lock1]. How many zeros the kernel's [strscpy] stores
    behind the end of a string is a parameter ([pad]). The theorems: no interleaving makes a driver read or
    write outside of its memory; with the mutex every read returns the beginning of a
    secret that was there, of the length of a secret that was there before; with the
    spinlock a read can return a string that never was the secret. *)

From stdpp Require Import base tactics numbers list.
From S2P Require Import Prelude CStr.

Local Open Scope Z_scope.

Definition MAXBYTES : Z := 128.
Definition ENOMEM : Z := 12.
Definition EFAULT : Z := 14.
Definition EINVAL : Z := 22.

(** The characters of [initmsg] and the zeros of [devm_kzalloc]. *)
Definition init_secret : list Z := [105; 110; 105; 116; 109; 115; 103] ++ replicate 121 0.

(** ** Without locks *)

Record drv_ctx := mkCtx {
  tx : Z;
  rx : Z;
  oursecret : list Z;
}.

Definition miscdrv_rdwr_init : drv_ctx := mkCtx 0 0 init_secret.

(** [strnlen]: the characters in front of the first zero of the first [n]. *)
Fixpoint strnlen (b : list Z) (n : nat) : Z :=
  match n, b with
  | S n, c :: b => if c =? 0 then 0 else 1 + strnlen b n
  | _, _ => 0
  end.

(** [strlcpy] takes the length of the source first, wherever it ends. *)
Definition strlcpy (dst src : list Z) (size : Z) : outcome (list Z) :=
  ret ← strlen src;
  if size =? 0 then Ret dst
  else
    let len := if size <=? ret then size - 1 else ret in
    dst ← memcpy dst src len;
    awrite dst len 0.

(** The return value and what is in the user's buffer; [fault] is whether
    [copy_to_user] fails. *)
Definition read_miscdrv_rdwr (fault : bool) (count : Z) (c : drv_ctx)
    : outcome (Z * list Z * drv_ctx) :=
  let secret_len := strnlen (oursecret c) (Z.to_nat MAXBYTES) in
  if count <? MAXBYTES then Ret (- EINVAL, [], c)
  else if secret_len <=? 0 then Ret (- EINVAL, [], c)
  else if fault then Ret (- EFAULT, [], c)
  else Ret (secret_len, take (Z.to_nat secret_len) (oursecret c),
            mkCtx (s32 (tx c + secret_len)) (rx c) (oursecret c)).

(** A write of the bytes [ubuf]; [mem] and [fault] are whether memory is there and
    whether [copy_from_user] fails. A buffer that is too long is reported as
    written. *)
Definition write_miscdrv_rdwr (mem fault : bool) (ubuf : list Z) (c : drv_ctx)
    : outcome (Z * drv_ctx) :=
  let count := Z.of_nat (length ubuf) in
  if MAXBYTES <? count then Ret (count, c)
  else if negb mem then Ret (- ENOMEM, c)
  else if fault then Ret (- EFAULT, c)
  else
    s ← strlcpy (oursecret c) ubuf (if MAXBYTES <? count then MAXBYTES else count);
    Ret (count, mkCtx (tx c) (s32 (rx c + count)) s).

(** ** With locks *)

(** [Mutex] and [Spin] are those of the context; [Lock1] is the global [lock1] around
    the counters, a mutex in one driver and a spinlock in the other. *)
Inductive lock := Mutex | Spin | Lock1.

#[export] Instance lock_eq_dec : EqDecision lock.
Proof. solve_decision. Defined.

(** The locks a driver holds while it takes the length of the secret, while it copies
    the secret to the user, and while it stores a new one. *)
Record driver := mkDriver {
  len_lock : lock;
  copy_lock : lock;
  write_lock : lock;
}.

Definition mutexlock_misc : driver := mkDriver Mutex Mutex Mutex.
Definition spinlock_misc : driver := mkDriver Spin Mutex Spin.

(** Where a call is. [RReady] and [RCopy] also keep how many writes there had been
    when the length was taken; [RDone] is a read that succeeded. An open adds [n] = 1
    to [ga] and takes it from [gb], a close does so with -1; each counter is read
    ([x], [y] are what was read) and then stored. *)
Inductive call :=
  | RStart (count : Z)
  | RReady (len : Z) (since : nat)
  | RCopy (len : Z) (since : nat) (got : list Z)
  | RDone (since : nat) (got : list Z)
  | WReady (kbuf : list Z)
  | WCopy (kbuf : list Z) (res : nat)
  | OReady (n : Z)
  | OGa (n : Z)
  | OGaSet (n x : Z)
  | OGb (n : Z)
  | OGbSet (n y : Z)
  | Done (ret : Z).

(** [writes] are the buffers that were stored, in order; [opened] counts the opens
    that are through with [lock1], less the closes that are. *)
Record misc := mkMisc {
  secret : list Z;
  m_tx : Z;
  m_rx : Z;
  ga : Z;
  gb : Z;
  owner : lock -> option nat;
  calls : list call;
  writes : list (list Z);
  opened : Z;
}.

Definition init_misc : misc := mkMisc init_secret 0 0 0 1 (fun _ => None) [] [] 0.

Definition set_owner (o : lock -> option nat) (l : lock) (x : option nat) : lock -> option nat :=
  fun l' => if decide (l' = l) then x else o l'.

(** Call [t] goes on as [c]. *)
Definition goes (s : misc) (t : nat) (c : call) : misc :=
  mkMisc (secret s) (m_tx s) (m_rx s) (ga s) (gb s) (owner s) (<[t := c]> (calls s)) (writes s)
    (opened s).

Definition takes (s : misc) (l : lock) (x : option nat) : misc :=
  mkMisc (secret s) (m_tx s) (m_rx s) (ga s) (gb s) (set_owner (owner s) l x) (calls s) (writes s)
    (opened s).

Definition stores (s : misc) (b : list Z) : misc :=
  mkMisc b (m_tx s) (m_rx s) (ga s) (gb s) (owner s) (calls s) (writes s) (opened s).

(** The end of a read and of a write under the lock. *)
Definition read_end (s : misc) (len : Z) : misc :=
  mkMisc (secret s) (s32 (m_tx s + len)) (m_rx s) (ga s) (gb s) (owner s) (calls s) (writes s)
    (opened s).

Definition write_end (s : misc) (kbuf : list Z) : misc :=
  mkMisc (secret s) (m_tx s) (s32 (m_rx s + Z.of_nat (length kbuf))) (ga s) (gb s) (owner s)
    (calls s) (writes s ++ [kbuf]) (opened s).

Definition sets_ga (s : misc) (x : Z) : misc :=
  mkMisc (secret s) (m_tx s) (m_rx s) x (gb s) (owner s) (calls s) (writes s) (opened s).

(** The end of an open or close under [lock1]. *)
Definition count_end (s : misc) (y n : Z) : misc :=
  mkMisc (secret s) (m_tx s) (m_rx s) (ga s) y (owner s) (calls s) (writes s) (opened s + n).

(** Open and close. *)
Definition counts (t : nat) (s : misc) (c : call) : option misc :=
  match c with
  | OReady n =>
    if owner s Lock1 is Some _ then None else Some (goes (takes s Lock1 (Some t)) t (OGa n))
  | OGa n => Some (goes s t (OGaSet n (ga s)))
  | OGaSet n x => Some (goes (sets_ga s (s32 (x + n))) t (OGb n))
  | OGb n => Some (goes s t (OGbSet n (gb s)))
  | OGbSet n y => Some (goes (takes (count_end s (s32 (y - n)) n) Lock1 None) t (Done 0))
  | _ => None
  end.

(** [strscpy] is given the smaller of the count and the size of the secret. *)
Definition copy_size (kbuf : list Z) : nat := Nat.min (length kbuf) (Z.to_nat MAXBYTES).

(** [n] zeros from index [i] on. *)
Fixpoint zero_fill (b : list Z) (i : Z) (n : nat) : outcome (list Z) :=
  match n with
  | O => Ret b
  | S n => b ← awrite b i 0; zero_fill b (i + 1) n
  end.

(** [strscpy] may store zeros behind the one that ends the string, in the room it is
    given: it copies whole words where it can. [pad k] is how many it would like to
    store behind a zero at index [k]; everything below holds for every [pad]. *)
Definition padding (pad : nat -> nat) (size k : nat) : nat := Nat.min (size - S k) (pad k).

(** A call goes on by one access to the shared state. [None]: it has ended or waits
    for a lock. *)
Definition go (pad : nat -> nat) (d : driver) (t : nat) (s : misc) : option (outcome misc) :=
  match calls s !! t with
  | Some (RStart count) =>
    if owner s (len_lock d) is Some _ then None
    else Some (
      secret_len ← strlen (secret s);
      if count <? MAXBYTES then Ret (goes s t (Done (- EINVAL)))
      else if secret_len <=? 0 then Ret (goes s t (Done (- EINVAL)))
      else Ret (goes s t (RReady secret_len (length (writes s)))))
  | Some (RReady len n) =>
    if owner s (copy_lock d) is Some _ then None
    else Some (Ret (goes (takes s (copy_lock d) (Some t)) t (RCopy len n [])))
  | Some (RCopy len n got) =>
    if Z.of_nat (length got) <? len then Some (
      b ← aread (secret s) (Z.of_nat (length got));
      Ret (goes s t (RCopy len n (got ++ [b]))))
    else Some (Ret (goes (takes (read_end s len) (copy_lock d) None) t (RDone n got)))
  | Some (WReady kbuf) =>
    if owner s (write_lock d) is Some _ then None
    else Some (Ret (goes (takes s (write_lock d) (Some t)) t (WCopy kbuf 0)))
  | Some (WCopy kbuf res) =>
    let finish s := goes (takes (write_end s kbuf) (write_lock d) None) t
                      (Done (Z.of_nat (length kbuf))) in
    if (res <? copy_size kbuf)%nat then Some (
      c ← aread kbuf (Z.of_nat res);
      b ← awrite (secret s) (Z.of_nat res) c;
      if c =? 0 then
        b ← zero_fill b (Z.of_nat res + 1) (padding pad (copy_size kbuf) res);
        Ret (finish (stores s b))
      else Ret (goes (stores s b) t (WCopy kbuf (S res))))
    else if (res =? 0)%nat then Some (Ret (finish s))
    else Some (
      b ← awrite (secret s) (Z.of_nat res - 1) 0;
      Ret (finish (stores s b)))
  | Some c => Ret <$> counts t s c
  | None => None
  end.

(** What can happen: a new call, a call goes on, memory or the user's buffer is not
    there, the device is opened or closed. *)
Inductive event :=
  | ERead (count : Z)
  | EWrite (ubuf : list Z)
  | EGo (t : nat)
  | EFail (t : nat) (err : Z)
  | EOpen
  | EClose.

Definition adds (s : misc) (c : call) : misc :=
  mkMisc (secret s) (m_tx s) (m_rx s) (ga s) (gb s) (owner s) (calls s ++ [c]) (writes s) (opened s).

Definition fails_at (d : driver) (t : nat) (err : Z) (s : misc) : option (outcome misc) :=
  match calls s !! t with
  | Some (WReady _) =>
    if (err =? ENOMEM) || (err =? EFAULT) then Some (Ret (goes s t (Done (- err)))) else None
  | Some (RCopy _ _ _) =>
    if err =? EFAULT
    then Some (Ret (goes (takes s (copy_lock d) None) t (Done (- EFAULT)))) else None
  | _ => None
  end.

Definition happens (pad : nat -> nat) (d : driver) (e : event) (s : misc) : option (outcome misc) :=
  match e with
  | ERead count => Some (Ret (adds s (RStart count)))
  | EWrite ubuf => Some (Ret (adds s (WReady ubuf)))
  | EGo t => go pad d t s
  | EFail t err => fails_at d t err s
  | EOpen => Some (Ret (adds s (OReady 1)))
  | EClose => Some (Ret (adds s (OReady (-1))))
  end.

Inductive reaches (pad : nat -> nat) (d : driver) : misc -> Prop :=
  | reaches_init : reaches pad d init_misc
  | reaches_step s e s' : reaches pad d s → happens pad d e s = Some (Ret s') → reaches pad d s'.

(** ** What the secret should be *)

(** The place of the first zero. *)
Fixpoint nul_at (b : list Z) : option nat :=
  match b with
  | [] => None
  | c :: b => if c =? 0 then Some O else S <$> nul_at b
  end.

(** [strscpy] on the old contents: up to the first zero and the padding behind it, or
    as much as there is room for and a zero. *)
Definition strscpy (pad : nat -> nat) (old kbuf : list Z) : list Z :=
  let size := copy_size kbuf in
  match nul_at (take size kbuf) with
  | Some k =>
    let z := padding pad size k in take (S k) kbuf ++ replicate z 0 ++ drop (S k + z) old
  | None => if (size =? 0)%nat then old else take (size - 1) kbuf ++ 0 :: drop size old
  end.

Definition secret_after (pad : nat -> nat) (ws : list (list Z)) : list Z :=
  foldl (strscpy pad) init_secret ws.
#[global] Arguments strscpy : simpl never.
#[global] Arguments secret_after : simpl never.

(** ** Strings in a block of fixed size *)

Lemma nul_at_Some b k :
  nul_at b = Some k ↔ b !! k = Some 0 ∧ Forall (λ c, c ≠ 0) (take k b).
Proof.
  revert k. induction b as [|c b IH]; intros k; cbn [nul_at]; [by split; [|intros []]|].
  destruct (Z.eqb_spec c 0) as [->|Hc].
  - split; [by intros [= <-]|]. destruct k as [|k]; [done|]. cbn [take]. rewrite Forall_cons. naive_solver.
  - destruct k as [|k].
    + split; [by destruct (nul_at b)|]. intros [[=] _]. done.
    + cbn [take lookup list_lookup]. rewrite Forall_cons. specialize (IH k).
      destruct (nul_at b); cbn [fmap option_fmap option_map]; naive_solver.
Qed.

Lemma nul_at_None b : nul_at b = None ↔ Forall (λ c, c ≠ 0) b.
Proof.
  induction b as [|c b IH]; [done|]. cbn [nul_at]. rewrite Forall_cons, <-IH.
  destruct (Z.eqb_spec c 0); destruct (nul_at b); naive_solver.
Qed.

Lemma strlen_nul_at b k : nul_at b = Some k → strlen b = Ret (Z.of_nat k).
Proof.
  unfold strlen. revert k. induction b as [|c b IH]; intros k; [done|]. cbn [nul_at cstr].
  destruct (c =? 0); [by intros [= <-]|]. destruct (nul_at b) as [j|]; [|done].
  intros [= <-]. specialize (IH j eq_refl). destruct (cstr b); [|done].
  cbn [mbind outcome_bind] in *. injection IH as IH. cbn [length]. f_equal. lia.
Qed.

(** A secret: a string in its 128 bytes. *)
Definition secret_ok (b : list Z) : Prop := length b = Z.to_nat MAXBYTES ∧ ∃ k, b !! k = Some 0.

Lemma secret_ok_len b : secret_ok b → ∃ k, strlen b = Ret (Z.of_nat k) ∧ Z.of_nat k < MAXBYTES.
Proof.
  intros [Hl [j Hj]]. destruct (nul_at b) as [k|] eqn:E.
  - exists k. split; [by apply strlen_nul_at|]. apply nul_at_Some in E as [E _].
    apply lookup_lt_Some in E. unfold MAXBYTES in *. lia.
  - apply nul_at_None in E. by apply (Forall_lookup_1 _ _ _ _ E) in Hj.
Qed.

Lemma copy_size_le kbuf : (copy_size kbuf ≤ length kbuf ∧ copy_size kbuf ≤ Z.to_nat MAXBYTES)%nat.
Proof. unfold copy_size. lia. Qed.

Lemma padding_le pad size k : (padding pad size k ≤ size - S k)%nat.
Proof. unfold padding. lia. Qed.

Lemma zero_fill_run p q n :
  (n ≤ length q)%nat →
  zero_fill (p ++ q) (Z.of_nat (length p)) n = Ret (p ++ replicate n 0 ++ drop n q).
Proof.
  revert p q. induction n as [|n IH]; intros p q Hn; [done|].
  destruct q as [|x q]; cbn [length] in Hn; [lia|]. cbn [zero_fill].
  rewrite awrite_mid by done. cbn [mbind outcome_bind].
  replace (p ++ 0 :: q) with ((p ++ [0]) ++ q) by by rewrite <-app_assoc.
  replace (Z.of_nat (length p) + 1) with (Z.of_nat (length (p ++ [0])))
    by (rewrite length_app; cbn [length]; lia).
  rewrite IH by lia. by rewrite <-app_assoc.
Qed.

Lemma strscpy_ok pad old kbuf : secret_ok old → secret_ok (strscpy pad old kbuf).
Proof.
  intros [Hl Hz]. pose proof (copy_size_le kbuf) as [H1 H2]. unfold strscpy.
  destruct (nul_at (take (copy_size kbuf) kbuf)) as [k|] eqn:E.
  - apply nul_at_Some in E as [E _]. apply lookup_take_Some in E as [E Hk].
    pose proof (padding_le pad (copy_size kbuf) k) as Hp. cbn zeta.
    split; [rewrite !length_app, length_take, length_replicate, length_drop; lia|].
    exists k. rewrite lookup_app_l by (rewrite length_take; lia). by rewrite lookup_take_lt by lia.
  - destruct (Nat.eqb_spec (copy_size kbuf) 0) as [|Hn]; [by split|].
    split; [rewrite length_app, length_take; cbn [length]; rewrite length_drop; lia|].
    exists (copy_size kbuf - 1)%nat. apply list_lookup_middle. rewrite length_take. lia.
Qed.

Lemma secret_after_ok pad ws : secret_ok (secret_after pad ws).
Proof.
  unfold secret_after. assert (secret_ok init_secret) as H by (split; [done|by exists 7%nat]).
  revert H. generalize init_secret. induction ws as [|w ws IH]; intros b Hb; [done|].
  cbn [foldl]. by apply IH, strscpy_ok.
Qed.

Lemma secret_after_snoc pad ws w :
  secret_after pad (ws ++ [w]) = strscpy pad (secret_after pad ws) w.
Proof. unfold secret_after. by rewrite foldl_app. Qed.

(** ** The invariant *)

Section invariant.
Context (pad : nat -> nat) (d : driver).
Hypothesis Hlen : len_lock d = write_lock d.
Hypothesis Hcopy1 : copy_lock d ≠ Lock1.
Hypothesis Hwrite1 : write_lock d ≠ Lock1.

(** The counters while nobody changes them. *)
Definition balanced (s : misc) : Prop := ga s = s32 (opened s) ∧ gb s = s32 (1 - opened s).

(** What is known of a call that waits or goes on. *)
Definition call_ok (s : misc) (t : nat) (c : call) : Prop :=
  let len_of since n := (since ≤ length (writes s))%nat ∧ 0 < n ∧
                        strlen (secret_after pad (take since (writes s))) = Ret n in
  match c with
  | RReady len since => len_of since len
  | RCopy len since got =>
    len_of since len ∧ Z.of_nat (length got) ≤ len ∧ owner s (copy_lock d) = Some t ∧
    (copy_lock d = write_lock d → got = take (length got) (secret_after pad (writes s)))
  | RDone since got =>
    len_of since (Z.of_nat (length got)) ∧
    (copy_lock d = write_lock d → ∃ j, (since ≤ j ≤ length (writes s))%nat ∧
       got = take (length got) (secret_after pad (take j (writes s))))
  | WCopy kbuf res =>
    (res ≤ copy_size kbuf)%nat ∧ owner s (write_lock d) = Some t ∧
    Forall (λ c, c ≠ 0) (take res kbuf) ∧
    secret s = take res kbuf ++ drop res (secret_after pad (writes s))
  | OGa n => owner s Lock1 = Some t ∧ balanced s
  | OGaSet n x => owner s Lock1 = Some t ∧ balanced s ∧ x = ga s
  | OGb n =>
    owner s Lock1 = Some t ∧ ga s = s32 (opened s + n) ∧ gb s = s32 (1 - opened s)
  | OGbSet n y =>
    owner s Lock1 = Some t ∧ ga s = s32 (opened s + n) ∧ gb s = s32 (1 - opened s) ∧ y = gb s
  | _ => True
  end.

Definition is_write (c : call) : bool := match c with WCopy _ _ => true | _ => false end.
Definition writing (s : misc) : Prop := Exists (λ c, is_write c = true) (calls s).

(** The lock a call has. *)
Definition has_lock (c : call) (l : lock) : Prop :=
  match c with
  | RCopy _ _ _ => l = copy_lock d
  | WCopy _ _ => l = write_lock d
  | OGa _ | OGaSet _ _ | OGb _ | OGbSet _ _ => l = Lock1
  | _ => False
  end.

Record misc_inv (s : misc) : Prop := {
  mi_calls t c : calls s !! t = Some c → call_ok s t c;
  mi_owner l t : owner s l = Some t → ∃ c, calls s !! t = Some c ∧ has_lock c l;
  mi_secret : ¬ writing s → secret s = secret_after pad (writes s);
  mi_counts : owner s Lock1 = None → balanced s;
}.

(** The counters stay. *)
Definition same_counts (s s' : misc) : Prop :=
  ga s' = ga s ∧ gb s' = gb s ∧ opened s' = opened s.

Lemma same_balanced s s' : same_counts s s' → balanced s → balanced s'.
Proof. intros (E1 & E2 & E3) [H1 H2]. split; by rewrite ?E1, ?E2, ?E3. Qed.

(** A step of call [t] leaves the others alone: it keeps their locks, it changes
    secret and writes only under the lock of the writers, and the counters only under
    [lock1]. *)
Lemma call_ok_frame s s' t t' c :
  t' ≠ t → call_ok s t' c →
  (∀ l, owner s l = Some t' → owner s' l = Some t') →
  (writes s' = writes s ∧ secret s' = secret s ∨
   owner s (write_lock d) = Some t ∧ (writes s' = writes s ∨ ∃ w, writes s' = writes s ++ [w])) →
  same_counts s s' ∨ owner s Lock1 = Some t →
  call_ok s' t' c.
Proof.
  intros Hne Hc Ho Hw Hn1.
  assert (owner s Lock1 = Some t' → owner s' Lock1 = Some t' ∧ same_counts s s') as Hcnt.
  { intros Hm. split; [by apply Ho|]. destruct Hn1 as [?|Ht]; [done|]. congruence. }
  assert (∀ i : nat, (i ≤ length (writes s))%nat →
    (i ≤ length (writes s'))%nat ∧ take i (writes s') = take i (writes s)) as Htake.
  { intros i Hi. destruct Hw as [[-> _]|[_ [->|[w ->]]]]; [done|done|].
    rewrite length_app, take_app_le by lia. split; [lia|done]. }
  assert (owner s (write_lock d) = Some t' → writes s' = writes s ∧ secret s' = secret s) as Hmine.
  { intros Hm. destruct Hw as [?|[Ht _]]; [done|]. congruence. }
  destruct c as [n|n i|n i got|i got|kbuf|kbuf res|n|n|n x|n|n y|r]; cbn in Hc |- *; try done;
    try (destruct Hc as (Hcnt1%Hcnt & Hc); destruct Hcnt1 as [? (E1 & E2 & E3)];
         unfold balanced in *; rewrite E1, E2, E3; naive_solver).
  - destruct Hc as (Hi & Hn & E). destruct (Htake i Hi) as [? ->]. done.
  - destruct Hc as ((Hi & Hn & E) & Hg & Hown & Hgot). destruct (Htake i Hi) as [? ->].
    split_and!; [done..|by apply Ho|]. intros Hl. destruct Hmine as [-> _]; [congruence|]. by apply Hgot.
  - destruct Hc as ((Hi & Hn & E) & Hgot). destruct (Htake i Hi) as [? ->].
    split_and!; [done..|]. intros (j & Hj & Eg)%Hgot. exists j.
    destruct (Htake j) as [? ->]; [lia|]. split; [lia|done].
  - destruct Hc as (Hr & Hown & Hf & E). destruct (Hmine Hown) as [-> ->].
    split_and!; [done|by apply Ho|done|done].
Qed.

Lemma writing_at s : writing s → ∃ t kbuf res, calls s !! t = Some (WCopy kbuf res).
Proof.
  unfold writing. rewrite Exists_exists. intros (c & Hc & Hw).
  apply list_elem_of_lookup in Hc as [t Ht]. destruct c; try done. eauto.
Qed.

Lemma writing_lookup s t kbuf res : calls s !! t = Some (WCopy kbuf res) → writing s.
Proof.
  intros Ht. apply Exists_exists. exists (WCopy kbuf res). split; [|done].
  by eapply list_elem_of_lookup_2.
Qed.

(** Who writes has the lock. *)
Lemma not_writing s t c :
  misc_inv s → calls s !! t = Some c → is_write c = false →
  owner s (write_lock d) = None ∨ owner s (write_lock d) = Some t → ¬ writing s.
Proof.
  intros Hi Ht Hc Ho (t' & kbuf & res & Ht')%writing_at.
  destruct (mi_calls _ Hi _ _ Ht') as (_ & Ho' & _).
  destruct Ho as [Ho|Ho]; rewrite Ho' in Ho; [done|]. injection Ho as ->. rewrite Ht in Ht'.
  by injection Ht' as ->.
Qed.

Lemma secret_length s : misc_inv s → length (secret s) = Z.to_nat MAXBYTES.
Proof.
  intros Hi. destruct (decide (writing s)) as [(t & kbuf & res & Ht)%writing_at|Hn].
  - destruct (mi_calls _ Hi _ _ Ht) as (Hr & _ & _ & ->). pose proof (copy_size_le kbuf).
    destruct (secret_after_ok pad (writes s)) as [Hl _].
    rewrite length_app, length_take, length_drop, Hl. lia.
  - rewrite (mi_secret _ Hi Hn). apply secret_after_ok.
Qed.

(** The locks of the other calls stay, and [t] has those of [c']. *)
Definition moves (s s' : misc) (t : nat) (c' : call) : Prop :=
  (∀ t' l, t' ≠ t → owner s l = Some t' ↔ owner s' l = Some t') ∧
  (∀ l, owner s' l = Some t → has_lock c' l).

Lemma moves_same s s' t c c' :
  misc_inv s → calls s !! t = Some c → owner s' = owner s → (∀ l, has_lock c l → has_lock c' l) →
  moves s s' t c'.
Proof.
  intros Hi Ht Eo Hc. split; rewrite Eo; [done|].
  intros l (c1 & Hc1 & Hl)%(mi_owner _ Hi). rewrite Ht in Hc1. injection Hc1 as <-. by apply Hc.
Qed.

Lemma moves_acquire s s' t c c' l :
  misc_inv s → calls s !! t = Some c → (∀ l, ¬ has_lock c l) → owner s l = None →
  owner s' = set_owner (owner s) l (Some t) → has_lock c' l → moves s s' t c'.
Proof.
  intros Hi Ht Hc Hl Eo Hl'. unfold moves. rewrite Eo. unfold set_owner. split.
  - intros t' l1 Hne. destruct (decide (l1 = l)) as [->|]; [|done]. rewrite Hl. naive_solver.
  - intros l1. destruct (decide (l1 = l)) as [->|]; [done|].
    intros (c1 & Hc1 & Hl1)%(mi_owner _ Hi). rewrite Ht in Hc1. injection Hc1 as <-. by apply Hc in Hl1.
Qed.

Lemma moves_release s s' t c c' l :
  misc_inv s → calls s !! t = Some c → (∀ l', has_lock c l' → l' = l) → owner s l = Some t →
  owner s' = set_owner (owner s) l None → moves s s' t c'.
Proof.
  intros Hi Ht Hc Hl Eo. unfold moves. rewrite Eo. unfold set_owner. split.
  - intros t' l1 Hne. destruct (decide (l1 = l)) as [->|]; [|done]. rewrite Hl. naive_solver.
  - intros l1. destruct (decide (l1 = l)) as [->|Hne]; [done|].
    intros (c1 & Hc1 & Hl1)%(mi_owner _ Hi). rewrite Ht in Hc1. injection Hc1 as <-. by apply Hc in Hl1.
Qed.

(** A step of call [t] to [c']. *)
Lemma misc_inv_step s s' t c c' :
  misc_inv s → calls s !! t = Some c → calls s' = <[t := c']> (calls s) →
  moves s s' t c' →
  (writes s' = writes s ∧ secret s' = secret s ∨
   owner s (write_lock d) = Some t ∧ (writes s' = writes s ∨ ∃ w, writes s' = writes s ++ [w])) →
  call_ok s' t c' → (¬ writing s' → secret s' = secret_after pad (writes s')) →
  same_counts s s' ∧ ¬ has_lock c Lock1 ∨
  owner s Lock1 = Some t ∧ (owner s' Lock1 = None → balanced s') → misc_inv s'.
Proof.
  intros Hi Ht Ec [Ho Hm] Hw Hok Hs Hc. split; [| |done|].
  - intros t' c1. rewrite Ec. destruct (decide (t' = t)) as [->|Hne].
    + rewrite list_lookup_insert_eq by by eapply lookup_lt_Some. by intros [= <-].
    + rewrite list_lookup_insert_ne by done. intros Hc1.
      eapply call_ok_frame; [done|by eapply mi_calls| |done|].
      { intros l. by apply Ho. }
      destruct Hc as [[Hc _]|[Hc _]]; [by left|by right].
  - intros l t' Hl. rewrite Ec. destruct (decide (t' = t)) as [->|Hne].
    + exists c'. rewrite list_lookup_insert_eq by by eapply lookup_lt_Some. split; [done|by apply Hm].
    + rewrite list_lookup_insert_ne by done. apply (mi_owner _ Hi). by apply Ho.
  - destruct Hc as [[Hc Hl]|[_ Hc]]; [|done]. intros Hn. eapply same_balanced; [done|].
    apply (mi_counts _ Hi). destruct (owner s Lock1) as [t'|] eqn:Ho1; [exfalso|done].
    destruct (decide (t' = t)) as [->|Hne]; [|apply (Ho t' Lock1) in Ho1; congruence].
    destruct (mi_owner _ Hi _ _ Ho1) as (c1 & Hc1 & Hl1). rewrite Ht in Hc1. by injection Hc1 as <-.
Qed.

(** A step of a call that does not write: secret and writes stay. *)
Lemma misc_inv_quiet s s' t c c' :
  misc_inv s → calls s !! t = Some c → calls s' = <[t := c']> (calls s) →
  is_write c = false → is_write c' = false → writes s' = writes s → secret s' = secret s →
  moves s s' t c' → call_ok s' t c' →
  same_counts s s' ∧ ¬ has_lock c Lock1 ∨
  owner s Lock1 = Some t ∧ (owner s' Lock1 = None → balanced s') → misc_inv s'.
Proof.
  intros Hi Ht Ec Hc Hc' Ew Es Ho Hok Hg. eapply misc_inv_step; try done; [by left|].
  intros Hn. rewrite Es, Ew. apply (mi_secret _ Hi). intros (t1 & kbuf & res & Ht1)%writing_at.
  apply Hn, (writing_lookup _ t1 kbuf res). rewrite Ec, list_lookup_insert_ne; [done|].
  intros ->. rewrite Ht in Ht1. by injection Ht1 as ->.
Qed.

(** Who has no lock, or that of the copy, or that of the writers leaves the counters
    alone. *)
Lemma no_lock1 c :
  match c with OGa _ | OGaSet _ _ | OGb _ | OGbSet _ _ => False | _ => True end →
  ¬ has_lock c Lock1.
Proof using Hcopy1 Hwrite1. destruct c; cbn; auto. Qed.

Ltac leave_counts := left; split; [done|by apply no_lock1].

(** The end of a write: the secret is the one of [strscpy]. *)
Lemma write_finish s t kbuf res b :
  misc_inv s → calls s !! t = Some (WCopy kbuf res) → b = strscpy pad (secret_after pad (writes s)) kbuf →
  misc_inv (goes (takes (write_end (stores s b) kbuf) (write_lock d) None) t
              (Done (Z.of_nat (length kbuf)))).
Proof.
  intros Hi Ht ->. destruct (mi_calls _ Hi _ _ Ht) as (_ & Ho & _).
  eapply misc_inv_step; [done|exact Ht|done| | |done| |leave_counts].
  - by eapply moves_release.
  - right. split; [done|]. right. by exists kbuf.
  - intros _. cbn [goes takes write_end stores secret writes]. by rewrite secret_after_snoc.
Qed.

Lemma copy_next (old kbuf : list Z) i c :
  kbuf !! i = Some c → (i < length old)%nat →
  <[i := c]> (take i kbuf ++ drop i old) = take (S i) kbuf ++ drop (S i) old.
Proof.
  intros Hc Hi. pose proof (lookup_lt_Some _ _ _ Hc) as Hl.
  destruct (lookup_lt_is_Some_2 old i Hi) as [x Hx].
  rewrite (drop_S old x i) by done. rewrite (take_S_r kbuf i c) by done.
  rewrite insert_app_r_alt by (rewrite length_take; lia). rewrite length_take.
  replace (i - i `min` length kbuf)%nat with 0%nat by lia. cbn. by rewrite <-app_assoc.
Qed.

Lemma copy_last (old kbuf : list Z) n :
  (0 < n ≤ length kbuf)%nat →
  <[(n - 1)%nat := 0]> (take n kbuf ++ drop n old) = take (n - 1) kbuf ++ 0 :: drop n old.
Proof.
  intros Hn. destruct (lookup_lt_is_Some_2 kbuf (n - 1)) as [c Hc]; [lia|].
  replace n with (S (n - 1)) at 2 by lia. rewrite (take_S_r _ _ c) by done.
  rewrite <-app_assoc, insert_app_r_alt by (rewrite length_take; lia). rewrite length_take.
  replace (n - 1 - (n - 1) `min` length kbuf)%nat with 0%nat by lia. done.
Qed.

Lemma write_step s t kbuf res :
  misc_inv s → calls s !! t = Some (WCopy kbuf res) →
  ∃ s', go pad d t s = Some (Ret s') ∧ misc_inv s'.
Proof.
  intros Hi Ht. unfold go. rewrite Ht. pose proof (copy_size_le kbuf) as [Hc1 Hc2].
  destruct (mi_calls _ Hi _ _ Ht) as (Hr & Ho & Hf & Es).
  destruct (secret_after_ok pad (writes s)) as [Hl _]. pose proof (secret_length s Hi) as Hsl.
  destruct (Nat.ltb_spec res (copy_size kbuf)) as [Hlt|Hge].
  - destruct (lookup_lt_is_Some_2 kbuf res) as [c Hc]; [lia|].
    destruct (lookup_lt_is_Some_2 (secret s) res) as [x Hx]; [lia|].
    rewrite (aread_Some _ _ c) by (rewrite ?Nat2Z.id; done || lia). cbn [mbind outcome_bind].
    rewrite (awrite_Some _ _ x) by (rewrite ?Nat2Z.id; done || lia). cbn [mbind outcome_bind].
    rewrite Nat2Z.id, Es, copy_next by (done || lia). destruct (Z.eqb_spec c 0) as [->|Hn].
    + pose proof (padding_le pad (copy_size kbuf) res) as Hp.
      replace (Z.of_nat res + 1) with (Z.of_nat (length (take (S res) kbuf)))
        by (rewrite length_take; lia).
      rewrite zero_fill_run by (rewrite length_drop; lia). cbn [mbind outcome_bind].
      eexists. split; [done|]. eapply write_finish; [done..|]. unfold strscpy.
      rewrite (proj2 (nul_at_Some _ res)); [by rewrite drop_drop|].
      rewrite lookup_take_lt, take_take by lia. by rewrite Nat.min_l by lia.
    + eexists. split; [done|]. eapply misc_inv_step; [done|exact Ht|done|by eapply moves_same| | | |leave_counts].
      * right. split; [done|by left].
      * split_and!; [lia|done| |done]. rewrite (take_S_r _ _ c) by done.
        apply Forall_app. split; [done|]. by constructor.
      * intros Hw. exfalso. apply Hw, (writing_lookup _ t kbuf (S res)).
        cbn. apply list_lookup_insert_eq. by eapply lookup_lt_Some.
  - assert (res = copy_size kbuf) as -> by lia.
    assert (nul_at (take (copy_size kbuf) kbuf) = None) as En by by apply nul_at_None.
    destruct (Nat.eqb_spec (copy_size kbuf) 0) as [Hz|Hz].
    + eexists. split; [done|]. replace s with (stores s (secret s)) at 1 by by destruct s.
      eapply write_finish; [done..|]. unfold strscpy. rewrite En, Hz, Es, Hz. done.
    + destruct (lookup_lt_is_Some_2 (secret s) (copy_size kbuf - 1)) as [x Hx]; [lia|].
      rewrite (awrite_Some _ _ x); [|lia|rewrite Z2Nat.inj_sub, Nat2Z.id by lia; done].
      cbn [mbind outcome_bind]. eexists. split; [done|]. eapply write_finish; [done..|].
      rewrite Z2Nat.inj_sub, Nat2Z.id by lia. change (Z.to_nat 1) with 1%nat.
      rewrite Es, copy_last by lia. unfold strscpy. rewrite En.
      by rewrite (proj2 (Nat.eqb_neq _ _)) by done.
Qed.

Lemma read_start s t count :
  misc_inv s → calls s !! t = Some (RStart count) → owner s (len_lock d) = None →
  ∃ s', go pad d t s = Some (Ret s') ∧ misc_inv s'.
Proof.
  intros Hi Ht Ho. unfold go. rewrite Ht, Ho.
  assert (¬ writing s) as Hn by (eapply not_writing; [done..|left; by rewrite <-Hlen]).
  destruct (secret_ok_len (secret_after pad (writes s))) as (k & Ek & Hk); [apply secret_after_ok|].
  rewrite (mi_secret _ Hi Hn), Ek. cbn [mbind outcome_bind].
  assert (∀ r, misc_inv (goes s t (Done r))) as Hd.
  { intros r. eapply misc_inv_quiet; [done|exact Ht|done..| |done|leave_counts]. by eapply moves_same. }
  destruct (count <? MAXBYTES); [eexists; split; [done|apply Hd]|].
  destruct (Z.leb_spec (Z.of_nat k) 0); [eexists; split; [done|apply Hd]|].
  eexists. split; [done|]. eapply misc_inv_quiet; [done|exact Ht|done..|by eapply moves_same| |leave_counts].
  cbn. rewrite take_ge by lia. done.
Qed.

Lemma read_lock s t len n :
  misc_inv s → calls s !! t = Some (RReady len n) → owner s (copy_lock d) = None →
  ∃ s', go pad d t s = Some (Ret s') ∧ misc_inv s'.
Proof.
  intros Hi Ht Ho. unfold go. rewrite Ht, Ho. eexists. split; [done|].
  destruct (mi_calls _ Hi _ _ Ht) as (Hn & Hp & E).
  eapply misc_inv_quiet; [done|exact Ht|done..| | |leave_counts].
  - eapply moves_acquire; [done|exact Ht|by intros ? []|done|done|done].
  - cbn. split_and!; try done; [lia|]. unfold set_owner. by rewrite decide_True.
Qed.

Lemma read_step s t len n got :
  misc_inv s → calls s !! t = Some (RCopy len n got) →
  ∃ s', go pad d t s = Some (Ret s') ∧ misc_inv s'.
Proof.
  intros Hi Ht. unfold go. rewrite Ht.
  destruct (mi_calls _ Hi _ _ Ht) as ((Hn & Hp & E) & Hg & Ho & Hgot).
  destruct (Z.ltb_spec (Z.of_nat (length got)) len) as [Hlt|Hge].
  - assert (len < MAXBYTES) as Hmax.
    { destruct (secret_ok_len _ (secret_after_ok pad (take n (writes s)))) as (k & Ek & Hk).
      rewrite E in Ek. injection Ek as ->. done. }
    pose proof (secret_length s Hi) as Hsl.
    destruct (lookup_lt_is_Some_2 (secret s) (length got)) as [b Hb]; [unfold MAXBYTES in *; lia|].
    rewrite (aread_Some _ _ b) by (rewrite ?Nat2Z.id; done || lia). cbn [mbind outcome_bind].
    eexists. split; [done|]. eapply misc_inv_quiet; [done|exact Ht|done..|by eapply moves_same| |leave_counts].
    cbn. split_and!; [done..|rewrite length_app; cbn; lia|done|].
    intros Hl. rewrite length_app, Nat.add_comm. change (length [b]) with 1%nat. cbn [plus].
    rewrite (take_S_r _ _ b).
    + by rewrite <-Hgot.
    + rewrite <-(mi_secret _ Hi); [done|]. eapply not_writing; [done|done|done|].
      right. by rewrite <-Hl.
  - assert (len = Z.of_nat (length got)) as -> by lia.
    eexists. split; [done|]. eapply misc_inv_quiet; [done|exact Ht|done..| | |leave_counts].
    + by eapply moves_release.
    + cbn. split; [done|]. intros Hl. exists (length (writes s)). split; [lia|].
      rewrite (take_ge (writes s)) by lia. by apply Hgot.
Qed.

Lemma write_lock_step s t kbuf :
  misc_inv s → calls s !! t = Some (WReady kbuf) → owner s (write_lock d) = None →
  ∃ s', go pad d t s = Some (Ret s') ∧ misc_inv s'.
Proof.
  intros Hi Ht Ho. unfold go. rewrite Ht, Ho. eexists. split; [done|].
  eapply misc_inv_step; [done|exact Ht|done| |by left| | |leave_counts].
  - eapply moves_acquire; [done|exact Ht|by intros ? []|done|done|done].
  - cbn. split_and!; [lia| |done|].
    + unfold set_owner. by rewrite decide_True.
    + rewrite <-(mi_secret _ Hi); [done|]. eapply not_writing; [done|done|done|by left].
  - intros Hw. exfalso. apply Hw, (writing_lookup _ t kbuf 0). cbn.
    apply list_lookup_insert_eq. by eapply lookup_lt_Some.
Qed.

Lemma fails_at_inv s t err o :
  misc_inv s → fails_at d t err s = Some o → ∃ s', o = Ret s' ∧ misc_inv s'.
Proof.
  intros Hi. unfold fails_at. destruct (calls s !! t) as [c|] eqn:Ht; [|done].
  destruct c as [| |len n got| |kbuf| | | | | | |]; try done.
  - destruct (err =? EFAULT); [|done]. intros [= <-]. eexists. split; [done|].
    destruct (mi_calls _ Hi _ _ Ht) as (_ & _ & Ho & _).
    eapply misc_inv_quiet; [done|exact Ht|done..| |done|leave_counts].
    by eapply moves_release.
  - destruct (_ || _); [|done]. intros [= <-]. eexists. split; [done|]. eapply misc_inv_quiet; [done|exact Ht|done..| |done|leave_counts]. by eapply moves_same.
Qed.

Lemma counts_inv s t c s' :
  misc_inv s → calls s !! t = Some c → counts t s c = Some s' → misc_inv s'.
Proof.
  intros Hi Ht. pose proof (mi_calls _ Hi _ _ Ht) as Hc.
  destruct c as [| | | | | |n|n|n x|n|n y|]; cbn [counts]; try done; cbn in Hc.
  - destruct (owner s Lock1) eqn:Ho; [done|]. intros [= <-].
    eapply misc_inv_quiet; [done|exact Ht|done..| | |].
    + eapply moves_acquire; [done|exact Ht|by intros ? []|done|done|done].
    + cbn. unfold set_owner. rewrite decide_True by done. split; [done|]. by apply (mi_counts _ Hi).
    + left. split; [done|]. by apply no_lock1.
  - intros [= <-]. destruct Hc as [Ho Hb].
    eapply misc_inv_quiet; [done|exact Ht|done..|by eapply moves_same|done|]. right. cbn. by rewrite Ho.
  - intros [= <-]. destruct Hc as (Ho & [Ha Hb] & ->).
    eapply misc_inv_quiet; [done|exact Ht|done..|by eapply moves_same| |]; [|right; cbn; by rewrite Ho].
    cbn. by rewrite Ha, s32_add.
  - intros [= <-]. destruct Hc as (Ho & Ha & Hb).
    eapply misc_inv_quiet; [done|exact Ht|done..|by eapply moves_same|done|]. right. cbn. by rewrite Ho.
  - intros [= <-]. destruct Hc as (Ho & Ha & Hb & ->).
    eapply misc_inv_quiet; [done|exact Ht|done..|by eapply moves_release|done|].
    right. split; [done|]. intros _. split; cbn; [done|].
    rewrite Hb, <-Z.add_opp_r, s32_add. f_equal. lia.
Qed.

Lemma adds_inv s c :
  misc_inv s → (∀ s' t, call_ok s' t c) → is_write c = false → misc_inv (adds s c).
Proof.
  intros Hi Hc Hw. split; cbn [adds secret writes ga gb opened calls].
  - intros t c'. intros [Ht|[_ Ht]]%lookup_app_Some; [by apply (mi_calls _ Hi) in Ht|].
    apply list_lookup_singleton_Some in Ht as [_ <-]. apply Hc.
  - intros l t (c' & Hc' & Hl)%(mi_owner _ Hi). exists c'. split; [|done]. by apply lookup_app_l_Some.
  - intros Hn. apply (mi_secret _ Hi). intros Hs. apply Hn. apply Exists_app. by left.
  - apply (mi_counts _ Hi).
Qed.

Lemma happens_inv s e o : misc_inv s → happens pad d e s = Some o → ∃ s', o = Ret s' ∧ misc_inv s'.
Proof.
  intros Hi. destruct e as [count|ubuf|t|t err| |]; cbn [happens].
  - intros [= <-]. eexists. split; [done|]. by apply adds_inv.
  - intros [= <-]. eexists. split; [done|]. by apply adds_inv.
  - intros E. assert (∀ P : Prop, (∃ s', go pad d t s = Some (Ret s') ∧ misc_inv s') →
      ∃ s', o = Ret s' ∧ misc_inv s') as Hret.
    { intros _ (s' & E' & Hi'). rewrite E in E'. injection E' as ->. by exists s'. }
    destruct (calls s !! t) as [c|] eqn:Ht; [|by unfold go in E; rewrite Ht in E].
    apply (Hret True). pose proof E as E'. unfold go in E'. rewrite Ht in E'.
    destruct c as [count|len n|len n got|n got|kbuf|kbuf res| | | | | |r];
      try (destruct (counts t s _) as [s'|] eqn:Ec; [|done]; exists s';
           split; [unfold go; by rewrite Ht, Ec|by eapply counts_inv]).
    + destruct (owner s (len_lock d)) eqn:Ho; [done|]. by eapply read_start.
    + destruct (owner s (copy_lock d)) eqn:Ho; [done|]. by eapply read_lock.
    + by eapply read_step.
    + destruct (owner s (write_lock d)) eqn:Ho; [done|]. by eapply write_lock_step.
    + by eapply write_step.
  - apply fails_at_inv. done.
  - intros [= <-]. eexists. split; [done|]. by apply adds_inv.
  - intros [= <-]. eexists. split; [done|]. by apply adds_inv.
Qed.

Lemma reaches_inv s : reaches pad d s → misc_inv s.
Proof.
  induction 1 as [|s e s' _ IH E].
  - by split.
  - destruct (happens_inv _ _ _ IH E) as (s1 & [= ->] & ?). done.
Qed.
End invariant.

(** ** The drivers with locks *)

Definition locked_driver (d : driver) : Prop := d = mutexlock_misc ∨ d = spinlock_misc.

Lemma locked_driver_locks d :
  locked_driver d → len_lock d = write_lock d ∧ copy_lock d ≠ Lock1 ∧ write_lock d ≠ Lock1.
Proof. by intros [->| ->]. Qed.

(** C34. Whatever the users do and however the calls interleave, no access of either driver
    leaves its memory: the secret always ends with a zero when its length is taken.
    Whenever nobody holds [lock1], the counters [ga] and [gb] are exact: they count the
    opens that were not closed. *)
Theorem misc_drivers_safe pad d s e o :
  locked_driver d → reaches pad d s → happens pad d e s = Some o →
  (∃ s', o = Ret s') ∧
  (owner s Lock1 = None → ga s = s32 (opened s) ∧ gb s = s32 (1 - opened s)).
Proof.
  intros (Hd & Hc & Hw)%locked_driver_locks Hs E. pose proof (reaches_inv pad d Hd Hc Hw s Hs) as Hi.
  destruct (happens_inv pad d Hd Hc Hw _ _ _ Hi E) as (s' & -> & _).
  split; [by exists s'|]. apply (mi_counts _ _ _ Hi).
Qed.

(** No call waits for ever for a lock: while a call has not ended, some call can go
    on. *)
Theorem misc_drivers_progress pad d s t c :
  locked_driver d → reaches pad d s → calls s !! t = Some c →
  match c with RDone _ _ | Done _ => False | _ => True end →
  ∃ t' s', go pad d t' s = Some (Ret s').
Proof.
  intros (Hd & Hcl & Hwl)%locked_driver_locks Hs Ht Hc.
  pose proof (reaches_inv pad d Hd Hcl Hwl s Hs) as Hi.
  assert (∀ t' c' s', calls s !! t' = Some c' → counts t' s c' = Some s' →
    ∃ t' s', go pad d t' s = Some (Ret s')) as Hcount.
  { intros t' c' s' Hc' E. exists t', s'. unfold go. rewrite Hc'. by destruct c'; rewrite ?E. }
  assert (∀ l t', owner s l = Some t' → ∃ t' s', go pad d t' s = Some (Ret s')) as Hwait.
  { intros l t' (c' & Hc' & Hl)%(mi_owner _ _ _ Hi). destruct c'; try done; try by eapply Hcount.
    - destruct (read_step pad d Hcl Hwl s t' _ _ _ Hi Hc') as (s' & E & _). by exists t', s'.
    - destruct (write_step pad d Hcl Hwl s t' _ _ Hi Hc') as (s' & E & _). by exists t', s'. }
  destruct c as [count|len n|len n got|n got|kbuf|kbuf res|n| | | | |r]; try done;
    try by eapply Hcount.
  - destruct (owner s (len_lock d)) eqn:Ho; [by eapply Hwait|].
    destruct (read_start pad d Hd Hcl Hwl s t _ Hi Ht Ho) as (s' & E & _). by exists t, s'.
  - destruct (owner s (copy_lock d)) eqn:Ho; [by eapply Hwait|].
    destruct (read_lock pad d Hcl Hwl s t _ _ Hi Ht Ho) as (s' & E & _). by exists t, s'.
  - destruct (read_step pad d Hcl Hwl s t _ _ _ Hi Ht) as (s' & E & _). by exists t, s'.
  - destruct (owner s (write_lock d)) eqn:Ho; [by eapply Hwait|].
    destruct (write_lock_step pad d Hcl Hwl s t _ Hi Ht Ho) as (s' & E & _). by exists t, s'.
  - destruct (write_step pad d Hcl Hwl s t _ _ Hi Ht) as (s' & E & _). by exists t, s'.
  - destruct (owner s Lock1) eqn:Ho; [by eapply Hwait|].
    eapply (Hcount t); [done|]. cbn [counts]. by rewrite Ho.
Qed.

(** C12. With the mutex a read is atomic but for its length: it returns the beginning of the
    secret that [j] complete writes left, of the length of the secret that [since]
    of these writes had left; however many zeros [strscpy] stores behind a string. *)
Theorem mutex_read_snapshot pad s t since got :
  reaches pad mutexlock_misc s → calls s !! t = Some (RDone since got) →
  ∃ j, (since ≤ j ≤ length (writes s))%nat ∧
    strlen (secret_after pad (take since (writes s))) = Ret (Z.of_nat (length got)) ∧
    got = take (length got) (secret_after pad (take j (writes s))).
Proof.
  intros Hs Ht.
  assert (misc_inv pad mutexlock_misc s) as Hi by by apply reaches_inv.
  destruct (mi_calls _ _ _ Hi _ _ Ht) as ((_ & _ & E) & Hgot).
  destruct (Hgot eq_refl) as (j & Hj & Eg). by exists j.
Qed.

(** ** A run *)

(** A sequence of events from the start. *)
Fixpoint run_events (pad : nat -> nat) (d : driver) (es : list event) (s : misc) : misc :=
  match es with
  | [] => s
  | e :: es =>
    match happens pad d e s with
    | Some (Ret s') => run_events pad d es s'
    | _ => s
    end
  end.

Lemma run_events_reach pad d es s : reaches pad d s → reaches pad d (run_events pad d es s).
Proof.
  revert s. induction es as [|e es IH]; intros s Hs; [done|]. cbn [run_events].
  destruct (happens pad d e s) as [[s'|f]|] eqn:E; [|done|done]. apply IH. by eapply reaches_step.
Qed.

(** Words of eight bytes: zeros up to the end of the word. *)
Definition word_pad (k : nat) : nat := 7 - k mod 8.

(** A read starts, three of its seven bytes are copied, and a write of seven other
    characters comes in between as far as the locks let it. *)
Definition race (pad : nat -> nat) (d : driver) : misc :=
  run_events pad d ([ERead 128; EWrite ([88; 88; 88; 88; 88; 88; 88; 0])] ++
    [EGo 0; EGo 0; EGo 0; EGo 0; EGo 0]%nat) init_misc.
Definition race_end (pad : nat -> nat) (d : driver) : misc :=
  run_events pad d (replicate 5 (EGo 0)%nat) (run_events pad d (replicate 9 (EGo 1)%nat) (race pad d)).

Lemma race_reach pad d : reaches pad d (race pad d).
Proof. apply run_events_reach, reaches_init. Qed.

(** With the spinlock the copy to the user is not excluded from a write: a read can
    return a string that no sequence of writes had left. *)
Theorem spin_read_torn pad :
  ∃ s t since got, reaches pad spinlock_misc s ∧ calls s !! t = Some (RDone since got) ∧
    ∀ j, got ≠ take (length got) (secret_after pad (take j (writes s))).
Proof.
  exists (race_end pad spinlock_misc), 0%nat, 0%nat, [105; 110; 105; 88; 88; 88; 88]. split_and!.
  - do 2 apply run_events_reach. apply race_reach.
  - vm_compute. reflexivity.
  - intros j. assert (writes (race_end pad spinlock_misc) = [[88; 88; 88; 88; 88; 88; 88; 0]]) as ->
      by (vm_compute; reflexivity).
    destruct j as [|j]; [by vm_compute|]. cbn [take]. rewrite take_nil. by vm_compute.
Qed.

(** Two opens: one is through, the other has not taken [lock1] yet. *)
Definition two_opens : misc :=
  run_events word_pad spinlock_misc ([EOpen; EOpen] ++ replicate 5 (EGo 0)%nat) init_misc.

Lemma misc_drivers_safe_witness :
  (∃ s', Ret (run_events word_pad spinlock_misc [EGo 1%nat] two_opens) = Ret s') ∧
  (owner two_opens Lock1 = None → ga two_opens = s32 1 ∧ gb two_opens = s32 0).
Proof.
  apply (misc_drivers_safe word_pad spinlock_misc two_opens (EGo 1)).
  - by right.
  - apply run_events_reach, reaches_init.
  - vm_compute. reflexivity.
Defined.

(** The writer waits for the mutex, and the reader can go on. *)
Lemma misc_drivers_progress_witness :
  go word_pad mutexlock_misc 1 (race word_pad mutexlock_misc) = None ∧
  ∃ t' s', go word_pad mutexlock_misc t' (race word_pad mutexlock_misc) = Some (Ret s').
Proof.
  split; [by vm_compute|].
  apply (misc_drivers_progress word_pad mutexlock_misc (race word_pad mutexlock_misc) 1
    (WReady [88; 88; 88; 88; 88; 88; 88; 0])).
  - by left.
  - apply race_reach.
  - vm_compute. reflexivity.
  - done.
Defined.

Lemma mutex_read_snapshot_witness :
  ∃ j, (0 ≤ j ≤ 0)%nat ∧ strlen init_secret = Ret 7 ∧
    [105; 110; 105; 116; 109; 115; 103] = take 7 (secret_after word_pad (take j [])).
Proof.
  apply (mutex_read_snapshot word_pad (race_end word_pad mutexlock_misc) 0 0
    [105; 110; 105; 116; 109; 115; 103]).
  - do 2 apply run_events_reach. apply race_reach.
  - vm_compute. reflexivity.
Defined.

(** ** The driver without locks *)

Lemma strnlen_nul_at b n k : nul_at b = Some k → (k < n)%nat → strnlen b n = Z.of_nat k.
Proof.
  revert n k. induction b as [|c b IH]; intros n k; [done|]. cbn [nul_at].
  destruct n as [|n]; [lia|]. cbn [strnlen]. destruct (c =? 0); [by intros [= <-]|].
  destruct (nul_at b) as [j|]; [|done]. intros [= <-] Hn. rewrite (IH n j) by (done || lia). lia.
Qed.

Lemma nul_at_string s b : no_nul s → nul_at (s ++ 0 :: b) = Some (length s).
Proof.
  intros Hs. apply nul_at_Some. rewrite list_lookup_middle by done. split; [done|].
  rewrite take_app_length. apply Forall_forall. intros c Hc ->. by apply Hs.
Qed.

(** A string that is written with its zero is what the next read returns. *)
Theorem misc_write_read c s count :
  length (oursecret c) = Z.to_nat MAXBYTES → no_nul s → (0 < length s < Z.to_nat MAXBYTES)%nat →
  MAXBYTES ≤ count →
  ∃ c' c'', write_miscdrv_rdwr true false (s ++ [0]) c = Ret (Z.of_nat (length s) + 1, c') ∧
    read_miscdrv_rdwr false count c' = Ret (Z.of_nat (length s), s, c'').
Proof.
  intros Hl Hs Hn Hc. unfold write_miscdrv_rdwr. rewrite length_app. change (length [0]) with 1%nat.
  assert (0 ≤ MAXBYTES) by by vm_compute.
  rewrite (proj2 (Z.ltb_ge MAXBYTES _)) by lia. cbn [negb]. unfold strlcpy.
  rewrite (strlen_nul_at _ (length s)) by by apply nul_at_string. cbn [mbind outcome_bind].
  rewrite (proj2 (Z.eqb_neq _ _)), (proj2 (Z.leb_gt _ _)) by lia.
  rewrite memcpy_run by (rewrite ?length_app; cbn [length]; lia). cbn [mbind outcome_bind].
  rewrite Nat2Z.id, take_app_length.
  destruct (drop (length s) (oursecret c)) as [|x r] eqn:Ed.
  { apply (f_equal length) in Ed. rewrite length_drop in Ed. cbn in Ed. lia. }
  rewrite awrite_mid by done. cbn [mbind outcome_bind].
  eexists _, _. split; [f_equal; f_equal; lia|]. unfold read_miscdrv_rdwr.
  rewrite (proj2 (Z.ltb_ge count _)) by lia. cbn [oursecret].
  rewrite (strnlen_nul_at _ _ (length s)) by (by apply nul_at_string || lia).
  rewrite (proj2 (Z.leb_gt _ _)) by lia. by rewrite Nat2Z.id, take_app_length.
Qed.

(** [strlcpy] looks for the end of the user's bytes: without a zero among them it reads
    behind the buffer the driver allocated. *)
Theorem misc_write_overreads c ubuf :
  no_nul ubuf → Z.of_nat (length ubuf) ≤ MAXBYTES →
  write_miscdrv_rdwr true false ubuf c = Fault OutOfBounds.
Proof.
  intros Hs Hl. unfold write_miscdrv_rdwr. rewrite (proj2 (Z.ltb_ge MAXBYTES _)) by lia.
  cbn [negb]. unfold strlcpy, strlen. by rewrite cstr_overrun.
Qed.

Lemma misc_write_read_witness :
  ∃ c' c'', write_miscdrv_rdwr true false [104; 105; 0] miscdrv_rdwr_init = Ret (3, c') ∧
    read_miscdrv_rdwr false 128 c' = Ret (2, [104; 105], c'').
Proof.
  apply (misc_write_read miscdrv_rdwr_init [104; 105] 128).
  - done.
  - apply (bool_decide_unpack (0 ∉ [104; 105])). by vm_compute.
  - unfold MAXBYTES. cbn [length]. lia.
  - done.
Defined.

Lemma misc_write_overreads_witness :
  write_miscdrv_rdwr true false [104; 105] miscdrv_rdwr_init = Fault OutOfBounds.
Proof.
  apply misc_write_overreads; [|by vm_compute].
  apply (bool_decide_unpack (0 ∉ [104; 105])). by vm_compute.
Defined.
