(* ===== verification/SpinLock.v ===== *)
(** * Spinlocks of user space ([data-sync-spin-atomic])

    Two programs protect a counter with a spinlock. [nostd/main.c] takes the lock with
    a compare-and-exchange; [std/main.c] reads the lock until it is free and then
    stores one into it. The model has one step per access to the lock or to the
    counter, any number of threads and of rounds.

    The theorems: with compare-and-exchange at most one thread is between lock and
    unlock, the counter ends with the number of all rounds, and every state can be
    completed; without it two threads can be inside and a count gets lost. *)

From stdpp Require Import base tactics numbers list.
From S2P Require Import Prelude.

Local Open Scope Z_scope.

(** Where a thread is in a round of [trythis]: in [spinlock_lock], between the read
    and the store of the lock of [std], at the load and at the store of
    [counter += 1], in [spinlock_unlock], or done. *)
Inductive place := Try | Claim | Load | Store (v : Z) | Unlock | Fin.

#[export] Instance place_eq_dec : EqDecision place.
Proof. solve_decision. Defined.

(** A thread and the rounds it has left, with the current one. *)
Record thread := mkThread { at_ : place; left_ : nat }.

Record spin := mkSpin {
  locked : Z;
  counter : Z;
  threads : list thread;
}.

Definition start_thread (n : nat) : thread := if (n =? 0)%nat then mkThread Fin 0 else mkThread Try n.

(** The start with the rounds of each thread. *)
Definition spin_init (ns : list nat) : spin := mkSpin 0 0 (start_thread <$> ns).

(** [atomic_compare_exchange]: whether the value was exchanged, and the new one. *)
Definition atomic_compare_exchange (x compare exchange : Z) : bool * Z :=
  if x =? compare then (true, exchange) else (false, x).

Definition put (s : spin) (t : nat) (th : thread) (l c : Z) : spin :=
  mkSpin l c (<[t := th]> (threads s)).

(** A step of thread [t]; [cas] tells the two programs apart. A thread that is done
    has no step. *)
Definition spin_step (cas : bool) (t : nat) (s : spin) : option spin :=
  match threads s !! t with
  | Some (mkThread Try n) =>
    if cas then
      let '(ok, l) := atomic_compare_exchange (locked s) 0 1 in
      Some (put s t (mkThread (if ok then Load else Try) n) l (counter s))
    else Some (put s t (mkThread (if locked s =? 1 then Try else Claim) n) (locked s) (counter s))
  | Some (mkThread Claim n) => Some (put s t (mkThread Load n) 1 (counter s))
  | Some (mkThread Load n) => Some (put s t (mkThread (Store (counter s)) n) (locked s) (counter s))
  | Some (mkThread (Store v) n) => Some (put s t (mkThread Unlock n) (locked s) (s32 (v + 1)))
  | Some (mkThread Unlock n) => Some (put s t (start_thread (n - 1)) 0 (counter s))
  | _ => None
  end.

Inductive spin_reach (cas : bool) (s0 : spin) : spin -> Prop :=
  | spin_reach_init : spin_reach cas s0 s0
  | spin_reach_step s t s' : spin_reach cas s0 s → spin_step cas t s = Some s' → spin_reach cas s0 s'.

(** Between lock and unlock. *)
Definition inside (th : thread) : bool :=
  match at_ th with Load | Store _ | Unlock => true | _ => false end.

Definition finished (s : spin) : Prop := Forall (λ th, at_ th = Fin) (threads s).

(** The increments a thread still has to make. *)
Definition todo (th : thread) : Z :=
  match at_ th with
  | Fin => 0
  | Unlock => Z.of_nat (left_ th) - 1
  | _ => Z.of_nat (left_ th)
  end.

Definition sum_todo (ths : list thread) : Z := foldr (λ th n, todo th + n) 0 ths.

(** ** Lists of threads *)

Lemma sum_todo_insert ths t th th' :
  ths !! t = Some th → sum_todo (<[t := th']> ths) = sum_todo ths - todo th + todo th'.
Proof.
  revert t. induction ths as [|x ths IH]; intros t; [done|].
  destruct t as [|t]; cbn [lookup list_lookup insert list_insert sum_todo foldr].
  - intros [= ->]. fold (sum_todo ths). lia.
  - intros Ht. fold (sum_todo (<[t := th']> ths)) (sum_todo ths). rewrite IH by done. lia.
Qed.

Lemma sum_todo_finished ths : Forall (λ th, at_ th = Fin) ths → sum_todo ths = 0.
Proof.
  induction 1 as [|th ths Hth _ IH]; [done|]. cbn [sum_todo foldr]. fold (sum_todo ths).
  unfold todo. rewrite Hth. lia.
Qed.

Lemma sum_todo_start ns : sum_todo (start_thread <$> ns) = foldr (λ n s, Z.of_nat n + s) 0 ns.
Proof.
  induction ns as [|n ns IH]; [done|]. cbn [fmap list_fmap sum_todo foldr].
  fold (sum_todo (start_thread <$> ns)). rewrite IH. f_equal. by destruct n.
Qed.

(** ** The invariant of the compare-and-exchange lock *)

Section cas.
Context (total : Z).

(** A place that agrees with the counter and the rounds. *)
Definition thread_ok (s : spin) (th : thread) : Prop :=
  match at_ th with
  | Claim => False
  | Fin => True
  | Store v => v = counter s ∧ (0 < left_ th)%nat
  | _ => (0 < left_ th)%nat
  end.

Record spin_inv (s : spin) : Prop := {
  si_lock : locked s = 0 ∨ locked s = 1;
  si_free : locked s = 0 → Forall (λ th, inside th = false) (threads s);
  si_one t1 t2 th1 th2 : threads s !! t1 = Some th1 → threads s !! t2 = Some th2 →
    inside th1 = true → inside th2 = true → t1 = t2;
  si_held : locked s = 1 → ∃ t th, threads s !! t = Some th ∧ inside th = true;
  si_ok : Forall (thread_ok s) (threads s);
  si_count : counter s = s32 (total - sum_todo (threads s));
}.

(** A thread goes on inside, or leaves, or enters a free lock. *)
Lemma spin_inv_put s t th th' l c :
  spin_inv s → threads s !! t = Some th → inside th = true ∨ locked s = 0 →
  l = (if inside th' then 1 else 0) →
  (c = counter s ∨ inside th = true) →
  c = s32 (total - (sum_todo (threads s) - todo th + todo th')) →
  thread_ok (put s t th' l c) th' → spin_inv (put s t th' l c).
Proof.
  intros Hi Ht Hin Hl Hc Hcount Hok.
  assert (∀ t1 th1, threads s !! t1 = Some th1 → t1 ≠ t → inside th1 = false) as Hothers.
  { intros t1 th1 H1 Hne. destruct (inside th1) eqn:E1; [|done]. destruct Hin as [Hin|Hfree].
    - by destruct (si_one _ Hi _ _ _ _ H1 Ht E1 Hin).
    - pose proof (si_free _ Hi Hfree) as Hf. apply (Forall_lookup_1 _ _ _ _ Hf) in H1. congruence. }
  pose proof (lookup_lt_Some _ _ _ Ht) as Hlt.
  split; cbn [put locked counter threads].
  - rewrite Hl. destruct (inside th'); auto.
  - intros E. apply Forall_lookup. intros t1 th1. destruct (decide (t1 = t)) as [->|Hne].
    + rewrite list_lookup_insert_eq by done. intros [= <-]. destruct (inside th'); [lia|done].
    + rewrite list_lookup_insert_ne by done. intros H1. by eapply Hothers.
  - intros t1 t2 th1 th2 H1 H2 I1 I2. assert (∀ t1 th1, <[t := th']> (threads s) !! t1 = Some th1 →
      inside th1 = true → t1 = t) as Hsame.
    { intros t3 th3 H3 I3. destruct (decide (t3 = t)) as [->|Hne]; [done|].
      rewrite list_lookup_insert_ne in H3 by done. by rewrite (Hothers t3 th3) in I3. }
    by rewrite (Hsame _ _ H1 I1), (Hsame _ _ H2 I2).
  - intros E. exists t, th'. rewrite list_lookup_insert_eq by done. split; [done|].
    destruct (inside th'); [done|lia].
  - apply Forall_lookup. intros t1 th1. destruct (decide (t1 = t)) as [->|Hne].
    + rewrite list_lookup_insert_eq by done. by intros [= <-].
    + rewrite list_lookup_insert_ne by done. intros H1.
      pose proof (Forall_lookup_1 _ _ _ _ (si_ok _ Hi) H1) as Hok1.
      pose proof (Hothers _ _ H1 Hne) as Hout. unfold thread_ok, inside in *.
      by destruct (at_ th1).
  - by rewrite (sum_todo_insert _ _ th).
Qed.

Lemma inside_locked s t th : spin_inv s → threads s !! t = Some th → inside th = true → locked s = 1.
Proof.
  intros Hi Ht Hin. destruct (si_lock _ Hi) as [E|E]; [|done]. pose proof (si_free _ Hi E) as Hf.
  apply (Forall_lookup_1 _ _ _ _ Hf) in Ht. congruence.
Qed.

Lemma spin_step_inv s t s' : spin_inv s → spin_step true t s = Some s' → spin_inv s'.
Proof.
  intros Hi. unfold spin_step. destruct (threads s !! t) as [[p n]|] eqn:Ht; [|done].
  pose proof (Forall_lookup_1 _ _ _ _ (si_ok _ Hi) Ht) as Hok.
  pose proof (inside_locked s t _ Hi Ht) as Hlk. pose proof (si_count _ Hi) as Hc.
  destruct p as [| | |v| |]; cbn [thread_ok at_ left_] in Hok; try done.
  - unfold atomic_compare_exchange. destruct (Z.eqb_spec (locked s) 0) as [E|E]; intros [= <-].
    + eapply spin_inv_put; [done|exact Ht|by right|done|by left| |done]. rewrite Hc. f_equal. unfold todo. cbn [at_ left_]. lia.
    + unfold put. rewrite list_insert_id by done. by destruct s.
  - intros [= <-]. specialize (Hlk eq_refl).
    eapply spin_inv_put; [done|exact Ht|by left|done|by left| |done]. rewrite Hc. f_equal. unfold todo. cbn [at_ left_]. lia.
  - intros [= <-]. specialize (Hlk eq_refl). destruct Hok as [-> Hn].
    eapply spin_inv_put; [done|exact Ht|by left|done|by right| |done].
    rewrite Hc, s32_add. f_equal. unfold todo. cbn [at_ left_]. lia.
  - intros [= <-].
    eapply spin_inv_put; [done|exact Ht|by left| |by left| |].
    + by destruct n as [|[|n]].
    + rewrite Hc. f_equal. unfold todo. destruct n as [|[|n]]; cbn [start_thread at_ left_ Nat.sub Nat.eqb] in *; lia.
    + destruct n as [|[|n]]; cbn; lia || done.
Qed.

Lemma spin_inv_reach s0 s : spin_inv s0 → spin_reach true s0 s → spin_inv s.
Proof. intros H0. induction 1; [done|]. by eapply spin_step_inv. Qed.

(** ** Completion *)

(** The steps a thread still needs. *)
Definition weight (th : thread) : nat :=
  match at_ th with
  | Fin => 0
  | Try | Claim => 4 * left_ th
  | Load => 4 * left_ th - 1
  | Store _ => 4 * left_ th - 2
  | Unlock => 4 * left_ th - 3
  end.

Definition sum_weight (ths : list thread) : nat := sum_list_with weight ths.

Lemma sum_weight_insert ths t th th' :
  ths !! t = Some th → (weight th' < weight th)%nat →
  (sum_weight (<[t := th']> ths) < sum_weight ths)%nat.
Proof.
  revert t. induction ths as [|x ths IH]; intros t; [done|].
  destruct t as [|t]; cbn [lookup list_lookup insert list_insert].
  - intros [= ->]. unfold sum_weight. cbn [sum_list_with]. lia.
  - intros Ht Hw. specialize (IH t Ht Hw). unfold sum_weight in *. cbn [sum_list_with]. by apply Nat.add_lt_mono_l.
Qed.

(** While a thread is not done some thread makes progress. *)
Lemma spin_advance s :
  spin_inv s → ¬ finished s →
  ∃ t s', spin_step true t s = Some s' ∧ (sum_weight (threads s') < sum_weight (threads s))%nat.
Proof.
  intros Hi Hn.
  assert (∃ t th, threads s !! t = Some th ∧ at_ th ≠ Fin ∧ (inside th = true ∨ locked s = 0))
    as (t & [p n] & Ht & Hp & Hin).
  { destruct (si_lock _ Hi) as [E|E].
    - apply not_Forall_Exists, Exists_exists in Hn as (th & Hth & Hf); [|intros x; apply _].
      apply list_elem_of_lookup in Hth as [t Ht]. by exists t, th; auto.
    - destruct (si_held _ Hi E) as (t & th & Ht & Hin). exists t, th. split_and!; [done| |by left].
      intros Hf. unfold inside in Hin. by rewrite Hf in Hin. }
  pose proof (Forall_lookup_1 _ _ _ _ (si_ok _ Hi) Ht) as Hok. exists t. unfold spin_step. rewrite Ht.
  unfold thread_ok in Hok. cbn [inside at_ left_] in *.
  destruct p as [| | |v| |]; try done.
  - destruct Hin as [|E]; [done|]. unfold atomic_compare_exchange. rewrite E.
    eexists. split; [done|]. eapply sum_weight_insert; [done|]. unfold weight. cbn [at_ left_]. lia.
  - eexists. split; [done|]. eapply sum_weight_insert; [done|]. unfold weight. cbn [at_ left_]. lia.
  - eexists. split; [done|]. eapply sum_weight_insert; [done|]. unfold weight. cbn [at_ left_]. lia.
  - eexists. split; [done|]. eapply sum_weight_insert; [done|]. destruct n as [|[|n]]; cbn in *; lia.
Qed.

Lemma spin_reach_trans cas s0 s1 s2 : spin_reach cas s0 s1 → spin_reach cas s1 s2 → spin_reach cas s0 s2.
Proof. intros H01. induction 1; [done|]. by eapply spin_reach_step. Qed.

Lemma spin_completes k s :
  (sum_weight (threads s) ≤ k)%nat → spin_inv s → ∃ s', spin_reach true s s' ∧ finished s'.
Proof.
  revert s. induction k as [|k IH]; intros s Hk Hi.
  - destruct (decide (finished s)) as [Hd|Hd]; [exists s; split; [constructor|done]|].
    destruct (spin_advance s Hi Hd) as (t & s1 & _ & Hw). lia.
  - destruct (decide (finished s)) as [Hd|Hd]; [exists s; split; [constructor|done]|].
    destruct (spin_advance s Hi Hd) as (t & s1 & E & Hw).
    destruct (IH s1) as (s2 & Hr & Hf); [lia|by eapply spin_step_inv|].
    exists s2. split; [|done]. eapply spin_reach_trans; [|exact Hr].
    eapply spin_reach_step; [constructor|done].
Qed.
End cas.

(** The rounds of all threads together. *)
Definition rounds (ns : list nat) : Z := foldr (λ n s, Z.of_nat n + s) 0 ns.

Lemma spin_init_inv ns : spin_inv (rounds ns) (spin_init ns).
Proof.
  assert (∀ t th, threads (spin_init ns) !! t = Some th → inside th = false ∧ thread_ok (spin_init ns) th)
    as Hstart.
  { intros t th. cbn. rewrite list_lookup_fmap_Some. intros (n & -> & _).
    destruct n; cbn; split; done || lia. }
  split; cbn [spin_init locked counter].
  - by left.
  - intros _. apply Forall_lookup. intros t th Ht. by eapply Hstart.
  - intros t1 t2 th1 th2 H1 H2 I1. apply Hstart in H1 as [H1 _]. congruence.
  - done.
  - apply Forall_lookup. intros t th Ht. by eapply Hstart.
  - change (0 = s32 (rounds ns - sum_todo (start_thread <$> ns))).
    rewrite sum_todo_start. fold (rounds ns). by rewrite Z.sub_diag.
Qed.

(** ** The theorems *)

(** C30. With compare-and-exchange, for any number of threads and rounds and in every
    interleaving, at most one thread is between lock and unlock; when all are done the
    counter is the number of all rounds, so it is 200000000 for the program. *)
Theorem spinlock_counts ns s :
  spin_reach true (spin_init ns) s →
  (∀ t1 t2 th1 th2, threads s !! t1 = Some th1 → threads s !! t2 = Some th2 →
     inside th1 = true → inside th2 = true → t1 = t2) ∧
  (finished s → counter s = s32 (rounds ns)).
Proof.
  intros Hr. pose proof (spin_inv_reach _ _ _ (spin_init_inv ns) Hr) as Hi. split.
  - apply (si_one _ _ Hi).
  - intros Hf. by rewrite (si_count _ _ Hi), (sum_todo_finished _ Hf), Z.sub_0_r.
Qed.

(** From every state the threads reach there is a way to the end: the lock cannot be
    left taken. *)
Theorem spinlock_completes ns s :
  spin_reach true (spin_init ns) s → ∃ s', spin_reach true s s' ∧ finished s'.
Proof.
  intros Hr. pose proof (spin_inv_reach _ _ _ (spin_init_inv ns) Hr) as Hi.
  by eapply (spin_completes _ (sum_weight (threads s))).
Qed.

(** A schedule: the threads that take the steps. *)
Fixpoint spin_run (cas : bool) (ts : list nat) (s : spin) : spin :=
  match ts with
  | [] => s
  | t :: ts => match spin_step cas t s with Some s' => spin_run cas ts s' | None => s end
  end.

Lemma spin_run_reach cas ts s0 s : spin_reach cas s0 s → spin_reach cas s0 (spin_run cas ts s).
Proof.
  revert s. induction ts as [|t ts IH]; intros s Hs; [done|]. cbn [spin_run].
  destruct (spin_step cas t s) eqn:E; [|done]. apply IH. by eapply spin_reach_step.
Qed.

(** The lock of [std] does not exclude: two threads can both find it free, and then one
    of two counts is lost. *)
Theorem std_spinlock_broken :
  ∃ s s', spin_reach false (spin_init [1; 1]%nat) s ∧ Forall (λ th, inside th = true) (threads s) ∧
    spin_reach false s s' ∧ finished s' ∧ counter s' = 1.
Proof.
  exists (spin_run false [0; 1; 0; 1]%nat (spin_init [1; 1]%nat)).
  exists (spin_run false [0; 1; 0; 1; 0; 1]%nat (spin_run false [0; 1; 0; 1]%nat (spin_init [1; 1]%nat))).
  split_and!.
  - apply spin_run_reach. constructor.
  - vm_compute. by repeat constructor.
  - apply spin_run_reach. constructor.
  - vm_compute. by repeat constructor.
  - vm_compute. reflexivity.
Qed.

Lemma spinlock_counts_witness :
  let s := spin_run true [0; 0; 1; 0; 0; 1; 1; 1; 1]%nat (spin_init [1; 1]%nat) in
  finished s ∧ counter s = 2 ∧ 
  s32 (rounds [Z.to_nat 100000000; Z.to_nat 100000000]) = 200000000.
Proof.
  cbv zeta. split; [vm_compute; by repeat constructor|]. split.
  - apply (spinlock_counts [1; 1]%nat).
    + apply spin_run_reach. constructor.
    + vm_compute. by repeat constructor.
  - unfold rounds. cbn [foldr]. by rewrite !Z2Nat.id by lia.
Defined.

Lemma spinlock_completes_witness :
  ∃ s', spin_reach true (spin_run true [0; 0; 1]%nat (spin_init [1; 2]%nat)) s' ∧ finished s'.
Proof. apply (spinlock_completes [1; 2]%nat), spin_run_reach. constructor. Defined.
