(* ===== verification/Lines.v ===== *)
(** * Programs that keep the lines of a text ([data-stream], [data-vector])

    A text is split at its line ends with [strtok] or [strsep]; the lines are copied
    into blocks of their own, whose addresses are in an array of fixed size, in an
    allocated array or in a growing vector ([CStr]). The programs print the lines and
    free what they allocated. Arrays are blocks of memory as the lines are; the array of
    fixed size is one that is released when its function returns.

    The theorems: the programs print exactly the lines of the text, for every text that
    ends, and which blocks they leave behind; the fixed array is left when there are
    more lines than it has places, and [VS_append] frees a pointer that was never
    set. *)

From stdpp Require Import base tactics numbers list gmap.
From S2P Require Import Prelude Heap CStr Grep FileTools.

Local Open Scope Z_scope.

Definition NL : Z := 10.
Definition MAX_ROW_NUM : Z := 128.
Definition MAX_STREAM_LEN : Z := 1048576.

(** ** Rows *)

(** The loop with [strchr]: the line ends of the text. *)
Fixpoint count_rows (b : list Z) : outcome Z :=
  match b with
  | [] => Fault OutOfBounds
  | c :: b => if c =? 0 then Ret 0 else n ← count_rows b; Ret (if c =? NL then n + 1 else n)
  end.

(** The copies of the tokens, from place [row] of the array on. *)
Fixpoint store_rows (toks : list (list Z)) (row : Z) (h : memory) (td : vec loc) : outcome memory :=
  match toks with
  | [] => Ret h
  | t :: toks =>
    let '(x, h) := new_string h t in
    h ← vset h td row x;
    store_rows toks (row + 1) h td
  end.

(** The lines that are printed from place [i] on. *)
Fixpoint print_rows (n : nat) (i : Z) (h : memory) (td : vec loc) : outcome (list (list Z)) :=
  match n with
  | O => Ret []
  | S n =>
    x ← vget h td i;
    s ← string_at h x;
    ss ← print_rows n (i + 1) h td;
    Ret (s :: ss)
  end.

(** What is printed and the memory at the end. *)
Definition Print2dBufferFromStream (h : memory) (source : list Z)
    : outcome (list (list Z) * memory) :=
  row_num ← count_rows source;
  let '(h, td_buff) := vmalloc row_num h in
  toks ← strtok_all NL [] source;
  h ← store_rows toks 0 h td_buff;
  lines ← print_rows (length toks) 0 h td_buff;
  h ← free_strings (length toks) 0 h td_buff;
  h ← vfree h td_buff;
  Ret (lines, h).

(** [file] is what the file holds, none when it cannot be opened; the text gets a
    line end and a zero. *)
Definition StreamTo2dInterface (h : memory) (file : option (list Z))
    : outcome (list (list Z) * memory) :=
  let source := replicate (Z.to_nat MAX_STREAM_LEN) 0 in
  source ← (match file with
    | None => Ret source
    | Some text =>
      let read_len := Z.of_nat (length text) in
      source ← memcpy source text read_len;
      source ← awrite source read_len NL;
      awrite source (read_len + 1) 0
    end);
  Print2dBufferFromStream h source.

(** The loop of [Copy2dBufferFromBuffer]. *)
Fixpoint copy_rows (n : nat) (i : Z) (h : memory) (dest source : vec loc) : outcome memory :=
  match n with
  | O => Ret h
  | S n =>
    x ← vget h source i;
    s ← string_at h x;
    let '(y, h) := new_string h s in
    h ← vset h dest i y;
    copy_rows n (i + 1) h dest source
  end.

Definition Copy2dBufferFromBuffer (rowc : nat) (h : memory) (source : vec loc)
    : outcome (memory * vec loc) :=
  let '(h, dest) := vmalloc (Z.of_nat rowc) h in
  h ← copy_rows rowc 0 h dest source;
  Ret (h, dest).

(** The last loop of [Print2dBufferFromBuffer]. *)
Fixpoint free_both (n : nat) (i : Z) (h : memory) (dd td : vec loc) : outcome memory :=
  match n with
  | O => Ret h
  | S n =>
    y ← vget h dd i;
    h ← hfree h (Some y);
    x ← vget h td i;
    h ← hfree h (Some x);
    free_both n (i + 1) h dd td
  end.

(** The lines printed from the first copy and from the second, and the memory. The last
    [vfree] is the end of the automatic array [td_buff]. *)
Definition Print2dBufferFromBuffer (h : memory) (source : list Z)
    : outcome (list (list Z) * list (list Z) * memory) :=
  row_num ← count_rows source;
  let '(h, td_buff) := vmalloc MAX_ROW_NUM h in
  toks ← strtok_all NL [] source;
  let row := length toks in
  h ← store_rows toks 0 h td_buff;
  '(h, dd_buff) ← Copy2dBufferFromBuffer row h td_buff;
  lines1 ← print_rows row 0 h dd_buff;
  h ← free_strings row 0 h dd_buff;
  h ← vfree h dd_buff;
  '(h, dd_buff) ← Copy2dBufferFromBuffer row h td_buff;
  lines2 ← print_rows row 0 h dd_buff;
  h ← free_both row 0 h dd_buff td_buff;
  h ← vfree h dd_buff;
  h ← vfree h td_buff;
  Ret (lines1, lines2, h).

(** ** Vectors that are copied for every line *)

(** The structure itself, which every function frees that does not hand it on, is a
    value of the model. *)
Record VectorString := mkVS { vs_size : nat; vs_vector : vec loc }.

(** The strings of the old array get new blocks. *)
Fixpoint move_rows (n : nat) (i : Z) (h : memory) (new old : vec loc) : outcome memory :=
  match n with
  | O => Ret h
  | S n =>
    x ← vget h old i;
    s ← string_at h x;
    let '(y, h) := new_string h s in
    h ← vset h new i y;
    h ← hfree h (Some x);
    move_rows n (i + 1) h new old
  end.

(** [PushBackString]; [PushBackString2] does the same through a pointer. *)
Definition PushBackString (h : memory) (sv : VectorString) (new_str : list Z)
    : outcome (memory * VectorString) :=
  let org_vec_size := vs_size sv in
  let '(h, new_vec) := vmalloc (Z.of_nat org_vec_size + 1) h in
  h ← move_rows org_vec_size 0 h new_vec (vs_vector sv);
  h ← (if (org_vec_size =? 0)%nat then Ret h else vfree h (vs_vector sv));
  let '(y, h) := new_string h new_str in
  h ← vset h new_vec (Z.of_nat org_vec_size) y;
  Ret (h, mkVS (S org_vec_size) new_vec).

Definition VS_new : VectorString := mkVS 0 VNone.

Definition VS_append (h : memory) (sv : VectorString) (new_str : list Z)
    : outcome (memory * VectorString) :=
  let org_vec_size := vs_size sv in
  let '(h, new_vec) := vmalloc (Z.of_nat org_vec_size + 1) h in
  h ← move_rows org_vec_size 0 h new_vec (vs_vector sv);
  h ← vfree h (vs_vector sv);
  let '(y, h) := new_string h new_str in
  h ← vset h new_vec (Z.of_nat org_vec_size) y;
  Ret (h, mkVS (S org_vec_size) new_vec).

(** The array itself is not freed. *)
Definition VS_delete (h : memory) (sv : VectorString) : outcome memory :=
  free_strings (vs_size sv) 0 h (vs_vector sv).

(** The loop over the tokens with one of the functions above. *)
Fixpoint push_all (push : memory -> VectorString -> list Z -> outcome (memory * VectorString))
    (toks : list (list Z)) (h : memory) (sv : VectorString) : outcome (memory * VectorString) :=
  match toks with
  | [] => Ret (h, sv)
  | t :: toks => '(h, sv) ← push h sv t; push_all push toks h sv
  end.

(** The first of the three parts of [PrintPushBackStringStruct]. *)
Definition print_pushed (h : memory) (source : list Z) : outcome (list (list Z) * memory) :=
  toks ← strtok_all NL [] source;
  '(h, sv) ← push_all PushBackString toks h (mkVS 0 VNone);
  lines ← print_rows (vs_size sv) 0 h (vs_vector sv);
  h ← free_strings (vs_size sv) 0 h (vs_vector sv);
  h ← vfree h (vs_vector sv);
  Ret (lines, h).

(** The second and the third part: a vector from [VS_new], filled, printed, deleted. *)
Definition print_deleted (push : memory -> VectorString -> list Z -> outcome (memory * VectorString))
    (h : memory) (source : list Z) : outcome (list (list Z) * memory) :=
  toks ← strtok_all NL [] source;
  '(h, sv) ← push_all push toks h VS_new;
  lines ← print_rows (vs_size sv) 0 h (vs_vector sv);
  h ← VS_delete h sv;
  Ret (lines, h).

(** The two copies of the text are arrays of [MAX_STREAM_LEN] bytes. *)
Definition PrintPushBackStringStruct (h : memory) (source : list Z)
    : outcome (list (list Z) * list (list Z) * list (list Z) * memory) :=
  s ← cstr source;
  if Z.of_nat (length s) <? MAX_STREAM_LEN then
    '(lines1, h) ← print_pushed h source;
    '(lines2, h) ← print_deleted VS_append h (s ++ [0]);
    '(lines3, h) ← print_deleted PushBackString h (s ++ [0]);
    Ret (lines1, lines2, lines3, h)
  else Fault OutOfBounds.

(** ** The program of [data-vector] *)

(** What [PrintReducedVectorString] prints: [Ended17] and [Ended19] are the [exit(-2)]
    behind the first and the second erasing. *)
Inductive reduced :=
  | Ended17 (before : list (list Z))
  | Ended19 (before after17 : list (list Z))
  | Printed (before after17 after19 : list (list Z)).

Fixpoint push_lines (lines : list (list Z)) (size : Z) (h : memory) (v : vec loc)
    : outcome (memory * vec loc) :=
  match lines with
  | [] => Ret (h, v)
  | l :: lines =>
    '(h, v) ← VECTOR_PushBackString h size v l;
    push_lines lines (size + 1) h v
  end.

Definition PrintReducedVectorString (h : memory) (source : list Z)
    : outcome (reduced * memory) :=
  lines ← strsep_all (S (length source)) NL (Some source);
  let n := length lines in
  '(h, v) ← push_lines lines 0 h VNone;
  before ← print_rows n 0 h v;
  '(status, h, v) ← VECTOR_EraseString h (Z.of_nat n) v 17;
  if status <? 0 then Ret (Ended17 before, h)
  else
    after17 ← print_rows (n - 1) 0 h v;
    '(status, h, v) ← VECTOR_EraseString h (Z.of_nat n - 1) v 19;
    if status <? 0 then Ret (Ended19 before after17, h)
    else
      after19 ← print_rows (n - 2) 0 h v;
      h ← free_strings (n - 2) 0 h v;
      h ← vfree h v;
      Ret (Printed before after17 after19, h).

(** ** The loops over the rows *)

(** Tokens are stored behind the strings that are there. *)
Lemma store_rows_run toks h G td xs ss F cs m i :
  over (arr td (cs ++ replicate m None)) h G → strings G xs ss F →
  Forall no_nul toks → i = Z.of_nat (length cs) → (length toks ≤ m)%nat →
  ∃ h' G' ys, store_rows toks i h td = Ret h' ∧
    over (arr td (cs ++ (Some <$> ys) ++ replicate (m - length toks) None)) h' G' ∧
    length ys = length toks ∧ strings G' (xs ++ ys) (ss ++ toks) F.
Proof.
  revert h G xs ss cs m i. induction toks as [|t toks IH]; intros h G xs ss cs m i Hv Hs Hn Hi Hm.
  { exists h, G, []. rewrite !app_nil_r, Nat.sub_0_r. by split_and!. }
  apply Forall_cons in Hn as [Ht Hn]. destruct m as [|m]; [simpl in Hm; lia|].
  cbn [store_rows replicate]. unfold new_string.
  destruct (strings_alloc_below _ _ _ _ _ _ (hfresh h) t Hv Hs (hfresh_spec h) Ht) as [Hv1 Hs1].
  destruct (vset_mid _ _ _ _ _ (hfresh h) _ i Hv1 Hi) as (h2 & -> & Hv2). cbn [mbind outcome_bind].
  destruct (IH h2 (<[hfresh h := Chars (t ++ [0])]> G) (xs ++ [hfresh h]) (ss ++ [t])
    (cs ++ [Some (hfresh h)]) m (i + 1)) as (h' & G' & ys & E & Hv' & Hl & Hs');
    [by rewrite <-app_assoc|exact Hs1|done|rewrite length_app; simpl; lia|simpl in Hm; lia|].
  rewrite <-!app_assoc in *. exists h', G', (hfresh h :: ys). split_and!; [done|done|simpl; lia|done].
Qed.

(** More tokens than places: the array is left. *)
Lemma store_rows_overrun toks h G td cs m i :
  over (arr td (cs ++ replicate m None)) h G → i = Z.of_nat (length cs) → (m < length toks)%nat →
  store_rows toks i h td = Fault OutOfBounds.
Proof.
  revert h G cs m i. induction toks as [|t toks IH]; intros h G cs m i Hv Hi Hm; [simpl in Hm; lia|].
  cbn [store_rows]. unfold new_string.
  apply (over_alloc _ _ _ (hfresh h) (Chars (t ++ [0]))) in Hv; [|apply hfresh_spec].
  destruct m as [|m].
  - cbn [replicate] in Hv. rewrite app_nil_r in Hv. by rewrite (vset_past _ _ _ _ _ _ Hv Hi).
  - cbn [replicate] in Hv. destruct (vset_mid _ _ _ _ _ (hfresh h) _ i Hv Hi) as (h2 & -> & Hv2).
    cbn [mbind outcome_bind]. eapply (IH _ _ (cs ++ [Some (hfresh h)]) m (i + 1)).
    + by rewrite <-app_assoc.
    + rewrite length_app. simpl. lia.
    + simpl in Hm. lia.
Qed.

Lemma print_rows_run ys ts h td cs rest i :
  texts h ys ts → (ys ≠ [] → reads h td (cs ++ (Some <$> ys) ++ rest)) → i = Z.of_nat (length cs) →
  print_rows (length ys) i h td = Ret ts.
Proof.
  intros Ht. revert cs i. induction Ht as [|y t ys ts [Hy Hn] Ht IH]; intros cs i Hr Hi; [done|].
  cbn [length print_rows]. specialize (Hr ltac:(done)). rewrite fmap_cons in Hr.
  rewrite (vget_mid _ _ _ _ _ _ Hr Hi). cbn [mbind outcome_bind].
  unfold string_at, chars_at. rewrite (hread_Some _ _ _ Hy). cbn [mbind outcome_bind].
  rewrite cstr_run by done. cbn [mbind outcome_bind].
  rewrite (IH (cs ++ [Some y]) (i + 1)); [done| |rewrite length_app; simpl; lia].
  intros _. by rewrite <-app_assoc.
Qed.

(** The whole of an array. *)
Lemma print_rows_all h G td xs ss F rest :
  over (arr td ((Some <$> xs) ++ rest)) h G → strings G xs ss F →
  print_rows (length xs) 0 h td = Ret ss.
Proof.
  intros Hv Hs. apply (print_rows_run xs ss h td [] rest 0); [|intros _; by eapply reads_over|done].
  eapply texts_weaken; [by eapply strings_texts|by eapply over_sub].
Qed.

Lemma free_array_all h G td xs ss F rest :
  over (arr td ((Some <$> xs) ++ rest)) h G → strings G xs ss F →
  ∃ h', free_strings (length xs) 0 h td = Ret h' ∧ over (arr td ((Some <$> xs) ++ rest)) h' F.
Proof.
  intros Hv Hs. destruct (free_strings_run xs h G td [] rest [] [] ss F 0) as (h' & G' & E & Hv' & Hs');
    [done..|]. apply strings_nil in Hs' as ->. eauto.
Qed.

(** A string is allocated below two other parts of memory, or freed there. *)
Lemma strings_alloc_below2 P Q h G K xs ss F y s :
  over P h G → over Q G K → strings K xs ss F → h !! y = None → no_nul s →
  let b := Chars (s ++ [0]) in
  over P (<[y := b]> h) (<[y := b]> G) ∧ over Q (<[y := b]> G) (<[y := b]> K) ∧
  strings (<[y := b]> K) (xs ++ [y]) (ss ++ [s]) F.
Proof.
  intros HP HQ Hs Hy Hn b. split; [by apply over_alloc|].
  apply strings_alloc_below; [done..| |done]. by eapply over_none.
Qed.

Lemma strings_free_below2 P Q h G K xs x ys ss s ts F :
  over P h G → over Q G K → strings K (xs ++ x :: ys) (ss ++ s :: ts) F → length xs = length ss →
  hfree h (Some x) = Ret (delete x h) ∧ over P (delete x h) (delete x G) ∧
  over Q (delete x G) (delete x K) ∧ strings (delete x K) (xs ++ ys) (ss ++ ts) F ∧
  string_at h x = Ret s ∧ no_nul s.
Proof.
  intros HP HQ Hs Hl. destruct (strings_free_below _ _ _ _ _ _ _ _ _ _ HQ Hs Hl) as (_ & HQ' & Hs' & E & Hn).
  destruct (strings_del _ _ _ _ _ _ _ _ Hs Hl) as (Hx & _ & _).
  destruct (over_free _ _ _ _ _ HP (lookup_weaken _ _ _ _ Hx (over_sub _ _ _ HQ))) as [Hf HP'].
  split_and!; [done..| |done]. unfold string_at, chars_at.
  rewrite (hread_Some h x (Chars (s ++ [0]))).
  2: { eapply lookup_weaken; [exact Hx|]. etrans; by eapply over_sub. }
  cbn [mbind outcome_bind]. by rewrite cstr_run.
Qed.

(** The strings behind [pre] are copied behind [ys]. *)
Lemma copy_rows_run suf h G K dest src pre ys sp sf ts rest F i :
  over (arr dest ((Some <$> ys) ++ replicate (length suf) None)) h G →
  over (arr src ((Some <$> pre) ++ (Some <$> suf) ++ rest)) G K →
  strings K ((pre ++ suf) ++ ys) ((sp ++ sf) ++ ts) F →
  length pre = length sp → length suf = length sf → length ys = length pre →
  i = Z.of_nat (length pre) →
  ∃ h' G' K' zs, copy_rows (length suf) i h dest src = Ret h' ∧
    over (arr dest (Some <$> (ys ++ zs))) h' G' ∧
    over (arr src ((Some <$> pre) ++ (Some <$> suf) ++ rest)) G' K' ∧
    length zs = length suf ∧ strings K' ((pre ++ suf) ++ ys ++ zs) ((sp ++ sf) ++ ts ++ sf) F.
Proof.
  revert h G K pre ys sp sf ts i. induction suf as [|x suf IH];
    intros h G K pre ys sp sf ts i Hd Hv Hs Hp Hsf Hy Hi.
  { destruct sf; [|done]. exists h, G, K, []. rewrite !app_nil_r in *. by split_and!. }
  destruct sf as [|s sf]; [done|]. cbn [length copy_rows replicate] in *. rewrite fmap_cons in Hv.
  rewrite (vget_mid h src (Some <$> pre) x ((Some <$> suf) ++ rest));
    [|eapply reads_weaken; [by eapply reads_over|by eapply over_sub]|by rewrite length_fmap].
  cbn [mbind outcome_bind]. pose proof Hs as Hs1. rewrite <-!app_assoc in Hs1.
  destruct (strings_free_below2 _ _ _ _ _ _ _ _ _ _ _ _ Hd Hv Hs1 Hp) as (_ & _ & _ & _ & -> & Hn).
  cbn [mbind outcome_bind]. unfold new_string.
  destruct (strings_alloc_below2 _ _ _ _ _ _ _ _ (hfresh h) s Hd Hv Hs (hfresh_spec h) Hn)
    as (Hd1 & Hv1 & Hs2).
  destruct (vset_mid _ _ _ _ _ (hfresh h) _ i Hd1) as (h2 & -> & Hd2); [rewrite length_fmap; lia|].
  cbn [mbind outcome_bind].
  destruct (IH h2 (<[hfresh h := Chars (s ++ [0])]> G) (<[hfresh h := Chars (s ++ [0])]> K) (pre ++ [x]) (ys ++ [hfresh h]) (sp ++ [s]) sf (ts ++ [s]) (i + 1))
    as (h' & G' & K' & zs & E & Hd' & Hv' & Hl & Hs').
  - rewrite fmap_app, <-app_assoc. exact Hd2.
  - rewrite fmap_app, <-app_assoc. exact Hv1.
  - by rewrite <-!app_assoc in *.
  - rewrite !length_app. simpl. lia.
  - simpl in Hsf. lia.
  - rewrite !length_app. simpl. lia.
  - rewrite length_app. simpl. lia.
  - rewrite <-!app_assoc in Hd'. rewrite <-!app_assoc in Hs'. rewrite fmap_app, <-app_assoc in Hv'.
    exists h', G', K', (hfresh h :: zs). split_and!; [done|done|done|simpl; lia|by rewrite <-!app_assoc].
Qed.

(** The whole function. *)
Lemma copy_run h G src xs ss F rest :
  over (arr src ((Some <$> xs) ++ rest)) h G → strings G xs ss F →
  ∃ h' dest G' K ys, Copy2dBufferFromBuffer (length xs) h src = Ret (h', dest) ∧
    over (arr dest (Some <$> ys)) h' G' ∧ over (arr src ((Some <$> xs) ++ rest)) G' K ∧
    length ys = length xs ∧ strings K (xs ++ ys) (ss ++ ss) F.
Proof.
  intros Hv Hs. unfold Copy2dBufferFromBuffer.
  destruct (vmalloc_run (A:=loc) (Z.of_nat (length xs)) h) as (h1 & dest & -> & Hd).
  rewrite Nat2Z.id in Hd.
  destruct (copy_rows_run xs h1 h G dest src [] [] [] ss [] rest F 0)
    as (h' & G' & K & zs & -> & Hd' & Hv' & Hl & Hs');
    [done|done|by rewrite !app_nil_r|done|by eapply strings_length|done|done|].
  cbn [mbind outcome_bind]. exists h', dest, G', K, zs. by split_and!.
Qed.

(** Printing a copy. *)
Lemma print_copy h G K dest src xs ys ss c F :
  over (arr dest (Some <$> ys)) h G → over (arr src c) G K →
  strings K (xs ++ ys) (ss ++ ss) F → length ys = length xs →
  print_rows (length xs) 0 h dest = Ret ss.
Proof.
  intros Hd Hv Hs Hl. pose proof (strings_length _ _ _ _ Hs) as Hlen. rewrite !length_app in Hlen.
  rewrite <-Hl. apply (print_rows_run ys ss h dest [] [] 0); [| |done].
  - apply strings_texts, Forall2_app_inv in Hs as [_ Hs]; [|lia].
    eapply texts_weaken; [exact Hs|]. etrans; by eapply over_sub.
  - intros _. rewrite app_nil_r. by eapply reads_over.
Qed.

(** Freeing a copy: the original is left. *)
Lemma free_copy h G K dest src xs ys ss c F :
  over (arr dest (Some <$> ys)) h G → over (arr src c) G K →
  strings K (xs ++ ys) (ss ++ ss) F → length ys = length xs →
  ∃ h' G' K', free_strings (length xs) 0 h dest = Ret h' ∧ over (arr dest (Some <$> ys)) h' G' ∧
    over (arr src c) G' K' ∧ strings K' xs ss F.
Proof.
  intros Hd Hv Hs Hl. pose proof (strings_length _ _ _ _ Hs) as Hlen. rewrite !length_app in Hlen.
  assert (∃ G1, over (text_blocks (xs ++ ys) (ss ++ ss)) G G1 ∧ over (arr src c) G1 F) as (G1 & Hs1 & Hv1).
  { eapply over_swap; [done|]. by apply strings_over. }
  apply strings_over in Hs1. rewrite <-Hl.
  destruct (free_strings_run ys h G dest [] [] xs ss ss G1 0) as (h' & G' & E & Hd' & Hs');
    [by rewrite app_nil_r|done|lia|done|].
  cbn [app] in Hd'. rewrite app_nil_r in Hd'. apply strings_over in Hs'.
  destruct (over_swap _ _ _ _ _ Hs' Hv1) as (K' & Hv' & Hs2). exists h', G', K'.
  split_and!; [done..|]. by apply strings_over.
Qed.

Lemma free_both_run xs h G K dd td ys ss ts cs cs' rest F i :
  over (arr dd (cs' ++ (Some <$> ys))) h G → over (arr td (cs ++ (Some <$> xs) ++ rest)) G K →
  strings K (xs ++ ys) (ss ++ ts) F → length xs = length ss → length ys = length xs →
  i = Z.of_nat (length cs) → i = Z.of_nat (length cs') →
  ∃ h' G', free_both (length xs) i h dd td = Ret h' ∧
    over (arr dd (cs' ++ (Some <$> ys))) h' G' ∧ over (arr td (cs ++ (Some <$> xs) ++ rest)) G' F.
Proof.
  revert h G K ys ss ts cs cs' i. induction xs as [|x xs IH];
    intros h G K ys ss ts cs cs' i Hd Hv Hs Hl Hy Hi Hi';
    pose proof (strings_length _ _ _ _ Hs) as Hlen; rewrite !length_app in Hlen.
  { destruct ys, ss, ts; try done. apply strings_nil in Hs as ->. by exists h, G. }
  destruct ys as [|y ys], ss as [|s ss], ts as [|t ts]; try (simpl in *; lia).
  cbn [length free_both]. rewrite fmap_cons in Hd, Hv.
  rewrite (vget_mid h dd cs' y (Some <$> ys)) by (by eapply reads_over || done).
  cbn [mbind outcome_bind].
  destruct (strings_free_below2 _ _ _ _ _ _ _ _ _ _ _ _ Hd Hv Hs Hl) as (-> & Hd1 & Hv1 & Hs1 & _).
  cbn [mbind outcome_bind].
  rewrite (vget_mid (delete y h) td cs x ((Some <$> xs) ++ rest));
    [|eapply reads_weaken; [by eapply reads_over|by eapply over_sub]|done].
  cbn [mbind outcome_bind].
  destruct (strings_free_below2 _ _ _ _ _ [] _ _ [] _ _ _ Hd1 Hv1 Hs1 eq_refl)
    as (-> & Hd2 & Hv2 & Hs2 & _). cbn [mbind outcome_bind].
  destruct (IH (delete x (delete y h)) (delete x (delete y G)) (delete x (delete y K)) ys ss ts (cs ++ [Some x]) (cs' ++ [Some y]) (i + 1)) as (h' & G' & E & Hd' & Hv').
  - rewrite <-app_assoc. exact Hd2.
  - rewrite <-app_assoc. exact Hv2.
  - exact Hs2.
  - simpl in Hl. lia.
  - simpl in Hy. lia.
  - rewrite length_app. simpl. lia.
  - rewrite length_app. simpl. lia.
  - rewrite <-app_assoc in Hd', Hv'. by exists h', G'.
Qed.

(** The strings of the old array move to new blocks. *)
Lemma move_rows_run olds h G K new old news ss ts cs rest m F i :
  over (arr new ((Some <$> news) ++ replicate (length olds + m) None)) h G →
  over (arr old (cs ++ (Some <$> olds) ++ rest)) G K →
  strings K (olds ++ news) (ss ++ ts) F → length olds = length ss →
  i = Z.of_nat (length cs) → i = Z.of_nat (length news) →
  ∃ h' G' K' zs, move_rows (length olds) i h new old = Ret h' ∧
    over (arr new ((Some <$> (news ++ zs)) ++ replicate m None)) h' G' ∧
    over (arr old (cs ++ (Some <$> olds) ++ rest)) G' K' ∧
    length zs = length olds ∧ strings K' (news ++ zs) (ts ++ ss) F.
Proof.
  revert h G K news ss ts cs i. induction olds as [|x olds IH];
    intros h G K news ss ts cs i Hn Ho Hs Hl Hi Hi'.
  { destruct ss; [|done]. exists h, G, K, []. rewrite !app_nil_r in *. by split_and!. }
  destruct ss as [|s ss]; [done|]. cbn [length move_rows Nat.add replicate] in *. rewrite fmap_cons in Ho.
  rewrite (vget_mid h old cs x ((Some <$> olds) ++ rest));
    [|eapply reads_weaken; [by eapply reads_over|by eapply over_sub]|done].
  cbn [mbind outcome_bind].
  destruct (strings_free_below2 _ _ _ _ _ [] _ _ [] _ _ _ Hn Ho Hs eq_refl) as (_ & _ & _ & _ & -> & Hnn).
  cbn [mbind outcome_bind]. unfold new_string.
  destruct (strings_alloc_below2 _ _ _ _ _ _ _ _ (hfresh h) s Hn Ho Hs (hfresh_spec h) Hnn)
    as (Hn1 & Ho1 & Hs1).
  destruct (vset_mid _ _ _ _ _ (hfresh h) _ i Hn1) as (h2 & -> & Hn2); [by rewrite length_fmap|].
  cbn [mbind outcome_bind]. rewrite <-!app_assoc in Hs1.
  destruct (strings_free_below2 _ _ _ _ _ [] _ _ [] _ _ _ Hn2 Ho1 Hs1 eq_refl)
    as (-> & Hn3 & Ho3 & Hs3 & _). cbn [mbind outcome_bind].
  destruct (IH (delete x h2) (delete x (<[hfresh h := Chars (s ++ [0])]> G))
    (delete x (<[hfresh h := Chars (s ++ [0])]> K)) (news ++ [hfresh h]) ss (ts ++ [s]) (cs ++ [Some x]) (i + 1))
    as (h' & G' & K' & zs & E & Hn' & Ho' & Hz & Hs').
  - rewrite fmap_app, <-app_assoc. exact Hn3.
  - rewrite <-app_assoc. exact Ho3.
  - exact Hs3.
  - simpl in Hl. lia.
  - rewrite length_app. simpl. lia.
  - rewrite length_app. simpl. lia.
  - rewrite <-app_assoc in Hn', Ho'. rewrite <-!app_assoc in Hs'.
    exists h', G', K', (hfresh h :: zs). split_and!; [done|done|done|simpl; lia|done].
Qed.

(** ** The text *)

(** The lines of a text that [strtok] finds. *)
Definition full_lines (s : list Z) : list (list Z) := filter (fun w => w ≠ []) (split_on NL s).

Lemma strtok_lines s b : no_nul s → strtok_all NL [] (s ++ 0 :: b) = Ret (full_lines s).
Proof.
  intros Hs. rewrite strtok_run by done. unfold full_lines.
  by destruct (split_on NL s) eqn:E; [apply split_on_not_nil in E|].
Qed.

Lemma full_lines_no_nul s : no_nul s → Forall no_nul (full_lines s).
Proof.
  intros H%(split_on_no_nul NL). apply Forall_forall. intros l [_ Hl]%list_elem_of_filter.
  by eapply Forall_forall.
Qed.

Lemma count_rows_run s b :
  no_nul s → count_rows (s ++ 0 :: b) = Ret (Z.of_nat (length (split_on NL s)) - 1).
Proof.
  unfold no_nul. induction s as [|c s IH]; intros Hs; [done|].
  apply not_elem_of_cons in Hs as [Hc Hs]. cbn [app count_rows split_on].
  rewrite (proj2 (Z.eqb_neq c 0)) by congruence. rewrite IH by done. cbn [mbind outcome_bind].
  pose proof (split_on_not_nil NL s) as Hne. f_equal.
  destruct (c =? NL); [simpl; lia|]. by destruct (split_on NL s).
Qed.

(** A line end at the end of the text adds an empty piece. *)
Lemma split_ended s : split_on NL (s ++ [NL]) = split_on NL s ++ [[]].
Proof.
  induction s as [|c s IH]; [done|]. cbn [app split_on]. rewrite IH.
  destruct (c =? NL); [done|].
  by destruct (split_on NL s) eqn:E; [apply split_on_not_nil in E|].
Qed.

Lemma full_lines_ended s : full_lines (s ++ [NL]) = full_lines s.
Proof. unfold full_lines. rewrite split_ended, filter_app. by rewrite app_nil_r. Qed.

(** ** [data-stream] *)

(** On any text: the array has a place for every line end, and is left when there are
    more lines than that. *)
Lemma print_stream_run h s b :
  no_nul s →
  Print2dBufferFromStream h (s ++ 0 :: b) =
    if decide (length (full_lines s) < length (split_on NL s))%nat
    then Ret (full_lines s, h) else Fault OutOfBounds.
Proof.
  intros Hs. unfold Print2dBufferFromStream. rewrite count_rows_run, strtok_lines by done.
  rewrite !outcome_ret_bind. pose proof (split_on_not_nil NL s) as Hne.
  destruct (vmalloc_run (A:=loc) (Z.of_nat (length (split_on NL s)) - 1) h) as (h0 & td & -> & Hv).
  replace (Z.to_nat _) with (length (split_on NL s) - 1)%nat in Hv by lia. rewrite outcome_ret_bind.
  case_decide as Hd.
  - destruct (store_rows_run (full_lines s) h0 h td [] [] h [] (length (split_on NL s) - 1) 0)
      as (h1 & G & ys & E & Hv1 & Hl & Hs1);
      [done|apply strings_none|by apply full_lines_no_nul|done|lia|].
    cbn [app] in Hv1, Hs1. rewrite E, outcome_ret_bind, <-Hl.
    rewrite (print_rows_all _ _ _ _ _ _ _ Hv1 Hs1), outcome_ret_bind.
    destruct (free_array_all _ _ _ _ _ _ _ Hv1 Hs1) as (h2 & -> & Hv2). rewrite outcome_ret_bind.
    by rewrite (vfree_run _ _ _ _ Hv2).
  - rewrite (store_rows_overrun (full_lines s) h0 h td [] (length (split_on NL s) - 1) 0); [done|done|done|].
    destruct (split_on NL s); [done|]. simpl in *. lia.
Qed.

(** The file in the buffer of [StreamTo2dInterface]. *)
Lemma read_text (text : list Z) m :
  (length text + 2 ≤ m)%nat →
  ∃ b, (source ← memcpy (replicate m 0) text (Z.of_nat (length text));
        source ← awrite source (Z.of_nat (length text)) NL;
        awrite source (Z.of_nat (length text) + 1) 0) = Ret ((text ++ [NL]) ++ 0 :: b).
Proof.
  intros Hm. rewrite memcpy_run by (rewrite ?length_replicate; lia).
  rewrite Nat2Z.id, take_ge, drop_replicate, outcome_ret_bind by lia.
  replace (m - length text)%nat with (S (S (m - length text - 2))) by lia.
  cbn [replicate]. rewrite awrite_mid by lia. rewrite outcome_ret_bind.
  exists (replicate (m - length text - 2) 0).
  pose proof (awrite_mid (text ++ [NL]) (replicate (m - length text - 2) 0) 0 0
    (Z.of_nat (length text) + 1)) as H.
  rewrite <-!app_assoc in *. apply H. rewrite length_app. simpl. lia.
Qed.

Lemma read_text_overrun (text : list Z) m :
  (m < length text + 2)%nat →
  (source ← memcpy (replicate m 0) text (Z.of_nat (length text));
   source ← awrite source (Z.of_nat (length text)) NL;
   awrite source (Z.of_nat (length text) + 1) 0) = Fault OutOfBounds.
Proof.
  intros Hm. destruct (decide (length text ≤ m)%nat) as [Hl|Hl].
  - rewrite memcpy_run by (rewrite ?length_replicate; lia).
    rewrite Nat2Z.id, take_ge, drop_replicate, outcome_ret_bind by lia.
    destruct (m - length text)%nat as [|[|]] eqn:E; [| |lia]; cbn [replicate].
    + rewrite app_nil_r. by rewrite awrite_past by lia.
    + rewrite awrite_mid by lia. rewrite outcome_ret_bind.
      by rewrite awrite_past by (rewrite length_app; simpl; lia).
  - unfold memcpy. by rewrite decide_False by (rewrite length_replicate; lia).
Qed.

(** The program prints the lines of the file that are not empty, in their order, and
    frees all it allocated. With no file it prints nothing. A file that does not fit
    the buffer with its line end and its zero is written past the end. *)
Theorem stream_prints_lines h text :
  no_nul text →
  StreamTo2dInterface h (Some text) =
    (if decide (Z.of_nat (length text) + 2 ≤ MAX_STREAM_LEN)
     then Ret (full_lines text, h) else Fault OutOfBounds) ∧
  StreamTo2dInterface h None = Ret ([], h).
Proof.
  intros Ht. unfold StreamTo2dInterface. cbv zeta. assert (Hm : 0 < MAX_STREAM_LEN) by done.
  remember MAX_STREAM_LEN as m eqn:E. clear E. split.
  - case_decide as Hd.
    + destruct (read_text text (Z.to_nat m)) as [b ->]; [lia|]. rewrite outcome_ret_bind.
      rewrite print_stream_run, full_lines_ended, split_ended.
      * rewrite decide_True; [done|]. rewrite length_app. unfold full_lines.
        pose proof (length_filter (fun w => w ≠ []) (split_on NL text)). simpl. lia.
      * apply not_elem_of_app. split; [done|]. by apply (bool_decide_unpack (0 ∉ [NL])).
    + by rewrite read_text_overrun by lia.
  - rewrite outcome_ret_bind. destruct (Z.to_nat m) as [|k] eqn:Ek; [lia|].
    change (replicate (S k) 0) with ([] ++ 0 :: replicate k 0).
    rewrite print_stream_run; [done|]. by apply not_elem_of_nil.
Qed.

Lemma stream_prints_lines_witness :
  StreamTo2dInterface ∅ (Some [97; 10; 10; 98; 99]) = Ret ([[97]; [98; 99]], ∅) ∧
  StreamTo2dInterface ∅ None = Ret ([], ∅).
Proof.
  apply (stream_prints_lines ∅ [97; 10; 10; 98; 99]).
  by apply (bool_decide_unpack (0 ∉ [97; 10; 10; 98; 99])).
Defined.

(** The function of the fixed array: both copies hold the lines of the text and all
    blocks are freed, when there are at most [MAX_ROW_NUM] lines that are not empty;
    one more is stored behind the array. *)
Theorem two_copies_printed h s b :
  no_nul s →
  Print2dBufferFromBuffer h (s ++ 0 :: b) =
    if decide (Z.of_nat (length (full_lines s)) ≤ MAX_ROW_NUM)
    then Ret (full_lines s, full_lines s, h) else Fault OutOfBounds.
Proof.
  intros Hs. unfold Print2dBufferFromBuffer. rewrite count_rows_run, strtok_lines by done.
  rewrite !outcome_ret_bind. assert (Hm : 0 ≤ MAX_ROW_NUM) by done.
  remember MAX_ROW_NUM as m eqn:E. clear E.
  destruct (vmalloc_run (A:=loc) m h) as (h0 & td & -> & Hv0). rewrite outcome_ret_bind. cbv zeta.
  case_decide as Hd; [|by rewrite (store_rows_overrun (full_lines s) h0 h td [] (Z.to_nat m) 0) by (done || lia)].
  destruct (store_rows_run (full_lines s) h0 h td [] [] h [] (Z.to_nat m) 0)
    as (h1 & G1 & xs & E & Hv1 & Hl & Hs1); [done|apply strings_none|by apply full_lines_no_nul|done|lia|].
  cbn [app] in Hv1, Hs1. rewrite E, outcome_ret_bind, <-Hl. clear E.
  set (rest := replicate (Z.to_nat m - length (full_lines s)) None) in Hv1.
  destruct (copy_run _ _ _ _ _ _ _ Hv1 Hs1) as (h2 & dd & G2 & K2 & ys & -> & Hd2 & Hv2 & Hy & Hs2).
  rewrite outcome_ret_bind, (print_copy _ _ _ _ _ _ _ _ _ _ Hd2 Hv2 Hs2 Hy), outcome_ret_bind.
  destruct (free_copy _ _ _ _ _ _ _ _ _ _ Hd2 Hv2 Hs2 Hy) as (h3 & G3 & K3 & -> & Hd3 & Hv3 & Hs3).
  rewrite outcome_ret_bind, (vfree_run _ _ _ _ Hd3), outcome_ret_bind.
  destruct (copy_run _ _ _ _ _ _ _ Hv3 Hs3) as (h4 & dd' & G4 & K4 & zs & -> & Hd4 & Hv4 & Hz & Hs4).
  rewrite outcome_ret_bind, (print_copy _ _ _ _ _ _ _ _ _ _ Hd4 Hv4 Hs4 Hz), outcome_ret_bind.
  destruct (free_both_run xs h4 G4 K4 dd' td zs (full_lines s) (full_lines s) [] [] rest h 0)
    as (h5 & G5 & -> & Hd5 & Hv5); try done.
  by rewrite outcome_ret_bind, (vfree_run _ _ _ _ Hd5), outcome_ret_bind, (vfree_run _ _ _ _ Hv5).
Qed.

(** Two lines, and a text with one line too many. *)
Lemma two_copies_printed_witness :
  Print2dBufferFromBuffer ∅ [97; 10; 98; 10; 0] = Ret ([[97]; [98]], [[97]; [98]], ∅) ∧
  Print2dBufferFromBuffer ∅ (concat (replicate 129 [97; 10]) ++ [0]) = Fault OutOfBounds.
Proof.
  split.
  - apply (two_copies_printed ∅ [97; 10; 98; 10] []).
    by apply (bool_decide_unpack (0 ∉ [97; 10; 98; 10])).
  - apply (two_copies_printed ∅ (concat (replicate 129 [97; 10])) []).
    by apply (bool_decide_unpack (0 ∉ concat (replicate 129 [97; 10]))).
Defined.

(** ** [data-vector]: the vectors that are copied *)

(** The old vector is replaced by one with all its strings in new blocks. *)
Lemma push_back_run h F v xs ss t :
  svec v xs ss h F → no_nul t →
  ∃ h' v' ys, PushBackString h (mkVS (length xs) v) t = Ret (h', mkVS (S (length xs)) v') ∧
    length ys = S (length xs) ∧ svec v' ys (ss ++ [t]) h' F.
Proof.
  intros (G & Hv & Hs) Ht. unfold PushBackString. cbn [vs_size vs_vector].
  destruct (vmalloc_run (A:=loc) (Z.of_nat (length xs) + 1) h) as (h0 & new & -> & Hn).
  replace (Z.to_nat _) with (length xs + 1)%nat in Hn by lia.
  assert (∃ h1 G1 zs, (h ← move_rows (length xs) 0 h0 new v;
      if (length xs =? 0)%nat then Ret h else vfree h v) = Ret h1 ∧
    over (arr new ((Some <$> zs) ++ [None])) h1 G1 ∧ length zs = length xs ∧ strings G1 zs ss F)
    as (h1 & G1 & zs & E & Hn1 & Hz & Hs1).
  { destruct xs as [|x xs].
    { apply elems_nil in Hv as ->. by exists h0, G, []. }
    rewrite elems_cons in Hv by done.
    destruct (move_rows_run (x :: xs) h0 h G new v [] ss [] [] [] 1 F 0)
      as (h1 & G1 & K1 & zs & -> & Hn1 & Ho1 & Hz & Hs1);
      [done|by rewrite app_nil_r|by rewrite !app_nil_r|by eapply strings_length|done|done|].
    rewrite outcome_ret_bind. cbn [app] in *. rewrite app_nil_r in Ho1.
    destruct (over_swap _ _ _ _ _ Hn1 Ho1) as (G2 & Ho2 & Hn2).
    change (length (x :: xs) =? 0)%nat with false. cbn iota. rewrite (vfree_run _ _ _ _ Ho2).
    by exists G2, K1, zs. }
  destruct (move_rows (length xs) 0 h0 new v) as [h2|]; [|done]. cbn [mbind outcome_bind] in E |- *.
  rewrite E, outcome_ret_bind. unfold new_string.
  destruct (strings_alloc_below _ _ _ _ _ _ (hfresh h1) t Hn1 Hs1 (hfresh_spec h1) Ht) as [Hn2 Hs2].
  destruct (vset_mid _ _ _ _ _ (hfresh h1) _ (Z.of_nat (length xs)) Hn2) as (h3 & -> & Hn3);
    [rewrite length_fmap; lia|].
  rewrite outcome_ret_bind. exists h3, new, (zs ++ [hfresh h1]).
  split_and!; [done|rewrite length_app; simpl; lia|]. eexists. split; [|exact Hs2].
  rewrite elems_cons by by destruct zs. by rewrite fmap_app.
Qed.

Lemma push_all_run toks h F v xs ss :
  svec v xs ss h F → Forall no_nul toks →
  ∃ h' ys v', push_all PushBackString toks h (mkVS (length xs) v) = Ret (h', mkVS (length ys) v') ∧
    svec v' ys (ss ++ toks) h' F.
Proof.
  revert h v xs ss. induction toks as [|t toks IH]; intros h v xs ss Hs Hn.
  { exists h, xs, v. by rewrite app_nil_r. }
  apply Forall_cons in Hn as [Ht Hn]. cbn [push_all].
  destruct (push_back_run h F v xs ss t Hs Ht) as (h1 & v1 & ys & -> & Hl & Hs1).
  rewrite outcome_ret_bind, <-Hl.
  destruct (IH h1 v1 ys (ss ++ [t])) as (h' & zs & v' & E & Hs'); [done|done|].
  rewrite <-app_assoc in Hs'. eauto 10.
Qed.

Lemma svec_print v xs ss h F : svec v xs ss h F → print_rows (length ss) 0 h v = Ret ss.
Proof.
  intros Hs. rewrite <-(svec_length _ _ _ _ _ Hs). destruct (svec_reads _ _ _ _ _ Hs) as [Ht Hr].
  apply (print_rows_run xs ss h v [] [] 0); [done| |done]. rewrite app_nil_r. exact Hr.
Qed.

(** The vector filled by copying: what it holds is the lines of the text. The first part
    frees every block, but without a line the pointer that is freed was never set. The
    third part frees the strings and leaves the array. *)
Theorem pushed_lines_printed h s b :
  no_nul s →
  print_pushed h (s ++ 0 :: b) =
    (if decide (full_lines s = []) then Fault Uninit else Ret (full_lines s, h)) ∧
  ∃ h' v xs, print_deleted PushBackString h (s ++ 0 :: b) = Ret (full_lines s, h') ∧
    length xs = length (full_lines s) ∧ over (elems v xs) h' h.
Proof.
  intros Hs. unfold print_pushed, print_deleted, VS_delete, VS_new.
  rewrite strtok_lines, !outcome_ret_bind by done.
  destruct (push_all_run (full_lines s) h h VNone [] [] (svec_none _ _) (full_lines_no_nul s Hs))
    as (h1 & ys & v & E & Hs1).
  cbn [app length] in *. pose proof (svec_length _ _ _ _ _ Hs1) as Hl. split.
  - case_decide as Hd; [by rewrite Hd|].
    rewrite E, outcome_ret_bind. cbn [vs_size vs_vector].
    rewrite Hl, (svec_print _ _ _ _ _ Hs1), outcome_ret_bind.
    pose proof (free_vector_run _ _ _ _ _ Hs1 Hd) as Hf.
    destruct (free_strings _ _ _ _); [|done]. cbn [mbind outcome_bind] in Hf |- *. by rewrite Hf.
  - rewrite E, outcome_ret_bind. cbn [vs_size vs_vector].
    rewrite Hl, (svec_print _ _ _ _ _ Hs1), outcome_ret_bind.
    destruct (free_strings_all _ _ _ _ _ Hs1) as (h2 & -> & Hv). by exists h2, v, ys.
Qed.

Lemma pushed_lines_printed_witness :
  print_pushed ∅ [97; 10; 98; 0] = Ret ([[97]; [98]], ∅) ∧
  ∃ h' v xs, print_deleted PushBackString ∅ [97; 10; 98; 0] = Ret ([[97]; [98]], h') ∧
    length xs = 2%nat ∧ over (elems (A:=loc) v xs) h' ∅.
Proof.
  apply (pushed_lines_printed ∅ [97; 10; 98] []).
  by apply (bool_decide_unpack (0 ∉ [97; 10; 98])).
Defined.

(** The whole demonstration cannot reach its end: a text without a line fails at the
    first [free] of the array, one with a line at the first [VS_append], which frees the
    array of a new vector; a text longer than the copies leaves them. *)
Theorem push_back_demo_faults h s b :
  no_nul s →
  PrintPushBackStringStruct h (s ++ 0 :: b) =
    Fault (if Z.of_nat (length s) <? MAX_STREAM_LEN then Uninit else OutOfBounds).
Proof.
  intros Hs. unfold PrintPushBackStringStruct. rewrite cstr_run, outcome_ret_bind by done.
  destruct (_ <? _); [|done].
  unfold print_pushed, print_deleted, VS_new.
  rewrite !strtok_lines, !outcome_ret_bind by done.
  destruct (push_all_run (full_lines s) h h VNone [] [] (svec_none _ _) (full_lines_no_nul s Hs))
    as (h1 & ys & v & E & Hs1).
  cbn [app length] in *. pose proof (svec_length _ _ _ _ _ Hs1) as Hl.
  rewrite E, outcome_ret_bind. cbn [vs_size vs_vector].
  rewrite Hl, (svec_print _ _ _ _ _ Hs1), outcome_ret_bind.
  destruct (full_lines s) as [|t ts] eqn:El.
  - cbn [push_all] in E. injection E as _ _ <-. done.
  - pose proof (free_vector_run _ _ _ _ _ Hs1 ltac:(done)) as Hf.
    destruct (free_strings _ _ _ _); [|done]. cbn [mbind outcome_bind] in Hf |- *. by rewrite Hf.
Qed.

Lemma push_back_demo_faults_witness :
  PrintPushBackStringStruct ∅ [97; 10; 98; 0] = Fault Uninit.
Proof.
  apply (push_back_demo_faults ∅ [97; 10; 98] []).
  by apply (bool_decide_unpack (0 ∉ [97; 10; 98])).
Defined.

(** ** [data-vector]: the program *)

Lemma push_lines_run lines h F v xs ss :
  svec v xs ss h F → Forall no_nul lines →
  ∃ h' ys v', push_lines lines (Z.of_nat (length xs)) h v = Ret (h', v') ∧
    svec v' ys (ss ++ lines) h' F.
Proof.
  revert h v xs ss. induction lines as [|l lines IH]; intros h v xs ss Hs Hn.
  { exists h, xs, v. by rewrite app_nil_r. }
  apply Forall_cons in Hn as [Hl Hn]. cbn [push_lines].
  destruct (push_string_run h F v xs ss l Hs Hl) as (h1 & v1 & ys & -> & Hy & Hs1).
  rewrite outcome_ret_bind. replace (Z.of_nat (length xs) + 1) with (Z.of_nat (length ys)) by lia.
  destruct (IH h1 v1 ys (ss ++ [l])) as (h' & zs & v' & E & Hs'); [done|done|].
  rewrite <-app_assoc in Hs'. eauto 10.
Qed.

(** An index that is not there, in a vector with elements. *)
Lemma erase_string_off h n v index :
  0 < n ≤ index → VECTOR_EraseString h n v index = Ret (-2, h, v).
Proof.
  intros Hn. unfold VECTOR_EraseString. rewrite (proj2 (Z.ltb_ge _ _)) by lia.
  by rewrite (proj2 (Z.leb_le _ _)) by lia.
Qed.

(** One [VECTOR_EraseString] of the program. *)
Lemma erase_step h F v xs ss k :
  svec v xs ss h F → (0 < k)%nat → ss ≠ [] →
  if decide (k < length ss)%nat then
    ∃ h' v' ys, VECTOR_EraseString h (Z.of_nat (length ss)) v (Z.of_nat k) = Ret (0, h', v') ∧
      svec v' ys (delete k ss) h' F ∧ length (delete k ss) = (length ss - 1)%nat
  else VECTOR_EraseString h (Z.of_nat (length ss)) v (Z.of_nat k) = Ret (-2, h, v).
Proof.
  intros Hs Hk Hne. case_decide as Hd;
    [|apply erase_string_off; destruct ss; [done|simpl in *; lia]].
  destruct (erase_string_at h F v xs ss (Z.of_nat k) Hs) as (h' & v' & ys & E & Hs'); [lia|].
  rewrite (proj2 (Nat.eqb_neq _ _)) in E by lia. rewrite Nat2Z.id in Hs'.
  exists h', v', ys. split_and!; [done..|]. by apply length_delete, lookup_lt_is_Some_2.
Qed.

(** C36. The program prints all lines of the text, then the lines without the one of index
    17, then these without the one of index 19, and frees every block it allocated, the
    strings and the arrays. With fewer than 18 lines it ends at the first erasing, with
    18 to 20 at the second, each time with the lines it has printed so far, and what is
    allocated is exactly the vector of the lines that are left. *)
Theorem reduced_lines_printed h s b :
  no_nul s →
  let lines := split_on NL s in
  let lines17 := delete 17%nat lines in
  let lines19 := delete 19%nat lines17 in
  if decide (21 ≤ length lines)%nat then
    PrintReducedVectorString h (s ++ 0 :: b) = Ret (Printed lines lines17 lines19, h)
  else if decide (18 ≤ length lines)%nat then
    ∃ h' v xs, PrintReducedVectorString h (s ++ 0 :: b) = Ret (Ended19 lines lines17, h') ∧
      svec v xs lines17 h' h
  else
    ∃ h' v xs, PrintReducedVectorString h (s ++ 0 :: b) = Ret (Ended17 lines, h') ∧
      svec v xs lines h' h.
Proof.
  intros Hs lines lines17 lines19. unfold PrintReducedVectorString.
  rewrite (strsep_all_run NL s b), outcome_ret_bind by (done || rewrite length_app; lia).
  cbv zeta. fold lines.
  destruct (push_lines_run lines h h VNone [] [] (svec_none _ _) (split_on_no_nul NL s Hs))
    as (h1 & xs & v1 & E & Hs1).
  cbn [app] in Hs1. change (Z.of_nat (length [])) with 0 in E. rewrite E, outcome_ret_bind.
  rewrite (svec_print _ _ _ _ _ Hs1), outcome_ret_bind.
  pose proof (erase_step _ _ _ _ _ 17 Hs1 ltac:(lia) (split_on_not_nil NL s)) as H1.
  fold lines lines17 in H1. change (Z.of_nat 17) with 17 in H1. destruct (decide (17 < _)%nat) as [D1|D1].
  2: { rewrite H1, outcome_ret_bind, !decide_False by lia. by exists h1, v1, xs. }
  destruct H1 as (h2 & v2 & ys & -> & Hs2 & L2). rewrite outcome_ret_bind.
  change (0 <? 0) with false. cbn iota. rewrite <-L2, (svec_print _ _ _ _ _ Hs2), outcome_ret_bind.
  assert (lines17 ≠ []) as N2 by (intros E2; rewrite E2 in L2; simpl in L2; lia).
  pose proof (erase_step _ _ _ _ _ 19 Hs2 ltac:(lia) N2) as H2. fold lines19 in H2.
  change (Z.of_nat 19) with 19 in H2.
  replace (Z.of_nat (length lines) - 1) with (Z.of_nat (length lines17)) by lia.
  destruct (decide (19 < _)%nat) as [D2|D2].
  2: { rewrite H2, outcome_ret_bind, decide_False, decide_True by lia. by exists h2, v2, ys. }
  destruct H2 as (h3 & v3 & zs & -> & Hs3 & L3). rewrite outcome_ret_bind, decide_True by lia.
  change (0 <? 0) with false. cbn iota.
  replace (length lines - 2)%nat with (length lines19) by lia.
  rewrite (svec_print _ _ _ _ _ Hs3), outcome_ret_bind.
  assert (lines19 ≠ []) as N3 by (intros E3; rewrite E3 in L3; simpl in L3; lia).
  pose proof (free_vector_run _ _ _ _ _ Hs3 N3) as Hf.
  destruct (free_strings _ _ _ _); [|done]. cbn [mbind outcome_bind] in Hf |- *. by rewrite Hf.
Qed.

(** Twenty-one lines, and two. *)
Lemma reduced_lines_printed_witness :
  let text := concat ((fun c => [c; NL]) <$> seqZ 65 20) in
  PrintReducedVectorString ∅ (text ++ [0]) =
    Ret (Printed (split_on NL text) (delete 17%nat (split_on NL text))
      (delete 19%nat (delete 17%nat (split_on NL text))), ∅) ∧
  ∃ h' v xs, PrintReducedVectorString ∅ [97; 10; 98; 0] = Ret (Ended17 [[97]; [98]], h') ∧
    svec v xs [[97]; [98]] h' ∅.
Proof.
  split.
  - pose proof (reduced_lines_printed ∅ (concat ((fun c => [c; NL]) <$> seqZ 65 20)) []) as H.
    cbv zeta in H. rewrite decide_True in H by (vm_compute; lia). apply H.
    by apply (bool_decide_unpack (0 ∉ concat ((fun c => [c; NL]) <$> seqZ 65 20))).
  - pose proof (reduced_lines_printed ∅ [97; 10; 98] []) as H.
    cbv zeta in H. rewrite !decide_False in H by (vm_compute; lia). apply H.
    by apply (bool_decide_unpack (0 ∉ [97; 10; 98])).
Defined.
