(* ===== verification/Ncat.v ===== *)
(** * Sending lines over a connection ([var-ncat])

    The client sends every line of its input as a frame, four bytes of length in network
    order and the line without its line end; the server reads frames and prints them. A
    [read] of a socket may give fewer bytes than asked for: how many is an argument of
    the model, for the reads of the four bytes ([hz]) and for those of the lines ([bz]).
    The server can also send a text to each client, which it collects from its input in a
    second thread ([loader]).

    The theorems: every line the client sends is printed by the server, in order and
    unchanged, however the network divides the lines; and where the program leaves its
    memory: a divided length, the test for the exit command, the end of the input, the
    text sent by the server, and a loader that is slower than the program waits. *)

From stdpp Require Import base tactics numbers list gmap.
From S2P Require Import Prelude Heap CStr Grep.

Local Open Scope Z_scope.

Definition INPUT_BUFF_CHUNK : Z := 8192.
Definition header_size : Z := 4.
(** The characters of [CLIENT_EXIT] and its zero. *)
Definition CLIENT_EXIT : list Z := [101; 120; 105; 116; 0].

(** Storing bytes at an offset of a block. *)
Definition store_at (b : list Z) (off : Z) (bs : list Z) : outcome (list Z) :=
  if decide (0 ≤ off ∧ off + Z.of_nat (length bs) ≤ Z.of_nat (length b))
  then Ret (take (Z.to_nat off) b ++ bs ++ drop (Z.to_nat off + length bs) b)
  else Fault OutOfBounds.

(** The bytes in memory of [htonl(x)], and [ntohl] of four bytes in memory. *)
Definition htonl_bytes (x : Z) : list Z :=
  [x / 2 ^ 24 mod 256; x / 2 ^ 16 mod 256; x / 2 ^ 8 mod 256; x mod 256].

Definition ntohl_bytes (b : list Z) : Z := foldl (fun n c => n * 256 + c) 0 b.

(** [strcmp(l, b) == 0] for a literal with its zero. *)
Fixpoint strcmp_eq (l b : list Z) : outcome bool :=
  match l with
  | [] => Ret true
  | c :: l =>
    match b with
    | [] => Fault OutOfBounds
    | c' :: b => if c =? c' then strcmp_eq l b else Ret false
    end
  end.

(** ** The arguments *)

Record NCAT_OPTIONS := mkOpts {
  mode_client : bool;
  mode_listen : bool;
  host : list Z;
  port : list Z;
}.

(** [--listen] and [-l]. *)
Definition listen_flags : list (list Z) := [[45; 45; 108; 105; 115; 116; 101; 110]; [45; 108]].

(** [argv] without the name of the program. *)
Definition NCAT_parse_args (argv : list (list Z)) : option NCAT_OPTIONS :=
  let argc := length argv in
  if (argc <? 2)%nat then None
  else
    let argc_nohp := (argc - 2)%nat in
    let listen := existsb (fun a => bool_decide (a ∈ listen_flags)) (take argc_nohp argv) in
    h ← argv !! argc_nohp;
    p ← argv !! S argc_nohp;
    Some (mkOpts (negb listen) listen h p).

(** ** The client *)

Inductive turn :=
  | TExit
  | TSend (data : list Z).

(** One round of the loop of [NCAT_client] up to the [write], and the input behind the
    line. *)
Definition client_turn (stdin : list Z) : outcome (turn * list Z) :=
  let data := replicate (Z.to_nat (header_size + INPUT_BUFF_CHUNK)) 0 in
  let '(line, rest) := fgets (Z.to_nat (INPUT_BUFF_CHUNK - header_size - 1)) stdin in
  data ← (match stdin with [] => Ret data | _ => store_at data header_size (line ++ [0]) end);
  message_len ← strlen (drop (Z.to_nat header_size) data);
  let content_len := header_size + message_len - 1 in
  data ← awrite data content_len 0;
  let data := take (Z.to_nat content_len) data in
  is_exit ← strcmp_eq CLIENT_EXIT (drop (Z.to_nat header_size) data);
  if (is_exit : bool) then Ret (TExit, rest)
  else
    data ← store_at data 0 (htonl_bytes (u32 (content_len - header_size)));
    Ret (TSend data, rest).

(** The loop: the bytes that were written, and how it ended. [wr k n] is what the
    [k]-th [write], of [n] bytes, returns. *)
Fixpoint client_loop (fuel : nat) (wr : nat -> Z -> Z) (k : nat) (stdin : list Z)
    : list (list Z) * outcome unit :=
  match fuel with
  | O => ([], Fault OutOfFuel)
  | S fuel =>
    match client_turn stdin with
    | Fault f => ([], Fault f)
    | Ret (TExit, _) => ([], Ret tt)
    | Ret (TSend data, rest) =>
      let wb := wr k (Z.of_nat (length data)) in
      if wb <=? 0 then ([], Ret tt)
      else
        let '(sent, o) := client_loop fuel wr (S k) rest in
        (take (Z.to_nat wb) data :: sent, o)
    end
  end.

Definition NCAT_client (wr : nat -> Z -> Z) (stdin : list Z) : list (list Z) * outcome unit :=
  client_loop (S (length stdin)) wr 0 stdin.

(** ** The server *)

Section server.
Context (hz bz : nat -> Z) (junk : nat -> Z).

(** What is left of a connection: the bytes to come and the number of reads so far. *)
Record conn := mkConn { bytes : list Z; reads : nat }.

(** [read] of at most [n] bytes, of which [z] are there: none at the end of the
    connection or for an error. *)
Definition sock_read (z n : Z) (c : conn) : list Z * conn :=
  let m := Z.to_nat (Z.min z n) in
  (take m (bytes c), mkConn (drop m (bytes c)) (S (reads c))).

(** The four bytes of the length; [&rhead + valread] counts in units of four bytes. *)
Fixpoint read_head (fuel : nat) (valread : Z) (rhead : list Z) (c : conn)
    : outcome (option (list Z) * conn) :=
  match fuel with
  | O => Fault OutOfFuel
  | S fuel =>
    if valread <? 4 then
      let '(bs, c) := sock_read (hz (reads c)) (4 - valread) c in
      match bs with
      | [] => Ret (None, c)
      | _ =>
        rhead ← store_at rhead (4 * valread) bs;
        read_head fuel (valread + Z.of_nat (length bs)) rhead c
      end
    else Ret (Some rhead, c)
  end.

Fixpoint read_body (fuel : nat) (valread datalen : Z) (data : list Z) (c : conn)
    : outcome (option (list Z) * conn) :=
  match fuel with
  | O => Fault OutOfFuel
  | S fuel =>
    if valread <? datalen then
      let '(bs, c) := sock_read (bz (reads c)) (datalen - valread) c in
      match bs with
      | [] => Ret (None, c)
      | _ =>
        data ← store_at data valread bs;
        read_body fuel (valread + Z.of_nat (length bs)) datalen data c
      end
    else Ret (Some data, c)
  end.

(** A new block: its bytes are not set. *)
Definition malloc (n : Z) : list Z := junk <$> seq 0 (Z.to_nat n).

(** One frame at the server: what is printed, none when the connection ended. *)
Definition serve_frame (rhead : list Z) (c : conn)
    : outcome (option (list Z * list Z) * conn) :=
  '(head, c) ← read_head (S (length (bytes c))) 0 rhead c;
  match head with
  | None => Ret (None, c)
  | Some rhead =>
    let datalen := ntohl_bytes rhead in
    let data := malloc (u32 (datalen + 1)) in
    data ← awrite data datalen 0;
    '(data, c) ← read_body (S (length (bytes c))) 0 datalen data c;
    match data with
    | None => Ret (None, c)
    | Some data => line ← cstr data; Ret (Some (line, rhead), c)
    end
  end.

(** The loop of [NCAT_listen_and_serve] over the frames of a connection: what it
    prints. *)
Fixpoint serve_loop (fuel : nat) (rhead : list Z) (c : conn) : outcome (list (list Z)) :=
  match fuel with
  | O => Fault OutOfFuel
  | S fuel =>
    '(r, c) ← serve_frame rhead c;
    match r with
    | None => Ret []
    | Some (line, rhead) => lines ← serve_loop fuel rhead c; Ret (line :: lines)
    end
  end.

Definition serve (received : list Z) : outcome (list (list Z)) :=
  serve_loop (S (length received)) [0; 0; 0; 0] (mkConn received 0).

(** What the server sends to a new client: the text in [serve_content]. *)
Definition send_content (serve_content : list Z) : outcome (list Z) :=
  s ← cstr serve_content;
  Ret (htonl_bytes (u32 (Z.of_nat (length s))) ++ s).

(** One frame at the client, in [NCAT_get_thread]: the block has no place for a
    zero. *)
Definition client_frame (c : conn) : outcome (option (list Z) * conn) :=
  '(head, c) ← read_head (S (length (bytes c))) 0 [0; 0; 0; 0] c;
  match head with
  | None => Ret (None, c)
  | Some rhead =>
    let datalen := ntohl_bytes rhead in
    '(data, c) ← read_body (S (length (bytes c))) 0 datalen (malloc datalen) c;
    match data with
    | None => Ret (None, c)
    | Some data => line ← cstr data; Ret (Some line, c)
    end
  end.
End server.

(** ** The text of the server *)

(** Where the thread of [NCAT_get_thread] is: before its [malloc], in the loop with the
    block [content_ptr] points into, the bytes stored and the chunks, or done. *)
Inductive loader :=
  | LStart
  | LLoop (base : ptr) (content_len chunk : Z)
  | LDone.

(** Where [NCAT_runner] is: waiting for the signal, with the polls it still makes, or
    serving. *)
Inductive runner :=
  | RWait (polls : nat)
  | RServe.

Record listener := mkListener {
  blocks : gmap loc (list Z);
  serve_content : ptr;
  signalled : bool;
  l_at : loader;
  r_at : runner;
  input : list Z;
}.

(** At a timeout [count] goes up by two: three polls. *)
Definition listener_init (input : list Z) : listener :=
  mkListener ∅ None false LStart (RWait 3) input.

(** [(c = fgetc(stdin)) != EOF] with a [char]: the byte 255 is the end as well. *)
Definition next_char (bs : list Z) : option (Z * list Z) :=
  match bs with
  | [] => None
  | c :: bs => if c =? 255 then None else Some (c, bs)
  end.

(** A step of the loading thread: the bytes of a grown block are not set. *)
Definition loader_step (junk : Z -> Z) (s : listener) : option (outcome listener) :=
  match l_at s with
  | LStart =>
    let x := hfresh (blocks s) in
    Some (Ret (mkListener (<[x := replicate (Z.to_nat INPUT_BUFF_CHUNK) 0]> (blocks s)) (Some x)
      (signalled s) (LLoop (Some x) 0 1) (r_at s) (input s)))
  | LLoop base content_len chunk =>
    match next_char (input s) with
    | None => Some (Ret (mkListener (blocks s) (serve_content s)
                (signalled s || negb (content_len =? 0)) LDone (r_at s) (input s)))
    | Some (c, cs) => Some (
      b ← hread (blocks s) base;
      b ← awrite b content_len c;
      h ← hwrite (blocks s) base b;
      let content_len := content_len + 1 in
      if content_len =? INPUT_BUFF_CHUNK * chunk then
        b ← hread h (serve_content s);
        h ← hfree h (serve_content s);
        let x := hfresh h in
        let b := b ++ (junk <$> seqZ (INPUT_BUFF_CHUNK * chunk) INPUT_BUFF_CHUNK) in
        Ret (mkListener (<[x := b]> h) (Some x) (signalled s) (LLoop (Some x) content_len (chunk + 1))
               (r_at s) cs)
      else Ret (mkListener h (serve_content s) (signalled s)
                  (LLoop (serve_content s) content_len chunk) (r_at s) cs))
    end
  | LDone => None
  end.

(** A step of the waiting thread: it has the signal, it polls again, or it frees the
    text. *)
Definition runner_step (s : listener) : option (outcome listener) :=
  match r_at s with
  | RWait polls =>
    let at_ r := mkListener (blocks s) (serve_content s) (signalled s) (l_at s) r (input s) in
    match polls with
    | S polls => Some (Ret (at_ (if signalled s then RServe else RWait polls)))
    | O => Some (
      h ← hfree (blocks s) (serve_content s);
      Ret (mkListener h None (signalled s) (l_at s) RServe (input s)))
    end
  | RServe => None
  end.

Inductive listener_reach (junk : Z -> Z) (input : list Z) : listener -> Prop :=
  | lr_init : listener_reach junk input (listener_init input)
  | lr_load s s' : listener_reach junk input s → loader_step junk s = Some (Ret s') →
      listener_reach junk input s'
  | lr_run s s' : listener_reach junk input s → runner_step s = Some (Ret s') →
      listener_reach junk input s'.

#[global] Arguments store_at : simpl never.
#[global] Arguments htonl_bytes : simpl never.
#[global] Arguments ntohl_bytes : simpl never.

(** ** Frames *)

(** A line on the wire. *)
Definition frame (m : list Z) : list Z := htonl_bytes (Z.of_nat (length m)) ++ m.

Lemma frame_length m : length (frame m) = (4 + length m)%nat.
Proof. unfold frame. by rewrite length_app. Qed.

Lemma ntohl_htonl x : 0 ≤ x < 2 ^ 32 → ntohl_bytes (htonl_bytes x) = x.
Proof.
  intros Hx. unfold ntohl_bytes, htonl_bytes. cbn [foldl].
  change (2 ^ 24) with 16777216. change (2 ^ 16) with 65536. change (2 ^ 8) with 256.
  change (2 ^ 32) with 4294967296 in Hx. Z.to_euclidean_division_equations. lia.
Qed.

Lemma store_mid pre old post bs off :
  off = Z.of_nat (length pre) → length old = length bs →
  store_at (pre ++ old ++ post) off bs = Ret (pre ++ bs ++ post).
Proof.
  intros -> Ho. unfold store_at. rewrite decide_True by (rewrite !length_app; lia).
  rewrite Nat2Z.id, take_app_length. f_equal. f_equal. f_equal.
  rewrite <-drop_drop, drop_app_length. rewrite <-Ho. apply drop_app_length.
Qed.

Lemma store_out b off bs :
  Z.of_nat (length b) < off + Z.of_nat (length bs) → store_at b off bs = Fault OutOfBounds.
Proof. intros H. unfold store_at. by rewrite decide_False by lia. Qed.

(** [strcmp] with a literal on a block without a zero. *)
Lemma strcmp_run l m :
  no_nul l → no_nul m →
  strcmp_eq (l ++ [0]) m = if prefix_of m l then Fault OutOfBounds else Ret false.
Proof.
  unfold no_nul. revert m. induction l as [|c l IH]; intros m Hl Hm.
  { destruct m as [|c' m]; [done|]. cbn [app strcmp_eq prefix_of].
    apply not_elem_of_cons in Hm as [Hc _]. by rewrite (proj2 (Z.eqb_neq 0 c')). }
  destruct m as [|c' m]; [done|]. cbn [app strcmp_eq prefix_of].
  apply not_elem_of_cons in Hl as [_ Hl]. apply not_elem_of_cons in Hm as [_ Hm].
  rewrite (Z.eqb_sym c' c). destruct (c =? c'); [by apply IH|done].
Qed.

(** ** The client *)

(** What [strcmp] finds to be the start of the exit command. *)
Definition exit_start (m : list Z) : bool := prefix_of m [101; 120; 105; 116].

(** The whole of a round, by what [fgets] gave: the last byte is taken for a line
    end. *)
Lemma client_turn_run stdin m c rest :
  fgets (Z.to_nat (INPUT_BUFF_CHUNK - header_size - 1)) stdin = (m ++ [c], rest) →
  no_nul m → c ≠ 0 → Z.of_nat (length m) < INPUT_BUFF_CHUNK - header_size - 1 →
  client_turn stdin = if exit_start m then Fault OutOfBounds else Ret (TSend (frame m), rest).
Proof.
  intros Hf Hm Hc Hl. unfold client_turn. rewrite Hf. cbv zeta.
  assert (stdin ≠ []) as Hne by (intros ->; vm_compute in Hf; destruct m; done).
  destruct stdin as [|c0 stdin]; [done|]. clear Hf Hne.
  assert (∃ k, replicate (Z.to_nat (header_size + INPUT_BUFF_CHUNK)) 0 =
    replicate 4 0 ++ replicate (length ((m ++ [c]) ++ [0])) 0 ++ replicate k 0) as [k ->].
  { eexists. rewrite <-!replicate_add. f_equal.
    instantiate (1 := Z.to_nat (INPUT_BUFF_CHUNK - Z.of_nat (length m) - 2)).
    rewrite !length_app. unfold INPUT_BUFF_CHUNK, header_size in *. simpl length. lia. }
  rewrite store_mid, outcome_ret_bind by (done || by rewrite length_replicate).
  change (Z.to_nat header_size) with 4%nat. rewrite (drop_app_length' _ _ 4) by done.
  assert (strlen (((m ++ [c]) ++ [0]) ++ replicate k 0) = Ret (Z.of_nat (length m) + 1)) as ->.
  { unfold strlen. rewrite <-app_assoc. cbn [app]. rewrite cstr_run.
    - rewrite outcome_ret_bind, length_app. f_equal. simpl. lia.
    - apply not_elem_of_app. split; [done|]. apply not_elem_of_cons. auto using not_elem_of_nil. }
  rewrite outcome_ret_bind.
  replace (header_size + (Z.of_nat (length m) + 1) - 1) with (Z.of_nat (4 + length m))
    by (unfold header_size; lia).
  assert (∀ x, replicate 4 0 ++ ((m ++ [x]) ++ [0]) ++ replicate k 0 =
    (replicate 4 0 ++ m) ++ x :: 0 :: replicate k 0) as Hx by (intros; by rewrite <-!app_assoc).
  rewrite Hx, awrite_mid, outcome_ret_bind by (rewrite length_app, length_replicate; done).
  rewrite Nat2Z.id, (take_app_length' _ _ (4 + length m)) by (rewrite length_app, length_replicate; done).
  rewrite (drop_app_length' _ _ 4) by done.
  change CLIENT_EXIT with ([101; 120; 105; 116] ++ [0]).
  rewrite strcmp_run by (done || by apply (bool_decide_unpack (0 ∉ [101; 120; 105; 116]))).
  fold (exit_start m). destruct (exit_start m); [done|]. rewrite outcome_ret_bind.
  rewrite (store_mid [] (replicate 4 0) m) by done. rewrite outcome_ret_bind. unfold frame.
  replace (u32 _) with (Z.of_nat (length m)); [done|].
  unfold header_size, INPUT_BUFF_CHUNK, wrap in *. rewrite Z.mod_small; lia.
Qed.

Lemma fgets_line n m rest :
  newline ∉ m → (length m < n)%nat → fgets n (m ++ newline :: rest) = (m ++ [newline], rest).
Proof.
  revert n. induction m as [|c m IH]; intros [|n] Hm Hl; simpl in Hl; try lia; [done|].
  apply not_elem_of_cons in Hm as [Hc Hm]. cbn [app fgets].
  rewrite (proj2 (Z.eqb_neq c newline)) by congruence. by rewrite IH by (done || lia).
Qed.

Lemma fgets_full n l rest :
  newline ∉ l → length l = n → fgets n (l ++ rest) = (l, rest).
Proof.
  intros Hl <-. induction l as [|c l IH]; [done|].
  apply not_elem_of_cons in Hl as [Hc Hl]. cbn [app length fgets].
  rewrite (proj2 (Z.eqb_neq c newline)) by congruence. by rewrite IH.
Qed.

(** A line the client can send. *)
Definition line_ok (m : list Z) : Prop :=
  no_nul m ∧ newline ∉ m ∧ Z.of_nat (length m) < INPUT_BUFF_CHUNK - header_size - 1 ∧
  exit_start m = false.

(** Lines as they are typed. *)
Definition typed (lines : list (list Z)) : list Z := concat ((fun m => m ++ [newline]) <$> lines).

Lemma client_line m rest :
  no_nul m → newline ∉ m → Z.of_nat (length m) < INPUT_BUFF_CHUNK - header_size - 1 →
  client_turn (m ++ newline :: rest) =
    if exit_start m then Fault OutOfBounds else Ret (TSend (frame m), rest).
Proof.
  intros Hn Hm Hl. apply (client_turn_run _ m newline rest); [|done|done|done].
  apply fgets_line; [done|]. lia.
Qed.

Lemma client_loop_run lines wr k fuel last :
  Forall line_ok lines → (∀ k n, n ≤ wr k n) → client_turn last = Fault OutOfBounds →
  (length lines < fuel)%nat →
  client_loop fuel wr k (typed lines ++ last) = (frame <$> lines, Fault OutOfBounds).
Proof.
  intros Hl Hwr Hlast. revert k fuel. induction Hl as [|m lines (Hn & Hm & Hlen & He) _ IH];
    intros k [|fuel] Hf; try (simpl in Hf; lia).
  { cbn [client_loop typed fmap list_fmap concat app]. by rewrite Hlast. }
  cbn [client_loop typed fmap list_fmap concat]. fold (typed lines). rewrite <-!app_assoc.
  cbn [app]. rewrite client_line, He by done. cbv zeta.
  pose proof (Hwr k (Z.of_nat (length (frame m)))) as Hw.
  pose proof (frame_length m) as Hfl. rewrite (proj2 (Z.leb_gt _ _)) by lia.
  rewrite IH by (simpl in Hf; lia). by rewrite take_ge by lia.
Qed.

(** ** The server *)

Section serving.
Context (hz bz : nat -> Z) (junk : nat -> Z).

Lemma read_head_whole h rest k rhead fuel :
  4 ≤ hz k → length h = 4%nat → length rhead = 4%nat → (1 < fuel)%nat →
  read_head hz fuel 0 rhead (mkConn (h ++ rest) k) = Ret (Some h, mkConn rest (S k)).
Proof.
  intros Hz Hh Hr Hf. destruct fuel as [|[|fuel]]; [lia|lia|].
  cbn [read_head]. change (0 <? 4) with true. cbn iota. unfold sock_read. cbn [bytes reads].
  replace (Z.to_nat _) with (length h) by lia. rewrite take_app_length, drop_app_length.
  destruct h as [|b h]; [done|]. pose proof (store_mid [] rhead [] (b :: h) 0) as Hs.
  rewrite !app_nil_r in Hs. rewrite Z.mul_0_r. cbn [app] in Hs.
  rewrite Hs, outcome_ret_bind by (done || lia). rewrite Hh. done.
Qed.

(** The end of the connection. *)
Lemma read_head_end k rhead fuel :
  (0 < fuel)%nat → ∃ k', read_head hz fuel 0 rhead (mkConn [] k) = Ret (None, mkConn [] k').
Proof.
  intros Hf. destruct fuel as [|fuel]; [lia|]. cbn [read_head]. unfold sock_read.
  cbn [bytes reads]. rewrite take_nil, drop_nil. by eexists.
Qed.

(** However it is divided, the line is put together. *)
Lemma read_body_run m fuel pre old post rest k vr len :
  (∀ k, 0 < bz k) → length old = length m → vr = Z.of_nat (length pre) →
  len = vr + Z.of_nat (length m) → (length m < fuel)%nat →
  ∃ k', read_body bz fuel vr len (pre ++ old ++ post) (mkConn (m ++ rest) k) =
    Ret (Some (pre ++ m ++ post), mkConn rest k').
Proof.
  intros Hz. revert m pre old k vr. induction fuel as [|fuel IH];
    intros m pre old k vr Ho Hv Hlen Hf; [lia|].
  cbn [read_body]. destruct (Z.ltb_spec vr len) as [Hlt|Hge].
  - unfold sock_read. cbn [bytes reads]. pose proof (Hz k) as Hk.
    set (n := Z.to_nat (Z.min (bz k) (len - vr))).
    assert (0 < n ≤ length m)%nat as Hn by lia.
    rewrite <-(take_drop n m), <-app_assoc.
    rewrite (take_app_length' (take n m)), (drop_app_length' (take n m)) by (rewrite length_take; lia).
    destruct (take n m) as [|b bs] eqn:E;
      [apply (f_equal length) in E; rewrite length_take in E; simpl in E; lia|].
    rewrite <-E. pose proof (store_mid pre (take n old) (drop n old ++ post) (take n m) vr) as Hs.
    rewrite (app_assoc (take n old)), take_drop in Hs.
    rewrite Hs, outcome_ret_bind by (done || rewrite !length_take; lia).
    destruct (IH (drop n m) (pre ++ take n m) (drop n old) (S k)
      (vr + Z.of_nat (length (take n m)))) as [k' E'].
    + rewrite !length_drop. lia.
    + rewrite length_app. lia.
    + rewrite length_take, length_drop. lia.
    + rewrite length_drop. lia.
    + rewrite <-!app_assoc in E'. exists k'. by rewrite <-app_assoc.
  - assert (m = []) as -> by (apply nil_length_inv; lia).
    assert (old = []) as -> by (by apply nil_length_inv). by eexists.
Qed.

Lemma serve_frame_run m rest k rhead :
  (∀ k, 4 ≤ hz k) → (∀ k, 0 < bz k) → no_nul m → Z.of_nat (length m) + 1 < 2 ^ 32 →
  length rhead = 4%nat →
  ∃ k', serve_frame hz bz junk rhead (mkConn (frame m ++ rest) k) =
    Ret (Some (m, htonl_bytes (Z.of_nat (length m))), mkConn rest k').
Proof.
  intros Hh Hb Hm Hl Hr. unfold serve_frame. cbn [bytes]. unfold frame at 2.
  rewrite <-app_assoc.
  rewrite read_head_whole by (done || rewrite length_app, frame_length; lia).
  rewrite outcome_ret_bind, ntohl_htonl by lia. cbv zeta. unfold wrap.
  rewrite Z.mod_small by lia. cbn [bytes].
  assert (∃ old x, malloc junk (Z.of_nat (length m) + 1) = old ++ [x] ∧ length old = length m)
    as (old & x & -> & Ho).
  { unfold malloc. rewrite Z2Nat.inj_add, Nat2Z.id by lia. change (Z.to_nat 1) with 1%nat.
    rewrite seq_app, fmap_app. eexists _, _. split; [done|]. by rewrite length_fmap, length_seq. }
  rewrite awrite_mid, outcome_ret_bind by lia.
  destruct (read_body_run m (S (length (m ++ rest))) [] old [0] rest (S k) 0
    (Z.of_nat (length m))) as [k' E]; [done|done|done|lia|rewrite length_app; lia|].
  cbn [app] in E. rewrite E, outcome_ret_bind, cstr_run by done.
  by exists k'.
Qed.

Lemma serve_loop_run lines k rhead fuel :
  (∀ k, 4 ≤ hz k) → (∀ k, 0 < bz k) →
  Forall (fun m => no_nul m ∧ Z.of_nat (length m) + 1 < 2 ^ 32) lines →
  length rhead = 4%nat → (length lines < fuel)%nat →
  serve_loop hz bz junk fuel rhead (mkConn (concat (frame <$> lines)) k) = Ret lines.
Proof.
  intros Hh Hb Hl. revert k rhead fuel.
  induction Hl as [|m lines [Hm Hlen] _ IH]; intros k rhead [|fuel] Hr Hf; try (simpl in Hf; lia).
  - cbn [serve_loop fmap list_fmap concat]. unfold serve_frame. cbn [bytes].
    destruct (read_head_end k rhead (S (length (@nil Z)))) as [k' ->]; [lia|done].
  - cbn [serve_loop fmap list_fmap concat].
    destruct (serve_frame_run m (concat (frame <$> lines)) k rhead) as [k' ->]; [done..|].
    rewrite outcome_ret_bind, IH by (done || simpl in Hf; lia). done.
Qed.
End serving.

Lemma frames_length lines : (length lines ≤ length (concat (frame <$> lines)))%nat.
Proof.
  induction lines as [|m lines IH]; [done|]. cbn [fmap list_fmap concat].
  rewrite length_app, frame_length. simpl. lia.
Qed.

Lemma typed_length lines : (length lines ≤ length (typed lines))%nat.
Proof.
  unfold typed. induction lines as [|m lines IH]; [done|]. cbn [fmap list_fmap concat].
  rewrite !length_app. simpl. lia.
Qed.

(** ** What client and server do together *)

(** C13. The lines the client can send arrive. They have less than 8187 bytes, none of
    them zero or a newline, and are no beginning of the exit command, so not empty; every
    write takes all it is given. The server prints them in order and unchanged, whatever
    pieces the network makes of them, as long as the four bytes of a length stay together.
    A line that is a beginning of the exit command, an empty one or the command itself,
    ends the client: it is compared with bytes behind its block. *)
Theorem ncat_delivers hz bz junk wr lines last rest :
  Forall line_ok lines → (∀ k n, n ≤ wr k n) → (∀ k, 4 ≤ hz k) → (∀ k, 0 < bz k) →
  exit_start last = true →
  let '(sent, ended) := NCAT_client wr (typed lines ++ last ++ newline :: rest) in
  serve hz bz junk (concat sent) = Ret lines ∧ ended = Fault OutOfBounds.
Proof.
  intros Hl Hwr Hh Hb He. unfold NCAT_client.
  assert (client_turn (last ++ newline :: rest) = Fault OutOfBounds) as Hlast.
  { pose proof He as [s Hs]%prefix_of_spec.
    assert (0 ∉ last ++ s ∧ newline ∉ last ++ s) as [Hn0 Hn1]
      by (rewrite <-Hs; by apply (bool_decide_unpack (0 ∉ _ ∧ newline ∉ _))).
    apply not_elem_of_app in Hn0 as [Hn0 _]. apply not_elem_of_app in Hn1 as [Hn1 _].
    rewrite client_line, He; [done..|]. apply (f_equal length) in Hs.
    rewrite length_app in Hs. unfold INPUT_BUFF_CHUNK, header_size. simpl in Hs. lia. }
  rewrite client_loop_run; [|done|done|done|rewrite length_app; pose proof (typed_length lines); lia].
  split; [|done]. unfold serve. apply serve_loop_run; [done|done| |done|].
  - eapply Forall_impl; [exact Hl|]. intros m (Hm & _ & Hlen & _). split; [done|].
    unfold INPUT_BUFF_CHUNK, header_size in Hlen. lia.
  - pose proof (frames_length lines). lia.
Qed.

(** Two lines and the exit command, over a network that gives one byte at a time. *)
Lemma ncat_delivers_witness :
  let '(sent, ended) :=
    NCAT_client (fun _ n => n) ([104; 105; 10; 120; 10; 101; 120; 105; 116; 10]) in
  serve (fun _ => 4) (fun _ => 1) (fun _ => 170) (concat sent) = Ret [[104; 105]; [120]] ∧
  ended = Fault OutOfBounds.
Proof.
  apply (ncat_delivers (fun _ => 4) (fun _ => 1) (fun _ => 170) (fun _ n => n)
    [[104; 105]; [120]] [101; 120; 105; 116] []).
  - repeat (apply Forall_cons; split); [| |by apply Forall_nil].
    + split_and!; [by apply (bool_decide_unpack (0 ∉ [104; 105]))|
        by apply (bool_decide_unpack (newline ∉ [104; 105]))|done|done].
    + split_and!; [by apply (bool_decide_unpack (0 ∉ [120]))|
        by apply (bool_decide_unpack (newline ∉ [120]))|done|done].
  - intros. lia.
  - intros. lia.
  - intros. lia.
  - done.
Defined.

(** A length that arrives in two pieces is stored behind the variable it belongs to,
    since the pointer moves by whole integers. *)
Theorem divided_length_overruns hz bz junk rhead b1 b2 bs k :
  hz k = 1 → 0 < hz (S k) → length rhead = 4%nat →
  serve_frame hz bz junk rhead (mkConn (b1 :: b2 :: bs) k) = Fault OutOfBounds.
Proof.
  intros H1 H2 Hr. unfold serve_frame. cbn [bytes length]. cbn [read_head].
  change (0 <? 4) with true. cbn iota. unfold sock_read. cbn [bytes reads]. rewrite H1.
  change (Z.to_nat (1 `min` (4 - 0))) with 1%nat. cbn [take drop].
  pose proof (store_mid [] (take 1 rhead) (drop 1 rhead) [b1] 0) as Hs. cbn [app] in Hs.
  rewrite take_drop in Hs. rewrite Z.mul_0_r, Hs by (done || by rewrite length_take, Hr).
  rewrite outcome_ret_bind. cbn [length]. change (0 + Z.of_nat 1 <? 4) with true. cbn iota.
  cbn [bytes reads]. destruct (Z.to_nat (hz (S k) `min` (4 - (0 + Z.of_nat 1)))) as [|n] eqn:En; [lia|].
  cbn [take]. rewrite store_out; [done|]. cbn [length]. rewrite length_drop. lia.
Qed.

Lemma divided_length_overruns_witness :
  serve_frame (fun _ => 1) (fun _ => 1) (fun _ => 0) [0; 0; 0; 0] (mkConn [0; 0; 0; 1; 65] 0) =
    Fault OutOfBounds.
Proof. by apply (divided_length_overruns (fun _ => 1) (fun _ => 1) (fun _ => 0)). Defined.

(** A line without an end within [INPUT_BUFF_CHUNK] bytes is sent in pieces, and every
    piece loses its last character. *)
Theorem long_line_cut l rest :
  no_nul l → newline ∉ l → Z.of_nat (length l) = INPUT_BUFF_CHUNK - header_size - 1 →
  exit_start (removelast l) = false →
  client_turn (l ++ rest) = Ret (TSend (frame (removelast l)), rest).
Proof.
  intros Hn Hm Hl He. destruct (decide (l = [])) as [->|Hne]; [done|].
  pose proof (app_removelast_last 0 Hne) as El.
  assert (0 ∉ removelast l ++ [List.last l 0]) as Hn' by (by rewrite <-El).
  apply not_elem_of_app in Hn' as [Hn1 Hn2].
  rewrite (client_turn_run _ (removelast l) (List.last l 0) rest), He; [done| |done| |].
  - rewrite <-El. apply fgets_full; [done|lia].
  - intros E. apply Hn2. rewrite E. apply list_elem_of_here.
  - apply (f_equal length) in El. rewrite length_app in El. simpl in El. lia.
Qed.

(** At the end of the input the block is made shorter than the length that is stored
    into it. *)
Theorem input_end_overruns : client_turn [] = Fault OutOfBounds.
Proof. vm_compute. reflexivity. Qed.

(** A length of 2^32 - 1 gives a block of no bytes. *)
Theorem huge_length_overruns hz bz junk rest k rhead :
  4 ≤ hz k → length rhead = 4%nat →
  serve_frame hz bz junk rhead (mkConn ([255; 255; 255; 255] ++ rest) k) = Fault OutOfBounds.
Proof.
  intros Hz Hr. unfold serve_frame. rewrite read_head_whole by (done || simpl; lia).
  rewrite outcome_ret_bind. cbv zeta.
  change (u32 (ntohl_bytes [255; 255; 255; 255] + 1)) with 0. unfold malloc. cbn [Z.to_nat seq fmap list_fmap].
  by rewrite awrite_past by done.
Qed.

(** The client prints the text of a server from a block without a zero. *)
Theorem served_text_overread hz bz junk s k :
  (∀ k, 4 ≤ hz k) → (∀ k, 0 < bz k) → no_nul s → Z.of_nat (length s) < 2 ^ 32 →
  client_frame hz bz junk (mkConn (frame s) k) = Fault OutOfBounds.
Proof.
  intros Hh Hb Hs Hl. unfold client_frame. cbn [bytes]. unfold frame at 2.
  rewrite read_head_whole by (done || rewrite frame_length; lia).
  rewrite outcome_ret_bind, ntohl_htonl by lia. cbv zeta. cbn [bytes].
  destruct (read_body_run bz s (S (length s)) [] (malloc junk (Z.of_nat (length s))) [] [] (S k) 0
    (Z.of_nat (length s))) as [k' E]; [done| |done|lia|lia|].
  { unfold malloc. by rewrite length_fmap, length_seq, Nat2Z.id. }
  rewrite !app_nil_r in E. cbn [app] in E. rewrite E, outcome_ret_bind.
  by rewrite cstr_overrun by done.
Qed.

(** ** Loading the text *)

Section loading.
Context (junk : Z -> Z) (input0 : list Z).

(** The block of the text: the bytes read so far, in a block that has room for one
    more; the first block was cleared. *)
Definition text_block (h : gmap loc (list Z)) (p : ptr) (read : list Z) (chunk : Z) : Prop :=
  ∃ x b rest, p = Some x ∧ h = {[x := read ++ b :: rest]} ∧
    Z.of_nat (length (read ++ b :: rest)) = INPUT_BUFF_CHUNK * chunk ∧
    INPUT_BUFF_CHUNK * (chunk - 1) ≤ Z.of_nat (length read) ∧
    (chunk = 1 → Forall (eq 0) (b :: rest)).

(** The loop has its block, or the program has freed it. *)
Definition listener_inv (s : listener) : Prop :=
  ∃ read, input0 = read ++ input s ∧
  match l_at s with
  | LStart => read = [] ∧ serve_content s = None ∧ blocks s = ∅
  | LLoop base content_len chunk =>
    content_len = Z.of_nat (length read) ∧
    ((base = serve_content s ∧ text_block (blocks s) base read chunk) ∨
     (serve_content s = None ∧ r_at s = RServe ∧ blocks s = ∅ ∧ is_Some base))
  | LDone =>
    next_char (input s) = None ∧
    (serve_content s = None ∨ ∃ chunk, text_block (blocks s) (serve_content s) read chunk)
  end.

Lemma text_block_start x :
  text_block {[x := replicate (Z.to_nat INPUT_BUFF_CHUNK) 0]} (Some x) [] 1.
Proof.
  exists x, 0, (replicate 8191 0). split_and!; [done|done|done|done|].
  intros _. apply Forall_cons. split; [done|]. by apply Forall_replicate.
Qed.

(** A byte is stored, and the block grows when it is full. *)
Lemma loader_store s base read chunk c cs :
  l_at s = LLoop base (Z.of_nat (length read)) chunk → base = serve_content s →
  text_block (blocks s) base read chunk → next_char (input s) = Some (c, cs) →
  ∃ h p chunk', loader_step junk s = Some (Ret (mkListener h p (signalled s)
      (LLoop p (Z.of_nat (length read) + 1) chunk') (r_at s) cs)) ∧
    text_block h p (read ++ [c]) chunk'.
Proof.
  intros Hat -> (x & b & rest & Hp & Hh & Hlen & Hlo & Hz) Hn. unfold loader_step.
  rewrite Hat, Hn, Hp, Hh.
  rewrite (hread_Some _ _ (read ++ b :: rest)), outcome_ret_bind by apply lookup_singleton_eq.
  rewrite awrite_mid, outcome_ret_bind by done.
  rewrite (hwrite_Some _ _ (read ++ b :: rest)), outcome_ret_bind by apply lookup_singleton_eq.
  rewrite insert_singleton_eq. cbv zeta. rewrite length_app in Hlen. cbn [length] in Hlen.
  destruct (Z.eqb_spec (Z.of_nat (length read) + 1) (INPUT_BUFF_CHUNK * chunk)) as [E|E].
  - rewrite (hread_Some _ _ (read ++ c :: rest)), outcome_ret_bind by apply lookup_singleton_eq.
    rewrite (hfree_Some _ _ (read ++ c :: rest)), outcome_ret_bind by apply lookup_singleton_eq.
    rewrite delete_singleton_eq, insert_empty.
    assert (rest = []) as -> by (apply nil_length_inv; lia).
    eexists _, _, (chunk + 1). split; [done|].
    destruct (junk <$> seqZ _ _) as [|b' rest'] eqn:Ej.
    { apply (f_equal length) in Ej. rewrite length_fmap, length_seqZ in Ej. done. }
    apply (f_equal length) in Ej. rewrite length_fmap, length_seqZ in Ej.
    exists (hfresh (∅ : gmap loc (list Z))), b', rest'. split_and!; [done|done| | |].
    + rewrite length_app, <-Ej, length_app. cbn [length]. unfold INPUT_BUFF_CHUNK in *. lia.
    + rewrite length_app. cbn [length]. lia.
    + unfold INPUT_BUFF_CHUNK in *. lia.
  - destruct rest as [|b' rest']; [simpl in Hlen; lia|].
    eexists _, _, chunk. split; [done|]. exists x, b', rest'. split_and!; [done| | | |].
    + by rewrite <-app_assoc.
    + rewrite !length_app. simpl in *. lia.
    + rewrite length_app. lia.
    + intros H1. specialize (Hz H1). by apply Forall_cons in Hz as [_ ?].
Qed.

Lemma next_char_Some bs c cs : next_char bs = Some (c, cs) → bs = c :: cs.
Proof. destruct bs as [|c' bs]; [done|]. cbn [next_char]. destruct (c' =? 255); naive_solver. Qed.

Lemma loader_inv s s' :
  listener_inv s → loader_step junk s = Some (Ret s') → listener_inv s'.
Proof.
  intros (read & Hin & Hl) Hs. destruct (l_at s) as [|base len chunk|] eqn:Hat.
  - destruct Hl as (-> & Hsc & Hb). unfold loader_step in Hs. rewrite Hat, Hb in Hs.
    injection Hs as <-. exists []. cbn [input l_at blocks serve_content]. split; [done|].
    split; [done|]. left. split; [done|]. rewrite insert_empty. apply text_block_start.
  - destruct Hl as [-> Hl]. destruct (next_char (input s)) as [[c cs]|] eqn:Hn.
    + destruct Hl as [[Hbase Ht]|(_ & _ & Hb & [x ->])].
      * destruct (loader_store s base read chunk c cs Hat Hbase Ht Hn) as (h & p & k & E & Ht').
        rewrite E in Hs. injection Hs as <-. exists (read ++ [c]).
        cbn [input l_at blocks serve_content]. rewrite <-app_assoc, length_app.
        rewrite Hin, (next_char_Some _ _ _ Hn). split; [done|]. split; [simpl; lia|by left].
      * unfold loader_step in Hs. rewrite Hat, Hn, Hb in Hs. done.
    + unfold loader_step in Hs. rewrite Hat, Hn in Hs. injection Hs as <-. exists read.
      cbn [input l_at blocks serve_content]. split; [done|]. split; [done|].
      destruct Hl as [[<- Ht]|(Hsc & _)]; eauto.
  - unfold loader_step in Hs. by rewrite Hat in Hs.
Qed.

Lemma runner_inv s s' : listener_inv s → runner_step s = Some (Ret s') → listener_inv s'.
Proof.
  intros (read & Hin & Hl) Hs. unfold runner_step in Hs. destruct (r_at s) as [polls|] eqn:Hr; [|done].
  destruct polls as [|polls].
  - destruct (l_at s) as [|base len chunk|] eqn:Hat.
    + destruct Hl as (-> & Hsc & Hb). rewrite Hsc, Hb in Hs. injection Hs as <-.
      exists []. by split_and!.
    + destruct Hl as [-> [[-> (x & b & rest & Hx & Hh & Hrest)]|(_ & ? & _)]]; [|done].
      rewrite Hx, Hh in Hs. rewrite (hfree_Some _ _ (read ++ b :: rest)) in Hs by apply lookup_singleton_eq.
      rewrite delete_singleton_eq in Hs. injection Hs as <-. exists read.
      cbn [input l_at blocks serve_content r_at]. split; [done|]. split; [done|]. right.
      by split_and!.
    + destruct Hl as (Hn & Hl). destruct (hfree _ _) as [h|] in Hs; [|done].
      injection Hs as <-. exists read. cbn [input l_at blocks serve_content]. auto.
  - injection Hs as <-. exists read. cbn [input l_at blocks serve_content r_at].
    split; [done|]. destruct (l_at s); [done| |done]. destruct Hl as [-> [Hl|(_ & ? & _)]]; [|done].
    split; [done|by left].
Qed.

Lemma listener_reach_inv s : listener_reach junk input0 s → listener_inv s.
Proof.
  induction 1 as [|s s' _ IH Hs|s s' _ IH Hs].
  - by exists [].
  - by eapply loader_inv.
  - by eapply runner_inv.
Qed.
End loading.

(** While the program waits the loading thread stays in its block; and the text that is
    there when the thread has ended is the input, sent to each client as one frame,
    when it is shorter than a chunk. *)
Theorem text_loaded junk input0 s :
  listener_reach junk input0 s → Forall (fun c => c ≠ 255 ∧ c ≠ 0) input0 →
  (∀ polls o, r_at s = RWait polls → loader_step junk s = Some o → ∃ s', o = Ret s') ∧
  (∀ x, l_at s = LDone → serve_content s = Some x → Z.of_nat (length input0) < INPUT_BUFF_CHUNK →
    ∃ b, blocks s !! x = Some b ∧ send_content b = Ret (frame input0)).
Proof.
  intros Hs Hc. apply listener_reach_inv in Hs as (read & Hin & Hl). split.
  - intros polls o Hr Ho. destruct (l_at s) as [|base len chunk|] eqn:Hat.
    + unfold loader_step in Ho. rewrite Hat in Ho. injection Ho as <-. by eexists.
    + destruct Hl as [-> [[Hb Ht]|(_ & ? & _)]]; [|congruence].
      destruct (next_char (input s)) as [[c cs]|] eqn:Hn.
      * destruct (loader_store junk s base read chunk c cs Hat Hb Ht Hn) as (h & p & k & E & _).
        rewrite E in Ho. injection Ho as <-. by eexists.
      * unfold loader_step in Ho. rewrite Hat, Hn in Ho. injection Ho as <-. by eexists.
    + unfold loader_step in Ho. by rewrite Hat in Ho.
  - intros x Hat Hx Hlen. rewrite Hat, Hx in Hl.
    destruct Hl as (Hn & [?|(chunk & x' & b & rest & [= <-] & Hh & Hl & Hlo & Hz)]); [done|].
    assert (input s = []) as Ein.
    { destruct (input s) as [|c cs]; [done|]. subst input0. apply Forall_app in Hc as [_ Hc].
      apply Forall_cons in Hc as [[Hc _] _]. cbn [next_char] in Hn. by rewrite (proj2 (Z.eqb_neq c 255)) in Hn. }
    rewrite Ein, app_nil_r in Hin. subst read. exists (input0 ++ b :: rest).
    split; [rewrite Hh; apply lookup_singleton_eq|].
    assert (chunk = 1) as Hc1 by (rewrite length_app in Hl; simpl in Hl; unfold INPUT_BUFF_CHUNK in *; lia).
    apply Hz, Forall_cons in Hc1 as [<- _]. unfold send_content. rewrite cstr_run, outcome_ret_bind.
    + unfold frame, wrap. rewrite Z.mod_small; [done|]. unfold INPUT_BUFF_CHUNK in Hlen. lia.
    + intros H0. rewrite Forall_forall in Hc. by destruct (Hc 0 H0).
Qed.

(** The steps of a schedule: [true] is the loading thread. *)
Fixpoint run_listener (junk : Z -> Z) (sched : list bool) (s : listener) : listener :=
  match sched with
  | [] => s
  | b :: sched =>
    match (if b : bool then loader_step junk s else runner_step s) with
    | Some (Ret s') => run_listener junk sched s'
    | _ => s
    end
  end.

Lemma run_listener_reach junk input0 sched s :
  listener_reach junk input0 s → listener_reach junk input0 (run_listener junk sched s).
Proof.
  revert s. induction sched as [|b sched IH]; intros s Hs; [done|]. cbn [run_listener].
  destruct b.
  - destruct (loader_step junk s) as [[s'|]|] eqn:E; [|done|done]. apply IH. by eapply lr_load.
  - destruct (runner_step s) as [[s'|]|] eqn:E; [|done|done]. apply IH. by eapply lr_run.
Qed.

(** The thread loads two bytes and gives the signal in time. *)
Lemma text_loaded_witness :
  let s := run_listener (fun _ => 7) [true; false; true; true; true; false]
             (listener_init [72; 105]) in
  r_at s = RServe ∧ ∃ b, blocks s !! 1%positive = Some b ∧ send_content b = Ret (frame [72; 105]).
Proof.
  split; [vm_compute; reflexivity|].
  apply (text_loaded (fun _ => 7) [72; 105]).
  - apply run_listener_reach, lr_init.
  - by apply (bool_decide_unpack (Forall (fun c => c ≠ 255 ∧ c ≠ 0) [72; 105])).
  - vm_compute. reflexivity.
  - vm_compute. reflexivity.
  - done.
Defined.

(** A thread that has not ended when the program has waited writes to freed memory. *)
Theorem slow_text_dangles junk c cs :
  c ≠ 255 →
  ∃ s, listener_reach junk (c :: cs) s ∧ loader_step junk s = Some (Fault Dangling).
Proof.
  intros Hc. exists (run_listener junk [true; false; false; false; false] (listener_init (c :: cs))).
  split; [apply run_listener_reach, lr_init|].
  assert (run_listener junk [true; false; false; false; false] (listener_init (c :: cs)) =
    mkListener ∅ None false (LLoop (Some 1%positive) 0 1) RServe (c :: cs)) as ->
    by (vm_compute; reflexivity).
  unfold loader_step. cbn [l_at input next_char]. by rewrite (proj2 (Z.eqb_neq c 255)).
Qed.

(** The arguments: the last two are host and port, and one of the others can ask for
    the server. *)
Theorem parse_args_spec argv :
  match NCAT_parse_args argv with
  | None => (length argv < 2)%nat
  | Some o => ∃ flags, argv = flags ++ [host o; port o] ∧
      mode_client o = negb (mode_listen o) ∧
      (mode_listen o = true ↔ ∃ a, a ∈ flags ∧ a ∈ listen_flags)
  end.
Proof.
  unfold NCAT_parse_args. destruct (Nat.ltb_spec (length argv) 2) as [Hl|Hl]; [done|].
  set (n := (length argv - 2)%nat).
  destruct (lookup_lt_is_Some_2 argv n) as [h Eh]; [lia|].
  destruct (lookup_lt_is_Some_2 argv (S n)) as [p Ep]; [lia|].
  rewrite Eh, Ep. cbn [mbind option_bind host port mode_client mode_listen].
  exists (take n argv). split_and!; [|done|].
  - rewrite <-(take_drop n argv) at 1. f_equal. rewrite (drop_S argv h n Eh), (drop_S argv p (S n) Ep).
    by rewrite drop_ge by lia.
  - rewrite existsb_exists. split.
    + intros (a & Ha & Hf). exists a. split; [by apply list_elem_of_In|by apply bool_decide_eq_true in Hf].
    + intros (a & Ha & Hf). exists a. split; [by apply list_elem_of_In|by apply bool_decide_eq_true].
Qed.
